(** * The CDB converter (cdb_converter.js): a shallow embedding and its properties

    Part I embeds the converter: JavaScript numbers that the code keeps
    integral are [Z] with the 32-bit wrap-around written out, typed arrays
    are [list Z] of bytes, JavaScript strings are lists of code points, and a
    thrown exception is the [Err] branch of [Result].
    Part II states and proves the properties.  Part III adds properties
    of the writer, of the reader and of the two converters, and of the file
    names of db_file_handler.js. *)

From Stdlib Require Import ZArith List Bool Lia Permutation.
From Stdlib Require String Ascii.
Import ListNotations.
Import String.StringSyntax.
Open Scope Z_scope.

(* ================================================================== *)
(** * Part I: the embedding *)
(* ================================================================== *)

(** ** Outcomes *)

(** What the code throws.  Two outcomes belong to the model only:
    [OutOfFuel], as the recursive reader is written with a fuel argument,
    and [Unmodelled], the answer for inputs whose treatment by the SQL
    engine or by a JavaScript coercion the embedding does not describe.
    The test [table.tableId === null] of cdbToSQLite never succeeds (an
    absent child is undefined, not null), so its error has no
    constructor. *)
Inductive Error : Type :=
| ReadPastEnd (pos : Z)              (* 'Read past end of file at position' *)
| UnknownChunkType (chunkType : Z)   (* 'Unknown chunk type: 0x..' *)
| UnknownDataType (dataType : option Z) (* 'Unknown data type: ..' *)
| NoDbStructure                      (* 'No DB_STRUCTURE table found' *)
| RangeError                         (* typed array or DataView out of bounds *)
| TypeError                          (* property access on undefined or null *)
| SqlError                           (* raised by the SQL engine *)
| BindError                          (* sql.js: value of an unknown type *)
| InflateError                       (* raised by pako.inflate *)
| Unmodelled                         (* input outside the embedding *)
| OutOfFuel.

Inductive Result (A : Type) : Type :=
| Ok (a : A)
| Err (e : Error).
Arguments Ok {A} a.
Arguments Err {A} e.

Definition bind {A B : Type} (r : Result A) (k : A -> Result B) : Result B :=
  match r with
  | Ok a => k a
  | Err e => Err e
  end.

Declare Scope result_scope.
Delimit Scope result_scope with result.
Notation "'let*' x ':=' r 'in' k" := (bind r (fun x => k))
  (at level 10, x pattern, r at level 100, k at level 200) : result_scope.
Open Scope result_scope.

(** ** JavaScript integer conversions *)

Definition two32 : Z := 4294967296.

Definition ToUint32 (v : Z) : Z := v mod two32.

Definition ToInt32 (v : Z) : Z :=
  let u := v mod two32 in
  if u <? 2147483648 then u else u - two32.

(** [a & b] on numbers holding integers. *)
Definition js_and (a b : Z) : Z :=
  ToInt32 (Z.land (ToUint32 a) (ToUint32 b)).

(** [a | 0]. *)
Definition js_or0 (a : Z) : Z := ToInt32 a.

(** ** Constants *)

Definition CHUNK_BEGIN : Z := 0xAAAAAAAA.
Definition CHUNK_SEPARATOR : Z := 0xBBBBBBBB.
Definition CHUNK_END : Z := 0xCCCCCCCC.
Definition ARRAY_BEGIN : Z := 0xDDDDDDDD.
Definition ARRAY_END : Z := 0xEEEEEEEE.

Definition WRAPPER : Z := 0x00.
Definition DATABASE_TABLES : Z := 0x01.
Definition DATABASE_FLAGS : Z := 0x02.
Definition TABLE : Z := 0x10.
Definition ROW_COUNT : Z := 0x11.
Definition COLUMN_DEFINITIONS : Z := 0x12.
Definition TABLE_ID : Z := 0x15.
Definition TABLE_FLAGS : Z := 0x16.
Definition COLUMN : Z := 0x20.
Definition COLUMN_DATA_TYPE : Z := 0x21.
Definition COLUMN_VALUES : Z := 0x22.
Definition COLUMN_BLOB_DATA : Z := 0x23.
Definition COLUMN_INDEX : Z := 0x24.

(** The DATA_TYPE object of the source has these five members only. *)
Definition INTEGER : Z := 0.
Definition FLOAT : Z := 1.
Definition STRING : Z := 2.
Definition FLOAT_LIST : Z := 10.
Definition INTEGER_LIST : Z := 11.

(** ** Metadata codec *)

(** cdbToSQLite:
    [(table.tableId * 256 + col.columnIndex) * 16 + (col.type & 0xF)]. *)
Definition encodedValue (tableId columnIndex type : Z) : Z :=
  (tableId * 256 + columnIndex) * 16 + js_and type 0xF.

(** sqliteToCDB: [encodedValue & 0xF]. *)
Definition cdbDataType (encoded : Z) : Z := js_and encoded 0xF.

(** sqliteToCDB: [Math.floor(encodedValue / 16) & 0xFF]. *)
Definition cdbColumnIndex (encoded : Z) : Z := js_and (encoded / 16) 0xFF.

(** CDB_FORMAT.md, decoding formula:
    [table_id = Math.floor(encoded_value / (256 * 16))].  The converter
    itself takes the table id from DB_STRUCTURE and never unpacks it. *)
Definition cdbTableId (encoded : Z) : Z := encoded / (256 * 16).

(** The annotation of the TableName column in
    [CREATE TABLE DB_STRUCTURE (TableName TEXT '274', ID INTEGER)]. *)
Definition DB_STRUCTURE_annotation : Z := 274.

(** ** Bytes and little-endian words *)

Definition byteAt (data : list Z) (p : Z) : Z :=
  if p <? 0 then 0 else nth (Z.to_nat p) data 0.

(** [DataView.getUint32(p, true)], for [p] in bounds. *)
Definition getUint32 (data : list Z) (p : Z) : Z :=
  byteAt data p + 256 * byteAt data (p + 1)
  + 65536 * byteAt data (p + 2) + 16777216 * byteAt data (p + 3).

Definition le32 (v : Z) : list Z :=
  let u := ToUint32 v in
  [u mod 256; (u / 256) mod 256; (u / 65536) mod 256; (u / 16777216) mod 256].

(** [Uint8Array.set(bytes, p)], for a run that fits. *)
Definition setBytes (buf : list Z) (p : Z) (bytes : list Z) : list Z :=
  firstn (Z.to_nat p) buf ++ bytes
  ++ skipn (Z.to_nat p + length bytes) buf.

(** [DataView.setUint32(p, v, true)], for [p] in bounds. *)
Definition setUint32 (buf : list Z) (p v : Z) : list Z :=
  setBytes buf p (le32 v).

Definition zlength {A : Type} (l : list A) : Z := Z.of_nat (length l).

(** A run of 32-bit words, and a run of zero bytes. *)
Definition words (ws : list Z) : list Z := flat_map le32 ws.

Definition zeros (n : Z) : list Z := repeat 0 (Z.to_nat n).

(** ** JavaScript strings *)

(** A string is the list of its code points.  [str] reads a literal. *)
Definition JSString : Type := list Z.

Fixpoint str (s : String.string) : JSString :=
  match s with
  | String.EmptyString => []
  | String.String c rest => Z.of_N (Ascii.N_of_ascii c) :: str rest
  end.
Arguments str s%_string_scope.

(** [TextEncoder.encode]: UTF-8; a lone surrogate is encoded as U+FFFD. *)
Definition utf8_encode_cp (cp : Z) : list Z :=
  if cp <? 0x80 then [cp]
  else if cp <? 0x800 then [0xC0 + cp / 64; 0x80 + cp mod 64]
  else if (0xD800 <=? cp) && (cp <=? 0xDFFF) then [0xEF; 0xBF; 0xBD]
  else if cp <? 0x10000 then
    [0xE0 + cp / 4096; 0x80 + (cp / 64) mod 64; 0x80 + cp mod 64]
  else
    [0xF0 + cp / 262144; 0x80 + (cp / 4096) mod 64;
     0x80 + (cp / 64) mod 64; 0x80 + cp mod 64].

Definition TextEncoder_encode (s : JSString) : list Z :=
  flat_map utf8_encode_cp s.

(** [TextDecoder.decode]: the UTF-8 decoder of the WHATWG Encoding standard,
    with replacement of malformed sequences and removal of a leading byte
    order mark.  The masks of the standard are written as subtractions. *)
Record Utf8State : Type := mkUtf8 {
  u_codePoint : Z; u_seen : Z; u_needed : Z; u_lower : Z; u_upper : Z
}.

Definition utf8_initial : Utf8State := mkUtf8 0 0 0 0x80 0xBF.

Definition utf8_lead (b : Z) : list Z * Utf8State :=
  if b <=? 0x7F then ([b], utf8_initial)
  else if (0xC2 <=? b) && (b <=? 0xDF) then
    ([], mkUtf8 (b - 0xC0) 0 1 0x80 0xBF)
  else if (0xE0 <=? b) && (b <=? 0xEF) then
    ([], mkUtf8 (b - 0xE0) 0 2
           (if b =? 0xE0 then 0xA0 else 0x80)
           (if b =? 0xED then 0x9F else 0xBF))
  else if (0xF0 <=? b) && (b <=? 0xF4) then
    ([], mkUtf8 (b - 0xF0) 0 3
           (if b =? 0xF0 then 0x90 else 0x80)
           (if b =? 0xF4 then 0x8F else 0xBF))
  else ([0xFFFD], utf8_initial).

Definition utf8_step (st : Utf8State) (b : Z) : list Z * Utf8State :=
  if u_needed st =? 0 then utf8_lead b
  else if (b <? u_lower st) || (u_upper st <? b) then
    let '(out, st') := utf8_lead b in (0xFFFD :: out, st')
  else
    let cp := u_codePoint st * 64 + (b - 0x80) in
    if u_seen st + 1 =? u_needed st then ([cp], utf8_initial)
    else ([], mkUtf8 cp (u_seen st + 1) (u_needed st) 0x80 0xBF).

Fixpoint utf8_run (st : Utf8State) (bytes : list Z) : JSString :=
  match bytes with
  | [] => if u_needed st =? 0 then [] else [0xFFFD]
  | b :: rest =>
      let '(out, st') := utf8_step st b in out ++ utf8_run st' rest
  end.

Definition TextDecoder_decode (bytes : list Z) : JSString :=
  match utf8_run utf8_initial bytes with
  | cp :: rest => if cp =? 0xFEFF then rest else cp :: rest
  | [] => []
  end.

(** White space and line terminators: [\s], [trim], and the prefix that
    [parseInt] and [parseFloat] skip. *)
Definition isWhiteSpace (c : Z) : bool :=
  ((9 <=? c) && (c <=? 13)) || (c =? 32) || (c =? 0xA0) || (c =? 0x1680)
  || ((0x2000 <=? c) && (c <=? 0x200A)) || (c =? 0x2028) || (c =? 0x2029)
  || (c =? 0x202F) || (c =? 0x205F) || (c =? 0x3000) || (c =? 0xFEFF).

Definition isDigit (c : Z) : bool := (48 <=? c) && (c <=? 57).

Fixpoint dropWhile {A : Type} (f : A -> bool) (l : list A) : list A :=
  match l with
  | [] => []
  | x :: rest => if f x then dropWhile f rest else l
  end.

Fixpoint takeWhile {A : Type} (f : A -> bool) (l : list A) : list A :=
  match l with
  | [] => []
  | x :: rest => if f x then x :: takeWhile f rest else []
  end.

(** [s.trim()]. *)
Definition trim (s : JSString) : JSString :=
  rev (dropWhile isWhiteSpace (rev (dropWhile isWhiteSpace s))).

(** [s.slice(1, -1)]. *)
Definition slice_1_m1 (s : JSString) : JSString :=
  match s with
  | [] => []
  | _ :: rest => removelast rest
  end.

(** [s.split(',')], for any separator code point. *)
Fixpoint split_on (sep : Z) (s : JSString) : list JSString :=
  match s with
  | [] => [[]]
  | c :: rest =>
      if c =? sep then [] :: split_on sep rest
      else match split_on sep rest with
           | field :: fields => (c :: field) :: fields
           | [] => [[c]]
           end
  end.

(** [parts.join(',')]. *)
Fixpoint join (sep : JSString) (parts : list JSString) : JSString :=
  match parts with
  | [] => []
  | [p] => p
  | p :: rest => p ++ sep ++ join sep rest
  end.

(** ** Decimal numerals *)

Fixpoint digits_fuel (fuel : nat) (z : Z) (acc : JSString) : JSString :=
  match fuel with
  | O => acc
  | S fuel =>
      let acc := (48 + z mod 10) :: acc in
      if z <? 10 then acc else digits_fuel fuel (z / 10) acc
  end.

(** The decimal digits of [z >= 0]. *)
Definition decimal (z : Z) : JSString :=
  digits_fuel (S (Z.to_nat (Z.log2 z))) z [].

(** Number-to-string conversion of an integer below 10^21 in magnitude. *)
Definition intToString (z : Z) : JSString :=
  if z <? 0 then 45 :: decimal (- z) else decimal z.

(** The value of a run of decimal digits. *)
Definition digitsValue (ds : JSString) : Z :=
  fold_left (fun acc d => acc * 10 + (d - 48)) ds 0.

Definition hexDigit (c : Z) : option Z :=
  if isDigit c then Some (c - 48)
  else if (97 <=? c) && (c <=? 102) then Some (c - 87)
  else if (65 <=? c) && (c <=? 70) then Some (c - 55)
  else None.

Fixpoint hexPrefixValue (s : JSString) (acc : option Z) : option Z :=
  match s with
  | [] => acc
  | c :: rest =>
      match hexDigit c with
      | Some d =>
          hexPrefixValue rest
            (Some (match acc with Some a => a | None => 0 end * 16 + d))
      | None => acc
      end
  end.

(** [parseInt(s)] with no radix argument; [None] is NaN.  The result is
    exact, as the Number is for magnitudes up to 2^53. *)
Definition parseInt (s : JSString) : option Z :=
  let s := dropWhile isWhiteSpace s in
  let '(negative, s) :=
    match s with
    | 45 :: rest => (true, rest)
    | 43 :: rest => (false, rest)
    | _ => (false, s)
    end in
  let magnitude :=
    match s with
    | 48 :: 120 :: rest | 48 :: 88 :: rest => hexPrefixValue rest None
    | _ => match takeWhile isDigit s with
           | [] => None
           | ds => Some (digitsValue ds)
           end
    end in
  match magnitude with
  | Some m => Some (if negative then - m else m)
  | None => None
  end.

(** [colType.match(/\s+(\d+)/)]: the first capture group of the leftmost
    match, or [None] when there is no match. *)
Fixpoint matchEncoded_fuel (fuel : nat) (s : JSString) : option JSString :=
  match fuel with
  | O => None
  | S fuel =>
      match s with
      | [] => None
      | c :: rest =>
          if isWhiteSpace c then
            let after := dropWhile isWhiteSpace rest in
            match takeWhile isDigit after with
            | [] => matchEncoded_fuel fuel after
            | ds => Some ds
            end
          else matchEncoded_fuel fuel rest
      end
  end.

Definition matchEncoded (colType : JSString) : option JSString :=
  matchEncoded_fuel (S (length colType)) colType.

(** ** Numbers that are not integers *)

(** A Number that came through a float view: NaN, an infinity, or the
    finite value [m * 2^e] with its sign ([m >= 0]; the sign of zero is
    kept). *)
Inductive Float : Type :=
| FNaN
| FInf (negative : bool)
| FFin (negative : bool) (m e : Z).

(** [view.setUint32(0, bits, true); view.getFloat32(0, true)], and
    [view.getFloat32] on the same four bytes. *)
Definition getFloat32 (bits : Z) : Float :=
  let negative := 2147483648 <=? bits in
  let exponent := (bits / 8388608) mod 256 in
  let fraction := bits mod 8388608 in
  if exponent =? 255 then (if fraction =? 0 then FInf negative else FNaN)
  else if exponent =? 0 then FFin negative fraction (-149)
  else FFin negative (8388608 + fraction) (exponent - 150).

(** The nearest value [q * 2^e] to [num / den > 0] with [q < 2^prec] and
    [e >= emin], ties to even; [None] when the exponent exceeds [emax]. *)
Definition roundBinary (prec emin emax num den : Z) : option (Z * Z) :=
  let e1 := Z.log2 num - Z.log2 den - prec + 1 in
  let q1 := (num * 2 ^ Z.max 0 (- e1)) / (den * 2 ^ Z.max 0 e1) in
  let e := Z.max emin (if q1 <? 2 ^ (prec - 1) then e1 - 1 else e1) in
  let n := num * 2 ^ Z.max 0 (- e) in
  let d := den * 2 ^ Z.max 0 e in
  let q := n / d in
  let r := n mod d in
  let q := if (d <? 2 * r) || ((2 * r =? d) && Z.odd q) then q + 1 else q in
  let '(q, e) := if q =? 2 ^ prec then (2 ^ (prec - 1), e + 1) else (q, e) in
  if emax <? e then None else Some (q, e).

(** The Number (binary64) nearest to [num / den >= 0]. *)
Definition toDouble (negative : bool) (num den : Z) : Float :=
  if num =? 0 then FFin negative 0 0
  else match roundBinary 53 (-1074) 971 num den with
       | Some (q, e) => FFin negative q e
       | None => FInf negative
       end.

(** [view.setFloat32(0, x, true); view.getUint32(0, true)]; a NaN is
    written as the quiet NaN 0x7FC00000. *)
Definition float32Bits (x : Float) : Z :=
  let sign (negative : bool) := if negative then 2147483648 else 0 in
  match x with
  | FNaN => 0x7FC00000
  | FInf negative => sign negative + 0x7F800000
  | FFin negative m e =>
      if m =? 0 then sign negative
      else match roundBinary 24 (-149) 104
                   (m * 2 ^ Z.max 0 e) (2 ^ Z.max 0 (- e)) with
           | None => sign negative + 0x7F800000
           | Some (q, e') =>
               if q <? 8388608 then sign negative + q
               else sign negative + (e' + 150) * 8388608 + (q - 8388608)
           end
  end.

(** Is [10^21 <= m * 2^e]? *)
Definition atLeast1e21 (m e : Z) : bool :=
  if 0 <=? e then 10 ^ 21 <=? m * 2 ^ e
  else 10 ^ 21 * 2 ^ (- e) <=? m.

(** The integer [n] for which [n / 10^6] is closest to [m * 2^e], the
    larger one of two. *)
Definition scaled6 (m e : Z) : Z :=
  if 0 <=? e then m * 2 ^ e * 10 ^ 6
  else (2 * m * 10 ^ 6 + 2 ^ (- e)) / 2 ^ (- e + 1).

(** The digits of [n], filled with zeros on the left to seven digits at
    least, with a point before the last six. *)
Definition fixedDigits (n : Z) : JSString :=
  let ds := decimal n in
  let ds := repeat 48 (7 - length ds) ++ ds in
  firstn (length ds - 6) ds ++ [46] ++ skipn (length ds - 6) ds.

(** Number-to-string conversion of a binary64 integer [x >= 10^21]:
    the shortest digit string [s] (of [k] digits) with
    [s * 10^(n-k)] in the rounding interval [lo, hi] of [x], the closest of
    these to [x].  [candidate k n] is the best [s] for the given [k], [n]
    with its distance to [x]. *)
Definition candidate (x lo hi k n : Z) : option (Z * Z) :=
  let p := 10 ^ (n - k) in
  let s_lo := Z.max ((lo + p - 1) / p) (10 ^ (k - 1)) in
  let s_hi := Z.min (hi / p) (10 ^ k - 1) in
  if s_hi <? s_lo then None
  else
    let down := x / p in
    let s :=
      if 2 * (x - down * p) <? p then down
      else if p <? 2 * (x - down * p) then down + 1
      else if Z.even down then down else down + 1 in
    let s := Z.max s_lo (Z.min s_hi s) in
    Some (Z.abs (s * p - x), s).

Definition better (a b : option (Z * Z * Z)) : option (Z * Z * Z) :=
  match a, b with
  | Some (da, _, _), Some (db, _, _) => if db <? da then b else a
  | Some _, None => a
  | None, _ => b
  end.

Definition candidateAt (x lo hi k n : Z) : option (Z * Z * Z) :=
  match candidate x lo hi k n with
  | Some (d, s) => Some (d, s, n)
  | None => None
  end.

Fixpoint shortest_fuel (fuel : nat) (x lo hi nd k : Z) : Z * Z * Z :=
  match fuel with
  | O => (x, nd, nd)
  | S fuel =>
      match better (candidateAt x lo hi k nd)
                   (better (candidateAt x lo hi k (nd - 1))
                           (candidateAt x lo hi k (nd + 1))) with
      | Some (_, s, n) => (s, k, n)
      | None => shortest_fuel fuel x lo hi nd (k + 1)
      end
  end.

Definition largeToString (m e : Z) : JSString :=
  let x := m * 2 ^ e in
  let shift := 52 - Z.log2 m in
  let ulp := 2 ^ (e - shift) in
  let lo := if m =? 2 ^ Z.log2 m then x - ulp / 4 else x - ulp / 2 in
  let hi := x + ulp / 2 in
  let nd := zlength (decimal x) in
  let '(s, k, n) := shortest_fuel 17 x lo hi nd 1 in
  let ds := decimal s in
  match ds with
  | d :: [] => d :: str "e+" ++ decimal (n - 1)
  | d :: rest => d :: 46 :: rest ++ str "e+" ++ decimal (n - 1)
  | [] => []
  end.

(** [value.toFixed(6)]. *)
Definition toFixed6 (x : Float) : JSString :=
  match x with
  | FNaN => str "NaN"
  | FInf negative => if negative then str "-Infinity" else str "Infinity"
  | FFin negative m e =>
      (if negative && (0 <? m) then [45] else [])
      ++ (if atLeast1e21 m e then largeToString m e
          else fixedDigits (scaled6 m e))
  end.

(** [s.replace(/(\.\d*?)0+$/, '$1')].  [lazyDigits rest] is the shortest
    run of digits at the head of [rest] after which only zeros, one at
    least, remain up to the end; the leftmost point that admits one starts
    the match. *)
Fixpoint onlyZeros (s : JSString) : bool :=
  match s with
  | [] => false
  | [c] => c =? 48
  | c :: rest => (c =? 48) && onlyZeros rest
  end.

Fixpoint lazyDigits (rest : JSString) : option JSString :=
  if onlyZeros rest then Some []
  else match rest with
       | d :: rest' =>
           if isDigit d then
             match lazyDigits rest' with
             | Some kept => Some (d :: kept)
             | None => None
             end
           else None
       | [] => None
       end.

Fixpoint replaceTrailingZeros (s : JSString) : JSString :=
  match s with
  | [] => []
  | c :: rest =>
      if c =? 46 then
        match lazyDigits rest with
        | Some kept => 46 :: kept
        | None => c :: replaceTrailingZeros rest
        end
      else c :: replaceTrailingZeros rest
  end.

(** [s.replace(/\.$/, '')]. *)
Fixpoint replaceFinalPoint (s : JSString) : JSString :=
  match s with
  | [] => []
  | [c] => if c =? 46 then [] else [c]
  | c :: rest => c :: replaceFinalPoint rest
  end.

(** [s.includes('.')]. *)
Definition includesPoint (s : JSString) : bool := existsb (Z.eqb 46) s.

(** The [readValue] callback of the FLOAT_LIST case. *)
Definition formatFloat (value : Float) (count : Z) : JSString :=
  let formatted := replaceFinalPoint (replaceTrailingZeros (toFixed6 value)) in
  if negb (includesPoint formatted) && (1 <? count)
  then formatted ++ str ".0"
  else formatted.

(** A signed decimal literal (or [Infinity]) at the head of [s], with what
    follows it: the grammar shared by [parseFloat] and by the conversion of
    a string to a Number. *)
Definition scanDecimal (s : JSString) : option (Float * JSString) :=
  let '(negative, s) :=
    match s with
    | 45 :: rest => (true, rest)
    | 43 :: rest => (false, rest)
    | _ => (false, s)
    end in
  if list_eq_dec Z.eq_dec (firstn 8 s) (str "Infinity")
  then Some (FInf negative, skipn 8 s)
  else
    let intDigits := takeWhile isDigit s in
    let s := dropWhile isDigit s in
    let '(fracDigits, s) :=
      match s with
      | 46 :: rest => (takeWhile isDigit rest, dropWhile isDigit rest)
      | _ => ([], s)
      end in
    match intDigits ++ fracDigits with
    | [] => None
    | ds =>
        let '(exponent, s) :=
          match s with
          | 101 :: rest | 69 :: rest =>
              let '(expNegative, rest') :=
                match rest with
                | 45 :: rest' => (true, rest')
                | 43 :: rest' => (false, rest')
                | _ => (false, rest)
                end in
              match takeWhile isDigit rest' with
              | [] => (0, s)
              | es => (if expNegative then - digitsValue es
                       else digitsValue es,
                       dropWhile isDigit rest')
              end
          | _ => (0, s)
          end in
        let scale := exponent - zlength fracDigits in
        Some (toDouble negative (digitsValue ds * 10 ^ Z.max 0 scale)
                       (10 ^ Z.max 0 (- scale)), s)
    end.

(** [parseFloat(s)]. *)
Definition parseFloat (s : JSString) : Float :=
  match scanDecimal (dropWhile isWhiteSpace s) with
  | Some (value, _) => value
  | None => FNaN
  end.

Fixpoint radixValue (radix : Z) (s : JSString) (acc : Z) : option Z :=
  match s with
  | [] => Some acc
  | c :: rest =>
      match hexDigit c with
      | Some d => if d <? radix then radixValue radix rest (acc * radix + d)
                  else None
      | None => None
      end
  end.

(** The Number a string converts to. *)
Definition stringToNumber (s : JSString) : Float :=
  let integerLiteral (radix : Z) (digits : JSString) :=
    match digits with
    | [] => FNaN
    | _ => match radixValue radix digits 0 with
           | Some n => toDouble false n 1
           | None => FNaN
           end
    end in
  match trim s with
  | [] => FFin false 0 0
  | 48 :: 120 :: rest | 48 :: 88 :: rest => integerLiteral 16 rest
  | 48 :: 111 :: rest | 48 :: 79 :: rest => integerLiteral 8 rest
  | 48 :: 98 :: rest | 48 :: 66 :: rest => integerLiteral 2 rest
  | t => match scanDecimal t with
         | Some (value, []) => value
         | _ => FNaN
         end
  end.

(** The integral part of a Number, 0 for NaN and the infinities: the
    first step of the conversion to a 32-bit integer. *)
Definition truncFloat (x : Float) : Z :=
  match x with
  | FFin negative m e =>
      let magnitude := if 0 <=? e then m * 2 ^ e else m / 2 ^ (- e) in
      if negative then - magnitude else magnitude
  | _ => 0
  end.

(** ** CDBWriter *)

Record OpenChunk : Type := mkOpen { o_type : Z; o_startPos : Z }.

Record ClosedChunk : Type :=
  mkClosed { c_type : Z; c_startPos : Z; c_size : Z }.

(** [buffer] is the whole backing array (zero-filled beyond [pos]).
    [chunkStack] has the most recent push at its head; [closedChunks] is in
    push order. *)
Record CDBWriter : Type := mkWriter {
  buffer : list Z;
  chunkStack : list OpenChunk;
  closedChunks : list ClosedChunk;
  pos : Z
}.

Definition new_CDBWriter (estimatedSize : Z) : CDBWriter :=
  mkWriter (repeat 0 (Z.to_nat estimatedSize)) [] [] 0.

(** [Math.ceil(n * 1.5)]. *)
Definition ceil_1_5 (n : Z) : Z := (3 * n + 1) / 2.

Definition ensureCapacity (additionalBytes : Z) (w : CDBWriter) : CDBWriter :=
  if pos w + additionalBytes >? zlength (buffer w) then
    let newSize := Z.max (ceil_1_5 (zlength (buffer w)))
                         (pos w + additionalBytes) in
    mkWriter (buffer w ++ repeat 0 (Z.to_nat (newSize - zlength (buffer w))))
             (chunkStack w) (closedChunks w) (pos w)
  else w.

Definition write32 (value : Z) (w : CDBWriter) : CDBWriter :=
  let w := ensureCapacity 4 w in
  mkWriter (setUint32 (buffer w) (pos w) value)
           (chunkStack w) (closedChunks w) (pos w + 4).

Definition writeBytes (bytes : list Z) (w : CDBWriter) : CDBWriter :=
  let w := ensureCapacity (zlength bytes) w in
  mkWriter (setBytes (buffer w) (pos w) bytes)
           (chunkStack w) (closedChunks w) (pos w + zlength bytes).

(** [(4 - (pos & 3)) & 3]. *)
Definition paddingAt (p : Z) : Z := js_and (4 - js_and p 3) 3.

Definition writePadding (w : CDBWriter) : CDBWriter :=
  let padding := paddingAt (pos w) in
  if padding >? 0 then
    let w := ensureCapacity padding w in
    mkWriter (buffer w) (chunkStack w) (closedChunks w) (pos w + padding)
  else w.

(** [this.buffer[this.pos] = 0; this.pos += 1] after [ensureCapacity(1)]. *)
Definition writeNul (w : CDBWriter) : CDBWriter :=
  let w := ensureCapacity 1 w in
  mkWriter (setBytes (buffer w) (pos w) [0])
           (chunkStack w) (closedChunks w) (pos w + 1).

(** A string or null used as a condition: null and the empty string are
    falsy. *)
Definition truthy (description : option JSString) : bool :=
  match description with
  | Some (_ :: _) => true
  | _ => false
  end.

(** [description] is [None] for null. *)
Definition writeChunkOpen (chunkType : Z) (description : option JSString)
    (w : CDBWriter) : CDBWriter :=
  let chunkStart := pos w in
  let w := write32 CHUNK_BEGIN w in
  let w := write32 0 w in
  let w := write32 chunkType w in
  let w := write32 0 w in
  let w := write32 (if truthy description then 1 else 0) w in
  let w := if truthy description then
             let descBytes :=
               TextEncoder_encode
                 (match description with Some d => d | None => [] end) in
             let w := write32 (zlength descBytes + 1) w in
             let w := writeBytes descBytes w in
             writeNul w
           else w in
  let w := writePadding w in
  let w := write32 CHUNK_SEPARATOR w in
  mkWriter (buffer w) (mkOpen chunkType chunkStart :: chunkStack w)
           (closedChunks w) (pos w).

(** Popping an empty stack yields undefined, and [chunk.size = ..] then
    throws. *)
Definition writeChunkClose (w : CDBWriter) : Result CDBWriter :=
  match chunkStack w with
  | [] => Err TypeError
  | chunk :: rest =>
      let w := writePadding w in
      let w := write32 CHUNK_END w in
      Ok (mkWriter (buffer w) rest
            (closedChunks w
             ++ [mkClosed (o_type chunk) (o_startPos chunk)
                          (pos w - o_startPos chunk)])
            (pos w))
  end.

Definition patchSizes (closed : list ClosedChunk) (buf : list Z) : list Z :=
  fold_left (fun b chunk => setUint32 b (c_startPos chunk + 4) (c_size chunk))
            closed buf.

(** [getData()]: the size slots are patched in the backing array, and the
    first [pos] bytes are returned. *)
Definition getData (w : CDBWriter) : list Z :=
  firstn (Z.to_nat (pos w)) (patchSizes (closedChunks w) (buffer w)).

(** The writers that the public methods of CDBWriter can bring about. *)
Inductive produced : CDBWriter -> Prop :=
| produced_new : forall estimatedSize,
    produced (new_CDBWriter estimatedSize)
| produced_write32 : forall w value,
    produced w -> produced (write32 value w)
| produced_writeBytes : forall w bytes,
    produced w -> produced (writeBytes bytes w)
| produced_writeNul : forall w,
    produced w -> produced (writeNul w)
| produced_writePadding : forall w,
    produced w -> produced (writePadding w)
| produced_open : forall w chunkType description,
    produced w -> produced (writeChunkOpen chunkType description w)
| produced_close : forall w w',
    produced w -> writeChunkClose w = Ok w' -> produced w'.

(** The size field of a chunk record, as found in a finished stream: the
    begin-magic at [startPos], the size in the next word, and the end-magic
    in the last word of the [size] bytes that start at [startPos]. *)
Definition chunk_framed (data : list Z) (chunk : ClosedChunk) : Prop :=
  0 <= c_startPos chunk /\
  c_startPos chunk + c_size chunk <= zlength data /\
  getUint32 data (c_startPos chunk) = CHUNK_BEGIN /\
  getUint32 data (c_startPos chunk + 4) = c_size chunk /\
  getUint32 data (c_startPos chunk + c_size chunk - 4) = CHUNK_END.

(** ** CDBReader *)

(** The reader keeps [data] and moves [pos]; each method takes the position
    and returns the new one with its result. *)
Definition read32 (data : list Z) (pos : Z) : Result (Z * Z) :=
  if pos + 4 >? zlength data then Err (ReadPastEnd pos)
  else Ok (getUint32 data pos, pos + 4).

Definition subarray (data : list Z) (start len : Z) : list Z :=
  firstn (Z.to_nat len) (skipn (Z.to_nat start) data).

(** [new Uint8Array(buffer, offset, length)] throws for a negative
    length. *)
Definition readBytes (data : list Z) (length pos : Z)
    : Result (list Z * Z) :=
  if pos + length >? zlength data then Err (ReadPastEnd pos)
  else if length <? 0 then Err RangeError
  else Ok (subarray data pos length, pos + length).

Definition readPadding (pos : Z) : Z := pos + paddingAt pos.

Record Header : Type := mkHeader {
  chunkSize : Z;
  chunkType : Z;
  flags : Z;
  description : option JSString
}.

Definition readChunkHeader (data : list Z) (pos : Z) : Result (Header * Z) :=
  let* (_, pos) := read32 data pos in
  let* (chunkSize, pos) := read32 data pos in
  let* (chunkType, pos) := read32 data pos in
  let* (flags, pos) := read32 data pos in
  let* (hasDescription, pos) := read32 data pos in
  let* (description, pos) :=
    if hasDescription =? 0 then Ok (None, pos)
    else
      let* (descLength, pos) := read32 data pos in
      let* (descBytes, pos) := readBytes data (descLength - 1) pos in
      Ok (Some (TextDecoder_decode descBytes), pos + 1) in
  let pos := readPadding pos in
  let* (_, pos) := read32 data pos in
  Ok (mkHeader chunkSize chunkType flags description, pos).

(** A value of a column: a Number holding an integer, a Number read
    through a float view, or a string. *)
Inductive JSValue : Type :=
| JNum (z : Z)
| JFloat (f : Float)
| JStr (s : JSString).

(** In the records below [None] stands for undefined (for [col_name] and
    [tbl_name]: for null, the description of a chunk that has none). *)
Record Column : Type := mkColumn {
  col_name : option JSString;
  col_type : option Z;
  col_data : list JSValue;
  col_columnIndex : option Z
}.

Record Table : Type := mkTable {
  tbl_name : option JSString;
  tbl_rowCount : option Z;
  tbl_columns : option (list Column);
  tbl_tableId : option Z;
  tbl_tableFlags : option Z
}.

(** The [value] of a chunk result; its shape follows from the chunk
    type. *)
Inductive ChunkValue : Type :=
| VUndefined
| VNumber (value : Z)
| VWords (values : list Z)
| VBytes (bytes : list Z)
| VTables (tables : list Table)
| VColumns (columns : list Column).

(** The [children] object: the binding made last for a key is the one
    found. *)
Definition Children : Type := list (Z * ChunkValue).

Definition setChild (children : Children) (key : Z) (value : ChunkValue)
    : Children :=
  (key, value) :: children.

Fixpoint getChild (children : Children) (key : Z) : ChunkValue :=
  match children with
  | [] => VUndefined
  | (k, v) :: rest => if k =? key then v else getChild rest key
  end.

(** [{type, value}] or [{type, header, children}]. *)
Inductive ChunkResult : Type :=
| Leaf (type : Z) (value : ChunkValue)
| Container (type : Z) (header : Header) (children : Children).

Definition result_type (chunk : ChunkResult) : Z :=
  match chunk with
  | Leaf type _ => type
  | Container type _ _ => type
  end.

Definition result_value (chunk : ChunkResult) : ChunkValue :=
  match chunk with
  | Leaf _ value => value
  | Container _ _ _ => VUndefined
  end.

Definition numberOf (v : ChunkValue) : option Z :=
  match v with VNumber z => Some z | _ => None end.

Definition wordsOf (v : ChunkValue) : option (list Z) :=
  match v with VWords l => Some l | _ => None end.

Definition bytesOf (v : ChunkValue) : option (list Z) :=
  match v with VBytes l => Some l | _ => None end.

Definition columnsOf (v : ChunkValue) : option (list Column) :=
  match v with VColumns l => Some l | _ => None end.

Definition tablesOf (v : ChunkValue) : option (list Table) :=
  match v with VTables l => Some l | _ => None end.

(** [sizedData.subarray(begin, end)] for indices that are not negative. *)
Definition subarray_to (data : list Z) (begin end_ : Z) : list Z :=
  let begin := Z.min begin (zlength data) in
  let end_ := Z.min end_ (zlength data) in
  subarray data begin (Z.max (end_ - begin) 0).

Fixpoint parseStrings_from (sizedData : list Z) (currentOffset : Z)
    (lengths : list Z) : list JSValue :=
  match lengths with
  | [] => []
  | stringLength :: rest =>
      JStr (TextDecoder_decode
              (subarray_to sizedData currentOffset
                           (currentOffset + stringLength - 1)))
      :: parseStrings_from sizedData (currentOffset + stringLength) rest
  end.

Definition parseStrings (sizedData lengths : list Z) : list JSValue :=
  parseStrings_from sizedData 4 lengths.

(** [Array.from({ length: count }, ..)]: [readValue] is given the offset
    and the count, and its result is kept in the form [join] gives it. *)
Fixpoint readListValues (fuel : nat) (readValue : Z -> Z -> Result JSString)
    (count i currentOffset : Z) (values : list JSString)
    : Result (list JSString * Z) :=
  match fuel with
  | O => Err OutOfFuel
  | S fuel =>
      if i <? count then
        let* value := readValue currentOffset count in
        readListValues fuel readValue count (i + 1) (currentOffset + 4)
                       (values ++ [value])
      else Ok (values, currentOffset)
  end.

Fixpoint parseNumericLists_from (sizedData : list Z)
    (readValue : Z -> Z -> Result JSString) (currentOffset : Z)
    (counts : list Z) : Result (list JSValue) :=
  match counts with
  | [] => Ok []
  | count :: rest =>
      let* (values, currentOffset) :=
        readListValues (S (length sizedData)) readValue count 0
                       currentOffset [] in
      let* texts :=
        parseNumericLists_from sizedData readValue currentOffset rest in
      Ok (JStr (str "(" ++ join (str ",") values ++ str ")") :: texts)
  end.

Definition parseNumericLists (sizedData counts : list Z)
    (readValue : Z -> Z -> Result JSString) : Result (list JSValue) :=
  parseNumericLists_from sizedData readValue 4 counts.

(** [view.getUint32(offset, true)] and [view.getFloat32(offset, true)] on
    the blob throw when the four bytes are not all there. *)
Definition viewWord (sizedData : list Z) (offset : Z) : Result Z :=
  if offset + 4 >? zlength sizedData then Err RangeError
  else Ok (getUint32 sizedData offset).

Definition convertColumnData (children : Children) : Result (list JSValue) :=
  let dataType := numberOf (getChild children COLUMN_DATA_TYPE) in
  let rawData := wordsOf (getChild children COLUMN_VALUES) in
  let sizedData :=
    match bytesOf (getChild children COLUMN_BLOB_DATA) with
    | Some bytes => bytes
    | None => [0; 0; 0; 0]
    end in
  let withRawData (k : list Z -> Result (list JSValue)) :=
    match rawData with
    | Some raw => k raw
    | None => Err TypeError
    end in
  match dataType with
  | None => Err (UnknownDataType None)
  | Some t =>
      if t =? INTEGER then
        withRawData (fun raw => Ok (map (fun v => JNum (js_or0 v)) raw))
      else if t =? FLOAT then
        withRawData (fun raw => Ok (map (fun v => JFloat (getFloat32 v)) raw))
      else if t =? STRING then
        withRawData (fun raw => Ok (parseStrings sizedData raw))
      else if t =? INTEGER_LIST then
        withRawData (fun raw =>
          parseNumericLists sizedData raw (fun offset _ =>
            let* word := viewWord sizedData offset in
            Ok (intToString (js_or0 word))))
      else if t =? FLOAT_LIST then
        withRawData (fun raw =>
          parseNumericLists sizedData raw (fun offset count =>
            let* word := viewWord sizedData offset in
            Ok (formatFloat (getFloat32 word) count)))
      else Err (UnknownDataType (Some t))
  end.

Definition isScalarChunk (t : Z) : bool :=
  (t =? ROW_COUNT) || (t =? TABLE_ID) || (t =? TABLE_FLAGS)
  || (t =? DATABASE_FLAGS) || (t =? COLUMN_INDEX) || (t =? COLUMN_DATA_TYPE).

Definition isContainerChunk (t : Z) : bool :=
  (t =? WRAPPER) || (t =? TABLE) || (t =? COLUMN).

(** [for (let i = 0; i < dataBytes / 4; i++) values.push(this.read32())]. *)
Fixpoint readValues (fuel : nat) (data : list Z) (dataBytes i pos : Z)
    (values : list Z) : Result (list Z * Z) :=
  match fuel with
  | O => Err OutOfFuel
  | S fuel =>
      if 4 * i <? dataBytes then
        let* (value, pos) := read32 data pos in
        readValues fuel data dataBytes (i + 1) pos (values ++ [value])
      else Ok (values, pos)
  end.

Fixpoint readItems {A : Type} (fuel : nat)
    (itemReader : Z -> Result (A * Z)) (count i pos : Z) (items : list A)
    : Result (list A * Z) :=
  match fuel with
  | O => Err OutOfFuel
  | S fuel =>
      if i <? count then
        let* (item, pos) := itemReader pos in
        readItems fuel itemReader count (i + 1) pos (items ++ [item])
      else Ok (items, pos)
  end.

Definition readArray {A : Type} (fuel : nat)
    (itemReader : Z -> Result (A * Z)) (data : list Z) (pos : Z)
    : Result (list A * Z) :=
  let* (_, pos) := read32 data pos in
  let* (count, pos) := read32 data pos in
  let* (items, pos) := readItems fuel itemReader count 0 pos [] in
  let* (_, pos) := read32 data pos in
  Ok (items, pos).

(** The loop of the WRAPPER, TABLE and COLUMN case. *)
Fixpoint readChildren (fuel : nat)
    (readChunk : Z -> Result (ChunkResult * Z)) (chunkEndPos pos : Z)
    (children : Children) : Result (Children * Z) :=
  match fuel with
  | O => Err OutOfFuel
  | S fuel =>
      if pos <? chunkEndPos then
        if chunkEndPos - pos <? 20 then Ok (children, pos)
        else
          let* (chunk, pos) := readChunk pos in
          readChildren fuel readChunk chunkEndPos pos
            (setChild children (result_type chunk) (result_value chunk))
      else Ok (children, pos)
  end.

(** The item readers: a result without [header] or [children] makes the
    property access throw. *)
Definition tableOfChunk (tableChunk : ChunkResult) : Result Table :=
  match tableChunk with
  | Container _ header children =>
      Ok (mkTable (description header)
                  (numberOf (getChild children ROW_COUNT))
                  (columnsOf (getChild children COLUMN_DEFINITIONS))
                  (numberOf (getChild children TABLE_ID))
                  (numberOf (getChild children TABLE_FLAGS)))
  | Leaf _ _ => Err TypeError
  end.

Definition columnOfChunk (columnChunk : ChunkResult) : Result Column :=
  match columnChunk with
  | Container _ header children =>
      let* data := convertColumnData children in
      Ok (mkColumn (description header)
                   (numberOf (getChild children COLUMN_DATA_TYPE))
                   data
                   (numberOf (getChild children COLUMN_INDEX)))
  | Leaf _ _ => Err TypeError
  end.

(** The [switch] of readChunk; [readChunk] is the method itself, for the
    nested chunks. *)
Definition readChunkBody (readChunk : Z -> Result (ChunkResult * Z))
    (fuel : nat) (data : list Z) (header : Header) (chunkEndPos pos : Z)
    : Result (ChunkResult * Z) :=
  let t := chunkType header in
  if isScalarChunk t then
    let* (value, pos) := read32 data pos in
    Ok (Leaf t (VNumber value), pos)
  else if t =? COLUMN_VALUES then
    let dataBytes := chunkEndPos - pos - 4 in
    let* (values, pos) := readValues fuel data dataBytes 0 pos [] in
    Ok (Leaf t (VWords values), pos)
  else if t =? COLUMN_BLOB_DATA then
    let sizedDataBytes := chunkEndPos - pos - 4 in
    let* (bytes, pos) := readBytes data sizedDataBytes pos in
    Ok (Leaf t (VBytes bytes), pos)
  else if t =? DATABASE_TABLES then
    let* (tables, pos) :=
      readArray fuel
        (fun pos =>
           let* (tableChunk, pos) := readChunk pos in
           let* table := tableOfChunk tableChunk in
           Ok (table, pos))
        data pos in
    Ok (Leaf t (VTables tables), pos)
  else if t =? COLUMN_DEFINITIONS then
    let* (columns, pos) :=
      readArray fuel
        (fun pos =>
           let* (columnChunk, pos) := readChunk pos in
           let* column := columnOfChunk columnChunk in
           Ok (column, pos))
        data pos in
    Ok (Leaf t (VColumns columns), pos)
  else if isContainerChunk t then
    let* (children, pos) :=
      readChildren fuel readChunk chunkEndPos pos [] in
    Ok (Container t header children, pos)
  else Err (UnknownChunkType t).

Fixpoint readChunk (fuel : nat) (data : list Z) (pos : Z)
    : Result (ChunkResult * Z) :=
  match fuel with
  | O => Err OutOfFuel
  | S fuel =>
      let chunkStartPos := pos in
      let* (header, pos) := readChunkHeader data pos in
      let chunkEndPos := chunkStartPos + chunkSize header in
      let* (result, pos) :=
        readChunkBody (readChunk fuel data) fuel data header
                      chunkEndPos pos in
      let pos := readPadding pos in
      let* (_, pos) := read32 data pos in
      Ok (result, pos)
  end.

(** Fuel that suffices for any input (see [readChunk_fuel_suffices]). *)
Definition readerFuel (data : list Z) : nat := S (S (length data)).

(** ** The relational store

    sql.js is not part of the repository.  The store is modelled as the
    tables it holds, in creation order, each with its declared columns
    (name and declared type) and its rows; [db.run] and [db.exec] are
    modelled for the statements the converter issues.  A cell is a Number
    that is an integer, another Number, a string, or NULL. *)
Inductive Cell : Type :=
| CInt (z : Z)
| CFloat (f : Float)
| CText (s : JSString)
| CNull.

Record SqlTable : Type := mkSqlTable {
  sql_name : JSString;
  sql_columns : list (JSString * JSString);
  sql_rows : list (list Cell)
}.

Definition Database : Type := list SqlTable.

(** Identifiers compare without regard to ASCII case. *)
Definition lowerAscii (c : Z) : Z :=
  if (65 <=? c) && (c <=? 90) then c + 32 else c.

Definition sameText (a b : JSString) : bool :=
  if list_eq_dec Z.eq_dec a b then true else false.

Definition sameName (a b : JSString) : bool :=
  sameText (map lowerAscii a) (map lowerAscii b).

Definition findTable (db : Database) (name : JSString) : option SqlTable :=
  find (fun t => sameName (sql_name t) name) db.

(** A name that can stand between double quotes in the SQL text. *)
Definition plainName (name : JSString) : bool :=
  forallb (fun c => negb (c =? 34) && negb (c =? 0)) name.

Fixpoint distinctNames (names : list JSString) : bool :=
  match names with
  | [] => true
  | n :: rest => negb (existsb (sameName n) rest) && distinctNames rest
  end.

(** [CREATE TABLE "name" (columns)]. *)
Definition createTable (db : Database) (name : JSString)
    (columns : list (JSString * JSString)) : Result Database :=
  if negb (plainName name && forallb (fun c => plainName (fst c)) columns)
  then Err Unmodelled
  else if match columns with [] => true | _ => false end then Err SqlError
  else if 2000 <? zlength columns then Err SqlError
  else if negb (distinctNames (map fst columns)) then Err SqlError
  else if sameName (firstn 7 name) (str "sqlite_") then Err SqlError
  else match findTable db name with
       | Some _ => Err SqlError
       | None => Ok (db ++ [mkSqlTable name columns []])
       end.

(** [INSERT INTO "name" VALUES ..] for rows of the right width. *)
Definition insertRows (db : Database) (name : JSString)
    (rows : list (list Cell)) : Database :=
  map (fun t =>
         if sameName (sql_name t) name
         then mkSqlTable (sql_name t) (sql_columns t) (sql_rows t ++ rows)
         else t) db.

(** The Number a float view gave, as the store returns it: NaN is stored
    as NULL, and a Number that is an integer is that integer. *)
Definition bindNumber (x : Float) : Cell :=
  match x with
  | FNaN => CNull
  | FInf _ => CFloat x
  | FFin negative m e =>
      if 0 <=? e then CInt (truncFloat x)
      else if m mod 2 ^ (- e) =? 0 then CInt (truncFloat x)
      else CFloat x
  end.

(** Binding a parameter; undefined cannot be bound. *)
Definition bindValue (v : option JSValue) : Result Cell :=
  match v with
  | Some (JNum z) => Ok (CInt z)
  | Some (JFloat x) => Ok (bindNumber x)
  | Some (JStr s) => Ok (CText s)
  | None => Err BindError
  end.

(** The order of [ORDER BY]: NULL first, then the Numbers by value, then
    the strings.  [cellRank] and [cellLeb] compare two cells. *)
Definition floatLeb (x y : Float) : bool :=
  let signed (negative : bool) (m : Z) := if negative then - m else m in
  match x, y with
  | FNaN, _ => true
  | _, FNaN => false
  | FInf nx, FInf ny => nx || negb ny
  | FInf nx, FFin _ _ _ => nx
  | FFin _ _ _, FInf ny => negb ny
  | FFin nx mx ex, FFin ny my ey =>
      let e := Z.min ex ey in
      signed nx (mx * 2 ^ (ex - e)) <=? signed ny (my * 2 ^ (ey - e))
  end.

Fixpoint textLeb (a b : JSString) : bool :=
  match a, b with
  | [], _ => true
  | _ :: _, [] => false
  | x :: a', y :: b' => (x <? y) || ((x =? y) && textLeb a' b')
  end.

Definition cellLeb (a b : Cell) : bool :=
  match a, b with
  | CNull, _ => true
  | _, CNull => false
  | CInt x, CInt y => x <=? y
  | CInt x, CFloat y => floatLeb (FFin (x <? 0) (Z.abs x) 0) y
  | CFloat x, CInt y => floatLeb x (FFin (y <? 0) (Z.abs y) 0)
  | CFloat x, CFloat y => floatLeb x y
  | (CInt _ | CFloat _), CText _ => true
  | CText _, (CInt _ | CFloat _) => false
  | CText x, CText y => textLeb x y
  end.

Definition rowId (row : list Cell) : Cell := nth 1 row CNull.

Fixpoint insertById (row : list Cell) (sorted : list (list Cell))
    : list (list Cell) :=
  match sorted with
  | [] => [row]
  | r :: rest =>
      if cellLeb (rowId r) (rowId row) then r :: insertById row rest
      else row :: sorted
  end.

(** [ORDER BY ID]: rows with equal ID stay in table order. *)
Definition orderById (rows : list (list Cell)) : list (list Cell) :=
  fold_left (fun sorted row => insertById row sorted) rows [].

(** ** cdbToSQLite *)

(** A name or null inside a template literal. *)
Definition templateName (name : option JSString) : JSString :=
  match name with
  | Some s => s
  | None => str "null"
  end.

Definition baseTypeOf (type : option Z) : JSString :=
  match type with
  | Some 1 => str "REAL"
  | Some 2 | Some 11 | Some 10 => str "TEXT"
  | _ => str "INTEGER"
  end.

(** The column definition [ "name" 'baseType encodedValue' ]: the name and
    the declared type.  With an undefined column index the sum is NaN. *)
Definition columnDef (tableId : Z) (col : Column) : JSString * JSString :=
  let type := match col_type col with Some t => t | None => 0 end in
  let encoded :=
    match col_columnIndex col with
    | Some columnIndex => intToString (encodedValue tableId columnIndex type)
    | None => str "NaN"
    end in
  (templateName (col_name col),
   baseTypeOf (col_type col) ++ str " " ++ encoded).

Definition bindRow (columns : list Column) (rowIdx : Z)
    : Result (list Cell) :=
  fold_right
    (fun col rest =>
       let* cell := bindValue (nth_error (col_data col) (Z.to_nat rowIdx)) in
       let* cells := rest in
       Ok (cell :: cells))
    (Ok []) columns.

Fixpoint bindRows (fuel : nat) (columns : list Column) (rowIdx rowCount : Z)
    : Result (list (list Cell)) :=
  match fuel with
  | O => Err OutOfFuel
  | S fuel =>
      if rowIdx <? rowCount then
        let* row := bindRow columns rowIdx in
        let* rows := bindRows fuel columns (rowIdx + 1) rowCount in
        Ok (row :: rows)
      else Ok []
  end.

(** The body of [tables.forEach].  The rows go in by batches of
    [Math.floor(999 / columns)] rows; with more than 999 columns the batch
    is empty and the INSERT statement is malformed. *)
Definition storeTable (db : Database) (table : Table) : Result Database :=
  let* id := match tbl_tableId table with
             | Some id => Ok id
             | None => Err BindError
             end in
  let nameCell := match tbl_name table with
                  | Some s => CText s
                  | None => CNull
                  end in
  let db := insertRows db (str "DB_STRUCTURE") [[nameCell; CInt id]] in
  let* columns := match tbl_columns table with
                  | Some columns => Ok columns
                  | None => Err TypeError
                  end in
  let name := templateName (tbl_name table) in
  let* db := createTable db name (map (columnDef id) columns) in
  match tbl_rowCount table with
  | Some rowCount =>
      if 0 <? rowCount then
        if 999 <? zlength columns then Err SqlError
        else
          let fuel := match columns with
                      | col :: _ => S (length (col_data col))
                      | [] => 1%nat
                      end in
          let* rows := bindRows fuel columns 0 rowCount in
          Ok (insertRows db name rows)
      else Ok db
  | None => Ok db
  end.

Fixpoint storeTables (db : Database) (tables : list Table)
    : Result Database :=
  match tables with
  | [] => Ok db
  | table :: rest =>
      let* db := storeTable db table in
      storeTables db rest
  end.

Definition DB_STRUCTURE_table : SqlTable :=
  mkSqlTable (str "DB_STRUCTURE")
             [(str "TableName", str "TEXT '274'"); (str "ID", str "INTEGER")]
             [].

(** ** The encoder *)

Definition TABLE_FLAGS_BY_ID : list (Z * Z) :=
  [(3, 65); (4, 50); (8, 129); (9, 241); (10, 209); (11, 241); (12, 241);
   (14, 129); (16, 65); (17, 97); (18, 49); (19, 49); (22, 225); (23, 161);
   (24, 65); (25, 188); (26, 113); (27, 33); (28, 51); (29, 33); (30, 129);
   (31, 177); (35, 129); (36, 241); (39, 49); (40, 241); (41, 81); (44, 241);
   (45, 113); (50, 33); (51, 76); (52, 97); (53, 81); (54, 33); (55, 81);
   (59, 241); (65, 227); (80, 33); (81, 19); (83, 19); (84, 19); (85, 35);
   (86, 33); (87, 241); (92, 113); (93, 35); (94, 82); (98, 49); (99, 35);
   (100, 65); (101, 83); (107, 163); (108, 241); (109, 75); (110, 49);
   (111, 81); (113, 49); (117, 35); (118, 129); (119, 33); (122, 241);
   (124, 65); (125, 60); (126, 19); (127, 19); (128, 65); (129, 81);
   (131, 241); (132, 44); (134, 241); (135, 51); (136, 99); (137, 227);
   (142, 195); (143, 145); (144, 113); (145, 33); (146, 35); (147, 49);
   (149, 19); (152, 241); (153, 49); (155, 33); (159, 33); (164, 243);
   (166, 241); (168, 161); (170, 146); (172, 241); (173, 33); (175, 241);
   (177, 130); (179, 113); (180, 145); (181, 97); (185, 82); (186, 193);
   (192, 65); (193, 242); (200, 50); (202, 98); (203, 33); (204, 65);
   (205, 49); (206, 92); (207, 145); (208, 65); (209, 33); (210, 49);
   (211, 34); (213, 17); (215, 177); (217, 81); (218, 156); (220, 241);
   (221, 145); (223, 65); (224, 97); (225, 65); (228, 241); (229, 161);
   (230, 49); (231, 33); (236, 33); (240, 241); (241, 65); (242, 19);
   (244, 178); (245, 241); (246, 33); (249, 115); (250, 193); (251, 83);
   (252, 193); (253, 49); (254, 92); (255, 83); (256, 19); (257, 81);
   (258, 97); (259, 33); (263, 65); (264, 129); (265, 33); (266, 129);
   (268, 33); (270, 19); (273, 65); (274, 129)].

Fixpoint lookupFlags (flagsById : list (Z * Z)) (id : Z) : option Z :=
  match flagsById with
  | [] => None
  | (k, v) :: rest => if k =? id then Some v else lookupFlags rest id
  end.

(** [TABLE_FLAGS_BY_ID[id]]: only an integer can name a key of the
    object. *)
Definition tableFlagsOf (id : Cell) : option Z :=
  match id with
  | CInt z => lookupFlags TABLE_FLAGS_BY_ID z
  | _ => None
  end.

(** What [write32(TABLE_FLAGS_BY_ID[id])] stores: undefined becomes 0 in
    [DataView.setUint32]. *)
Definition flagsWord (id : Cell) : Z :=
  match tableFlagsOf id with
  | Some flags => flags
  | None => 0
  end.

(** The integer that [write32(value)] starts from: the value as a Number,
    without its fraction; undefined, NaN and the infinities give 0. *)
Definition cellInteger (value : Cell) : Z :=
  match value with
  | CInt z => z
  | CFloat x => truncFloat x
  | CText s => truncFloat (stringToNumber s)
  | CNull => 0
  end.

(** [parseFloat(value)]. *)
Definition cellFloat (value : Cell) : Float :=
  match value with
  | CInt z => FFin (z <? 0) (Z.abs z) 0
  | CFloat x => x
  | CText s => parseFloat s
  | CNull => FNaN
  end.

(** [String(value)], for what a column of text affinity can hold. *)
Definition cellString (value : Cell) : Result JSString :=
  match value with
  | CText s => Ok s
  | CNull => Ok (str "null")
  | CInt z => if Z.abs z <? 10 ^ 21 then Ok (intToString z)
              else Err Unmodelled
  | CFloat _ => Err Unmodelled
  end.

Definition write32_each (values : list Z) (w : CDBWriter) : CDBWriter :=
  fold_left (fun w value => write32 value w) values w.

Definition writeStringData (values : list Cell) (w : CDBWriter)
    : Result CDBWriter :=
  let* encoded :=
    fold_right
      (fun value rest =>
         let* text := cellString value in
         let* texts := rest in
         Ok (TextEncoder_encode text :: texts))
      (Ok []) values in
  let stringData := flat_map (fun bytes => bytes ++ [0]) encoded in
  let lengths := map (fun bytes => zlength bytes + 1) encoded in
  let w := write32_each lengths w in
  if 0 <? zlength stringData then
    let* w := writeChunkClose w in
    let w := writeChunkOpen COLUMN_BLOB_DATA None w in
    let w := write32 (zlength stringData) w in
    Ok (writeBytes stringData w)
  else Ok w.

(** One value of a list column: its count and its words. *)
Definition listWords (dataType : Z) (value : Cell) : Result (Z * list Z) :=
  let* text := cellString value in
  let content := slice_1_m1 text in
  match content with
  | [] => Ok (0, [])
  | _ =>
      let elements := map trim (split_on 44 content) in
      Ok (zlength elements,
          map (fun elem =>
                 if dataType =? FLOAT_LIST then float32Bits (parseFloat elem)
                 else match parseInt elem with
                      | Some n => js_or0 n
                      | None => 0
                      end)
              elements)
  end.

Definition writeListData (dataType : Z) (values : list Cell) (w : CDBWriter)
    : Result CDBWriter :=
  let* parsed :=
    fold_right
      (fun value rest =>
         let* one := listWords dataType value in
         let* others := rest in
         Ok (one :: others))
      (Ok []) values in
  let counts := map fst parsed in
  let listData := flat_map snd parsed in
  let w := write32_each counts w in
  if 0 <? zlength listData then
    let* w := writeChunkClose w in
    let w := writeChunkOpen COLUMN_BLOB_DATA None w in
    let w := write32 (zlength listData * 4) w in
    Ok (write32_each listData w)
  else Ok w.

Definition writeColumnData (dataType : Z) (values : list Cell)
    (w : CDBWriter) : Result CDBWriter :=
  let w := writeChunkOpen COLUMN_VALUES None w in
  let* w :=
    if dataType =? INTEGER then
      Ok (write32_each (map cellInteger values) w)
    else if dataType =? FLOAT then
      Ok (write32_each (map (fun v => float32Bits (cellFloat v)) values) w)
    else if dataType =? STRING then writeStringData values w
    else if (dataType =? INTEGER_LIST) || (dataType =? FLOAT_LIST) then
      writeListData dataType values w
    else Ok w in
  writeChunkClose w.

(** A chunk that holds one word. *)
Definition writeWordChunk (chunkType : Z) (description : option JSString)
    (value : Z) (w : CDBWriter) : Result CDBWriter :=
  writeChunkClose (write32 value (writeChunkOpen chunkType description w)).

(** The [columnInfo] object.  Its keys are enumerated with the array
    indices first, in ascending order, and then the other names in the
    order of their first assignment. *)
Record ColumnInfo : Type := mkColumnInfo {
  cdbDataTypeOf : Z;
  cdbColumnIndexOf : Z
}.

Fixpoint setProperty {A : Type} (object : list (JSString * A))
    (key : JSString) (value : A) : list (JSString * A) :=
  match object with
  | [] => [(key, value)]
  | (k, v) :: rest =>
      if sameText k key then (k, value) :: rest
      else (k, v) :: setProperty rest key value
  end.

Fixpoint getProperty {A : Type} (object : list (JSString * A))
    (key : JSString) : option A :=
  match object with
  | [] => None
  | (k, v) :: rest => if sameText k key then Some v else getProperty rest key
  end.

(** The canonical numeric strings of the integers below 2^32 - 1. *)
Definition arrayIndex (key : JSString) : option Z :=
  match key with
  | [] => None
  | _ =>
      if forallb isDigit key
         && sameText (decimal (digitsValue key)) key
         && (digitsValue key <? 4294967295)
      then Some (digitsValue key)
      else None
  end.

Fixpoint insertIndex (key : JSString) (n : Z) (sorted : list (JSString * Z))
    : list (JSString * Z) :=
  match sorted with
  | [] => [(key, n)]
  | (k, m) :: rest =>
      if m <? n then (k, m) :: insertIndex key n rest
      else (key, n) :: sorted
  end.

(** [Object.keys(object)]. *)
Definition objectKeys {A : Type} (object : list (JSString * A))
    : list JSString :=
  let names := map fst object in
  let indices :=
    fold_left (fun sorted key =>
                 match arrayIndex key with
                 | Some n => insertIndex key n sorted
                 | None => sorted
                 end) names [] in
  map fst indices
  ++ filter (fun key => match arrayIndex key with
                        | Some _ => false
                        | None => true
                        end) names.

(** The [forEach] over the rows of [PRAGMA table_info]; a declared type
    without the pattern makes [match[1]] throw. *)
Fixpoint readColumnInfo (schema : list (JSString * JSString))
    (columnInfo : list (JSString * ColumnInfo))
    : Result (list (JSString * ColumnInfo)) :=
  match schema with
  | [] => Ok columnInfo
  | (colName, colType) :: rest =>
      match matchEncoded colType with
      | None => Err TypeError
      | Some digits =>
          let encoded := match parseInt digits with
                         | Some n => n
                         | None => 0
                         end in
          readColumnInfo rest
            (setProperty columnInfo colName
               (mkColumnInfo (cdbDataType encoded) (cdbColumnIndex encoded)))
      end
  end.

(** [columnData]: one array for each name, filled by position from the
    rows; a row that is wider than the names are many makes the push
    throw. *)
Definition transposeRows (width : nat) (rows : list (list Cell))
    : Result (list (list Cell)) :=
  if existsb (fun row => (width <? length row)%nat) rows then Err TypeError
  else
    Ok (map (fun colIdx =>
               flat_map (fun row => match nth_error row colIdx with
                                    | Some value => [value]
                                    | None => []
                                    end) rows)
            (seq 0 width)).

Fixpoint writeColumns (columnNames : list JSString)
    (columnInfo : list (JSString * ColumnInfo))
    (columnData : list (list Cell)) (w : CDBWriter) : Result CDBWriter :=
  match columnNames with
  | [] => Ok w
  | columnName :: names =>
      let w := writeChunkOpen COLUMN (Some columnName) w in
      let* info := match getProperty columnInfo columnName with
                   | Some info => Ok info
                   | None => Err TypeError
                   end in
      let* w := writeWordChunk COLUMN_INDEX None (cdbColumnIndexOf info) w in
      let* w := writeWordChunk COLUMN_DATA_TYPE (Some columnName)
                               (cdbDataTypeOf info) w in
      let* w := writeColumnData (cdbDataTypeOf info)
                                (match columnData with
                                 | values :: _ => values
                                 | [] => []
                                 end) w in
      let* w := writeChunkClose w in
      writeColumns names columnInfo (tl columnData) w
  end.

(** The name in a row of DB_STRUCTURE, inside the SQL text and as a chunk
    description. *)
Definition nameText (name : Cell) : Result JSString := cellString name.

Definition nameDescription (name : Cell) : Result (option JSString) :=
  match name with
  | CNull => Ok None
  | _ => let* text := cellString name in Ok (Some text)
  end.

(** The body of [tables.forEach] in sqliteToCDB; [row] is a row of
    DB_STRUCTURE.  [PRAGMA table_info] of a table that does not exist has
    no result, and [schemaResult[0].values] throws. *)
Definition writeTable (db : Database) (row : list Cell) (w : CDBWriter)
    : Result CDBWriter :=
  let name := nth 0 row CNull in
  let id := nth 1 row CNull in
  let* text := nameText name in
  if negb (plainName text) then Err Unmodelled else
  let* table := match findTable db text with
                | Some table => Ok table
                | None => Err TypeError
                end in
  let* columnInfo := readColumnInfo (sql_columns table) [] in
  let rows := sql_rows table in
  let* description := nameDescription name in
  let w := writeChunkOpen TABLE description w in
  let* w := writeWordChunk TABLE_ID None (cellInteger id) w in
  let* w := writeWordChunk ROW_COUNT None (zlength rows) w in
  let* w := writeWordChunk TABLE_FLAGS None (flagsWord id) w in
  let w := writeChunkOpen COLUMN_DEFINITIONS None w in
  let w := write32 ARRAY_BEGIN w in
  let columnNames := objectKeys columnInfo in
  let w := write32 (zlength columnNames) w in
  let* columnData := transposeRows (length columnNames) rows in
  let* w := writeColumns columnNames columnInfo columnData w in
  let w := write32 ARRAY_END w in
  let* w := writeChunkClose w in
  writeChunkClose w.

Fixpoint writeTables (db : Database) (rows : list (list Cell))
    (w : CDBWriter) : Result CDBWriter :=
  match rows with
  | [] => Ok w
  | row :: rest =>
      let* w := writeTable db row w in
      writeTables db rest w
  end.

(** sqliteToCDB up to [writer.getData()].  [db.exec] answers a query that
    yields no row with an empty array, and a missing table with an error.
    [estimatedSize] stands for [db.export().length]. *)
Definition sqliteToStream (estimatedSize : Z) (db : Database)
    : Result (list Z) :=
  let* structure := match findTable db (str "DB_STRUCTURE") with
                    | Some table => Ok table
                    | None => Err SqlError
                    end in
  match orderById (sql_rows structure) with
  | [] => Err NoDbStructure
  | tables =>
      let w := new_CDBWriter estimatedSize in
      let w := writeChunkOpen WRAPPER (Some (str "cyanide database")) w in
      let* w := writeWordChunk DATABASE_FLAGS None 274 w in
      let w := writeChunkOpen DATABASE_TABLES None w in
      let w := write32 ARRAY_BEGIN w in
      let w := write32 (zlength tables) w in
      let* w := writeTables db tables w in
      let w := write32 ARRAY_END w in
      let* w := writeChunkClose w in
      let* w := writeChunkClose w in
      Ok (getData w)
  end.

(** ** Compression framing

    pako is not part of the repository: [pako.deflate] and [pako.inflate]
    are parameters of the converter. *)
Section Pako.

Variable pako_deflate : list Z -> list Z.
Variable pako_inflate : list Z -> Result (list Z).

Definition compressCDB (uncompressedData : list Z) : list Z :=
  let compressed := pako_deflate uncompressedData in
  le32 0xFFFFFFFF ++ le32 (zlength uncompressedData)
  ++ le32 (zlength compressed) ++ compressed.

(** [DataView.getUint32] and the typed array constructor throw when
    their range is not inside the buffer. *)
Definition decompressCDB (arrayBuffer : list Z) : Result (list Z) :=
  if zlength arrayBuffer <? 4 then Err RangeError
  else if negb (getUint32 arrayBuffer 0 =? 0xFFFFFFFF) then Ok arrayBuffer
  else if zlength arrayBuffer <? 12 then Err RangeError
  else
    let compressedSize := getUint32 arrayBuffer 8 in
    if zlength arrayBuffer <? 12 + compressedSize then Err RangeError
    else pako_inflate (subarray arrayBuffer 12 compressedSize).

Definition cdbToSQLite (cdbData : list Z) : Result Database :=
  let* decompressedData := decompressCDB cdbData in
  let* (wrapperChunk, _) :=
    readChunk (readerFuel decompressedData) decompressedData 0 in
  let* children := match wrapperChunk with
                   | Container _ _ children => Ok children
                   | Leaf _ _ => Err TypeError
                   end in
  let* tables := match tablesOf (getChild children DATABASE_TABLES) with
                 | Some tables => Ok tables
                 | None => Err TypeError
                 end in
  storeTables [DB_STRUCTURE_table] tables.

Definition sqliteToCDB (estimatedSize : Z) (db : Database)
    : Result (list Z) :=
  let* stream := sqliteToStream estimatedSize db in
  Ok (compressCDB stream).

End Pako.

(** A deflate that stores, and the inflate of such streams: a zlib stream
    of stored blocks (RFC 1950 and RFC 1951, block type 0), used where a
    concrete codec is needed. *)
Definition adler32 (bytes : list Z) : Z :=
  let '(a, b) :=
    fold_left (fun '(a, b) byte =>
                 let a := (a + byte) mod 65521 in (a, (b + a) mod 65521))
              bytes (1, 0) in
  b * 65536 + a.

Definition be32 (v : Z) : list Z := rev (le32 v).

Fixpoint storedBlocks (fuel : nat) (bytes : list Z) : list Z :=
  match fuel with
  | O => []
  | S fuel =>
      if zlength bytes <=? 65535 then
        let len := zlength bytes in
        [1; len mod 256; len / 256; 255 - len mod 256; 255 - len / 256]
        ++ bytes
      else
        [0; 255; 255; 0; 0] ++ firstn (Z.to_nat 65535) bytes
        ++ storedBlocks fuel (skipn (Z.to_nat 65535) bytes)
  end.

Definition stored_deflate (bytes : list Z) : list Z :=
  [0x78; 0x01] ++ storedBlocks (S (length bytes)) bytes
  ++ be32 (adler32 bytes).

Fixpoint storedInflate (fuel : nat) (stream : list Z) (out : list Z)
    : Result (list Z) :=
  match fuel with
  | O => Err OutOfFuel
  | S fuel =>
      match stream with
      | final :: l0 :: l1 :: n0 :: n1 :: rest =>
          let len := l0 + 256 * l1 in
          if negb ((final =? 0) || (final =? 1)) then Err Unmodelled
          else if negb ((l0 + n0 =? 255) && (l1 + n1 =? 255))
          then Err InflateError
          else if zlength rest <? len then Err InflateError
          else
            let out := out ++ firstn (Z.to_nat len) rest in
            let rest := skipn (Z.to_nat len) rest in
            if final =? 1 then
              if sameText rest (be32 (adler32 out)) then Ok out
              else Err InflateError
            else storedInflate fuel rest out
      | _ => Err InflateError
      end
  end.

Definition stored_inflate (stream : list Z) : Result (list Z) :=
  match stream with
  | 0x78 :: _ :: rest => storedInflate (S (length rest)) rest []
  | _ => Err InflateError
  end.

(** ** Invariant of the writer (used in Part II) *)

Definition c_end (chunk : ClosedChunk) : Z := c_startPos chunk + c_size chunk.

(** Two chunk headers (begin-magic and size slot) do not overlap. *)
Definition headers_apart (a b : Z) : Prop := a + 8 <= b \/ b + 8 <= a.

(** The last word of a chunk that ends at [e] does not overlap the size slot
    of a chunk that starts at [s]. *)
Definition end_clear_of_slot (e s : Z) : Prop := e <= s + 4 \/ s + 8 <= e - 4.

Definition closed_ok (w : CDBWriter) (c : ClosedChunk) : Prop :=
  0 <= c_startPos c /\ c_startPos c + 12 <= c_end c /\ c_end c <= pos w /\
  getUint32 (buffer w) (c_startPos c) = CHUNK_BEGIN /\
  getUint32 (buffer w) (c_end c - 4) = CHUNK_END.

Definition open_ok (w : CDBWriter) (o : OpenChunk) : Prop :=
  0 <= o_startPos o /\ o_startPos o + 8 <= pos w /\
  getUint32 (buffer w) (o_startPos o) = CHUNK_BEGIN.

Definition pos_ok (w : CDBWriter) : Prop := 0 <= pos w <= zlength (buffer w).

Record writer_inv (w : CDBWriter) : Prop := mk_writer_inv {
  inv_pos : pos_ok w;
  inv_closed : Forall (closed_ok w) (closedChunks w);
  inv_open : Forall (open_ok w) (chunkStack w);
  inv_closed_apart :
    ForallOrdPairs
      (fun c d => headers_apart (c_startPos c) (c_startPos d))
      (closedChunks w);
  inv_open_apart :
    ForallOrdPairs
      (fun o o' => headers_apart (o_startPos o) (o_startPos o'))
      (chunkStack w);
  inv_closed_open :
    Forall (fun c =>
      Forall (fun o =>
        headers_apart (c_startPos c) (o_startPos o) /\
        end_clear_of_slot (c_end c) (o_startPos o)) (chunkStack w))
      (closedChunks w);
  inv_end_slot :
    Forall (fun c =>
      Forall (fun d => end_clear_of_slot (c_end c) (c_startPos d))
             (closedChunks w))
      (closedChunks w)
}.

(** [w'] arises from [w] by writing at or after [pos w] only. *)
Definition extends (w w' : CDBWriter) : Prop :=
  chunkStack w' = chunkStack w /\
  closedChunks w' = closedChunks w /\
  pos w <= pos w' <= zlength (buffer w') /\
  forall q, q < pos w -> byteAt (buffer w') q = byteAt (buffer w) q.

(** The writer as a producer of bytes: the backing array is zero from
    [pos] on, and the size slots of the chunk records lie before [pos]. *)
Definition winv (w : CDBWriter) : Prop :=
  pos_ok w /\
  (forall q, pos w <= q -> byteAt (buffer w) q = 0) /\
  Forall (fun c => 0 <= c_startPos c /\ c_startPos c + 8 <= pos w)
         (closedChunks w) /\
  Forall (fun o => 0 <= o_startPos o /\ o_startPos o + 8 <= pos w)
         (chunkStack w).

(** From [w] to [w'] the stream has grown by [bytes], and the stack of open
    chunks is the same. *)
Definition grows (w w' : CDBWriter) (bytes : list Z) : Prop :=
  winv w' /\ chunkStack w' = chunkStack w /\
  getData w' = getData w ++ bytes.

(** A step of the encoder that either fails with the error of [spec], or
    appends the bytes of [spec] and ends on a multiple of 4. *)
Definition emits (r : Result CDBWriter) (w : CDBWriter)
    (spec : Result (list Z)) : Prop :=
  match spec with
  | Ok bytes => exists w', r = Ok w' /\ grows w w' bytes /\ pos w' mod 4 = 0
  | Err e => r = Err e
  end.

(** [d'] has the length of [d] and its bytes from [lo] up to [hi]. *)
Definition agree_range (lo hi : Z) (d d' : list Z) : Prop :=
  zlength d' = zlength d /\
  forall q, lo <= q < hi -> byteAt d' q = byteAt d q.

(** What the loop of the WRAPPER, TABLE and COLUMN case does, as a relation:
    from [pos] with the children [children] it ends at [pos'] with
    [children'].  A child is read where 20 bytes or more lie before
    [chunkEndPos]; the loop ends where fewer do. *)
Inductive children_read (readChunk : Z -> Result (ChunkResult * Z))
    (chunkEndPos : Z) : Z -> Children -> Z -> Children -> Prop :=
| children_read_end (pos : Z) (children : Children) :
    chunkEndPos - pos < 20 ->
    children_read readChunk chunkEndPos pos children pos children
| children_read_child (pos : Z) (children : Children) (chunk : ChunkResult)
    (pos1 pos' : Z) (children' : Children) :
    20 <= chunkEndPos - pos ->
    readChunk pos = Ok (chunk, pos1) ->
    children_read readChunk chunkEndPos pos1
      (setChild children (result_type chunk) (result_value chunk))
      pos' children' ->
    children_read readChunk chunkEndPos pos children pos' children'.

(** ** The text of a float of a list, in the words of the specification

    "Each float is formatted to six decimal places; trailing fractional
    zeros are stripped; a trailing lone decimal point is stripped.  If the
    result contains no decimal point and the surrounding list has more than
    one element, append .0".  These definitions follow that sentence, not
    the code; Part II compares them with [formatFloat]. *)







(** ** The encoder without the writer (used in Part II)

    What sqliteToCDB writes, as a function of what it reads from the store.
    [tableSpecs] gathers the words and the bytes of every table, in the
    order in which the encoder meets them; [layoutFile] lays them out in
    chunks.  Part II shows that the CDBWriter calls of sqliteToCDB produce
    [layoutFile] of [tableSpecs]. *)

Definition descriptionBytes (description : option JSString) : list Z :=
  if truthy description then
    let descBytes :=
      TextEncoder_encode (match description with Some d => d | None => [] end)
    in
    le32 1 ++ le32 (zlength descBytes + 1) ++ descBytes ++ [0]
  else le32 0.

(** A chunk header whose size field holds [size]. *)
Definition headerBytes (size chunkType : Z) (description : option JSString)
    : list Z :=
  let fixed := le32 CHUNK_BEGIN ++ le32 size ++ le32 chunkType ++ le32 0
               ++ descriptionBytes description in
  fixed ++ zeros (paddingAt (zlength fixed)) ++ le32 CHUNK_SEPARATOR.

(** A chunk from its begin word through its end word. *)
Definition chunkBytes (chunkType : Z) (description : option JSString)
    (body : list Z) : list Z :=
  let n := zlength (headerBytes 0 chunkType description) + zlength body in
  headerBytes (n + paddingAt n + 4) chunkType description
  ++ body ++ zeros (paddingAt n) ++ le32 CHUNK_END.

Definition wordChunkBytes (chunkType : Z) (description : option JSString)
    (value : Z) : list Z :=
  chunkBytes chunkType description (le32 value).

(** A column: its name, index and type, the words of its COLUMN_VALUES
    chunk, and the bytes that follow the length word of its
    COLUMN_BLOB_DATA chunk (no such chunk is written when there are
    none). *)
Record ColumnSpec : Type := mkColumnSpec {
  cs_name : JSString;
  cs_index : Z;
  cs_type : Z;
  cs_values : list Z;
  cs_blob : list Z
}.

Record TableSpec : Type := mkTableSpec {
  ts_description : option JSString;
  ts_id : Z;
  ts_rowCount : Z;
  ts_flags : Z;
  ts_columns : list ColumnSpec
}.

Definition arrayBytes (count : Z) (items : list Z) : list Z :=
  le32 ARRAY_BEGIN ++ le32 count ++ items ++ le32 ARRAY_END.

Definition columnDataBytes (values blob : list Z) : list Z :=
  chunkBytes COLUMN_VALUES None (words values)
  ++ match blob with
     | [] => []
     | _ => chunkBytes COLUMN_BLOB_DATA None (le32 (zlength blob) ++ blob)
     end.

Definition columnBody (c : ColumnSpec) : list Z :=
  wordChunkBytes COLUMN_INDEX None (cs_index c)
  ++ wordChunkBytes COLUMN_DATA_TYPE (Some (cs_name c)) (cs_type c)
  ++ columnDataBytes (cs_values c) (cs_blob c).

Definition columnBytes (c : ColumnSpec) : list Z :=
  chunkBytes COLUMN (Some (cs_name c)) (columnBody c).

Definition tableBody (t : TableSpec) : list Z :=
  wordChunkBytes TABLE_ID None (ts_id t)
  ++ wordChunkBytes ROW_COUNT None (ts_rowCount t)
  ++ wordChunkBytes TABLE_FLAGS None (ts_flags t)
  ++ chunkBytes COLUMN_DEFINITIONS None
       (arrayBytes (zlength (ts_columns t))
                   (flat_map columnBytes (ts_columns t))).

Definition tableBytes (t : TableSpec) : list Z :=
  chunkBytes TABLE (ts_description t) (tableBody t).

Definition fileBody (tables : list TableSpec) : list Z :=
  wordChunkBytes DATABASE_FLAGS None 274
  ++ chunkBytes DATABASE_TABLES None
       (arrayBytes (zlength tables) (flat_map tableBytes tables)).

Definition layoutFile (tables : list TableSpec) : list Z :=
  chunkBytes WRAPPER (Some (str "cyanide database")) (fileBody tables).

(** The values that writeColumnData writes for a column, as the words of
    COLUMN_VALUES and the bytes of the blob. *)
Definition encodedStrings (values : list Cell) : Result (list (list Z)) :=
  fold_right
    (fun value rest =>
       let* text := cellString value in
       let* texts := rest in
       Ok (TextEncoder_encode text :: texts))
    (Ok []) values.

Definition parsedLists (dataType : Z) (values : list Cell)
    : Result (list (Z * list Z)) :=
  fold_right
    (fun value rest =>
       let* one := listWords dataType value in
       let* others := rest in
       Ok (one :: others))
    (Ok []) values.

Definition columnData (dataType : Z) (values : list Cell)
    : Result (list Z * list Z) :=
  if dataType =? INTEGER then
    Ok (map (fun v => ToUint32 (cellInteger v)) values, [])
  else if dataType =? FLOAT then
    Ok (map (fun v => ToUint32 (float32Bits (cellFloat v))) values, [])
  else if dataType =? STRING then
    let* encoded := encodedStrings values in
    Ok (map (fun bytes => ToUint32 (zlength bytes + 1)) encoded,
        flat_map (fun bytes => bytes ++ [0]) encoded)
  else if (dataType =? INTEGER_LIST) || (dataType =? FLOAT_LIST) then
    let* parsed := parsedLists dataType values in
    Ok (map (fun one => ToUint32 (fst one)) parsed,
        words (flat_map snd parsed))
  else Ok ([], []).

Fixpoint columnSpecs (columnNames : list JSString)
    (columnInfo : list (JSString * ColumnInfo))
    (columns : list (list Cell)) : Result (list ColumnSpec) :=
  match columnNames with
  | [] => Ok []
  | columnName :: names =>
      let* info := match getProperty columnInfo columnName with
                   | Some info => Ok info
                   | None => Err TypeError
                   end in
      let* (values, blob) :=
        columnData (cdbDataTypeOf info)
                   (match columns with
                    | values :: _ => values
                    | [] => []
                    end) in
      let* rest := columnSpecs names columnInfo (tl columns) in
      Ok (mkColumnSpec columnName (ToUint32 (cdbColumnIndexOf info))
                       (ToUint32 (cdbDataTypeOf info)) values blob :: rest)
  end.

Definition tableSpec (db : Database) (row : list Cell) : Result TableSpec :=
  let name := nth 0 row CNull in
  let id := nth 1 row CNull in
  let* text := nameText name in
  if negb (plainName text) then Err Unmodelled else
  let* table := match findTable db text with
                | Some table => Ok table
                | None => Err TypeError
                end in
  let* columnInfo := readColumnInfo (sql_columns table) [] in
  let rows := sql_rows table in
  let* description := nameDescription name in
  let columnNames := objectKeys columnInfo in
  let* columns := transposeRows (length columnNames) rows in
  let* specs := columnSpecs columnNames columnInfo columns in
  Ok (mkTableSpec description (ToUint32 (cellInteger id))
                  (ToUint32 (zlength rows)) (ToUint32 (flagsWord id)) specs).

Fixpoint tableSpecsOf (db : Database) (rows : list (list Cell))
    : Result (list TableSpec) :=
  match rows with
  | [] => Ok []
  | row :: rest =>
      let* t := tableSpec db row in
      let* ts := tableSpecsOf db rest in
      Ok (t :: ts)
  end.

Definition tableSpecs (db : Database) : Result (list TableSpec) :=
  let* structure := match findTable db (str "DB_STRUCTURE") with
                    | Some table => Ok table
                    | None => Err SqlError
                    end in
  match orderById (sql_rows structure) with
  | [] => Err NoDbStructure
  | tables => tableSpecsOf db tables
  end.

(** ** What the reader finds in a laid-out stream (used in Part II) *)

(** The reader is at [p] in [d], and [rest] lies ahead. *)
Definition cursor (d : list Z) (p : Z) (rest : list Z) : Prop :=
  exists before, d = before ++ rest /\ zlength before = p.

Definition decodedDescription (description : option JSString)
    : option JSString :=
  if truthy description then
    Some (TextDecoder_decode
            (TextEncoder_encode
               (match description with Some d => d | None => [] end)))
  else None.

Definition headerOf (chunkType : Z) (description : option JSString)
    (body : list Z) : Header :=
  mkHeader (zlength (chunkBytes chunkType description body)) chunkType 0
           (decodedDescription description).

(** The children of a COLUMN chunk, as the loop leaves them: the chunk
    read last is at the head. *)
Definition columnChildren (c : ColumnSpec) : Children :=
  match cs_blob c with
  | [] => []
  | blob => [(COLUMN_BLOB_DATA,
              VBytes (le32 (zlength blob) ++ blob
                      ++ zeros (paddingAt (zlength blob))))]
  end
  ++ [(COLUMN_VALUES, VWords (map ToUint32 (cs_values c)));
      (COLUMN_DATA_TYPE, VNumber (ToUint32 (cs_type c)));
      (COLUMN_INDEX, VNumber (ToUint32 (cs_index c)))].

Definition columnResult (c : ColumnSpec) : ChunkResult :=
  Container COLUMN (headerOf COLUMN (Some (cs_name c)) (columnBody c))
            (columnChildren c).

Definition tableChildren (t : TableSpec) (columns : list Column)
    : Children :=
  [(COLUMN_DEFINITIONS, VColumns columns);
   (TABLE_FLAGS, VNumber (ToUint32 (ts_flags t)));
   (ROW_COUNT, VNumber (ToUint32 (ts_rowCount t)));
   (TABLE_ID, VNumber (ToUint32 (ts_id t)))].

Definition tableResult (t : TableSpec) (columns : list Column)
    : ChunkResult :=
  Container TABLE (headerOf TABLE (ts_description t) (tableBody t))
            (tableChildren t columns).

Fixpoint mapResult {A B : Type} (f : A -> Result B) (l : list A)
    : Result (list B) :=
  match l with
  | [] => Ok []
  | a :: rest =>
      let* b := f a in
      let* bs := mapResult f rest in
      Ok (b :: bs)
  end.

Definition decodedColumns (columns : list ColumnSpec)
    : Result (list Column) :=
  mapResult (fun c => columnOfChunk (columnResult c)) columns.

Definition decodedTable (t : TableSpec) : Result Table :=
  let* columns := decodedColumns (ts_columns t) in
  tableOfChunk (tableResult t columns).

Definition decodedTables (tables : list TableSpec) : Result (list Table) :=
  mapResult decodedTable tables.

(** A run of chunks that [readChunk] reads one after the other from [p]:
    each with its length and its result. *)
Fixpoint reads_seq (readChunk : Z -> Result (ChunkResult * Z)) (p : Z)
    (chunks : list (Z * ChunkResult)) : Prop :=
  match chunks with
  | [] => True
  | (len, result) :: rest =>
      readChunk p = Ok (result, p + len) /\ reads_seq readChunk (p + len) rest
  end.

Definition seqEnd (p : Z) (chunks : list (Z * ChunkResult)) : Z :=
  fold_left (fun q chunk => q + fst chunk) chunks p.

Definition childrenOf (chunks : list (Z * ChunkResult)) (children : Children)
    : Children :=
  fold_left (fun children chunk =>
               setChild children (result_type (snd chunk))
                        (result_value (snd chunk)))
            chunks children.

(** ** db_file_handler.js: the names of files

    loadFile takes a file for a CDB file by its name, and downloadDatabase
    names the file that it hands out after the file that was loaded. *)

(** [name.split('.').pop()]. *)
Definition fileExtension (name : JSString) : JSString :=
  last (split_on 46 name) [].

(** [extension.toLowerCase() === 'cdb'].  No character outside ASCII has
    c, d or b as its lower case, so that the ASCII letters decide. *)
Definition isCDB (name : JSString) : bool :=
  sameText (map lowerAscii (fileExtension name)) (str "cdb").

(** [s.replace(/suffix$/, replacement)] for a literal suffix; [None] where
    the pattern has no match. *)
Fixpoint replaceSuffix (suffix replacement s : JSString)
    : option JSString :=
  if sameText s suffix then Some replacement
  else match s with
       | [] => None
       | c :: rest =>
           match replaceSuffix suffix replacement rest with
           | Some replaced => Some (c :: replaced)
           | None => None
           end
       end.

(** [currentFileName.replace(/\.(sqlite|db)$/, '.cdb')]. *)
Definition cdbDownloadName (currentFileName : JSString) : JSString :=
  match replaceSuffix (str ".sqlite") (str ".cdb") currentFileName with
  | Some name => name
  | None =>
      match replaceSuffix (str ".db") (str ".cdb") currentFileName with
      | Some name => name
      | None => currentFileName
      end
  end.

(** [currentFileName.replace(/\.cdb$/, '.sqlite')]. *)
Definition sqliteDownloadName (currentFileName : JSString) : JSString :=
  match replaceSuffix (str ".cdb") (str ".sqlite") currentFileName with
  | Some name => name
  | None => currentFileName
  end.

(** ** Inputs used in Part II *)

(** A file with one table T (TABLE_ID 3, ROW_COUNT 10, TABLE_FLAGS 65) of
    one column b (COLUMN_INDEX 0, COLUMN_DATA_TYPE 3) whose COLUMN_VALUES
    chunk holds the bytes 0x8D 0x01: ten bit-packed booleans. *)
Definition boolean_column_cdb : list Z :=
  [170; 170; 170; 170; 180; 1; 0; 0; 0; 0; 0; 0; 0; 0; 0; 0; 1; 0; 0; 0; 17;
   0; 0; 0; 99; 121; 97; 110; 105; 100; 101; 32; 100; 97; 116; 97; 98; 97;
   115; 101; 0; 0; 0; 0; 187; 187; 187; 187; 170; 170; 170; 170; 32; 0; 0; 0;
   2; 0; 0; 0; 0; 0; 0; 0; 0; 0; 0; 0; 187; 187; 187; 187; 18; 1; 0; 0; 204;
   204; 204; 204; 170; 170; 170; 170; 96; 1; 0; 0; 1; 0; 0; 0; 0; 0; 0; 0; 0;
   0; 0; 0; 187; 187; 187; 187; 221; 221; 221; 221; 1; 0; 0; 0; 170; 170;
   170; 170; 56; 1; 0; 0; 16; 0; 0; 0; 0; 0; 0; 0; 1; 0; 0; 0; 2; 0; 0; 0;
   84; 0; 0; 0; 187; 187; 187; 187; 170; 170; 170; 170; 32; 0; 0; 0; 21; 0;
   0; 0; 0; 0; 0; 0; 0; 0; 0; 0; 187; 187; 187; 187; 3; 0; 0; 0; 204; 204;
   204; 204; 170; 170; 170; 170; 32; 0; 0; 0; 17; 0; 0; 0; 0; 0; 0; 0; 0; 0;
   0; 0; 187; 187; 187; 187; 10; 0; 0; 0; 204; 204; 204; 204; 170; 170; 170;
   170; 32; 0; 0; 0; 22; 0; 0; 0; 0; 0; 0; 0; 0; 0; 0; 0; 187; 187; 187; 187;
   65; 0; 0; 0; 204; 204; 204; 204; 170; 170; 170; 170; 180; 0; 0; 0; 18; 0;
   0; 0; 0; 0; 0; 0; 0; 0; 0; 0; 187; 187; 187; 187; 221; 221; 221; 221; 1;
   0; 0; 0; 170; 170; 170; 170; 140; 0; 0; 0; 32; 0; 0; 0; 0; 0; 0; 0; 1; 0;
   0; 0; 2; 0; 0; 0; 98; 0; 0; 0; 187; 187; 187; 187; 170; 170; 170; 170; 32;
   0; 0; 0; 36; 0; 0; 0; 0; 0; 0; 0; 0; 0; 0; 0; 187; 187; 187; 187; 0; 0; 0;
   0; 204; 204; 204; 204; 170; 170; 170; 170; 40; 0; 0; 0; 33; 0; 0; 0; 0; 0;
   0; 0; 1; 0; 0; 0; 2; 0; 0; 0; 98; 0; 0; 0; 187; 187; 187; 187; 3; 0; 0; 0;
   204; 204; 204; 204; 170; 170; 170; 170; 32; 0; 0; 0; 34; 0; 0; 0; 0; 0; 0;
   0; 0; 0; 0; 0; 187; 187; 187; 187; 141; 1; 0; 0; 204; 204; 204; 204; 204;
   204; 204; 204; 238; 238; 238; 238; 204; 204; 204; 204; 204; 204; 204; 204;
   238; 238; 238; 238; 204; 204; 204; 204; 204; 204; 204; 204].

(** A file with one table T (TABLE_ID 3, ROW_COUNT 2, TABLE_FLAGS 65) of two
    integer columns: first the column named 2 (COLUMN_INDEX 0, values 10,
    20), then the column named 1 (COLUMN_INDEX 1, values 30, 40). *)
Definition numeric_names_cdb : list Z :=
  [170; 170; 170; 170; 72; 2; 0; 0; 0; 0; 0; 0; 0; 0; 0; 0; 1; 0; 0; 0; 17;
   0; 0; 0; 99; 121; 97; 110; 105; 100; 101; 32; 100; 97; 116; 97; 98; 97;
   115; 101; 0; 0; 0; 0; 187; 187; 187; 187; 170; 170; 170; 170; 32; 0; 0; 0;
   2; 0; 0; 0; 0; 0; 0; 0; 0; 0; 0; 0; 187; 187; 187; 187; 18; 1; 0; 0; 204;
   204; 204; 204; 170; 170; 170; 170; 244; 1; 0; 0; 1; 0; 0; 0; 0; 0; 0; 0;
   0; 0; 0; 0; 187; 187; 187; 187; 221; 221; 221; 221; 1; 0; 0; 0; 170; 170;
   170; 170; 204; 1; 0; 0; 16; 0; 0; 0; 0; 0; 0; 0; 1; 0; 0; 0; 2; 0; 0; 0;
   84; 0; 0; 0; 187; 187; 187; 187; 170; 170; 170; 170; 32; 0; 0; 0; 21; 0;
   0; 0; 0; 0; 0; 0; 0; 0; 0; 0; 187; 187; 187; 187; 3; 0; 0; 0; 204; 204;
   204; 204; 170; 170; 170; 170; 32; 0; 0; 0; 17; 0; 0; 0; 0; 0; 0; 0; 0; 0;
   0; 0; 187; 187; 187; 187; 2; 0; 0; 0; 204; 204; 204; 204; 170; 170; 170;
   170; 32; 0; 0; 0; 22; 0; 0; 0; 0; 0; 0; 0; 0; 0; 0; 0; 187; 187; 187; 187;
   65; 0; 0; 0; 204; 204; 204; 204; 170; 170; 170; 170; 72; 1; 0; 0; 18; 0;
   0; 0; 0; 0; 0; 0; 0; 0; 0; 0; 187; 187; 187; 187; 221; 221; 221; 221; 2;
   0; 0; 0; 170; 170; 170; 170; 144; 0; 0; 0; 32; 0; 0; 0; 0; 0; 0; 0; 1; 0;
   0; 0; 2; 0; 0; 0; 50; 0; 0; 0; 187; 187; 187; 187; 170; 170; 170; 170; 32;
   0; 0; 0; 36; 0; 0; 0; 0; 0; 0; 0; 0; 0; 0; 0; 187; 187; 187; 187; 0; 0; 0;
   0; 204; 204; 204; 204; 170; 170; 170; 170; 40; 0; 0; 0; 33; 0; 0; 0; 0; 0;
   0; 0; 1; 0; 0; 0; 2; 0; 0; 0; 50; 0; 0; 0; 187; 187; 187; 187; 0; 0; 0; 0;
   204; 204; 204; 204; 170; 170; 170; 170; 36; 0; 0; 0; 34; 0; 0; 0; 0; 0; 0;
   0; 0; 0; 0; 0; 187; 187; 187; 187; 10; 0; 0; 0; 20; 0; 0; 0; 204; 204;
   204; 204; 204; 204; 204; 204; 170; 170; 170; 170; 144; 0; 0; 0; 32; 0; 0;
   0; 0; 0; 0; 0; 1; 0; 0; 0; 2; 0; 0; 0; 49; 0; 0; 0; 187; 187; 187; 187;
   170; 170; 170; 170; 32; 0; 0; 0; 36; 0; 0; 0; 0; 0; 0; 0; 0; 0; 0; 0; 187;
   187; 187; 187; 1; 0; 0; 0; 204; 204; 204; 204; 170; 170; 170; 170; 40; 0;
   0; 0; 33; 0; 0; 0; 0; 0; 0; 0; 1; 0; 0; 0; 2; 0; 0; 0; 49; 0; 0; 0; 187;
   187; 187; 187; 0; 0; 0; 0; 204; 204; 204; 204; 170; 170; 170; 170; 36; 0;
   0; 0; 34; 0; 0; 0; 0; 0; 0; 0; 0; 0; 0; 0; 187; 187; 187; 187; 30; 0; 0;
   0; 40; 0; 0; 0; 204; 204; 204; 204; 204; 204; 204; 204; 238; 238; 238;
   238; 204; 204; 204; 204; 204; 204; 204; 204; 238; 238; 238; 238; 204; 204;
   204; 204; 204; 204; 204; 204].

(** What cdbToSQLite makes of [numeric_names_cdb]. *)
Definition numeric_names_db : Database :=
  [ mkSqlTable (str "DB_STRUCTURE")
      [(str "TableName", str "TEXT '274'"); (str "ID", str "INTEGER")]
      [[CText (str "T"); CInt 3]];
    mkSqlTable (str "T")
      [(str "2", str "INTEGER 12288"); (str "1", str "INTEGER 12304")]
      [[CInt 10; CInt 30]; [CInt 20; CInt 40]] ].

(** What sqliteToCDB compresses for [numeric_names_db], and what
    cdbToSQLite makes of that. *)
Definition numeric_names_stream : list Z :=
  Eval vm_compute in
    match sqliteToStream 0 numeric_names_db with
    | Ok stream => stream
    | Err _ => []
    end.

Definition reordered_names_db : Database :=
  [ mkSqlTable (str "DB_STRUCTURE")
      [(str "TableName", str "TEXT '274'"); (str "ID", str "INTEGER")]
      [[CText (str "T"); CInt 3]];
    mkSqlTable (str "T")
      [(str "1", str "INTEGER 12304"); (str "2", str "INTEGER 12288")]
      [[CInt 10; CInt 30]; [CInt 20; CInt 40]] ].

(** A writer driven through a WRAPPER chunk that holds a DATABASE_FLAGS
    chunk. *)
Definition orElse {A : Type} (r : Result A) (default : A) : A :=
  match r with
  | Ok a => a
  | Err _ => default
  end.

Definition nested_writer_open : CDBWriter :=
  write32 274
    (writeChunkOpen DATABASE_FLAGS None
       (writeChunkOpen WRAPPER (Some (str "cyanide database"))
          (new_CDBWriter 16))).

Definition nested_writer_inner : CDBWriter :=
  orElse (writeChunkClose nested_writer_open) nested_writer_open.

Definition nested_writer : CDBWriter :=
  orElse (writeChunkClose nested_writer_inner) nested_writer_inner.

(** A store with one table T whose identifier 5 is not a key of
    TABLE_FLAGS_BY_ID. *)
Definition absent_id_db : Database :=
  [ mkSqlTable (str "DB_STRUCTURE")
      [(str "TableName", str "TEXT '274'"); (str "ID", str "INTEGER")]
      [[CText (str "T"); CInt 5]];
    mkSqlTable (str "T") [(str "c", str "INTEGER 20480")] [[CInt 1]] ].

(** The names of the columns of the tables of a store, in declared
    order, DB_STRUCTURE aside. *)
Definition declaredColumnNames (db : Database) : list (list JSString) :=
  map (fun t => map fst (sql_columns t)) (tl db).

(** A DATABASE_FLAGS chunk of value 274 whose three framing words are
    [b], [s] and [e]. *)
Definition flags_chunk (b s e : Z) : list Z :=
  words [b; 32; DATABASE_FLAGS; 0; 0; s; 274; e].

(** A WRAPPER chunk of 100 bytes holding a TABLE chunk of 40 bytes and a
    DATABASE_FLAGS chunk of 32 bytes.  Every chunk has its three framing
    words and a size that is its extent; the TABLE chunk has no child and
    a body of three zero words (bytes 48 to 59) before its end word. *)
Definition trailing_region_cdb : list Z :=
  words [CHUNK_BEGIN; 100; WRAPPER; 0; 0; CHUNK_SEPARATOR;
         CHUNK_BEGIN; 40; TABLE; 0; 0; CHUNK_SEPARATOR;
         0; 0; 0;
         CHUNK_END;
         CHUNK_BEGIN; 32; DATABASE_FLAGS; 0; 0; CHUNK_SEPARATOR;
         274;
         CHUNK_END;
         CHUNK_END].



(* ================================================================== *)
(** * Part II: properties *)
(* ================================================================== *)

(** ** JavaScript integer conversions *)

Lemma js_and_ones (a k : Z) :
  0 <= k < 32 -> js_and a (Z.ones k) = a mod 2 ^ k.
Proof.
  intros Hk. unfold js_and, ToInt32, ToUint32, two32.
  change 4294967296 with (2 ^ 32).
  assert (Hpow : 0 < 2 ^ k < 2 ^ 32).
  { split; [apply Z.pow_pos_nonneg; lia|].
    apply Z.pow_lt_mono_r; lia. }
  assert (Hones : Z.ones k mod 2 ^ 32 = Z.ones k).
  { apply Z.mod_small. rewrite Z.ones_equiv. lia. }
  rewrite Hones, Z.land_ones by lia.
  assert (Hmm : (a mod 2 ^ 32) mod 2 ^ k = a mod 2 ^ k).
  { replace 32 with ((32 - k) + k) by lia.
    rewrite Z.pow_add_r by lia.
    rewrite Z.mul_comm.
    rewrite Z.rem_mul_r by lia.
    rewrite Z.mul_comm, Z.mod_add by lia.
    apply Z.mod_mod. lia. }
  rewrite Hmm.
  assert (Hr : 0 <= a mod 2 ^ k < 2 ^ k) by (apply Z.mod_pos_bound; lia).
  assert (H31 : 2 ^ k <= 2147483648).
  { change 2147483648 with (2 ^ 31). apply Z.pow_le_mono_r; lia. }
  rewrite (Z.mod_small (a mod 2 ^ k)) by lia.
  destruct (Z.ltb_spec (a mod 2 ^ k) 2147483648); lia.
Qed.

Lemma js_and_15 (a : Z) : js_and a 0xF = a mod 16.
Proof. apply (js_and_ones a 4). lia. Qed.

Lemma js_and_255 (a : Z) : js_and a 0xFF = a mod 256.
Proof. apply (js_and_ones a 8). lia. Qed.

Lemma js_and_3 (a : Z) : js_and a 3 = a mod 4.
Proof. apply (js_and_ones a 2). lia. Qed.

Lemma paddingAt_mod (p : Z) : paddingAt p = (4 - p mod 4) mod 4.
Proof. unfold paddingAt. now rewrite !js_and_3. Qed.

(** ** The metadata codec *)

Lemma land_15 (n : Z) : Z.land n 0xF = n mod 16.
Proof. apply (Z.land_ones n 4). lia. Qed.

Lemma land_255 (n : Z) : Z.land n 0xFF = n mod 256.
Proof. apply (Z.land_ones n 8). lia. Qed.

(** C2. The metadata codec is a bijection on its domain: the unpacking of
    the code agrees with the shift-and-mask formulas, packing the unpacked
    triple of any [N] in [0, 2^32) gives [N] back, and unpacking the packed
    integer of a legal triple gives the triple back. *)
Theorem metadata_codec_bijection (N tableId columnIndex dataType : Z) :
  0 <= N < 2 ^ 32 ->
  0 <= tableId -> 0 <= columnIndex < 256 -> 0 <= dataType < 16 ->
  (cdbDataType N = Z.land N 0xF /\
   cdbColumnIndex N = Z.land (Z.shiftr N 4) 0xFF /\
   cdbTableId N = Z.shiftr N 12 /\
   encodedValue (cdbTableId N) (cdbColumnIndex N) (cdbDataType N) = N)
  /\
  (cdbTableId (encodedValue tableId columnIndex dataType) = tableId /\
   cdbColumnIndex (encodedValue tableId columnIndex dataType) = columnIndex /\
   cdbDataType (encodedValue tableId columnIndex dataType) = dataType).
Proof.
  intros HN Ht Hc Hd.
  unfold cdbDataType, cdbColumnIndex, cdbTableId, encodedValue.
  rewrite !js_and_15, !js_and_255, !land_15, land_255.
  rewrite !Z.shiftr_div_pow2 by lia.
  change (2 ^ 4) with 16. change (2 ^ 12) with 4096. change (256 * 16) with 4096.
  rewrite (Z.mod_mod N 16) by lia.
  rewrite (Z.mod_small dataType 16) by lia.
  repeat split; try reflexivity.
  - pose proof (Z.div_mod N 16 ltac:(lia)).
    pose proof (Z.div_mod (N / 16) 256 ltac:(lia)).
    replace (N / 4096) with (N / 16 / 256)
      by (rewrite Z.div_div by lia; reflexivity).
    lia.
  - symmetry. apply Z.div_unique with (r := columnIndex * 16 + dataType); lia.
  - replace (((tableId * 256 + columnIndex) * 16 + dataType) / 16)
      with (tableId * 256 + columnIndex)
      by (apply Z.div_unique with (r := dataType); lia).
    rewrite Z.add_comm, Z.mod_add by lia. apply Z.mod_small. lia.
  - replace ((tableId * 256 + columnIndex) * 16 + dataType)
      with (dataType + (tableId * 256 + columnIndex) * 16) by lia.
    rewrite Z.mod_add by lia. apply Z.mod_small. lia.
Qed.

Lemma metadata_codec_bijection_witness :
  encodedValue (cdbTableId 12293) (cdbColumnIndex 12293) (cdbDataType 12293)
  = 12293
  /\ cdbColumnIndex (encodedValue 3 7 11) = 7.
Proof.
  pose proof (metadata_codec_bijection 12293 3 7 11
                ltac:(lia) ltac:(lia) ltac:(lia) ltac:(lia)) as H.
  split; [apply H | apply H].
Defined.

(** C9 as stated fails: under the inversion formulas 274 is not the triple
    (1, 1, 2). *)
Lemma annotation_274_is_not_1_1_2 :
  (cdbTableId DB_STRUCTURE_annotation,
   cdbColumnIndex DB_STRUCTURE_annotation,
   cdbDataType DB_STRUCTURE_annotation) <> (1, 1, 2).
Proof. vm_compute. discriminate. Qed.

(** C9, amended. The annotation 274 of DB_STRUCTURE unpacks to table id 0,
    column index 17 and data type 2; the triple (1, 1, 2) packs to 4114. *)
Theorem annotation_274_unpacks_to_0_17_2 :
  (cdbTableId DB_STRUCTURE_annotation,
   cdbColumnIndex DB_STRUCTURE_annotation,
   cdbDataType DB_STRUCTURE_annotation) = (0, 17, 2)
  /\ encodedValue 0 17 2 = DB_STRUCTURE_annotation
  /\ encodedValue 1 1 2 = 4114.
Proof. vm_compute. repeat split. Qed.

(** ** Byte arrays *)

Lemma zlength_nonneg {A : Type} (l : list A) : 0 <= zlength l.
Proof. unfold zlength. lia. Qed.

Lemma zlength_app {A : Type} (l l' : list A) :
  zlength (l ++ l') = zlength l + zlength l'.
Proof. unfold zlength. rewrite length_app. lia. Qed.

Lemma zlength_repeat {A : Type} (a : A) (n : nat) :
  zlength (repeat a n) = Z.of_nat n.
Proof. unfold zlength. now rewrite repeat_length. Qed.

Lemma byteAt_app_zeros (l : list Z) (n : nat) (q : Z) :
  byteAt (l ++ repeat 0 n) q = byteAt l q.
Proof.
  unfold byteAt. destruct (q <? 0); [reflexivity|].
  destruct (Nat.lt_ge_cases (Z.to_nat q) (length l)) as [Hlt | Hge].
  - now rewrite app_nth1.
  - rewrite app_nth2 by lia. rewrite nth_repeat.
    now rewrite (nth_overflow l) by lia.
Qed.

Lemma byteAt_app_l (l l' : list Z) (q : Z) :
  q < zlength l -> byteAt (l ++ l') q = byteAt l q.
Proof.
  unfold byteAt, zlength. intros Hq.
  destruct (Z.ltb_spec q 0); [reflexivity|].
  apply app_nth1. lia.
Qed.

Lemma byteAt_app_r (l l' : list Z) (q : Z) :
  zlength l <= q -> byteAt (l ++ l') q = byteAt l' (q - zlength l).
Proof.
  unfold byteAt, zlength. intros Hq.
  destruct (Z.ltb_spec q 0); [lia|].
  destruct (Z.ltb_spec (q - Z.of_nat (length l)) 0); [lia|].
  rewrite app_nth2 by lia. f_equal. lia.
Qed.

Lemma byteAt_firstn (l : list Z) (n q : Z) :
  q < n -> byteAt (firstn (Z.to_nat n) l) q = byteAt l q.
Proof.
  unfold byteAt. intros Hq.
  destruct (Z.ltb_spec q 0); [reflexivity|].
  rewrite nth_firstn.
  destruct (Nat.ltb_spec (Z.to_nat q) (Z.to_nat n)); [reflexivity | lia].
Qed.

Lemma zlength_firstn (l : list Z) (n : Z) :
  0 <= n <= zlength l -> zlength (firstn (Z.to_nat n) l) = n.
Proof. unfold zlength. intros H. rewrite length_firstn. lia. Qed.

Lemma zlength_setBytes (buf bytes : list Z) (p : Z) :
  0 <= p -> p + zlength bytes <= zlength buf ->
  zlength (setBytes buf p bytes) = zlength buf.
Proof.
  unfold setBytes, zlength. intros Hp Hfit.
  rewrite !length_app, length_firstn, length_skipn. lia.
Qed.

Lemma byteAt_setBytes (buf bytes : list Z) (p q : Z) :
  0 <= p -> p + zlength bytes <= zlength buf ->
  byteAt (setBytes buf p bytes) q =
  if (p <=? q) && (q <? p + zlength bytes)
  then byteAt bytes (q - p) else byteAt buf q.
Proof.
  intros Hp Hfit. unfold setBytes.
  assert (Hlen1 : zlength (firstn (Z.to_nat p) buf) = p).
  { apply zlength_firstn. pose proof (zlength_nonneg bytes). lia. }
  destruct (Z.leb_spec p q) as [Hpq | Hpq]; cbn [andb].
  - rewrite byteAt_app_r by lia. rewrite Hlen1.
    destruct (Z.ltb_spec q (p + zlength bytes)) as [Hin | Hout].
    + apply byteAt_app_l. lia.
    + rewrite byteAt_app_r by lia.
      unfold byteAt, zlength in *.
      destruct (Z.ltb_spec (q - p - Z.of_nat (length bytes)) 0); [lia|].
      destruct (Z.ltb_spec q 0); [lia|].
      rewrite nth_skipn. f_equal. lia.
  - rewrite byteAt_app_l by lia. apply byteAt_firstn. lia.
Qed.

Lemma getUint32_ext (d d' : list Z) (q : Z) :
  (forall i, q <= i < q + 4 -> byteAt d' i = byteAt d i) ->
  getUint32 d' q = getUint32 d q.
Proof.
  intros H. unfold getUint32.
  rewrite (H q), (H (q + 1)), (H (q + 2)), (H (q + 3)) by lia.
  reflexivity.
Qed.

Lemma getUint32_setBytes_apart (buf bytes : list Z) (p q : Z) :
  0 <= p -> p + zlength bytes <= zlength buf ->
  q + 4 <= p \/ p + zlength bytes <= q ->
  getUint32 (setBytes buf p bytes) q = getUint32 buf q.
Proof.
  intros Hp Hfit Hapart. apply getUint32_ext. intros i Hi.
  rewrite byteAt_setBytes by assumption.
  destruct (Z.leb_spec p i), (Z.ltb_spec i (p + zlength bytes));
    cbn [andb]; try reflexivity; lia.
Qed.

Lemma ToUint32_range (v : Z) : 0 <= ToUint32 v < two32.
Proof. unfold ToUint32, two32. apply Z.mod_pos_bound. lia. Qed.

Lemma getUint32_le32 (v : Z) : getUint32 (le32 v) 0 = ToUint32 v.
Proof.
  unfold le32.
  pose proof (ToUint32_range v) as Hr. unfold two32 in Hr.
  set (u := ToUint32 v) in *.
  change (u mod 256 + 256 * ((u / 256) mod 256)
          + 65536 * ((u / 65536) mod 256)
          + 16777216 * ((u / 16777216) mod 256) = u).
  pose proof (Z.div_mod u 256 ltac:(lia)).
  pose proof (Z.div_mod (u / 256) 256 ltac:(lia)).
  pose proof (Z.div_mod (u / 256 / 256) 256 ltac:(lia)).
  replace (u / 65536) with (u / 256 / 256)
    by (rewrite Z.div_div by lia; reflexivity).
  replace (u / 16777216) with (u / 256 / 256 / 256)
    by (rewrite !Z.div_div by lia; reflexivity).
  assert (u / 256 / 256 / 256 < 256).
  { rewrite !Z.div_div by lia. apply Z.div_lt_upper_bound; lia. }
  assert (0 <= u / 256 / 256 / 256).
  { rewrite !Z.div_div by lia. apply Z.div_pos; lia. }
  rewrite (Z.mod_small (u / 256 / 256 / 256)) by lia.
  lia.
Qed.

Lemma zlength_le32 (v : Z) : zlength (le32 v) = 4.
Proof. reflexivity. Qed.

Lemma getUint32_setUint32_same (buf : list Z) (p v : Z) :
  0 <= p -> p + 4 <= zlength buf ->
  getUint32 (setUint32 buf p v) p = ToUint32 v.
Proof.
  intros Hp Hfit. rewrite <- getUint32_le32.
  unfold setUint32, getUint32.
  rewrite !byteAt_setBytes by (rewrite ?zlength_le32; lia).
  rewrite zlength_le32.
  repeat match goal with
  | |- context [(?a <=? ?b) && (?c <? ?d)] =>
      destruct (Z.leb_spec a b); [|lia];
      destruct (Z.ltb_spec c d); [|lia]; cbn [andb]
  end.
  replace (p - p) with 0 by lia.
  replace (p + 1 - p) with (0 + 1) by lia.
  replace (p + 2 - p) with (0 + 2) by lia.
  replace (p + 3 - p) with (0 + 3) by lia.
  reflexivity.
Qed.

Lemma getUint32_setUint32_apart (buf : list Z) (p q v : Z) :
  0 <= p -> p + 4 <= zlength buf ->
  q + 4 <= p \/ p + 4 <= q ->
  getUint32 (setUint32 buf p v) q = getUint32 buf q.
Proof.
  intros. apply getUint32_setBytes_apart; rewrite ?zlength_le32; lia.
Qed.

Lemma zlength_setUint32 (buf : list Z) (p v : Z) :
  0 <= p -> p + 4 <= zlength buf ->
  zlength (setUint32 buf p v) = zlength buf.
Proof. intros. apply zlength_setBytes; rewrite ?zlength_le32; lia. Qed.

Lemma getUint32_firstn (l : list Z) (n q : Z) :
  q + 4 <= n -> getUint32 (firstn (Z.to_nat n) l) q = getUint32 l q.
Proof.
  intros Hq. apply getUint32_ext. intros i Hi. apply byteAt_firstn. lia.
Qed.

(** ** The writer: positions only move forward *)

Lemma extends_refl (w : CDBWriter) : pos_ok w -> extends w w.
Proof. unfold extends, pos_ok. intuition lia. Qed.

Lemma extends_trans (w1 w2 w3 : CDBWriter) :
  extends w1 w2 -> extends w2 w3 -> extends w1 w3.
Proof.
  intros (Hs1 & Hc1 & Hp1 & Hb1) (Hs2 & Hc2 & Hp2 & Hb2).
  repeat split; try congruence; try lia.
  intros q Hq. rewrite Hb2 by lia. now apply Hb1.
Qed.

Lemma extends_pos_ok (w w' : CDBWriter) :
  pos_ok w -> extends w w' -> pos_ok w'.
Proof. unfold pos_ok. intros Hw (_ & _ & Hp & _). lia. Qed.

Lemma extends_getUint32 (w w' : CDBWriter) (q : Z) :
  extends w w' -> q + 4 <= pos w ->
  getUint32 (buffer w') q = getUint32 (buffer w) q.
Proof.
  intros (_ & _ & _ & Hb) Hq. apply getUint32_ext.
  intros i Hi. apply Hb. lia.
Qed.

Lemma ensureCapacity_spec (n : Z) (w : CDBWriter) :
  0 <= n -> pos_ok w ->
  pos (ensureCapacity n w) = pos w /\
  chunkStack (ensureCapacity n w) = chunkStack w /\
  closedChunks (ensureCapacity n w) = closedChunks w /\
  pos w + n <= zlength (buffer (ensureCapacity n w)) /\
  forall q, byteAt (buffer (ensureCapacity n w)) q = byteAt (buffer w) q.
Proof.
  intros Hn Hw. unfold pos_ok in Hw. unfold ensureCapacity.
  destruct (Z.gtb_spec (pos w + n) (zlength (buffer w))) as [Hgrow | Hfit];
    cbn [pos chunkStack closedChunks buffer].
  - repeat split; try reflexivity.
    + rewrite zlength_app, zlength_repeat. lia.
    + intros q. apply byteAt_app_zeros.
  - repeat split; try reflexivity. lia.
Qed.

(** The common shape of [write32], [writeBytes] and the NUL write. *)
Lemma write_run_spec (bytes : list Z) (w : CDBWriter) :
  pos_ok w ->
  let w0 := ensureCapacity (zlength bytes) w in
  let w' := mkWriter (setBytes (buffer w0) (pos w0) bytes)
                     (chunkStack w0) (closedChunks w0)
                     (pos w0 + zlength bytes) in
  extends w w' /\ pos w' = pos w + zlength bytes /\
  forall i, 0 <= i < zlength bytes ->
            byteAt (buffer w') (pos w + i) = byteAt bytes i.
Proof.
  intros Hw w0 w'.
  pose proof (zlength_nonneg bytes) as Hlen.
  destruct (ensureCapacity_spec (zlength bytes) w Hlen Hw)
    as (Hp & Hs & Hc & Hcap & Hb).
  fold w0 in Hp, Hs, Hc, Hcap, Hb.
  unfold pos_ok in Hw. subst w'. cbn [pos buffer chunkStack closedChunks].
  rewrite Hp.
  split; [|split].
  - unfold extends. cbn [pos buffer chunkStack closedChunks].
    rewrite zlength_setBytes by lia.
    repeat split; try assumption; try lia.
    intros q Hq. rewrite byteAt_setBytes by lia.
    destruct (Z.leb_spec (pos w) q); [lia|]. cbn [andb]. apply Hb.
  - reflexivity.
  - intros i Hi. rewrite byteAt_setBytes by lia.
    destruct (Z.leb_spec (pos w) (pos w + i)); [|lia].
    destruct (Z.ltb_spec (pos w + i) (pos w + zlength bytes)); [|lia].
    cbn [andb]. f_equal. lia.
Qed.

Lemma write32_spec (v : Z) (w : CDBWriter) :
  pos_ok w ->
  extends w (write32 v w) /\ pos (write32 v w) = pos w + 4 /\
  getUint32 (buffer (write32 v w)) (pos w) = ToUint32 v.
Proof.
  intros Hw.
  destruct (write_run_spec (le32 v) w Hw) as (He & Hp & Hb).
  rewrite zlength_le32 in *.
  change (mkWriter _ _ _ _) with (write32 v w) in He, Hp, Hb.
  split; [assumption|]. split; [assumption|].
  rewrite <- getUint32_le32. unfold getUint32.
  rewrite <- (Hb 0), <- (Hb (0 + 1)), <- (Hb (0 + 2)), <- (Hb (0 + 3)) by lia.
  repeat f_equal; lia.
Qed.

Lemma writeBytes_spec (bytes : list Z) (w : CDBWriter) :
  pos_ok w ->
  extends w (writeBytes bytes w) /\
  pos (writeBytes bytes w) = pos w + zlength bytes /\
  forall i, 0 <= i < zlength bytes ->
            byteAt (buffer (writeBytes bytes w)) (pos w + i) = byteAt bytes i.
Proof. intros Hw. exact (write_run_spec bytes w Hw). Qed.

Lemma writeNul_spec (w : CDBWriter) :
  pos_ok w ->
  extends w (writeNul w) /\ pos (writeNul w) = pos w + 1 /\
  byteAt (buffer (writeNul w)) (pos w) = 0.
Proof.
  intros Hw. destruct (write_run_spec [0] w Hw) as (He & Hp & Hb).
  change (mkWriter _ _ _ _) with (writeNul w) in He, Hp, Hb.
  split; [assumption|]. split; [assumption|].
  specialize (Hb 0). rewrite Z.add_0_r in Hb. apply Hb. cbn. lia.
Qed.

Lemma paddingAt_range (p : Z) : 0 <= paddingAt p < 4.
Proof. rewrite paddingAt_mod. apply Z.mod_pos_bound. lia. Qed.

Lemma paddingAt_aligned (p : Z) : (p + paddingAt p) mod 4 = 0.
Proof.
  rewrite paddingAt_mod.
  pose proof (Z.mod_pos_bound p 4 ltac:(lia)) as Hr.
  pose proof (Z.div_mod p 4 ltac:(lia)) as Hp.
  destruct (Z.eq_dec (p mod 4) 0) as [H0 | Hn0].
  - rewrite H0. cbn. rewrite Z.add_0_r. assumption.
  - rewrite (Z.mod_small (4 - p mod 4)) by lia.
    replace (p + (4 - p mod 4)) with ((p / 4 + 1) * 4) by lia.
    apply Z.mod_mul. lia.
Qed.

Lemma aligned_add4 (p : Z) : p mod 4 = 0 -> (p + 4) mod 4 = 0.
Proof.
  intros H. rewrite <- Z.add_mod_idemp_l by lia. rewrite H. reflexivity.
Qed.

Lemma paddingAt_of_aligned (p : Z) : p mod 4 = 0 -> paddingAt p = 0.
Proof. intros H. rewrite paddingAt_mod, H. reflexivity. Qed.

Lemma writePadding_spec (w : CDBWriter) :
  pos_ok w ->
  extends w (writePadding w) /\
  pos (writePadding w) = pos w + paddingAt (pos w).
Proof.
  intros Hw. unfold writePadding.
  pose proof (paddingAt_range (pos w)) as Hr.
  destruct (Z.gtb_spec (paddingAt (pos w)) 0) as [Hpad | Hnopad].
  - destruct (ensureCapacity_spec (paddingAt (pos w)) w ltac:(lia) Hw)
      as (Hp & Hs & Hc & Hcap & Hb).
    cbn [pos]. rewrite Hp. split; [|reflexivity].
    unfold extends, pos_ok in *. cbn [pos buffer chunkStack closedChunks].
    repeat split; try assumption; try lia.
    intros q _. apply Hb.
  - split; [apply extends_refl; assumption | lia].
Qed.

Lemma writeDescription_spec (descBytes : list Z) (present : bool)
    (w : CDBWriter) :
  pos_ok w ->
  let w' := if present then
              writeNul (writeBytes descBytes
                          (write32 (zlength descBytes + 1) w))
            else w in
  extends w w'.
Proof.
  intros Hw. destruct present; cbn zeta.
  - destruct (write32_spec (zlength descBytes + 1) w Hw) as (E1 & _ & _).
    pose proof (extends_pos_ok _ _ Hw E1) as Hw1.
    destruct (writeBytes_spec descBytes _ Hw1) as (E2 & _ & _).
    pose proof (extends_pos_ok _ _ Hw1 E2) as Hw2.
    destruct (writeNul_spec _ Hw2) as (E3 & _ & _).
    eauto using extends_trans.
  - now apply extends_refl.
Qed.

Lemma writeChunkOpen_spec (chunkType : Z) (description : option JSString)
    (w : CDBWriter) :
  pos_ok w ->
  exists w1,
    extends w w1 /\ pos w + 24 <= pos w1 /\ pos w1 mod 4 = 0 /\
    getUint32 (buffer w1) (pos w) = CHUNK_BEGIN /\
    writeChunkOpen chunkType description w =
    mkWriter (buffer w1) (mkOpen chunkType (pos w) :: chunkStack w)
             (closedChunks w) (pos w1).
Proof.
  intros Hw. unfold writeChunkOpen.
  destruct (write32_spec CHUNK_BEGIN w Hw) as (E1 & P1 & V1).
  set (w1 := write32 CHUNK_BEGIN w) in *.
  pose proof (extends_pos_ok _ _ Hw E1) as Hw1.
  destruct (write32_spec 0 w1 Hw1) as (E2 & P2 & _).
  set (w2 := write32 0 w1) in *.
  pose proof (extends_pos_ok _ _ Hw1 E2) as Hw2.
  destruct (write32_spec chunkType w2 Hw2) as (E3 & P3 & _).
  set (w3 := write32 chunkType w2) in *.
  pose proof (extends_pos_ok _ _ Hw2 E3) as Hw3.
  destruct (write32_spec 0 w3 Hw3) as (E4 & P4 & _).
  set (w4 := write32 0 w3) in *.
  pose proof (extends_pos_ok _ _ Hw3 E4) as Hw4.
  set (flag := if truthy description then 1 else 0).
  destruct (write32_spec flag w4 Hw4) as (E5 & P5 & _).
  set (w5 := write32 flag w4) in *.
  pose proof (extends_pos_ok _ _ Hw4 E5) as Hw5.
  set (descBytes := TextEncoder_encode
                      match description with Some d => d | None => [] end).
  pose proof (writeDescription_spec descBytes (truthy description) w5 Hw5)
    as E6.
  cbn zeta in E6.
  set (w6 := if truthy description then
               writeNul (writeBytes descBytes
                           (write32 (zlength descBytes + 1) w5))
             else w5) in *.
  pose proof (extends_pos_ok _ _ Hw5 E6) as Hw6.
  destruct (writePadding_spec w6 Hw6) as (E7 & P7).
  set (w7 := writePadding w6) in *.
  pose proof (extends_pos_ok _ _ Hw6 E7) as Hw7.
  destruct (write32_spec CHUNK_SEPARATOR w7 Hw7) as (E8 & P8 & _).
  set (w8 := write32 CHUNK_SEPARATOR w7) in *.
  assert (E18 : extends w1 w8) by eauto 10 using extends_trans.
  assert (E08 : extends w w8) by eauto using extends_trans.
  exists w8. split; [assumption|].
  assert (Hpos : pos w + 24 <= pos w8).
  { destruct E6 as (_ & _ & ? & _), E7 as (_ & _ & ? & _). lia. }
  split; [assumption|]. split.
  { rewrite P8, P7. pose proof (paddingAt_aligned (pos w6)) as Ha.
    rewrite <- Z.add_mod_idemp_l by lia. rewrite Ha. reflexivity. }
  split.
  - rewrite (extends_getUint32 w1 w8) by (assumption || lia).
    rewrite V1. reflexivity.
  - destruct E08 as (Hs & Hc & _ & _). now rewrite Hs, Hc.
Qed.

Lemma writeChunkClose_spec (w w' : CDBWriter) :
  pos_ok w -> writeChunkClose w = Ok w' ->
  exists chunk rest w1,
    chunkStack w = chunk :: rest /\
    extends w w1 /\ pos w1 = pos w + paddingAt (pos w) + 4 /\
    getUint32 (buffer w1) (pos w1 - 4) = CHUNK_END /\
    w' = mkWriter (buffer w1) rest
           (closedChunks w
            ++ [mkClosed (o_type chunk) (o_startPos chunk)
                         (pos w1 - o_startPos chunk)])
           (pos w1).
Proof.
  intros Hw Hclose. unfold writeChunkClose in Hclose.
  destruct (chunkStack w) as [|chunk rest] eqn:Hstack; [discriminate|].
  destruct (writePadding_spec w Hw) as (E1 & P1).
  set (w1 := writePadding w) in *.
  pose proof (extends_pos_ok _ _ Hw E1) as Hw1.
  destruct (write32_spec CHUNK_END w1 Hw1) as (E2 & P2 & V2).
  set (w2 := write32 CHUNK_END w1) in *.
  pose proof (paddingAt_range (pos w)).
  exists chunk, rest, w2.
  assert (E02 : extends w w2) by eauto using extends_trans.
  split; [reflexivity|]. split; [assumption|].
  split; [lia|]. split.
  - replace (pos w2 - 4) with (pos w1) by lia. rewrite V2. reflexivity.
  - destruct E02 as (_ & Hc & _ & _). rewrite <- Hc.
    injection Hclose as <-. reflexivity.
Qed.

(** ** The writer invariant *)

Lemma FOP_app_single {A : Type} (R : A -> A -> Prop) (l : list A) (x : A) :
  ForallOrdPairs R l -> Forall (fun a => R a x) l ->
  ForallOrdPairs R (l ++ [x]).
Proof.
  induction 1 as [|a l Ha Hl IH]; intros Hx; cbn.
  - constructor; constructor.
  - inversion Hx as [|? ? Hax Hlx]; subst. constructor.
    + apply Forall_app. split; [assumption | constructor; [assumption|constructor]].
    + now apply IH.
Qed.

Lemma writer_inv_new (estimatedSize : Z) :
  writer_inv (new_CDBWriter estimatedSize).
Proof.
  constructor; cbn [new_CDBWriter buffer chunkStack closedChunks pos];
    try (constructor; fail).
  unfold pos_ok. cbn [new_CDBWriter buffer pos].
  pose proof (zlength_nonneg (repeat 0 (Z.to_nat estimatedSize))). lia.
Qed.

Lemma closed_ok_extends (w w' : CDBWriter) (c : ClosedChunk) :
  extends w w' -> closed_ok w c -> closed_ok w' c.
Proof.
  intros E (H0 & H12 & Hend & Hb & He).
  pose proof E as (_ & _ & Hp & _).
  unfold closed_ok.
  rewrite !(extends_getUint32 w w') by (assumption || lia).
  repeat split; try assumption; lia.
Qed.

Lemma open_ok_extends (w w' : CDBWriter) (o : OpenChunk) :
  extends w w' -> open_ok w o -> open_ok w' o.
Proof.
  intros E (H0 & H8 & Hb).
  pose proof E as (_ & _ & Hp & _).
  unfold open_ok.
  rewrite !(extends_getUint32 w w') by (assumption || lia).
  repeat split; try assumption; lia.
Qed.

Lemma writer_inv_extends (w w' : CDBWriter) :
  writer_inv w -> extends w w' -> writer_inv w'.
Proof.
  intros [Hpos Hcl Hop Hca Hoa Hco Hes] E.
  pose proof E as (Hs & Hc & _ & _).
  constructor; rewrite ?Hs, ?Hc; try assumption.
  - eapply extends_pos_ok; eassumption.
  - eapply Forall_impl; [|exact Hcl]. intros c. now apply closed_ok_extends.
  - eapply Forall_impl; [|exact Hop]. intros o. now apply open_ok_extends.
Qed.

Lemma writer_inv_open (chunkType : Z) (description : option JSString)
    (w : CDBWriter) :
  writer_inv w -> writer_inv (writeChunkOpen chunkType description w).
Proof.
  intros Hinv.
  destruct (writeChunkOpen_spec chunkType description w (inv_pos w Hinv))
    as (w1 & E & Hp24 & _ & Hbegin & ->).
  pose proof (writer_inv_extends w w1 Hinv E) as
    [Hpos1 Hcl1 Hop1 Hca1 Hoa1 Hco1 Hes1].
  destruct Hinv as [Hpos Hcl Hop Hca Hoa Hco Hes].
  pose proof E as (Hs & Hc & _ & _). rewrite Hs in *. rewrite Hc in *.
  unfold pos_ok in Hpos.
  constructor; cbn [buffer chunkStack closedChunks pos]; try assumption.
  - constructor; [|assumption].
    unfold open_ok. cbn [buffer pos o_startPos]. repeat split; lia.
  - constructor; [|assumption].
    eapply Forall_impl; [|exact Hop]. cbn [o_startPos].
    intros o (_ & H8 & _). unfold headers_apart. lia.
  - rewrite Forall_forall in *. intros c Hin. constructor.
    + destruct (Hcl c Hin) as (_ & H12 & Hend & _). cbn [o_startPos].
      unfold headers_apart, end_clear_of_slot. lia.
    + apply Hco. assumption.
Qed.

Lemma writer_inv_close (w w' : CDBWriter) :
  writer_inv w -> writeChunkClose w = Ok w' -> writer_inv w'.
Proof.
  intros Hinv Hclose.
  destruct (writeChunkClose_spec w w' (inv_pos w Hinv) Hclose)
    as (chunk & rest & w1 & Hstack & E & Hp4' & Hend & ->).
  assert (Hp4 : pos w + 4 <= pos w1)
    by (pose proof (paddingAt_range (pos w)); lia).
  pose proof (writer_inv_extends w w1 Hinv E) as
    [Hpos1 Hcl1 Hop1 Hca1 Hoa1 Hco1 Hes1].
  destruct Hinv as [Hpos Hcl Hop Hca Hoa Hco Hes].
  pose proof E as (Hs & Hc & _ & _). rewrite Hs in *. rewrite Hc in *.
  rewrite Hstack in *.
  inversion Hop as [|? ? Hchunk Hrest]; subst.
  inversion Hop1 as [|? ? Hchunk1 Hrest1]; subst.
  inversion Hoa as [|? ? Hchunk_rest Hrest_apart]; subst.
  destruct Hchunk as (Hs0 & Hs8 & _). destruct Hchunk1 as (_ & _ & Hbegin1).
  set (cnew := mkClosed (o_type chunk) (o_startPos chunk)
                        (pos w1 - o_startPos chunk)).
  assert (Hcend : c_end cnew = pos w1) by (unfold c_end; cbn; lia).
  constructor; cbn [buffer chunkStack closedChunks pos]; try assumption.
  - apply Forall_app. split; [assumption|]. constructor; [|constructor].
    unfold closed_ok. rewrite Hcend. cbn [c_startPos cnew buffer pos].
    repeat split; try lia; assumption.
  - apply FOP_app_single; [assumption|].
    eapply Forall_impl; [|exact Hco]. intros c Hc0.
    inversion Hc0 as [|? ? (Hap & _) _]; subst. exact Hap.
  - apply Forall_app. split.
    + eapply Forall_impl; [|exact Hco]. intros c Hc0.
      inversion Hc0; subst; assumption.
    + constructor; [|constructor].
      rewrite Forall_forall in *. intros o Hin.
      destruct (Hrest o Hin) as (_ & Ho8 & _).
      split; [apply Hchunk_rest; assumption|].
      rewrite Hcend. unfold end_clear_of_slot. lia.
  - apply Forall_app. split.
    + rewrite Forall_forall in *. intros c Hin.
      apply Forall_app. split.
      * apply Hes. assumption.
      * constructor; [|constructor].
        specialize (Hco c Hin). inversion Hco as [|? ? (_ & Hclear) _]; subst.
        exact Hclear.
    + constructor; [|constructor]. rewrite Hcend.
      apply Forall_app. split.
      * eapply Forall_impl; [|exact Hcl].
        intros d (_ & H12 & Hdend & _).
        unfold end_clear_of_slot, c_end in *. lia.
      * constructor; [|constructor].
        unfold end_clear_of_slot. cbn [c_startPos cnew]. lia.
Qed.

Lemma produced_inv (w : CDBWriter) : produced w -> writer_inv w.
Proof.
  induction 1 as [n | w v _ IH | w bs _ IH | w _ IH | w _ IH
                  | w t d _ IH | w w' _ IH Hclose].
  - apply writer_inv_new.
  - eapply writer_inv_extends; [exact IH|]. apply write32_spec, IH.
  - eapply writer_inv_extends; [exact IH|]. apply writeBytes_spec, IH.
  - eapply writer_inv_extends; [exact IH|]. apply writeNul_spec, IH.
  - eapply writer_inv_extends; [exact IH|]. apply writePadding_spec, IH.
  - now apply writer_inv_open.
  - eapply writer_inv_close; eassumption.
Qed.

(** ** Back-patching the size slots *)

Lemma patchSizes_zlength (closed : list ClosedChunk) (buf : list Z) :
  Forall (fun d => 0 <= c_startPos d /\ c_startPos d + 8 <= zlength buf)
         closed ->
  zlength (patchSizes closed buf) = zlength buf.
Proof.
  revert buf. induction closed as [|d closed IH]; intros buf Hb; cbn.
  - reflexivity.
  - inversion Hb as [|? ? (Hd0 & Hd8) Hrest]; subst.
    change (zlength (patchSizes closed
              (setUint32 buf (c_startPos d + 4) (c_size d))) = zlength buf).
    rewrite IH; rewrite zlength_setUint32 by lia; [reflexivity | assumption].
Qed.

Lemma patchSizes_frame (closed : list ClosedChunk) (buf : list Z) (q : Z) :
  Forall (fun d => 0 <= c_startPos d /\ c_startPos d + 8 <= zlength buf)
         closed ->
  Forall (fun d => q <= c_startPos d \/ c_startPos d + 8 <= q) closed ->
  getUint32 (patchSizes closed buf) q = getUint32 buf q.
Proof.
  revert buf. induction closed as [|d closed IH]; intros buf Hb Hq; cbn.
  - reflexivity.
  - inversion Hb as [|? ? (Hd0 & Hd8) Hrest]; subst.
    inversion Hq as [|? ? Hqd Hqrest]; subst.
    change (getUint32 (patchSizes closed
              (setUint32 buf (c_startPos d + 4) (c_size d))) q
            = getUint32 buf q).
    rewrite IH; rewrite ?zlength_setUint32 by lia; try assumption.
    apply getUint32_setUint32_apart; lia.
Qed.

Lemma patchSizes_slot (closed : list ClosedChunk) (buf : list Z)
    (c : ClosedChunk) :
  ForallOrdPairs (fun c d => headers_apart (c_startPos c) (c_startPos d))
                 closed ->
  Forall (fun d => 0 <= c_startPos d /\ c_startPos d + 8 <= zlength buf)
         closed ->
  In c closed ->
  getUint32 (patchSizes closed buf) (c_startPos c + 4) = ToUint32 (c_size c).
Proof.
  intros Hap. revert buf.
  induction Hap as [|d closed Hd Hap IH]; intros buf Hb Hin.
  - destruct Hin.
  - inversion Hb as [|? ? (Hd0 & Hd8) Hrest]; subst.
    change (getUint32 (patchSizes closed
              (setUint32 buf (c_startPos d + 4) (c_size d)))
              (c_startPos c + 4) = ToUint32 (c_size c)).
    assert (Hrest' : Forall (fun d0 => 0 <= c_startPos d0 /\
              c_startPos d0 + 8 <=
              zlength (setUint32 buf (c_startPos d + 4) (c_size d))) closed)
      by (rewrite zlength_setUint32 by lia; assumption).
    destruct Hin as [<- | Hin].
    + rewrite patchSizes_frame; [| assumption |].
      * apply getUint32_setUint32_same; lia.
      * eapply Forall_impl; [|exact Hd]. unfold headers_apart. intros; lia.
    + now apply IH.
Qed.

(** C5. In the stream [getData] returns, every closed chunk of a writer
    driven through its methods has its begin-magic at its start offset, its
    end-magic in the last word of its extent, and in the size slot after the
    begin-magic the number of bytes from the begin-magic through the
    end-magic inclusive; this holds for nested chunks as for any other.  The
    stream is taken to be shorter than 2^32 bytes, the range of the slot. *)
Theorem size_field_is_chunk_extent (w : CDBWriter) (chunk : ClosedChunk) :
  produced w -> pos w < 2 ^ 32 -> In chunk (closedChunks w) ->
  chunk_framed (getData w) chunk.
Proof.
  intros Hprod H32 Hin.
  destruct (produced_inv w Hprod) as [Hpos Hcl Hop Hca Hoa Hco Hes].
  unfold pos_ok in Hpos.
  assert (Hbounds : Forall (fun d => 0 <= c_startPos d /\
                      c_startPos d + 8 <= zlength (buffer w)) (closedChunks w)).
  { eapply Forall_impl; [|exact Hcl].
    intros d (? & ? & ? & _). unfold c_end in *. lia. }
  rewrite Forall_forall in Hcl, Hes.
  destruct (Hcl chunk Hin) as (H0 & H12 & Hend & Hb & He).
  unfold c_end in *.
  unfold chunk_framed, getData.
  rewrite zlength_firstn by (rewrite patchSizes_zlength by assumption; lia).
  rewrite !getUint32_firstn by lia.
  repeat split; try lia.
  - rewrite patchSizes_frame; [assumption | assumption |].
    apply Forall_forall. intros d Hd.
    destruct (ForallOrdPairs_In Hca chunk d Hin Hd) as [<- | [H | H]];
      unfold headers_apart in *; lia.
  - rewrite patchSizes_slot by assumption.
    unfold ToUint32, two32. apply Z.mod_small.
    change 4294967296 with (2 ^ 32). lia.
  - rewrite patchSizes_frame; [assumption | assumption |].
    apply Forall_forall. intros d Hd.
    specialize (Hes chunk Hin). rewrite Forall_forall in Hes.
    specialize (Hes d Hd). unfold end_clear_of_slot, c_end in Hes. lia.
Qed.

Lemma size_field_is_chunk_extent_witness :
  chunk_framed (getData nested_writer) (mkClosed DATABASE_FLAGS 48 32)
  /\ chunk_framed (getData nested_writer) (mkClosed WRAPPER 0 84).
Proof.
  assert (Hprod : produced nested_writer).
  { apply produced_close with (w := nested_writer_inner);
      [|vm_compute; reflexivity].
    apply produced_close with (w := nested_writer_open);
      [|vm_compute; reflexivity].
    apply produced_write32, produced_open, produced_open, produced_new. }
  assert (H32 : pos nested_writer < 2 ^ 32) by (vm_compute; reflexivity).
  assert (Hflags : In (mkClosed DATABASE_FLAGS 48 32)
                      (closedChunks nested_writer))
    by (vm_compute; left; reflexivity).
  assert (Hwrapper : In (mkClosed WRAPPER 0 84) (closedChunks nested_writer))
    by (vm_compute; right; left; reflexivity).
  split.
  - exact (size_field_is_chunk_extent nested_writer _ Hprod H32 Hflags).
  - exact (size_field_is_chunk_extent nested_writer _ Hprod H32 Hwrapper).
Defined.

(** ** Data types the decoder accepts *)

(** C3, at the input where the code departs from it: a column of booleans
    (data type 3), documented in CDB_FORMAT.md as bit-packed values that the
    reader unpacks, makes the decoder throw 'Unknown data type: 3'; so do the
    data types 4 and 5. *)
Theorem boolean_column_is_rejected :
  cdbToSQLite stored_inflate boolean_column_cdb
  = Err (UnknownDataType (Some 3))
  /\ convertColumnData [(COLUMN_VALUES, VWords [0x18D]);
                        (COLUMN_DATA_TYPE, VNumber 3)]
     = Err (UnknownDataType (Some 3))
  /\ convertColumnData [(COLUMN_VALUES, VWords [0x7F80]);
                        (COLUMN_DATA_TYPE, VNumber 4)]
     = Err (UnknownDataType (Some 4))
  /\ convertColumnData [(COLUMN_VALUES, VWords [0xFFFF0001]);
                        (COLUMN_DATA_TYPE, VNumber 5)]
     = Err (UnknownDataType (Some 5)).
Proof.
  split; [vm_compute; reflexivity|].
  split; [vm_compute; reflexivity|].
  split; vm_compute; reflexivity.
Qed.

(** ** Column order on encode *)

(** C6, at the input where the code departs from it: a table whose columns
    are named 2 and 1, in this order, is decoded with its columns in this
    order and encoded with the column named 1 first, Object.keys listing
    array indices in ascending order; the values follow the position, so
    that the column named 1 is written with the values of the column
    named 2. *)
Theorem numeric_column_names_are_reordered :
  cdbToSQLite stored_inflate numeric_names_cdb = Ok numeric_names_db
  /\ declaredColumnNames numeric_names_db = [[str "2"; str "1"]]
  /\ sqliteToStream 0 numeric_names_db = Ok numeric_names_stream
  /\ cdbToSQLite stored_inflate numeric_names_stream = Ok reordered_names_db
  /\ declaredColumnNames reordered_names_db = [[str "1"; str "2"]]
  /\ map sql_rows reordered_names_db = map sql_rows numeric_names_db.
Proof.
  split; [vm_compute; reflexivity|].
  split; [vm_compute; reflexivity|].
  split; [vm_compute; reflexivity|].
  split; [vm_compute; reflexivity|].
  split; vm_compute; reflexivity.
Qed.

(** ** Table identifiers without a TABLE_FLAGS value *)






(** ** The reader: elementary reads *)

Ltac bind_ok H :=
  match type of H with
  | bind ?e _ = Ok _ =>
      let r := fresh "r" in
      let E := fresh "E" in
      destruct e as [r|] eqn:E; [cbn [bind] in H | discriminate H]
  end.

Tactic Notation "bind_inv" hyp(H) "as" ident(a) ident(p) ident(E) :=
  match type of H with
  | bind ?e _ = Ok _ =>
      destruct e as [[a p]|] eqn:E; [cbn [bind] in H | discriminate H]
  end.

Lemma read32_inv (d : list Z) (p v p' : Z) :
  read32 d p = Ok (v, p') ->
  p' = p + 4 /\ p + 4 <= zlength d /\ v = getUint32 d p.
Proof.
  unfold read32.
  destruct (Z.gtb_spec (p + 4) (zlength d)) as [Hgt | Hle]; [discriminate|].
  intros Hr. injection Hr as <- <-. repeat split; lia.
Qed.


Lemma read32_agree (lo hi p : Z) (d d' : list Z) :
  agree_range lo hi d d' -> lo <= p -> p + 4 <= hi ->
  read32 d' p = read32 d p.
Proof.
  intros (Hlen & Hb) Hlo Hhi. unfold read32. rewrite Hlen.
  destruct (p + 4 >? zlength d); [reflexivity|].
  rewrite (getUint32_ext d d' p); [reflexivity|].
  intros i Hi. apply Hb. lia.
Qed.

(** A word that is read and dropped: only the length matters. *)
Lemma read32_skip (d d' : list Z) (p v p' : Z) :
  zlength d' = zlength d -> read32 d p = Ok (v, p') ->
  exists v', read32 d' p = Ok (v', p').
Proof.
  intros Hlen Hr. apply read32_inv in Hr as (-> & Hfit & _).
  unfold read32. rewrite Hlen.
  destruct (Z.gtb_spec (p + 4) (zlength d)) as [Hgt | Hle]; [lia|]. eauto.
Qed.

Lemma readBytes_inv (d : list Z) (n p p' : Z) (bytes : list Z) :
  readBytes d n p = Ok (bytes, p') ->
  0 <= n /\ p' = p + n /\ p + n <= zlength d /\ bytes = subarray d p n.
Proof.
  unfold readBytes.
  destruct (Z.gtb_spec (p + n) (zlength d)) as [Hgt | Hle]; [discriminate|].
  destruct (Z.ltb_spec n 0) as [Hneg | Hnn]; [discriminate|].
  intros Hr. injection Hr as <- <-. repeat split; lia.
Qed.


Lemma subarray_agree (lo hi p n : Z) (d d' : list Z) :
  agree_range lo hi d d' -> 0 <= p -> lo <= p -> p + n <= hi ->
  subarray d' p n = subarray d p n.
Proof.
  intros (Hlen & Hb) Hp Hlo Hhi. unfold subarray.
  assert (Hlen' : length d' = length d) by (unfold zlength in Hlen; lia).
  apply nth_ext with (d := 0) (d' := 0).
  - rewrite !length_firstn, !length_skipn. lia.
  - intros i _. rewrite !nth_firstn.
    destruct (Nat.ltb_spec i (Z.to_nat n)); [|reflexivity].
    rewrite !nth_skipn.
    specialize (Hb (p + Z.of_nat i) ltac:(lia)).
    unfold byteAt in Hb.
    destruct (Z.ltb_spec (p + Z.of_nat i) 0); [lia|].
    replace (Z.to_nat (p + Z.of_nat i)) with (Z.to_nat p + i)%nat in Hb by lia.
    exact Hb.
Qed.

Lemma readBytes_agree (lo hi p n : Z) (d d' : list Z) :
  agree_range lo hi d d' -> 0 <= p -> lo <= p -> p + n <= hi ->
  readBytes d' n p = readBytes d n p.
Proof.
  intros Ha Hp Hlo Hhi. unfold readBytes.
  rewrite (subarray_agree lo hi p n d d') by assumption.
  destruct Ha as (-> & _). reflexivity.
Qed.

Lemma agree_range_narrow (lo hi lo' hi' : Z) (d d' : list Z) :
  agree_range lo hi d d' -> lo <= lo' -> hi' <= hi ->
  agree_range lo' hi' d d'.
Proof.
  intros (Hlen & Hb) Hlo Hhi. split; [assumption|].
  intros q Hq. apply Hb. lia.
Qed.

Lemma readPadding_range (p : Z) : p <= readPadding p < p + 4.
Proof. unfold readPadding. pose proof (paddingAt_range p). lia. Qed.

Lemma readPadding_aligned (p : Z) : readPadding p mod 4 = 0.
Proof. apply paddingAt_aligned. Qed.

(** ** The reader: chunk headers *)

Lemma readDescription_inv (d : list Z) (hasDescription p p' : Z)
    (description : option JSString) :
  (if hasDescription =? 0 then Ok (None, p)
   else
     let* (descLength, pos) := read32 d p in
     let* (descBytes, pos) := readBytes d (descLength - 1) pos in
     Ok (Some (TextDecoder_decode descBytes), pos + 1))
  = Ok (description, p') ->
  p <= p' /\
  (hasDescription = 0 /\ description = None /\ p' = p
   \/ hasDescription <> 0 /\ p + 4 <= zlength d /\
      1 <= getUint32 d p /\ p' = p + 4 + getUint32 d p /\
      p' - 1 <= zlength d /\
      description
      = Some (TextDecoder_decode (subarray d (p + 4) (getUint32 d p - 1)))).
Proof.
  destruct (Z.eqb_spec hasDescription 0) as [Hz | Hnz]; intros H.
  - injection H as <- <-. split; [lia|]. left. auto.
  - bind_inv H as descLength p1 E1.
    apply read32_inv in E1 as (-> & Hfit & ->).
    bind_inv H as descBytes p2 E2.
    apply readBytes_inv in E2 as (Hlen & -> & Hfit2 & ->).
    injection H as <- <-. split; [lia|]. right.
    repeat split; try assumption; lia.
Qed.

Lemma readChunkHeader_inv (d : list Z) (p p' : Z) (h : Header) :
  readChunkHeader d p = Ok (h, p') ->
  p + 24 <= p' <= zlength d /\ p' mod 4 = 0 /\
  chunkSize h = getUint32 d (p + 4) /\ chunkType h = getUint32 d (p + 8).
Proof.
  unfold readChunkHeader. intros H.
  bind_inv H as v0 p0 E0. apply read32_inv in E0 as (-> & _ & _).
  bind_inv H as v1 p1 E1. apply read32_inv in E1 as (-> & _ & ->).
  bind_inv H as v2 p2 E2. apply read32_inv in E2 as (-> & _ & ->).
  bind_inv H as v3 p3 E3. apply read32_inv in E3 as (-> & _ & _).
  bind_inv H as v4 p4 E4. apply read32_inv in E4 as (-> & _ & _).
  bind_inv H as desc p5 E5. apply readDescription_inv in E5 as (Hp5 & _).
  bind_inv H as v6 p6 E6. apply read32_inv in E6 as (-> & Hfit & _).
  injection H as <- <-. cbn [chunkSize chunkType].
  pose proof (readPadding_range p5).
  repeat split; try lia.
  - apply aligned_add4, readPadding_aligned.
  - f_equal; lia.
Qed.



(** The header read does not look at the begin-magic and the
    separator-magic: any words may stand in their places. *)
Lemma readChunkHeader_agree (d d' : list Z) (p p1 : Z) (h : Header) :
  readChunkHeader d p = Ok (h, p1) -> 0 <= p ->
  zlength d' = zlength d ->
  (forall q, p + 4 <= q < p1 - 4 -> byteAt d' q = byteAt d q) ->
  readChunkHeader d' p = Ok (h, p1).
Proof.
  intros H Hp Hlen Hb.
  pose proof (readChunkHeader_inv d p p1 h H) as (Hp1 & _).
  assert (Ha : agree_range (p + 4) (p1 - 4) d d') by (split; assumption).
  unfold readChunkHeader in *.
  bind_inv H as v0 p0 E0.
  destruct (read32_skip d d' _ _ _ Hlen E0) as (v0' & E0'). rewrite E0'.
  cbn [bind]. apply read32_inv in E0 as (-> & _ & _).
  rewrite (read32_agree (p + 4) (p1 - 4) (p + 4) d d') by (assumption || lia).
  bind_inv H as v1 q1 E1. cbn [bind].
  apply read32_inv in E1 as (-> & _ & ->).
  rewrite (read32_agree (p + 4) (p1 - 4) (p + 4 + 4) d d')
    by (assumption || lia).
  bind_inv H as v2 q2 E2. cbn [bind].
  apply read32_inv in E2 as (-> & _ & ->).
  rewrite (read32_agree (p + 4) (p1 - 4) (p + 4 + 4 + 4) d d')
    by (assumption || lia).
  bind_inv H as v3 q3 E3. cbn [bind].
  apply read32_inv in E3 as (-> & _ & ->).
  rewrite (read32_agree (p + 4) (p1 - 4) (p + 4 + 4 + 4 + 4) d d')
    by (assumption || lia).
  bind_inv H as v4 q4 E4. cbn [bind].
  apply read32_inv in E4 as (-> & _ & ->).
  bind_inv H as desc q5 E5.
  bind_inv H as v6 q6 E6.
  pose proof (read32_inv _ _ _ _ E6) as (-> & _ & _).
  injection H as <- Hq6.
  pose proof (readPadding_range q5) as Hpad.
  assert (E5' :
    (if getUint32 d (p + 4 + 4 + 4 + 4) =? 0
     then Ok (None, p + 4 + 4 + 4 + 4 + 4)
     else
       let* (descLength, pos) := read32 d' (p + 4 + 4 + 4 + 4 + 4) in
       let* (descBytes, pos) := readBytes d' (descLength - 1) pos in
       Ok (Some (TextDecoder_decode descBytes), pos + 1))
    = Ok (desc, q5)).
  { pose proof (readDescription_inv _ _ _ _ _ E5) as (_ & Hdesc).
    destruct (Z.eqb_spec (getUint32 d (p + 4 + 4 + 4 + 4)) 0) as [Hz | Hnz];
      [exact E5|].
    destruct Hdesc as [(Hz & _) | (_ & _ & Hlen1 & Hq5 & _)]; [lia|].
    rewrite (read32_agree (p + 4) (p1 - 4) _ d d') by (assumption || lia).
    bind_inv E5 as descLength r1 F1. cbn [bind].
    apply read32_inv in F1 as (-> & _ & ->).
    bind_inv E5 as descBytes r2 F2.
    pose proof (readBytes_inv _ _ _ _ _ F2) as (Hn & -> & _ & _).
    injection E5 as <- <-.
    rewrite (readBytes_agree (p + 4) (p1 - 4) _ _ d d')
      by (assumption || lia).
    rewrite F2. reflexivity. }
  rewrite E5'. cbn [bind].
  destruct (read32_skip d d' _ _ _ Hlen E6) as (v6' & E6'). rewrite E6'.
  cbn [bind]. rewrite Hq6. reflexivity.
Qed.

(** ** The reader: loops *)

Lemma readValues_mono (n : nat) (d : list Z) (dataBytes : Z) :
  forall i p values res p',
    readValues n d dataBytes i p values = Ok (res, p') -> p <= p'.
Proof.
  induction n as [|n IH]; intros i p values res p' H; [discriminate|].
  cbn [readValues] in H. destruct (4 * i <? dataBytes).
  - bind_inv H as v q E. apply read32_inv in E as (-> & _ & _).
    apply IH in H. lia.
  - injection H as _ <-. lia.
Qed.

Lemma readValues_agree (n : nat) (d d' : list Z) (dataBytes : Z) :
  forall i p values res p',
    readValues n d dataBytes i p values = Ok (res, p') ->
    agree_range p p' d d' ->
    readValues n d' dataBytes i p values = Ok (res, p').
Proof.
  induction n as [|n IH]; intros i p values res p' H Ha; [discriminate|].
  cbn [readValues] in *. destruct (4 * i <? dataBytes); [|exact H].
  bind_inv H as v q E.
  pose proof (read32_inv _ _ _ _ E) as (-> & _ & _).
  pose proof (readValues_mono _ _ _ _ _ _ _ _ H) as Hmono.
  rewrite (read32_agree p p' p d d') by (assumption || lia).
  rewrite E. cbn [bind]. apply IH; [assumption|].
  eapply agree_range_narrow; [eassumption | lia | lia].
Qed.


Section ItemLoops.

Variable A : Type.
Variable item : Z -> Result (A * Z).
Hypothesis item_mono : forall q x q', item q = Ok (x, q') -> q <= q'.

Lemma readItems_mono (n : nat) (count : Z) :
  forall i p items res p',
    readItems n item count i p items = Ok (res, p') -> p <= p'.
Proof.
  induction n as [|n IH]; intros i p items res p' H; [discriminate|].
  cbn [readItems] in H. destruct (i <? count).
  - bind_inv H as x q E. apply item_mono in E. apply IH in H. lia.
  - injection H as _ <-. lia.
Qed.

Lemma readItems_agree (item' : Z -> Result (A * Z)) (n : nat) (count : Z) :
  forall i p items res p',
    readItems n item count i p items = Ok (res, p') ->
    (forall q x q', p <= q -> q' <= p' ->
                    item q = Ok (x, q') -> item' q = Ok (x, q')) ->
    readItems n item' count i p items = Ok (res, p').
Proof.
  induction n as [|n IH]; intros i p items res p' H Hitem; [discriminate|].
  cbn [readItems] in *. destruct (i <? count); [|exact H].
  bind_inv H as x q E.
  pose proof (item_mono _ _ _ E) as Hq.
  pose proof (readItems_mono _ _ _ _ _ _ _ H) as Hmono.
  rewrite (Hitem p x q) by (assumption || lia). cbn [bind].
  apply IH; [assumption|].
  intros q0 x0 q0' Hlo Hhi. apply Hitem; lia.
Qed.


Lemma readArray_mono (n : nat) (d : list Z) (p p' : Z) (res : list A) :
  readArray n item d p = Ok (res, p') -> p + 12 <= p' <= zlength d.
Proof.
  unfold readArray. intros H.
  bind_inv H as v0 p0 E0. apply read32_inv in E0 as (-> & _ & _).
  bind_inv H as v1 p1 E1. apply read32_inv in E1 as (-> & _ & _).
  bind_inv H as items p2 E2. apply readItems_mono in E2.
  bind_inv H as v3 p3 E3. apply read32_inv in E3 as (-> & ? & _).
  injection H as _ <-. lia.
Qed.

Lemma readArray_agree (item' : Z -> Result (A * Z)) (n : nat)
    (d d' : list Z) (p p' : Z) (res : list A) :
  readArray n item d p = Ok (res, p') ->
  agree_range p (p + 8) d d' ->
  (forall q x q', p + 8 <= q -> q' <= p' - 4 ->
                  item q = Ok (x, q') -> item' q = Ok (x, q')) ->
  readArray n item' d' p = Ok (res, p').
Proof.
  unfold readArray. intros H Ha Hitem.
  pose proof Ha as (Hlen & _).
  bind_inv H as v0 p0 E0.
  destruct (read32_skip d d' _ _ _ Hlen E0) as (v0' & E0'). rewrite E0'.
  cbn [bind]. apply read32_inv in E0 as (-> & _ & _).
  rewrite (read32_agree p (p + 8) (p + 4) d d') by (assumption || lia).
  bind_inv H as v1 p1 E1. cbn [bind].
  apply read32_inv in E1 as (-> & _ & _).
  bind_inv H as items p2 E2.
  bind_inv H as v3 p3 E3.
  pose proof (read32_inv _ _ _ _ E3) as (-> & _ & _).
  injection H as <- <-.
  rewrite (readItems_agree item' _ _ _ _ _ _ _ E2).
  - cbn [bind].
    destruct (read32_skip d d' _ _ _ Hlen E3) as (v3' & E3'). rewrite E3'.
    reflexivity.
  - intros q x q' Hlo Hhi. apply Hitem; lia.
Qed.


End ItemLoops.

Section ChildLoop.

Variable rec : Z -> Result (ChunkResult * Z).
Hypothesis rec_mono : forall q x q', rec q = Ok (x, q') -> q <= q'.

Lemma readChildren_mono (n : nat) (chunkEndPos : Z) :
  forall p children res p',
    readChildren n rec chunkEndPos p children = Ok (res, p') -> p <= p'.
Proof.
  induction n as [|n IH]; intros p children res p' H; [discriminate|].
  cbn [readChildren] in H. destruct (p <? chunkEndPos).
  - destruct (chunkEndPos - p <? 20).
    + injection H as _ <-. lia.
    + bind_inv H as x q E. apply rec_mono in E. apply IH in H. lia.
  - injection H as _ <-. lia.
Qed.

Lemma readChildren_agree (rec' : Z -> Result (ChunkResult * Z)) (n : nat)
    (chunkEndPos : Z) :
  forall p children res p',
    readChildren n rec chunkEndPos p children = Ok (res, p') ->
    (forall q x q', p <= q -> q' <= p' ->
                    rec q = Ok (x, q') -> rec' q = Ok (x, q')) ->
    readChildren n rec' chunkEndPos p children = Ok (res, p').
Proof.
  induction n as [|n IH]; intros p children res p' H Hrec; [discriminate|].
  cbn [readChildren] in *. destruct (p <? chunkEndPos); [|exact H].
  destruct (chunkEndPos - p <? 20); [exact H|].
  bind_inv H as x q E.
  pose proof (rec_mono _ _ _ E) as Hq.
  pose proof (readChildren_mono _ _ _ _ _ _ H) as Hmono.
  rewrite (Hrec p x q) by (assumption || lia). cbn [bind].
  apply IH; [assumption|].
  intros q0 x0 q0' Hlo Hhi. apply Hrec; lia.
Qed.


End ChildLoop.

(** ** The reader: column data never runs out of fuel *)






(** ** The reader: the body of a chunk *)

Section ChunkBody.

Variable rec : Z -> Result (ChunkResult * Z).
Hypothesis rec_mono : forall q x q', rec q = Ok (x, q') -> q <= q'.

Lemma postItem_inv (A : Type) (post : ChunkResult -> Result A)
    (q q' : Z) (x : A) :
  (let* (chunk, pos) := rec q in let* y := post chunk in Ok (y, pos))
  = Ok (x, q') ->
  exists chunk, rec q = Ok (chunk, q') /\ post chunk = Ok x.
Proof.
  intros H. bind_inv H as chunk pos E. bind_ok H. injection H as <- <-.
  eauto.
Qed.

Lemma postItem_mono (A : Type) (post : ChunkResult -> Result A)
    (q q' : Z) (x : A) :
  (let* (chunk, pos) := rec q in let* y := post chunk in Ok (y, pos))
  = Ok (x, q') ->
  q <= q'.
Proof.
  intros H. apply postItem_inv in H as (chunk & E & _).
  eapply rec_mono; eassumption.
Qed.

Lemma readChunkBody_mono (f : nat) (d : list Z) (h : Header)
    (chunkEndPos p p' : Z) (res : ChunkResult) :
  readChunkBody rec f d h chunkEndPos p = Ok (res, p') -> p <= p'.
Proof.
  unfold readChunkBody. intros H.
  destruct (isScalarChunk (chunkType h)).
  { bind_inv H as v q E. apply read32_inv in E as (-> & _ & _).
    injection H as _ <-. lia. }
  destruct (chunkType h =? COLUMN_VALUES).
  { bind_inv H as v q E. apply readValues_mono in E.
    injection H as _ <-. lia. }
  destruct (chunkType h =? COLUMN_BLOB_DATA).
  { bind_inv H as v q E. apply readBytes_inv in E as (? & -> & _ & _).
    injection H as _ <-. lia. }
  destruct (chunkType h =? DATABASE_TABLES).
  { bind_inv H as v q E. apply readArray_mono in E.
    - injection H as _ <-. lia.
    - intros q0 x q0'. apply postItem_mono. }
  destruct (chunkType h =? COLUMN_DEFINITIONS).
  { bind_inv H as v q E. apply readArray_mono in E.
    - injection H as _ <-. lia.
    - intros q0 x q0'. apply postItem_mono. }
  destruct (isContainerChunk (chunkType h)); [|discriminate].
  bind_inv H as v q E. apply readChildren_mono in E; [|assumption].
  injection H as _ <-. lia.
Qed.

Lemma readChunkBody_agree (rec' : Z -> Result (ChunkResult * Z)) (f : nat)
    (d d' : list Z) (h : Header) (chunkEndPos p p' : Z) (res : ChunkResult) :
  readChunkBody rec f d h chunkEndPos p = Ok (res, p') ->
  0 <= p -> agree_range p p' d d' ->
  (forall q x q', p <= q -> q' <= p' ->
                  rec q = Ok (x, q') -> rec' q = Ok (x, q')) ->
  readChunkBody rec' f d' h chunkEndPos p = Ok (res, p').
Proof.
  unfold readChunkBody. intros H Hp Ha Hrec.
  destruct (isScalarChunk (chunkType h)).
  { bind_inv H as v q E.
    pose proof (read32_inv _ _ _ _ E) as (-> & _ & _).
    injection H as <- <-.
    rewrite (read32_agree p (p + 4) p d d') by (assumption || lia).
    rewrite E. reflexivity. }
  destruct (chunkType h =? COLUMN_VALUES).
  { bind_inv H as v q E. injection H as <- <-.
    rewrite (readValues_agree _ d d' _ _ _ _ _ _ E Ha). reflexivity. }
  destruct (chunkType h =? COLUMN_BLOB_DATA).
  { bind_inv H as v q E.
    pose proof (readBytes_inv _ _ _ _ _ E) as (? & -> & _ & _).
    injection H as <- <-.
    rewrite (readBytes_agree p (p + (chunkEndPos - p - 4)) p _ d d')
      by (assumption || lia).
    rewrite E. reflexivity. }
  destruct (chunkType h =? DATABASE_TABLES).
  { bind_inv H as v q E. injection H as <- <-.
    pose proof (readArray_mono _ _ (fun q0 x q0' => postItem_mono _ _ q0 q0' x)
                  _ _ _ _ _ E) as Hq.
    erewrite readArray_agree; [reflexivity | | exact E | |].
    - intros q0 x q0'. apply postItem_mono.
    - eapply agree_range_narrow; [exact Ha | lia | lia].
    - intros q0 x q0' Hlo Hhi Hitem.
      apply postItem_inv in Hitem as (chunk & E1 & E2).
      rewrite (Hrec q0 chunk q0') by (assumption || lia).
      cbn [bind]. rewrite E2. reflexivity. }
  destruct (chunkType h =? COLUMN_DEFINITIONS).
  { bind_inv H as v q E. injection H as <- <-.
    pose proof (readArray_mono _ _ (fun q0 x q0' => postItem_mono _ _ q0 q0' x)
                  _ _ _ _ _ E) as Hq.
    erewrite readArray_agree; [reflexivity | | exact E | |].
    - intros q0 x q0'. apply postItem_mono.
    - eapply agree_range_narrow; [exact Ha | lia | lia].
    - intros q0 x q0' Hlo Hhi Hitem.
      apply postItem_inv in Hitem as (chunk & E1 & E2).
      rewrite (Hrec q0 chunk q0') by (assumption || lia).
      cbn [bind]. rewrite E2. reflexivity. }
  destruct (isContainerChunk (chunkType h)); [|discriminate].
  bind_inv H as v q E. injection H as <- <-.
  rewrite (readChildren_agree rec rec_mono rec' _ _ _ _ _ _ E Hrec).
  reflexivity.
Qed.


End ChunkBody.

(** ** The reader: chunks *)

Lemma readChunk_progress (f : nat) (d : list Z) :
  forall p r p', readChunk f d p = Ok (r, p') -> p + 28 <= p' <= zlength d.
Proof.
  induction f as [|f IH]; intros p r p' H; [discriminate|].
  cbn [readChunk] in H.
  bind_inv H as h p1 E1. apply readChunkHeader_inv in E1 as (Hp1 & _).
  bind_inv H as res p2 E2. apply readChunkBody_mono in E2.
  - bind_inv H as v p3 E3. apply read32_inv in E3 as (-> & ? & _).
    injection H as _ <-. pose proof (readPadding_range p2). lia.
  - intros q x q' Hq. apply IH in Hq. lia.
Qed.

Lemma readChunk_mono (f : nat) (d : list Z) (q : Z) (x : ChunkResult)
    (q' : Z) :
  readChunk f d q = Ok (x, q') -> q <= q'.
Proof. intros H. apply readChunk_progress in H. lia. Qed.

(** The result of reading a chunk depends on the bytes of its extent
    only. *)
Lemma readChunk_agree (f : nat) (d d' : list Z) :
  forall p r p',
    readChunk f d p = Ok (r, p') -> 0 <= p -> agree_range p p' d d' ->
    readChunk f d' p = Ok (r, p').
Proof.
  induction f as [|f IH]; intros p r p' H Hp Ha; [discriminate|].
  cbn [readChunk] in *.
  bind_inv H as h p1 E1.
  pose proof (readChunkHeader_inv _ _ _ _ E1) as (Hp1 & _).
  bind_inv H as res p2 E2.
  pose proof (readChunkBody_mono _ (readChunk_mono f d) _ _ _ _ _ _ _ E2)
    as Hp2.
  bind_inv H as v p3 E3.
  pose proof (read32_inv _ _ _ _ E3) as (-> & ? & _).
  injection H as <- <-.
  pose proof (readPadding_range p2) as Hpad.
  pose proof Ha as (Hlen & Hb).
  rewrite (readChunkHeader_agree d d' p p1 h E1 Hp Hlen)
    by (intros q Hq; apply Hb; lia).
  cbn [bind].
  rewrite (readChunkBody_agree _ (readChunk_mono f d) (readChunk f d')
             f d d' h _ p1 p2 res E2).
  - cbn [bind].
    destruct (read32_skip d d' _ _ _ Hlen E3) as (v' & E3'). rewrite E3'.
    reflexivity.
  - lia.
  - eapply agree_range_narrow; [exact Ha | lia | lia].
  - intros q x q' Hlo Hhi Hq. apply (IH q x q' Hq); [lia|].
    eapply agree_range_narrow; [exact Ha | lia | lia].
Qed.



(** ** The framing words *)






(** ** The loop over the children of a container *)

Lemma readChildren_children_read (rec : Z -> Result (ChunkResult * Z))
    (n : nat) (chunkEndPos : Z) :
  forall p children res p',
    readChildren n rec chunkEndPos p children = Ok (res, p') ->
    children_read rec chunkEndPos p children p' res.
Proof.
  induction n as [|n IH]; intros p children res p' H; [discriminate|].
  cbn [readChildren] in H.
  destruct (Z.ltb_spec p chunkEndPos) as [Hlt | Hge].
  - destruct (Z.ltb_spec (chunkEndPos - p) 20) as [Hfew | Hmany].
    + injection H as <- <-. apply children_read_end. assumption.
    + bind_inv H as chunk q E.
      eapply children_read_child; [assumption | exact E |].
      apply IH. assumption.
  - injection H as <- <-. apply children_read_end. lia.
Qed.

Lemma container_is_no_other_chunk (t : Z) :
  isContainerChunk t = true ->
  isScalarChunk t = false /\ (t =? COLUMN_VALUES) = false /\
  (t =? COLUMN_BLOB_DATA) = false /\ (t =? DATABASE_TABLES) = false /\
  (t =? COLUMN_DEFINITIONS) = false.
Proof.
  unfold isContainerChunk. intros H.
  apply orb_true_iff in H as [H | H];
    [apply orb_true_iff in H as [H | H]|];
    apply Z.eqb_eq in H; subst t; repeat split; reflexivity.
Qed.

Lemma readChunkBody_container (rec : Z -> Result (ChunkResult * Z))
    (f : nat) (d : list Z) (h : Header) (chunkEndPos p : Z) :
  isContainerChunk (chunkType h) = true ->
  readChunkBody rec f d h chunkEndPos p =
  let* (children, pos) := readChildren f rec chunkEndPos p [] in
  Ok (Container (chunkType h) h children, pos).
Proof.
  intros Hc. unfold readChunkBody.
  destruct (container_is_no_other_chunk _ Hc) as (-> & -> & -> & -> & ->).
  rewrite Hc. reflexivity.
Qed.

(** C10, as the specification has it, does not hold.  In
    [trailing_region_cdb] the TABLE chunk at 24 declares its end at 64 and
    has a body of 12 bytes that hold no child.  Reading it ends at 52, not
    at 64: one word of the body has been taken for the end word and the
    rest is left to the enclosing chunk, whose loop then reads a chunk
    header at 52 and fails on the type it finds there. *)
Lemma trailing_region_is_not_skipped :
  readChunk (readerFuel trailing_region_cdb) trailing_region_cdb 24
  = Ok (Container TABLE (mkHeader 40 TABLE 0 None) [], 52) /\
  readChunk (readerFuel trailing_region_cdb) trailing_region_cdb 0
  = Err (UnknownChunkType CHUNK_END).
Proof.
  split; [vm_compute; reflexivity|].
  vm_compute. reflexivity.
Qed.

(** C10, amended.  In a container chunk at [p] with its header ending at
    [p1], the loop reads a child exactly where 20 bytes or more lie before
    the declared end [p + chunkSize h] and stops at the first position [q]
    where fewer do.  The chunk then ends 4 bytes after [q] rounded up to a
    multiple of 4, wherever the declared end is, and the read fails when
    the input is shorter than that.  No byte from [q] on has a part in the
    outcome. *)
Theorem container_children_and_tail (f : nat) (d : list Z) (p p1 q : Z)
    (h : Header) (children : Children) :
  0 <= p ->
  readChunkHeader d p = Ok (h, p1) ->
  isContainerChunk (chunkType h) = true ->
  readChildren f (readChunk f d) (p + chunkSize h) p1 [] = Ok (children, q) ->
  children_read (readChunk f d) (p + chunkSize h) p1 [] q children /\
  readChunk (S f) d p =
    (if readPadding q + 4 >? zlength d then Err (ReadPastEnd (readPadding q))
     else Ok (Container (chunkType h) h children, readPadding q + 4)) /\
  forall d', agree_range p q d d' -> readChunk (S f) d' p = readChunk (S f) d p.
Proof.
  intros Hp Hh Hc Hloop.
  assert (Hread : forall d0,
             readChunkHeader d0 p = Ok (h, p1) ->
             readChildren f (readChunk f d0) (p + chunkSize h) p1 []
             = Ok (children, q) ->
             readChunk (S f) d0 p =
             (if readPadding q + 4 >? zlength d0
              then Err (ReadPastEnd (readPadding q))
              else Ok (Container (chunkType h) h children,
                       readPadding q + 4))).
  { intros d0 Hh0 Hloop0. cbn [readChunk]. rewrite Hh0. cbn [bind].
    rewrite (readChunkBody_container _ _ _ _ _ _ Hc), Hloop0. cbn [bind].
    unfold read32. destruct (readPadding q + 4 >? zlength d0); reflexivity. }
  split; [|split].
  - eapply readChildren_children_read. exact Hloop.
  - apply Hread; assumption.
  - intros d' Ha.
    pose proof (readChunkHeader_inv _ _ _ _ Hh) as (Hp1 & _).
    pose proof (readChildren_mono _ (readChunk_mono f d) _ _ _ _ _ _ Hloop)
      as Hq.
    pose proof Ha as (Hlen & Hb).
    rewrite (Hread d Hh Hloop).
    rewrite (Hread d'); [rewrite Hlen; reflexivity | |].
    + apply (readChunkHeader_agree d d' p p1 h Hh Hp Hlen).
      intros i Hi. apply Hb. lia.
    + apply (readChildren_agree _ (readChunk_mono f d) (readChunk f d')
               _ _ _ _ _ _ Hloop).
      intros i x i' Hlo Hhi Hi.
      apply (readChunk_agree f d d' i x i' Hi); [lia|].
      eapply agree_range_narrow; [exact Ha | lia | lia].
Qed.

Lemma container_children_and_tail_witness :
  children_read (readChunk 4 trailing_region_cdb) (24 + 40) 48 [] 48 [] /\
  readChunk 5 trailing_region_cdb 24 =
    (if readPadding 48 + 4 >? zlength trailing_region_cdb
     then Err (ReadPastEnd (readPadding 48))
     else Ok (Container TABLE (mkHeader 40 TABLE 0 None) [],
              readPadding 48 + 4)) /\
  forall d', agree_range 24 48 trailing_region_cdb d' ->
             readChunk 5 d' 24 = readChunk 5 trailing_region_cdb 24.
Proof.
  apply (container_children_and_tail 4 trailing_region_cdb 24 48 48
           (mkHeader 40 TABLE 0 None) []).
  - lia.
  - vm_compute. reflexivity.
  - vm_compute. reflexivity.
  - vm_compute. reflexivity.
Defined.

(** ** Decimal digits *)

Lemma digits_fuel_app (f : nat) :
  forall z acc, digits_fuel f z acc = digits_fuel f z [] ++ acc.
Proof.
  induction f as [|f IH]; intros z acc; [reflexivity|].
  cbn [digits_fuel]. destruct (z <? 10); [reflexivity|].
  rewrite (IH _ (_ :: acc)), (IH _ [_]), <- app_assoc. reflexivity.
Qed.

Lemma digits_fuel_enough (f : nat) :
  forall z acc g,
    0 <= z < 10 ^ Z.of_nat (S f) ->
    digits_fuel (S f + g) z acc = digits_fuel (S f) z acc.
Proof.
  induction f as [|f IH]; intros z acc g Hz.
  - cbn [digits_fuel Nat.add].
    destruct (Z.ltb_spec z 10) as [Hlt | Hge]; [reflexivity|].
    change (10 ^ Z.of_nat 1) with 10 in Hz. lia.
  - change (S (S f) + g)%nat with (S (S f + g)).
    cbn [digits_fuel]. destruct (Z.ltb_spec z 10) as [Hlt | Hge];
      [reflexivity|].
    apply IH. split; [apply Z.div_pos; lia|].
    apply Z.div_lt_upper_bound; [lia|].
    replace (Z.of_nat (S (S f))) with (Z.succ (Z.of_nat (S f))) in Hz by lia.
    rewrite Z.pow_succ_r in Hz by lia. lia.
Qed.

Lemma decimal_small (z : Z) : 0 <= z < 10 -> decimal z = [48 + z].
Proof.
  intros Hz. unfold decimal. cbn [digits_fuel].
  destruct (Z.ltb_spec z 10) as [Hlt | Hge]; [|lia].
  rewrite Z.mod_small by lia. reflexivity.
Qed.

Lemma pow2_le_pow10 (k : Z) : 0 <= k -> 2 ^ k <= 10 ^ k.
Proof. intros Hk. apply Z.pow_le_mono_l. lia. Qed.

Lemma decimal_bound (z : Z) :
  0 <= z -> z < 10 ^ Z.of_nat (S (Z.to_nat (Z.log2 z))).
Proof.
  intros Hz. pose proof (Z.log2_nonneg z) as Hl.
  replace (Z.of_nat (S (Z.to_nat (Z.log2 z)))) with (Z.succ (Z.log2 z))
    by lia.
  destruct (Z.eq_dec z 0) as [-> | Hnz].
  - cbn. lia.
  - pose proof (Z.log2_spec z ltac:(lia)) as [_ Hhi].
    pose proof (pow2_le_pow10 (Z.succ (Z.log2 z)) ltac:(lia)). lia.
Qed.

Lemma decimal_step (z : Z) :
  10 <= z -> decimal z = decimal (z / 10) ++ [48 + z mod 10].
Proof.
  intros Hz. unfold decimal at 1. cbn [digits_fuel].
  destruct (Z.ltb_spec z 10) as [Hlt | _]; [lia|].
  rewrite digits_fuel_app. f_equal.
  assert (Hq : 1 <= z / 10) by (apply Z.div_le_lower_bound; lia).
  assert (Hlog : Z.log2 (z / 10) < Z.log2 z).
  { apply Z.log2_lt_pow2; [lia|].
    pose proof (Z.log2_spec z ltac:(lia)) as [_ Hhi].
    rewrite Z.pow_succ_r in Hhi by apply Z.log2_nonneg.
    apply Z.div_lt_upper_bound; lia. }
  pose proof (Z.log2_nonneg (z / 10)) as Hl.
  replace (Z.to_nat (Z.log2 z))
    with (S (Z.to_nat (Z.log2 (z / 10)))
          + (Z.to_nat (Z.log2 z) - S (Z.to_nat (Z.log2 (z / 10)))))%nat
    by lia.
  apply digits_fuel_enough. split; [lia|]. apply decimal_bound. lia.
Qed.

Lemma decimal_nonempty (z : Z) : 0 <= z -> (1 <= length (decimal z))%nat.
Proof.
  intros Hz. destruct (Z.lt_ge_cases z 10) as [Hlt | Hge].
  - rewrite decimal_small by lia. cbn. lia.
  - rewrite decimal_step by lia. rewrite length_app. cbn. lia.
Qed.

Lemma digits_fuel_digits (f : nat) :
  forall z acc,
    0 <= z -> Forall (fun c => isDigit c = true) acc ->
    Forall (fun c => isDigit c = true) (digits_fuel f z acc).
Proof.
  induction f as [|f IH]; intros z acc Hz Hacc; [assumption|].
  cbn [digits_fuel].
  assert (Hd : isDigit (48 + z mod 10) = true).
  { unfold isDigit. pose proof (Z.mod_pos_bound z 10 ltac:(lia)).
    apply andb_true_iff. split; apply Z.leb_le; lia. }
  destruct (z <? 10).
  - constructor; assumption.
  - apply IH; [apply Z.div_pos; lia|]. constructor; assumption.
Qed.

Lemma decimal_digits (z : Z) :
  0 <= z -> Forall (fun c => isDigit c = true) (decimal z).
Proof. intros Hz. apply digits_fuel_digits; [assumption | constructor]. Qed.








(** ** The two replacements of the float text *)




















(** ** The text of a float of a list *)






(** ** The writer appends to the stream *)

Lemma bytes_ext (a b : list Z) :
  zlength a = zlength b ->
  (forall q, 0 <= q < zlength a -> byteAt a q = byteAt b q) ->
  a = b.
Proof.
  unfold zlength. intros Hlen Hb. apply (nth_ext a b 0 0); [lia|].
  intros n Hn. specialize (Hb (Z.of_nat n) ltac:(lia)).
  unfold byteAt in Hb.
  destruct (Z.ltb_spec (Z.of_nat n) 0) as [Hneg | _]; [lia|].
  rewrite Nat2Z.id in Hb. exact Hb.
Qed.

Lemma zlength_zeros (n : Z) : 0 <= n -> zlength (zeros n) = n.
Proof. intros Hn. unfold zeros. rewrite zlength_repeat. lia. Qed.

Lemma byteAt_zeros (n q : Z) : byteAt (zeros n) q = 0.
Proof.
  unfold byteAt, zeros. destruct (q <? 0); [reflexivity|].
  apply nth_repeat.
Qed.

Lemma setBytes_app_l (A B bytes : list Z) (p : Z) :
  0 <= p -> p + zlength bytes <= zlength A ->
  setBytes (A ++ B) p bytes = setBytes A p bytes ++ B.
Proof.
  unfold setBytes, zlength. intros Hp Hfit.
  rewrite firstn_app, skipn_app.
  replace (Z.to_nat p - length A)%nat with 0%nat by lia.
  replace (Z.to_nat p + length bytes - length A)%nat with 0%nat by lia.
  cbn [firstn skipn]. rewrite app_nil_r, <- !app_assoc. reflexivity.
Qed.

Lemma setBytes_app_r (A B bytes : list Z) (q : Z) :
  0 <= q ->
  setBytes (A ++ B) (zlength A + q) bytes = A ++ setBytes B q bytes.
Proof.
  unfold setBytes, zlength. intros Hq.
  replace (Z.to_nat (Z.of_nat (length A) + q))
    with (length A + Z.to_nat q)%nat by lia.
  rewrite firstn_app_2, <- Nat.add_assoc, skipn_app.
  rewrite skipn_all2 by lia.
  replace (length A + (Z.to_nat q + length bytes) - length A)%nat
    with (Z.to_nat q + length bytes)%nat by lia.
  cbn [app]. rewrite <- app_assoc. reflexivity.
Qed.

Lemma firstn_zlength_app (A B : list Z) :
  firstn (Z.to_nat (zlength A)) (A ++ B) = A.
Proof.
  unfold zlength. rewrite Nat2Z.id, firstn_app, Nat.sub_diag, firstn_all.
  cbn [firstn]. apply app_nil_r.
Qed.

Lemma zlength_firstn_le (l : list Z) (n : Z) :
  0 <= n <= zlength l -> zlength (firstn (Z.to_nat n) l) = n.
Proof. unfold zlength. intros Hn. rewrite length_firstn. lia. Qed.

Lemma patchSizes_app (closed : list ClosedChunk) :
  forall A B,
    Forall (fun c => 0 <= c_startPos c /\ c_startPos c + 8 <= zlength A)
           closed ->
    patchSizes closed (A ++ B) = patchSizes closed A ++ B.
Proof.
  unfold patchSizes.
  induction closed as [|c closed IH]; intros A B Hc; [reflexivity|].
  inversion Hc as [|? ? [Hlo Hhi] Hrest]; subst. cbn [fold_left].
  unfold setUint32 at 2.
  rewrite setBytes_app_l by (rewrite ?zlength_le32; lia).
  fold (setUint32 A (c_startPos c + 4) (c_size c)).
  apply IH. rewrite zlength_setUint32 by lia. exact Hrest.
Qed.

Lemma patchSizes_snoc (closed : list ClosedChunk) (c : ClosedChunk)
    (buf : list Z) :
  patchSizes (closed ++ [c]) buf
  = setUint32 (patchSizes closed buf) (c_startPos c + 4) (c_size c).
Proof. unfold patchSizes. rewrite fold_left_app. reflexivity. Qed.

Lemma winv_slots (w : CDBWriter) :
  winv w ->
  Forall (fun c => 0 <= c_startPos c /\
                   c_startPos c + 8
                   <= zlength (firstn (Z.to_nat (pos w)) (buffer w)))
         (closedChunks w).
Proof.
  intros (Hpos & _ & Hclosed & _). unfold pos_ok in Hpos.
  rewrite zlength_firstn_le by lia. exact Hclosed.
Qed.

Lemma getData_prefix (w : CDBWriter) :
  winv w ->
  getData w
  = patchSizes (closedChunks w) (firstn (Z.to_nat (pos w)) (buffer w)).
Proof.
  intros Hw. pose proof (winv_slots w Hw) as Hslots.
  destruct Hw as (Hpos & _). unfold pos_ok in Hpos. unfold getData.
  rewrite <- (firstn_skipn (Z.to_nat (pos w)) (buffer w)) at 1.
  rewrite patchSizes_app by exact Hslots.
  set (X := patchSizes _ _).
  assert (HX : zlength X = pos w).
  { subst X. rewrite patchSizes_zlength.
    - apply zlength_firstn_le. lia.
    - eapply Forall_impl; [|exact Hslots]. cbn. intros c Hc. exact Hc. }
  rewrite <- HX. apply firstn_zlength_app.
Qed.

Lemma getData_zlength (w : CDBWriter) : winv w -> zlength (getData w) = pos w.
Proof.
  intros Hw. rewrite getData_prefix by assumption.
  pose proof (winv_slots w Hw) as Hslots.
  destruct Hw as (Hpos & _). unfold pos_ok in Hpos.
  rewrite patchSizes_zlength.
  - apply zlength_firstn_le. lia.
  - eapply Forall_impl; [|exact Hslots]. cbn. intros c Hc. exact Hc.
Qed.

(** A writer whose array holds, before its position, the bytes that [w]
    holds and then [bytes]. *)
Lemma grows_by_prefix (w w' : CDBWriter) (bytes : list Z) :
  winv w ->
  chunkStack w' = chunkStack w -> closedChunks w' = closedChunks w ->
  pos w' = pos w + zlength bytes -> pos w' <= zlength (buffer w') ->
  (forall q, pos w' <= q -> byteAt (buffer w') q = 0) ->
  firstn (Z.to_nat (pos w')) (buffer w')
  = firstn (Z.to_nat (pos w)) (buffer w) ++ bytes ->
  grows w w' bytes.
Proof.
  intros Hw Hstack Hclosed Hpos Hfit Hzero Hprefix.
  pose proof (zlength_nonneg bytes) as Hlen.
  pose proof Hw as (Hp & _ & Hc & Ho). unfold pos_ok in Hp.
  assert (Hw' : winv w').
  { split; [unfold pos_ok; lia|]. split; [exact Hzero|].
    rewrite Hstack, Hclosed. split.
    - eapply Forall_impl; [|exact Hc]. cbn. intros c Hcc. lia.
    - eapply Forall_impl; [|exact Ho]. cbn. intros o Hoo. lia. }
  split; [exact Hw'|]. split; [exact Hstack|].
  rewrite (getData_prefix w' Hw'), (getData_prefix w Hw), Hclosed, Hprefix.
  apply patchSizes_app. apply winv_slots. exact Hw.
Qed.

Lemma ensureCapacity_buffer (n : Z) (w : CDBWriter) :
  exists extra, buffer (ensureCapacity n w) = buffer w ++ zeros extra.
Proof.
  unfold ensureCapacity. destruct (pos w + n >? zlength (buffer w)).
  - eexists. reflexivity.
  - exists 0. cbn. symmetry. apply app_nil_r.
Qed.

Lemma firstn_app_zeros (l : list Z) (extra p : Z) :
  0 <= p <= zlength l ->
  firstn (Z.to_nat p) (l ++ zeros extra) = firstn (Z.to_nat p) l.
Proof.
  unfold zlength. intros Hp. rewrite firstn_app.
  replace (Z.to_nat p - length l)%nat with 0%nat by lia.
  cbn [firstn]. apply app_nil_r.
Qed.

Lemma write_run_grows (bytes : list Z) (w : CDBWriter) :
  winv w ->
  let w0 := ensureCapacity (zlength bytes) w in
  grows w (mkWriter (setBytes (buffer w0) (pos w0) bytes)
                    (chunkStack w0) (closedChunks w0)
                    (pos w0 + zlength bytes))
        bytes.
Proof.
  intros Hw w0.
  pose proof (zlength_nonneg bytes) as Hlen.
  pose proof Hw as (Hp & Hz & _).
  destruct (ensureCapacity_spec (zlength bytes) w Hlen Hp)
    as (E1 & E2 & E3 & Hcap & Hsame).
  fold w0 in E1, E2, E3, Hcap, Hsame. unfold pos_ok in Hp.
  apply grows_by_prefix; cbn [pos buffer chunkStack closedChunks];
    try assumption.
  - lia.
  - rewrite zlength_setBytes by lia. lia.
  - intros q Hq. rewrite byteAt_setBytes by lia.
    destruct (Z.leb_spec (pos w0) q); destruct (Z.ltb_spec q (pos w0 + zlength bytes));
      cbn [andb]; try lia.
    rewrite Hsame. apply Hz. lia.
  - rewrite E1. unfold setBytes.
    destruct (ensureCapacity_buffer (zlength bytes) w) as (extra & Hbuf).
    fold w0 in Hbuf.
    assert (Hfirst : firstn (Z.to_nat (pos w)) (buffer w0)
                     = firstn (Z.to_nat (pos w)) (buffer w)).
    { rewrite Hbuf. apply firstn_app_zeros. lia. }
    rewrite Hfirst, app_assoc.
    set (X := firstn (Z.to_nat (pos w)) (buffer w) ++ bytes).
    assert (HX : zlength X = pos w + zlength bytes).
    { subst X. rewrite zlength_app, zlength_firstn_le by lia. reflexivity. }
    rewrite <- HX. apply firstn_zlength_app.
Qed.

Lemma write32_grows (v : Z) (w : CDBWriter) :
  winv w -> grows w (write32 v w) (le32 v).
Proof. intros Hw. exact (write_run_grows (le32 v) w Hw). Qed.

Lemma writeBytes_grows (bytes : list Z) (w : CDBWriter) :
  winv w -> grows w (writeBytes bytes w) bytes.
Proof. intros Hw. exact (write_run_grows bytes w Hw). Qed.

Lemma writeNul_grows (w : CDBWriter) : winv w -> grows w (writeNul w) [0].
Proof. intros Hw. exact (write_run_grows [0] w Hw). Qed.

Lemma grows_refl (w : CDBWriter) : winv w -> grows w w [].
Proof.
  intros Hw. split; [assumption|]. split; [reflexivity|].
  symmetry. apply app_nil_r.
Qed.

Lemma grows_trans (w1 w2 w3 : CDBWriter) (a b : list Z) :
  grows w1 w2 a -> grows w2 w3 b -> grows w1 w3 (a ++ b).
Proof.
  intros (_ & S12 & D12) (H3 & S23 & D23).
  split; [assumption|]. split; [congruence|].
  rewrite D23, D12, app_assoc. reflexivity.
Qed.

Lemma grows_pos (w w' : CDBWriter) (bytes : list Z) :
  winv w -> grows w w' bytes -> pos w' = pos w + zlength bytes.
Proof.
  intros Hw (Hw' & _ & Hd).
  rewrite <- (getData_zlength w' Hw'), Hd, zlength_app.
  rewrite getData_zlength by assumption. reflexivity.
Qed.

Lemma firstn_tail_zeros (l : list Z) (p k : Z) :
  0 <= p -> 0 <= k -> p + k <= zlength l ->
  (forall q, p <= q -> byteAt l q = 0) ->
  firstn (Z.to_nat (p + k)) l = firstn (Z.to_nat p) l ++ zeros k.
Proof.
  intros Hp Hk Hfit Hz. apply bytes_ext.
  - rewrite zlength_app, zlength_zeros, !zlength_firstn_le by lia.
    reflexivity.
  - rewrite zlength_firstn_le by lia. intros q Hq.
    rewrite byteAt_firstn by lia.
    destruct (Z.lt_ge_cases q p) as [Hlt | Hge].
    + rewrite byteAt_app_l by (rewrite zlength_firstn_le; lia).
      rewrite byteAt_firstn by lia. reflexivity.
    + rewrite byteAt_app_r by (rewrite zlength_firstn_le; lia).
      rewrite byteAt_zeros. apply Hz. lia.
Qed.

Lemma writePadding_grows (w : CDBWriter) :
  winv w -> grows w (writePadding w) (zeros (paddingAt (pos w))).
Proof.
  intros Hw. pose proof (paddingAt_range (pos w)) as Hpad.
  unfold writePadding.
  destruct (Z.gtb_spec (paddingAt (pos w)) 0) as [Hgt | Hle].
  - pose proof Hw as (Hp & Hz & _).
    destruct (ensureCapacity_spec (paddingAt (pos w)) w ltac:(lia) Hp)
      as (E1 & E2 & E3 & Hcap & Hsame).
    unfold pos_ok in Hp.
    destruct (ensureCapacity_buffer (paddingAt (pos w)) w) as (extra & Hbuf).
    apply grows_by_prefix; cbn [pos buffer chunkStack closedChunks];
      try assumption.
    + rewrite E1, zlength_zeros by lia. reflexivity.
    + rewrite E1. lia.
    + intros q Hq. rewrite Hsame. apply Hz. lia.
    + rewrite E1. rewrite firstn_tail_zeros; try lia.
      * f_equal. rewrite Hbuf. apply firstn_app_zeros. lia.
      * intros q Hq. rewrite Hsame. apply Hz. lia.
  - replace (paddingAt (pos w)) with 0 by lia. apply grows_refl. assumption.
Qed.

Lemma paddingAt_shift (p k : Z) :
  p mod 4 = 0 -> paddingAt (p + k) = paddingAt k.
Proof.
  intros Hp. rewrite !paddingAt_mod. rewrite Z.add_mod, Hp by lia.
  cbn [Z.add]. rewrite Z.mod_mod by lia. reflexivity.
Qed.

Lemma zlength_descriptionBytes (description : option JSString) :
  4 <= zlength (descriptionBytes description).
Proof.
  unfold descriptionBytes. destruct (truthy description).
  - rewrite !zlength_app, !zlength_le32.
    pose proof (zlength_nonneg
                  (TextEncoder_encode
                     match description with Some d => d | None => [] end)).
    change (zlength [0]) with 1. lia.
  - rewrite zlength_le32. lia.
Qed.

Lemma writeDescription_grows (description : option JSString)
    (w : CDBWriter) :
  winv w ->
  let w1 := write32 (if truthy description then 1 else 0) w in
  grows w
    (if truthy description then
       let descBytes :=
         TextEncoder_encode
           (match description with Some d => d | None => [] end) in
       writeNul (writeBytes descBytes (write32 (zlength descBytes + 1) w1))
     else w1)
    (descriptionBytes description).
Proof.
  intros Hw w1. unfold descriptionBytes. subst w1.
  destruct (truthy description).
  - cbv zeta.
    set (descBytes := TextEncoder_encode _).
    pose proof (write32_grows 1 w Hw) as G1.
    pose proof (write32_grows (zlength descBytes + 1) _ (proj1 G1)) as G2.
    pose proof (writeBytes_grows descBytes _ (proj1 G2)) as G3.
    pose proof (writeNul_grows _ (proj1 G3)) as G4.
    exact (grows_trans _ _ _ _ _ G1
             (grows_trans _ _ _ _ _ G2 (grows_trans _ _ _ _ _ G3 G4))).
  - apply write32_grows. assumption.
Qed.

Lemma zlength_headerBytes (size chunkType : Z)
    (description : option JSString) :
  24 <= zlength (headerBytes size chunkType description) /\
  zlength (headerBytes size chunkType description) mod 4 = 0 /\
  zlength (headerBytes size chunkType description)
  = zlength (headerBytes 0 chunkType description).
Proof.
  unfold headerBytes. cbv zeta.
  rewrite !zlength_app, !zlength_le32.
  pose proof (zlength_descriptionBytes description) as Hd.
  set (n := zlength (descriptionBytes description)) in *.
  pose proof (paddingAt_range (4 + (4 + (4 + (4 + n))))) as Hr.
  pose proof (paddingAt_aligned (4 + (4 + (4 + (4 + n))))) as Ha.
  rewrite zlength_zeros by lia.
  split; [lia|]. split; [|reflexivity].
  replace (4 + (4 + (4 + (4 + n)))
           + (paddingAt (4 + (4 + (4 + (4 + n)))) + 4))
    with ((4 + (4 + (4 + (4 + n)))
           + paddingAt (4 + (4 + (4 + (4 + n))))) + 1 * 4) by lia.
  rewrite Z.mod_add by lia. exact Ha.
Qed.

(** Pushing a chunk record after a run of writes. *)
Lemma push_grows (chunkType : Z) (w w7 : CDBWriter) (bytes : list Z) :
  winv w -> grows w w7 bytes -> 8 <= zlength bytes ->
  winv (mkWriter (buffer w7) (mkOpen chunkType (pos w) :: chunkStack w7)
                 (closedChunks w7) (pos w7)) /\
  getData (mkWriter (buffer w7) (mkOpen chunkType (pos w) :: chunkStack w7)
                    (closedChunks w7) (pos w7))
  = getData w ++ bytes /\
  pos w7 = pos w + zlength bytes /\
  chunkStack w7 = chunkStack w.
Proof.
  intros Hw G Hlen. pose proof (grows_pos _ _ _ Hw G) as P7.
  destruct G as (Hw7 & Hs7 & Hd7).
  pose proof Hw as (Hp & _). unfold pos_ok in Hp.
  destruct Hw7 as (Hp7 & Hz7 & Hc7 & Ho7).
  split; [|split; [exact Hd7|split; [exact P7|exact Hs7]]].
  split; [exact Hp7|]. split; [exact Hz7|]. split; [exact Hc7|].
  cbn [chunkStack pos]. constructor; [cbn [o_startPos]; lia | exact Ho7].
Qed.

Lemma header_run_grows (chunkType : Z) (description : option JSString)
    (w : CDBWriter) :
  winv w -> pos w mod 4 = 0 ->
  let w1 := write32 0 (write32 chunkType (write32 0
              (write32 CHUNK_BEGIN w))) in
  let w2 := write32 (if truthy description then 1 else 0) w1 in
  let w3 := if truthy description then
              let descBytes :=
                TextEncoder_encode
                  (match description with Some d => d | None => [] end) in
              let w := write32 (zlength descBytes + 1) w2 in
              let w := writeBytes descBytes w in
              writeNul w
            else w2 in
  grows w (write32 CHUNK_SEPARATOR (writePadding w3))
        (headerBytes 0 chunkType description).
Proof.
  intros Hw Hal. cbv zeta.
  pose proof (write32_grows CHUNK_BEGIN w Hw) as G1.
  pose proof (write32_grows 0 _ (proj1 G1)) as G2.
  pose proof (write32_grows chunkType _ (proj1 G2)) as G3.
  pose proof (write32_grows 0 _ (proj1 G3)) as G4.
  pose proof (writeDescription_grows description _ (proj1 G4)) as G5.
  cbv zeta in G5.
  pose proof (grows_trans _ _ _ _ _ G1
               (grows_trans _ _ _ _ _ G2
                 (grows_trans _ _ _ _ _ G3
                   (grows_trans _ _ _ _ _ G4 G5)))) as G15.
  clear G1 G2 G3 G4 G5.
  match type of G15 with grows _ ?x _ => generalize dependent x end.
  intros w5 G15.
  pose proof (writePadding_grows w5 (proj1 G15)) as G6.
  pose proof (write32_grows CHUNK_SEPARATOR _ (proj1 G6)) as G7.
  pose proof (grows_pos _ _ _ Hw G15) as P5.
  rewrite P5, paddingAt_shift in G6 by assumption.
  unfold headerBytes. cbv zeta.
  exact (grows_trans _ _ _ _ _ G15 (grows_trans _ _ _ _ _ G6 G7)).
Qed.

(** [writeChunkOpen] appends a header whose size field is 0. *)
Lemma writeChunkOpen_grows (chunkType : Z) (description : option JSString)
    (w : CDBWriter) :
  winv w -> pos w mod 4 = 0 ->
  winv (writeChunkOpen chunkType description w) /\
  chunkStack (writeChunkOpen chunkType description w)
  = mkOpen chunkType (pos w) :: chunkStack w /\
  getData (writeChunkOpen chunkType description w)
  = getData w ++ headerBytes 0 chunkType description /\
  pos (writeChunkOpen chunkType description w) mod 4 = 0.
Proof.
  intros Hw Hal.
  pose proof (header_run_grows chunkType description w Hw Hal) as G.
  cbv zeta in G.
  pose proof (zlength_headerBytes 0 chunkType description)
    as (Hh24 & Hh4 & _).
  unfold writeChunkOpen. cbv zeta.
  match type of G with grows _ ?x _ => generalize dependent x end.
  intros w7 G.
  destruct (push_grows chunkType w w7 _ Hw G ltac:(lia))
    as (Hw' & Hd' & P7 & Hs7).
  split; [exact Hw'|]. split; [cbn [chunkStack]; rewrite Hs7; reflexivity|].
  split; [exact Hd'|].
  cbn [pos]. rewrite P7, Z.add_mod, Hal, Hh4 by lia. reflexivity.
Qed.

Lemma firstn_setBytes (buf bytes : list Z) (p n : Z) :
  0 <= p -> p + zlength bytes <= n -> n <= zlength buf ->
  firstn (Z.to_nat n) (setBytes buf p bytes)
  = setBytes (firstn (Z.to_nat n) buf) p bytes.
Proof.
  intros Hp Hfit Hn. pose proof (zlength_nonneg bytes) as Hlen.
  assert (Hf : zlength (firstn (Z.to_nat n) buf) = n)
    by (apply zlength_firstn_le; lia).
  rewrite <- (firstn_skipn (Z.to_nat n) buf) at 1.
  rewrite setBytes_app_l by lia.
  set (X := setBytes _ _ _).
  assert (HX : zlength X = n).
  { subst X. rewrite zlength_setBytes by lia. exact Hf. }
  rewrite <- HX. apply firstn_zlength_app.
Qed.

(** Popping a chunk record after the padding and the end word. *)
Lemma pop_grows (w w2 : CDBWriter) (o : OpenChunk) (rest : list OpenChunk)
    (bytes : list Z) :
  winv w -> chunkStack w = o :: rest -> grows w w2 bytes ->
  4 <= zlength bytes ->
  winv (mkWriter (buffer w2) rest
          (closedChunks w2
           ++ [mkClosed (o_type o) (o_startPos o) (pos w2 - o_startPos o)])
          (pos w2)) /\
  pos w2 = pos w + zlength bytes /\
  getData (mkWriter (buffer w2) rest
             (closedChunks w2
              ++ [mkClosed (o_type o) (o_startPos o)
                           (pos w2 - o_startPos o)])
             (pos w2))
  = setUint32 (getData w ++ bytes) (o_startPos o + 4)
              (pos w + zlength bytes - o_startPos o).
Proof.
  intros Hw Hstack G Hlen. pose proof (grows_pos _ _ _ Hw G) as P2.
  destruct G as (Hw2 & Hs2 & Hd2).
  pose proof Hw as (Hp & _ & _ & Ho). unfold pos_ok in Hp.
  rewrite Hstack in Ho. inversion Ho as [|? ? [Holo Hohi] Hrest]; subst.
  pose proof Hw2 as (Hp2 & Hz2 & Hc2 & Ho2). unfold pos_ok in Hp2.
  split; [|split; [exact P2|]].
  - split; [exact Hp2|]. split; [exact Hz2|].
    cbn [closedChunks chunkStack pos]. split.
    + apply Forall_app. split; [exact Hc2|].
      constructor; [cbn [c_startPos]; lia | constructor].
    + rewrite Hs2, Hstack in Ho2. inversion Ho2; assumption.
  - unfold getData at 1. cbn [pos closedChunks buffer].
    rewrite patchSizes_snoc. cbn [c_startPos c_size].
    unfold setUint32 at 1.
    rewrite firstn_setBytes.
    + fold (getData w2). rewrite Hd2, P2. reflexivity.
    + lia.
    + rewrite zlength_le32. lia.
    + rewrite patchSizes_zlength; [lia|].
      eapply Forall_impl; [|exact Hc2]. intros c Hc. cbv beta in Hc |- *.
      lia.
Qed.

(** [writeChunkClose] appends the padding and the end word, and sets the
    size slot of the chunk it closes. *)
Lemma writeChunkClose_grows (w : CDBWriter) (o : OpenChunk)
    (rest : list OpenChunk) :
  winv w -> chunkStack w = o :: rest ->
  exists w',
    writeChunkClose w = Ok w' /\ winv w' /\ chunkStack w' = rest /\
    pos w' = pos w + paddingAt (pos w) + 4 /\
    getData w'
    = setUint32 (getData w ++ zeros (paddingAt (pos w)) ++ le32 CHUNK_END)
                (o_startPos o + 4)
                (pos w + paddingAt (pos w) + 4 - o_startPos o).
Proof.
  intros Hw Hstack.
  pose proof (writePadding_grows w Hw) as G1.
  pose proof (write32_grows CHUNK_END _ (proj1 G1)) as G2.
  pose proof (grows_trans _ _ _ _ _ G1 G2) as G. clear G1 G2.
  pose proof (paddingAt_range (pos w)) as Hpad.
  assert (Hlen : zlength (zeros (paddingAt (pos w)) ++ le32 CHUNK_END)
                 = paddingAt (pos w) + 4)
    by (rewrite zlength_app, zlength_zeros, zlength_le32 by lia; reflexivity).
  unfold writeChunkClose. rewrite Hstack.
  match type of G with grows _ ?x _ => generalize dependent x end.
  intros w2 G.
  destruct (pop_grows w w2 o rest _ Hw Hstack G ltac:(lia))
    as (Hw' & P2 & Hd').
  eexists. split; [reflexivity|]. split; [exact Hw'|].
  split; [reflexivity|]. rewrite Hlen in P2, Hd'.
  split; [cbn [pos]; lia|].
  rewrite Hd'. f_equal. lia.
Qed.

Lemma setUint32_size_slot (size chunkType : Z)
    (description : option JSString) (rest : list Z) :
  setUint32 (headerBytes 0 chunkType description ++ rest) 4 size
  = headerBytes size chunkType description ++ rest.
Proof.
  unfold headerBytes. cbv zeta. rewrite <- !app_assoc.
  change 4 with (zlength (le32 CHUNK_BEGIN) + 0) at 1.
  unfold setUint32. rewrite setBytes_app_r by lia.
  rewrite !zlength_app, !zlength_le32. reflexivity.
Qed.

(** A chunk that is opened at [w], filled with [body] and closed. *)
Lemma chunk_grows (chunkType : Z) (description : option JSString)
    (w w2 : CDBWriter) (body : list Z) :
  winv w -> pos w mod 4 = 0 ->
  grows (writeChunkOpen chunkType description w) w2 body ->
  exists w',
    writeChunkClose w2 = Ok w' /\
    grows w w' (chunkBytes chunkType description body) /\
    pos w' mod 4 = 0.
Proof.
  intros Hw Hal G.
  destruct (writeChunkOpen_grows chunkType description w Hw Hal)
    as (Hw1 & Hs1 & Hd1 & Hal1).
  pose proof (grows_pos _ _ _ Hw1 G) as P2.
  destruct G as (Hw2 & Hs2 & Hd2).
  rewrite Hs1 in Hs2.
  destruct (writeChunkClose_grows w2 _ _ Hw2 Hs2)
    as (w' & Hclose & Hw' & Hs' & P' & Hd').
  exists w'. split; [exact Hclose|].
  pose proof (zlength_headerBytes 0 chunkType description)
    as (Hh24 & Hh4 & _).
  assert (P1 : pos (writeChunkOpen chunkType description w)
               = pos w + zlength (headerBytes 0 chunkType description)).
  { rewrite <- (getData_zlength _ Hw1), Hd1, zlength_app.
    rewrite getData_zlength by assumption. reflexivity. }
  set (n := zlength (headerBytes 0 chunkType description) + zlength body).
  assert (Hpos2 : pos w2 = pos w + n) by (subst n; lia).
  assert (Hpad : paddingAt (pos w2) = paddingAt n).
  { rewrite Hpos2. apply paddingAt_shift. assumption. }
  split; [split; [exact Hw'|split; [exact Hs'|]]|].
  - rewrite Hd', Hd2, Hd1. cbn [o_startPos]. rewrite Hpad, Hpos2.
    rewrite <- !app_assoc.
    rewrite <- (getData_zlength w Hw) at 1.
    unfold setUint32. rewrite setBytes_app_r by lia.
    fold (setUint32
            (headerBytes 0 chunkType description
             ++ body ++ zeros (paddingAt n) ++ le32 CHUNK_END) 4
            (pos w + n + paddingAt n + 4 - pos w)).
    rewrite setUint32_size_slot.
    unfold chunkBytes. cbv zeta. fold n.
    replace (pos w + n + paddingAt n + 4 - pos w)
      with (n + paddingAt n + 4) by lia.
    reflexivity.
  - rewrite P', Hpad, Hpos2.
    pose proof (paddingAt_aligned (pos w + n)) as Ha.
    rewrite paddingAt_shift in Ha by assumption.
    replace (pos w + n + paddingAt n + 4)
      with (pos w + n + paddingAt n + 1 * 4) by lia.
    rewrite Z.mod_add by lia. exact Ha.
Qed.

(** ** The encoder lays out what it reads from the store *)

Lemma le32_ToUint32 (v : Z) : le32 (ToUint32 v) = le32 v.
Proof.
  unfold le32. cbv zeta.
  replace (ToUint32 (ToUint32 v)) with (ToUint32 v); [reflexivity|].
  unfold ToUint32, two32. rewrite Z.mod_mod by lia. reflexivity.
Qed.

Lemma words_ToUint32 {A : Type} (f : A -> Z) (l : list A) :
  words (map (fun a => ToUint32 (f a)) l) = words (map f l).
Proof.
  unfold words. induction l as [|a l IH]; [reflexivity|].
  cbn [map flat_map]. rewrite le32_ToUint32, IH. reflexivity.
Qed.

Lemma wordChunkBytes_ToUint32 (chunkType : Z)
    (description : option JSString) (v : Z) :
  wordChunkBytes chunkType description (ToUint32 v)
  = wordChunkBytes chunkType description v.
Proof. unfold wordChunkBytes. rewrite le32_ToUint32. reflexivity. Qed.

Lemma zlength_words (ws : list Z) : zlength (words ws) = 4 * zlength ws.
Proof.
  unfold words. induction ws as [|v ws IH]; [reflexivity|].
  cbn [flat_map]. rewrite zlength_app, zlength_le32, IH.
  unfold zlength. cbn [length]. lia.
Qed.

Lemma words_app (a b : list Z) : words (a ++ b) = words a ++ words b.
Proof. unfold words. apply flat_map_app. Qed.

Lemma write32_each_grows (values : list Z) :
  forall w, winv w -> grows w (write32_each values w) (words values).
Proof.
  unfold write32_each.
  induction values as [|v values IH]; intros w Hw.
  - apply grows_refl. assumption.
  - cbn [fold_left].
    pose proof (write32_grows v w Hw) as G1.
    pose proof (IH _ (proj1 G1)) as G2.
    exact (grows_trans _ _ _ _ _ G1 G2).
Qed.

Lemma grows_aligned (w w' : CDBWriter) (bytes : list Z) :
  winv w -> pos w mod 4 = 0 -> zlength bytes mod 4 = 0 ->
  grows w w' bytes -> pos w' mod 4 = 0.
Proof.
  intros Hw Hal Hb G. rewrite (grows_pos _ _ _ Hw G).
  rewrite Z.add_mod, Hal, Hb by lia. reflexivity.
Qed.

Lemma writeWordChunk_emits (chunkType : Z) (description : option JSString)
    (value : Z) (w : CDBWriter) :
  winv w -> pos w mod 4 = 0 ->
  emits (writeWordChunk chunkType description value w) w
        (Ok (wordChunkBytes chunkType description value)).
Proof.
  intros Hw Hal. unfold emits, writeWordChunk, wordChunkBytes.
  destruct (writeChunkOpen_grows chunkType description w Hw Hal)
    as (Hw1 & _).
  apply (chunk_grows chunkType description w _ _ Hw Hal).
  apply write32_grows. assumption.
Qed.

(** The two chunks of a column that has a blob: the first chunk is closed
    and the second is opened inside the call. *)
Lemma blob_chunks_grow (fill : CDBWriter -> CDBWriter) (w w2 : CDBWriter)
    (values body : list Z) :
  winv w -> pos w mod 4 = 0 ->
  (forall w0, winv w0 -> grows w0 (fill w0) body) ->
  grows (writeChunkOpen COLUMN_VALUES None w) w2 values ->
  emits (let* w := (let* w := writeChunkClose w2 in
                     Ok (fill (writeChunkOpen COLUMN_BLOB_DATA None w))) in
         writeChunkClose w)
        w
        (Ok (chunkBytes COLUMN_VALUES None values
             ++ chunkBytes COLUMN_BLOB_DATA None body)).
Proof.
  intros Hw Hal Hfill G. unfold emits.
  destruct (chunk_grows _ _ _ _ _ Hw Hal G) as (w3 & E3 & G3 & Hal3).
  rewrite E3. cbn [bind].
  pose proof (proj1 G3) as Hw3.
  destruct (writeChunkOpen_grows COLUMN_BLOB_DATA None w3 Hw3 Hal3)
    as (Hw4 & _).
  destruct (chunk_grows _ _ _ _ _ Hw3 Hal3 (Hfill _ Hw4))
    as (w7 & E7 & G7 & Hal7).
  exists w7. split; [exact E7|]. split; [|exact Hal7].
  exact (grows_trans _ _ _ _ _ G3 G7).
Qed.

Lemma zlength_zero_nil {A : Type} (l : list A) : zlength l = 0 -> l = [].
Proof. destruct l; [reflexivity|]. unfold zlength. cbn [length]. lia. Qed.

Lemma single_chunk_emits (w w2 : CDBWriter) (values : list Z) :
  winv w -> pos w mod 4 = 0 ->
  grows (writeChunkOpen COLUMN_VALUES None w) w2 (words values) ->
  emits (writeChunkClose w2) w (Ok (columnDataBytes values [])).
Proof.
  intros Hw Hal G. unfold emits, columnDataBytes. rewrite app_nil_r.
  exact (chunk_grows _ _ _ _ _ Hw Hal G).
Qed.

Lemma writeColumnData_emits (dataType : Z) (values : list Cell)
    (w : CDBWriter) :
  winv w -> pos w mod 4 = 0 ->
  emits (writeColumnData dataType values w) w
        (let* (values, blob) := columnData dataType values in
         Ok (columnDataBytes values blob)).
Proof.
  intros Hw Hal. unfold writeColumnData, columnData.
  destruct (writeChunkOpen_grows COLUMN_VALUES None w Hw Hal) as (Hw1 & _).
  set (w1 := writeChunkOpen COLUMN_VALUES None w) in *.
  destruct (dataType =? INTEGER).
  { cbn [bind]. apply single_chunk_emits; try assumption.
    rewrite words_ToUint32. apply write32_each_grows. assumption. }
  destruct (dataType =? FLOAT).
  { cbn [bind]. apply single_chunk_emits; try assumption.
    rewrite (words_ToUint32 (fun v => float32Bits (cellFloat v))).
    apply write32_each_grows. assumption. }
  destruct (dataType =? STRING).
  { unfold writeStringData. fold (encodedStrings values).
    destruct (encodedStrings values) as [encoded|e]; cbn [bind];
      [|reflexivity].
    set (stringData := flat_map (fun bytes => bytes ++ [0]) encoded).
    pose proof (write32_each_grows
                  (map (fun bytes => zlength bytes + 1) encoded) w1 Hw1)
      as G2.
    rewrite <- (words_ToUint32 (fun bytes => zlength bytes + 1)) in G2.
    destruct (Z.ltb_spec 0 (zlength stringData)) as [Hsome | Hnone].
    - unfold columnDataBytes.
      destruct stringData as [|b rest] eqn:Hdata;
        [unfold zlength in Hsome; cbn [length] in Hsome; lia|].
      rewrite <- Hdata.
      apply (blob_chunks_grow
               (fun w0 => writeBytes stringData
                            (write32 (zlength stringData) w0))
               w _ _ _ Hw Hal); [|exact G2].
      intros w0 Hw0.
      pose proof (write32_grows (zlength stringData) w0 Hw0) as G5.
      pose proof (writeBytes_grows stringData _ (proj1 G5)) as G6.
      exact (grows_trans _ _ _ _ _ G5 G6).
    - cbn [bind].
      rewrite (zlength_zero_nil stringData)
        by (pose proof (zlength_nonneg stringData); lia).
      apply single_chunk_emits; assumption. }
  destruct ((dataType =? INTEGER_LIST) || (dataType =? FLOAT_LIST)).
  { unfold writeListData. fold (parsedLists dataType values).
    destruct (parsedLists dataType values) as [parsed|e]; cbn [bind];
      [|reflexivity].
    set (listData := flat_map snd parsed).
    pose proof (write32_each_grows (map fst parsed) w1 Hw1) as G2.
    rewrite <- (words_ToUint32 fst) in G2.
    destruct (Z.ltb_spec 0 (zlength listData)) as [Hsome | Hnone].
    - unfold columnDataBytes.
      pose proof (zlength_words listData) as Hlen.
      destruct (words listData) as [|b rest] eqn:Hdata;
        [unfold zlength at 1 in Hlen; cbn [length] in Hlen; lia|].
      rewrite <- Hdata. rewrite zlength_words.
      replace (4 * zlength listData) with (zlength listData * 4) by lia.
      apply (blob_chunks_grow
               (fun w0 => write32_each listData
                            (write32 (zlength listData * 4) w0))
               w _ _ _ Hw Hal); [|exact G2].
      intros w0 Hw0.
      pose proof (write32_grows (zlength listData * 4) w0 Hw0) as G5.
      pose proof (write32_each_grows listData _ (proj1 G5)) as G6.
      exact (grows_trans _ _ _ _ _ G5 G6).
    - cbn [bind].
      rewrite (zlength_zero_nil listData)
        by (pose proof (zlength_nonneg listData); lia).
      change (words []) with (@nil Z).
      apply single_chunk_emits; assumption. }
  cbn [bind]. apply single_chunk_emits; try assumption.
  apply grows_refl. assumption.
Qed.

Lemma columnSpecs_length (columnNames : list JSString)
    (columnInfo : list (JSString * ColumnInfo)) :
  forall columns specs,
    columnSpecs columnNames columnInfo columns = Ok specs ->
    zlength specs = zlength columnNames.
Proof.
  induction columnNames as [|name names IH]; intros columns specs H.
  - injection H as <-. reflexivity.
  - cbn [columnSpecs] in H.
    destruct (getProperty columnInfo name); [|discriminate].
    cbn [bind] in H.
    destruct (columnData _ _) as [[values blob]|e]; [|discriminate].
    cbn [bind] in H.
    destruct (columnSpecs names columnInfo (tl columns)) as [rest|e] eqn:E;
      [|discriminate].
    cbn [bind] in H. injection H as <-. apply IH in E.
    unfold zlength in *. cbn [length]. lia.
Qed.

Lemma writeColumns_emits (columnNames : list JSString)
    (columnInfo : list (JSString * ColumnInfo)) :
  forall columns w,
    winv w -> pos w mod 4 = 0 ->
    emits (writeColumns columnNames columnInfo columns w) w
          (let* specs := columnSpecs columnNames columnInfo columns in
           Ok (flat_map columnBytes specs)).
Proof.
  induction columnNames as [|name names IH]; intros columns w Hw Hal.
  - exists w. split; [reflexivity|]. split; [apply grows_refl|]; assumption.
  - cbn [writeColumns columnSpecs].
    destruct (writeChunkOpen_grows COLUMN (Some name) w Hw Hal)
      as (Hw1 & _ & _ & Hal1).
    set (w1 := writeChunkOpen COLUMN (Some name) w) in *.
    destruct (getProperty columnInfo name) as [info|]; [|reflexivity].
    cbn [bind].
    destruct (writeWordChunk_emits COLUMN_INDEX None (cdbColumnIndexOf info)
                w1 Hw1 Hal1) as (w2 & E2 & G2 & Hal2).
    rewrite E2. cbn [bind].
    destruct (writeWordChunk_emits COLUMN_DATA_TYPE (Some name)
                (cdbDataTypeOf info) w2 (proj1 G2) Hal2)
      as (w3 & E3 & G3 & Hal3).
    rewrite E3. cbn [bind].
    pose proof (writeColumnData_emits (cdbDataTypeOf info)
                  (match columns with values :: _ => values | [] => [] end)
                  w3 (proj1 G3) Hal3) as Hdata.
    destruct (columnData _ _) as [[values blob]|e]; cbn [bind] in Hdata |- *;
      [|rewrite Hdata; reflexivity].
    destruct Hdata as (w4 & E4 & G4 & Hal4). rewrite E4. cbn [bind].
    destruct (chunk_grows COLUMN (Some name) w w4 _ Hw Hal
                (grows_trans _ _ _ _ _ G2 (grows_trans _ _ _ _ _ G3 G4)))
      as (w5 & E5 & G5 & Hal5).
    rewrite E5. cbn [bind].
    pose proof (IH (tl columns) w5 (proj1 G5) Hal5) as Hrest.
    destruct (columnSpecs names columnInfo (tl columns)) as [rest|e];
      cbn [bind] in Hrest |- *; [|exact Hrest].
    destruct Hrest as (w6 & E6 & G6 & Hal6).
    exists w6. split; [exact E6|]. split; [|exact Hal6].
    cbn [flat_map]. unfold columnBytes at 1, columnBody.
    cbn [cs_name cs_index cs_type cs_values cs_blob].
    rewrite !wordChunkBytes_ToUint32.
    exact (grows_trans _ _ _ _ _ G5 G6).
Qed.

Lemma writeTable_emits (db : Database) (row : list Cell) (w : CDBWriter) :
  winv w -> pos w mod 4 = 0 ->
  emits (writeTable db row w) w
        (let* t := tableSpec db row in Ok (tableBytes t)).
Proof.
  intros Hw Hal. unfold writeTable, tableSpec.
  destruct (nameText (nth 0 row CNull)) as [text|e]; [|reflexivity].
  cbn [bind]. destruct (negb (plainName text)); [reflexivity|].
  destruct (findTable db text) as [table|]; [|reflexivity]. cbn [bind].
  destruct (readColumnInfo (sql_columns table) []) as [columnInfo|e];
    [|reflexivity].
  cbn [bind].
  destruct (nameDescription (nth 0 row CNull)) as [description|e];
    [|reflexivity].
  cbn [bind].
  destruct (writeChunkOpen_grows TABLE description w Hw Hal)
    as (Hw1 & _ & _ & Hal1).
  set (w1 := writeChunkOpen TABLE description w) in *.
  destruct (writeWordChunk_emits TABLE_ID None
              (cellInteger (nth 1 row CNull)) w1 Hw1 Hal1)
    as (w2 & E2 & G2 & Hal2).
  rewrite E2. cbn [bind].
  destruct (writeWordChunk_emits ROW_COUNT None (zlength (sql_rows table))
              w2 (proj1 G2) Hal2) as (w3 & E3 & G3 & Hal3).
  rewrite E3. cbn [bind].
  destruct (writeWordChunk_emits TABLE_FLAGS None
              (flagsWord (nth 1 row CNull)) w3 (proj1 G3) Hal3)
    as (w4 & E4 & G4 & Hal4).
  rewrite E4. cbn [bind].
  pose proof (proj1 G4) as Hw4.
  destruct (writeChunkOpen_grows COLUMN_DEFINITIONS None w4 Hw4 Hal4)
    as (Hw5 & _ & _ & Hal5).
  set (w5 := writeChunkOpen COLUMN_DEFINITIONS None w4) in *.
  pose proof (write32_grows ARRAY_BEGIN w5 Hw5) as G6.
  pose proof (write32_grows (zlength (objectKeys columnInfo)) _ (proj1 G6))
    as G7.
  set (w7 := write32 (zlength (objectKeys columnInfo))
               (write32 ARRAY_BEGIN w5)) in *.
  pose proof (grows_trans _ _ _ _ _ G6 G7) as G57.
  assert (Hal7 : pos w7 mod 4 = 0).
  { refine (grows_aligned w5 w7 _ Hw5 Hal5 _ G57).
    rewrite zlength_app, !zlength_le32. reflexivity. }
  destruct (transposeRows (length (objectKeys columnInfo))
              (sql_rows table)) as [columns|e]; [|reflexivity].
  cbn [bind].
  pose proof (writeColumns_emits (objectKeys columnInfo) columnInfo columns
                w7 (proj1 G7) Hal7) as Hcols.
  destruct (columnSpecs (objectKeys columnInfo) columnInfo columns)
    as [specs|e] eqn:Especs; cbn [bind] in Hcols |- *; [|rewrite Hcols; reflexivity].
  destruct Hcols as (w8 & E8 & G8 & Hal8). rewrite E8. cbn [bind].
  pose proof (write32_grows ARRAY_END w8 (proj1 G8)) as G9.
  destruct (chunk_grows COLUMN_DEFINITIONS None w4 _ _ Hw4 Hal4
              (grows_trans _ _ _ _ _ G57 (grows_trans _ _ _ _ _ G8 G9)))
    as (w10 & E10 & G10 & Hal10).
  rewrite E10. cbn [bind].
  destruct (chunk_grows TABLE description w w10 _ Hw Hal
              (grows_trans _ _ _ _ _ G2
                 (grows_trans _ _ _ _ _ G3
                    (grows_trans _ _ _ _ _ G4 G10))))
    as (w11 & E11 & G11 & Hal11).
  exists w11. split; [exact E11|]. split; [|exact Hal11].
  unfold tableBytes, tableBody.
  cbn [ts_description ts_id ts_rowCount ts_flags ts_columns].
  rewrite !wordChunkBytes_ToUint32.
  rewrite (columnSpecs_length _ _ _ _ Especs).
  unfold arrayBytes. exact G11.
Qed.

Lemma tableSpecsOf_length (db : Database) :
  forall rows specs,
    tableSpecsOf db rows = Ok specs -> zlength specs = zlength rows.
Proof.
  induction rows as [|row rows IH]; intros specs H.
  - injection H as <-. reflexivity.
  - cbn [tableSpecsOf] in H.
    destruct (tableSpec db row); [|discriminate]. cbn [bind] in H.
    destruct (tableSpecsOf db rows) as [rest|e] eqn:E; [|discriminate].
    cbn [bind] in H. injection H as <-. specialize (IH _ eq_refl).
    unfold zlength in *. cbn [length]. lia.
Qed.

Lemma writeTables_emits (db : Database) :
  forall rows w,
    winv w -> pos w mod 4 = 0 ->
    emits (writeTables db rows w) w
          (let* specs := tableSpecsOf db rows in
           Ok (flat_map tableBytes specs)).
Proof.
  induction rows as [|row rows IH]; intros w Hw Hal.
  - exists w. split; [reflexivity|]. split; [apply grows_refl|]; assumption.
  - cbn [writeTables tableSpecsOf].
    pose proof (writeTable_emits db row w Hw Hal) as Hone.
    destruct (tableSpec db row) as [t|e]; cbn [bind] in Hone |- *;
      [|rewrite Hone; reflexivity].
    destruct Hone as (w1 & E1 & G1 & Hal1). rewrite E1. cbn [bind].
    pose proof (IH w1 (proj1 G1) Hal1) as Hrest.
    destruct (tableSpecsOf db rows) as [rest|e]; cbn [bind] in Hrest |- *;
      [|exact Hrest].
    destruct Hrest as (w2 & E2 & G2 & Hal2).
    exists w2. split; [exact E2|]. split; [|exact Hal2].
    cbn [flat_map]. exact (grows_trans _ _ _ _ _ G1 G2).
Qed.

Lemma winv_new (estimatedSize : Z) : winv (new_CDBWriter estimatedSize).
Proof.
  unfold new_CDBWriter. split; [|split; [|split]];
    cbn [pos buffer closedChunks chunkStack].
  - unfold pos_ok. cbn [pos buffer]. pose proof (zlength_nonneg (repeat 0 (Z.to_nat estimatedSize))). lia.
  - intros q _. apply (byteAt_zeros estimatedSize).
  - constructor.
  - constructor.
Qed.

(** The stream that sqliteToCDB compresses is the layout of what
    [tableSpecs] gathers, whatever the size of the first buffer. *)
Lemma sqliteToStream_layout (estimatedSize : Z) (db : Database) :
  sqliteToStream estimatedSize db
  = let* tables := tableSpecs db in Ok (layoutFile tables).
Proof.
  unfold sqliteToStream, tableSpecs.
  destruct (findTable db (str "DB_STRUCTURE")) as [structure|];
    [|reflexivity].
  cbn [bind].
  destruct (orderById (sql_rows structure)) as [|row rows] eqn:Erows;
    [reflexivity|].
  set (tables := row :: rows).
  pose proof (winv_new estimatedSize) as Hw0.
  set (w0 := new_CDBWriter estimatedSize) in *.
  assert (Hal0 : pos w0 mod 4 = 0) by reflexivity.
  assert (Hd0 : getData w0 = []) by reflexivity.
  destruct (writeChunkOpen_grows WRAPPER (Some (str "cyanide database"))
              w0 Hw0 Hal0) as (Hw1 & _ & _ & Hal1).
  set (w1 := writeChunkOpen WRAPPER (Some (str "cyanide database")) w0) in *.
  destruct (writeWordChunk_emits DATABASE_FLAGS None 274 w1 Hw1 Hal1)
    as (w2 & E2 & G2 & Hal2).
  rewrite E2. cbn [bind].
  pose proof (proj1 G2) as Hw2.
  destruct (writeChunkOpen_grows DATABASE_TABLES None w2 Hw2 Hal2)
    as (Hw3 & _ & _ & Hal3).
  set (w3 := writeChunkOpen DATABASE_TABLES None w2) in *.
  pose proof (write32_grows ARRAY_BEGIN w3 Hw3) as G4.
  pose proof (write32_grows (zlength tables) _ (proj1 G4)) as G5.
  set (w5 := write32 (zlength tables) (write32 ARRAY_BEGIN w3)) in *.
  pose proof (grows_trans _ _ _ _ _ G4 G5) as G35.
  assert (Hal5 : pos w5 mod 4 = 0).
  { refine (grows_aligned w3 w5 _ Hw3 Hal3 _ G35).
    rewrite zlength_app, !zlength_le32. reflexivity. }
  pose proof (writeTables_emits db tables w5 (proj1 G5) Hal5) as Htables.
  destruct (tableSpecsOf db tables) as [specs|e] eqn:Especs;
    cbn [bind] in Htables |- *; [|rewrite Htables; reflexivity].
  destruct Htables as (w6 & E6 & G6 & Hal6). rewrite E6. cbn [bind].
  pose proof (write32_grows ARRAY_END w6 (proj1 G6)) as G7.
  destruct (chunk_grows DATABASE_TABLES None w2 _ _ Hw2 Hal2
              (grows_trans _ _ _ _ _ G35 (grows_trans _ _ _ _ _ G6 G7)))
    as (w8 & E8 & G8 & Hal8).
  rewrite E8. cbn [bind].
  destruct (chunk_grows WRAPPER (Some (str "cyanide database")) w0 w8 _
              Hw0 Hal0 (grows_trans _ _ _ _ _ G2 G8))
    as (w9 & E9 & G9 & Hal9).
  rewrite E9. cbn [bind].
  destruct G9 as (_ & _ & Hd9). rewrite Hd9, Hd0. cbn [app].
  unfold layoutFile, fileBody, arrayBytes.
  rewrite (tableSpecsOf_length _ _ _ Especs).
  reflexivity.
Qed.

(** ** The reader on a laid-out stream *)

Lemma cursor_bounds (d : list Z) (p : Z) (rest : list Z) :
  cursor d p rest -> 0 <= p /\ p + zlength rest = zlength d.
Proof.
  intros (before & -> & <-). rewrite zlength_app.
  pose proof (zlength_nonneg before). lia.
Qed.

Lemma cursor_app (d : list Z) (p : Z) (a rest : list Z) :
  cursor d p (a ++ rest) -> cursor d (p + zlength a) rest.
Proof.
  intros (before & -> & <-). exists (before ++ a).
  rewrite <- app_assoc, zlength_app. split; reflexivity.
Qed.

Lemma cursor_start (d : list Z) : cursor d 0 d.
Proof. exists []. split; reflexivity. Qed.

Lemma cursor_byteAt (d : list Z) (p : Z) (a rest : list Z) (i : Z) :
  cursor d p (a ++ rest) -> 0 <= i < zlength a ->
  byteAt d (p + i) = byteAt a i.
Proof.
  intros (before & -> & <-) Hi.
  pose proof (zlength_nonneg before).
  rewrite byteAt_app_r by lia.
  replace (zlength before + i - zlength before) with i by lia.
  apply byteAt_app_l. lia.
Qed.

Lemma cursor_read32 (d : list Z) (p v : Z) (rest : list Z) :
  cursor d p (le32 v ++ rest) -> read32 d p = Ok (ToUint32 v, p + 4).
Proof.
  intros Hc. pose proof (cursor_bounds _ _ _ Hc) as (Hp & Hlen).
  rewrite zlength_app, zlength_le32 in Hlen.
  pose proof (zlength_nonneg rest).
  unfold read32.
  destruct (Z.gtb_spec (p + 4) (zlength d)) as [Hgt | _]; [lia|].
  f_equal. f_equal. rewrite <- (getUint32_le32 v).
  unfold getUint32.
  rewrite <- (Z.add_0_r p) at 1.
  rewrite (cursor_byteAt d p (le32 v) rest 0 Hc),
    (cursor_byteAt d p (le32 v) rest 1 Hc),
    (cursor_byteAt d p (le32 v) rest 2 Hc),
    (cursor_byteAt d p (le32 v) rest 3 Hc)
    by (rewrite zlength_le32; lia).
  reflexivity.
Qed.

Lemma cursor_subarray (d : list Z) (p : Z) (bytes rest : list Z) :
  cursor d p (bytes ++ rest) -> subarray d p (zlength bytes) = bytes.
Proof.
  intros (before & -> & <-). unfold subarray, zlength.
  rewrite !Nat2Z.id, skipn_app, Nat.sub_diag, skipn_all.
  cbn [skipn app]. rewrite firstn_app, Nat.sub_diag, firstn_all.
  cbn [firstn]. apply app_nil_r.
Qed.

Lemma cursor_readBytes (d : list Z) (p : Z) (bytes rest : list Z) :
  cursor d p (bytes ++ rest) ->
  readBytes d (zlength bytes) p = Ok (bytes, p + zlength bytes).
Proof.
  intros Hc. pose proof (cursor_bounds _ _ _ Hc) as (Hp & Hlen).
  rewrite zlength_app in Hlen.
  pose proof (zlength_nonneg rest). pose proof (zlength_nonneg bytes).
  unfold readBytes.
  destruct (Z.gtb_spec (p + zlength bytes) (zlength d)) as [Hgt | _]; [lia|].
  destruct (Z.ltb_spec (zlength bytes) 0) as [Hneg | _]; [lia|].
  rewrite (cursor_subarray d p bytes rest Hc). reflexivity.
Qed.

Lemma ToUint32_small (v : Z) : 0 <= v < two32 -> ToUint32 v = v.
Proof. intros Hv. unfold ToUint32. apply Z.mod_small. assumption. Qed.

Lemma readPadding_shift (p k : Z) :
  p mod 4 = 0 -> readPadding (p + k) = p + k + paddingAt k.
Proof.
  intros Hp. unfold readPadding. rewrite paddingAt_shift by assumption.
  reflexivity.
Qed.

(** Reading the header of a laid-out chunk. *)
Lemma readChunkHeader_layout (d : list Z) (p size chunkType : Z)
    (description : option JSString) (rest : list Z) :
  cursor d p (headerBytes size chunkType description ++ rest) ->
  p mod 4 = 0 ->
  zlength (headerBytes size chunkType description) < two32 ->
  readChunkHeader d p
  = Ok (mkHeader (ToUint32 size) (ToUint32 chunkType) 0
                 (decodedDescription description),
        p + zlength (headerBytes size chunkType description)).
Proof.
  intros Hc Hal Hsize.
  unfold headerBytes in Hc, Hsize |- *. cbv zeta in Hc, Hsize |- *.
  remember (paddingAt
              (zlength (le32 CHUNK_BEGIN ++ le32 size ++ le32 chunkType
                        ++ le32 0 ++ descriptionBytes description)))
    as pad eqn:Epad.
  assert (Hpad : 0 <= pad < 4) by (subst pad; apply paddingAt_range).
  rewrite !zlength_app, !zlength_le32 in Epad.
  rewrite !zlength_app, !zlength_le32, zlength_zeros in Hsize |- * by lia.
  rewrite <- !app_assoc in Hc.
  unfold readChunkHeader.
  rewrite (cursor_read32 _ _ _ _ Hc). cbn [bind].
  apply cursor_app in Hc. rewrite zlength_le32 in Hc.
  rewrite (cursor_read32 _ _ _ _ Hc). cbn [bind].
  apply cursor_app in Hc. rewrite zlength_le32 in Hc.
  rewrite (cursor_read32 _ _ _ _ Hc). cbn [bind].
  apply cursor_app in Hc. rewrite zlength_le32 in Hc.
  rewrite (cursor_read32 _ _ _ _ Hc). cbn [bind].
  apply cursor_app in Hc. rewrite zlength_le32 in Hc.
  change (ToUint32 0) with 0.
  unfold descriptionBytes, decodedDescription in *.
  destruct (truthy description).
  - remember (TextEncoder_encode
                match description with Some d0 => d0 | None => [] end)
      as descBytes eqn:Edesc.
    pose proof (zlength_nonneg descBytes) as Hdn.
    rewrite !zlength_app, !zlength_le32 in Hsize, Epad |- *.
    change (zlength [0]) with 1 in Hsize, Epad |- *.
    rewrite <- !app_assoc in Hc.
    rewrite (cursor_read32 _ _ _ _ Hc). cbn [bind].
    apply cursor_app in Hc. rewrite zlength_le32 in Hc.
    change (ToUint32 1 =? 0) with false. cbv iota.
    rewrite (cursor_read32 _ _ _ _ Hc). cbn [bind].
    apply cursor_app in Hc. rewrite zlength_le32 in Hc.
    rewrite ToUint32_small by (unfold two32 in *; lia).
    replace (zlength descBytes + 1 - 1) with (zlength descBytes) by lia.
    rewrite (cursor_readBytes _ _ _ _ Hc). cbn [bind].
    apply cursor_app in Hc.
    apply (cursor_app _ _ [0]) in Hc. change (zlength [0]) with 1 in Hc.
    unfold readPadding.
    replace (paddingAt (p + 4 + 4 + 4 + 4 + 4 + 4 + zlength descBytes + 1))
      with pad.
    2:{ rewrite Epad, <- (paddingAt_shift p) by assumption. f_equal. lia. }
    apply cursor_app in Hc. rewrite zlength_zeros in Hc by lia.
    rewrite (cursor_read32 _ _ _ _ Hc). cbn [bind].
    f_equal. f_equal. lia.
  - rewrite zlength_le32 in Hsize, Epad |- *.
    rewrite (cursor_read32 _ _ _ _ Hc). cbn [bind].
    apply cursor_app in Hc. rewrite zlength_le32 in Hc.
    change (ToUint32 0 =? 0) with true. cbv iota. cbn [bind].
    unfold readPadding.
    replace (paddingAt (p + 4 + 4 + 4 + 4 + 4)) with pad.
    2:{ rewrite Epad, <- (paddingAt_shift p) by assumption. f_equal. lia. }
    apply cursor_app in Hc. rewrite zlength_zeros in Hc by lia.
    rewrite (cursor_read32 _ _ _ _ Hc). cbn [bind].
    f_equal. f_equal. lia.
Qed.

Lemma zlength_chunkBytes (chunkType : Z) (description : option JSString)
    (body : list Z) :
  let n := zlength (headerBytes 0 chunkType description) + zlength body in
  zlength (chunkBytes chunkType description body) = n + paddingAt n + 4.
Proof.
  cbv zeta. unfold chunkBytes. cbv zeta.
  pose proof (zlength_headerBytes
                (zlength (headerBytes 0 chunkType description) + zlength body
                 + paddingAt (zlength (headerBytes 0 chunkType description)
                              + zlength body) + 4)
                chunkType description) as (_ & _ & Hsame).
  pose proof (paddingAt_range
                (zlength (headerBytes 0 chunkType description)
                 + zlength body)) as Hpad.
  rewrite !zlength_app, Hsame, zlength_zeros, zlength_le32 by lia. lia.
Qed.

Lemma chunkBytes_bounds (chunkType : Z) (description : option JSString)
    (body : list Z) :
  zlength (headerBytes 0 chunkType description) + zlength body + 4
  <= zlength (chunkBytes chunkType description body) /\
  zlength (chunkBytes chunkType description body) mod 4 = 0.
Proof.
  pose proof (zlength_chunkBytes chunkType description body) as Hlen.
  cbv zeta in Hlen. rewrite Hlen.
  set (n := zlength (headerBytes 0 chunkType description) + zlength body).
  pose proof (paddingAt_range n). pose proof (paddingAt_aligned n) as Ha.
  split; [lia|].
  replace (n + paddingAt n + 4) with (n + paddingAt n + 1 * 4) by lia.
  rewrite Z.mod_add by lia. exact Ha.
Qed.

(** Reading a laid-out chunk, given what the [switch] makes of its
    body. *)
Lemma readChunk_layout (f : nat) (d : list Z) (p chunkType : Z)
    (description : option JSString) (body rest : list Z)
    (res : ChunkResult) (p2 : Z) :
  cursor d p (chunkBytes chunkType description body ++ rest) ->
  p mod 4 = 0 -> 0 <= chunkType < two32 ->
  zlength (chunkBytes chunkType description body) < two32 ->
  readChunkBody (readChunk f d) f d (headerOf chunkType description body)
    (p + zlength (chunkBytes chunkType description body))
    (p + zlength (headerBytes 0 chunkType description))
  = Ok (res, p2) ->
  readPadding p2 = p + zlength (chunkBytes chunkType description body) - 4 ->
  readChunk (S f) d p
  = Ok (res, p + zlength (chunkBytes chunkType description body)).
Proof.
  intros Hc Hal Ht Hsize Hbody Hp2.
  pose proof (zlength_chunkBytes chunkType description body) as Hlen.
  cbv zeta in Hlen.
  pose proof (zlength_nonneg body) as Hbn.
  set (n := zlength (headerBytes 0 chunkType description) + zlength body)
    in *.
  pose proof (paddingAt_range n) as Hpad.
  pose proof (zlength_headerBytes (n + paddingAt n + 4) chunkType description)
    as (Hh24 & _ & Hsame).
  assert (Hc' : cursor d p
                  (headerBytes (n + paddingAt n + 4) chunkType description
                   ++ body ++ zeros (paddingAt n) ++ le32 CHUNK_END ++ rest)).
  { unfold chunkBytes in Hc. cbv zeta in Hc. fold n in Hc.
    rewrite <- !app_assoc in Hc. exact Hc. }
  cbn [readChunk].
  rewrite (readChunkHeader_layout d p _ chunkType description _ Hc' Hal)
    by lia.
  cbn [bind chunkSize].
  rewrite (ToUint32_small (n + paddingAt n + 4)) by lia.
  rewrite (ToUint32_small chunkType) by assumption.
  rewrite Hsame. rewrite <- Hlen.
  fold (headerOf chunkType description body).
  rewrite Hbody. cbn [bind]. rewrite Hp2.
  apply cursor_app in Hc'. apply cursor_app in Hc'. apply cursor_app in Hc'.
  rewrite Hsame, zlength_zeros in Hc' by lia.
  replace (p + zlength (headerBytes 0 chunkType description) + zlength body
           + paddingAt n)
    with (p + zlength (chunkBytes chunkType description body) - 4)
    in Hc' by lia.
  rewrite (cursor_read32 _ _ _ _ Hc'). cbn [bind].
  f_equal. f_equal. lia.
Qed.

Lemma readValues_layout (d : list Z) (dataBytes : Z) (rest : list Z) :
  forall (ws : list Z) (fuel : nat) (i p : Z) (acc : list Z),
    cursor d p (words ws ++ rest) ->
    dataBytes = 4 * (i + zlength ws) ->
    (length ws < fuel)%nat ->
    readValues fuel d dataBytes i p acc
    = Ok (acc ++ map ToUint32 ws, p + 4 * zlength ws).
Proof.
  induction ws as [|v ws IH]; intros fuel i p acc Hc Hdata Hfuel.
  - destruct fuel as [|fuel]; [cbn in Hfuel; lia|].
    cbn [readValues]. change (zlength (@nil Z)) with 0 in *.
    destruct (Z.ltb_spec (4 * i) dataBytes) as [Hlt | _]; [lia|].
    cbn [map]. rewrite app_nil_r. f_equal. f_equal. lia.
  - destruct fuel as [|fuel]; [cbn in Hfuel; lia|].
    cbn [readValues].
    assert (Hz : zlength (v :: ws) = zlength ws + 1)
      by (unfold zlength; cbn [length]; lia).
    pose proof (zlength_nonneg ws) as Hn. rewrite Hz in *.
    destruct (Z.ltb_spec (4 * i) dataBytes) as [_ | Hge]; [|lia].
    change (words (v :: ws)) with (le32 v ++ words ws) in Hc.
    rewrite <- app_assoc in Hc.
    rewrite (cursor_read32 _ _ _ _ Hc). cbn [bind].
    apply cursor_app in Hc. rewrite zlength_le32 in Hc.
    rewrite (IH fuel (i + 1) (p + 4) (acc ++ [ToUint32 v]) Hc)
      by (cbn [length] in Hfuel; lia).
    cbn [map]. rewrite <- app_assoc. cbn [app]. f_equal. f_equal. lia.
Qed.

Lemma zlength_headerBytes_None (size chunkType : Z) :
  zlength (headerBytes size chunkType None) = 24.
Proof.
  unfold headerBytes, descriptionBytes. cbn [truthy]. cbv zeta.
  rewrite !zlength_app, !zlength_le32.
  change (paddingAt (4 + (4 + (4 + (4 + 4))))) with 0. reflexivity.
Qed.

Lemma chunk_body_cursor (d : list Z) (p chunkType : Z)
    (description : option JSString) (body rest : list Z) :
  cursor d p (chunkBytes chunkType description body ++ rest) ->
  cursor d (p + zlength (headerBytes 0 chunkType description))
    (body
     ++ zeros (paddingAt (zlength (headerBytes 0 chunkType description)
                          + zlength body))
     ++ le32 CHUNK_END ++ rest).
Proof.
  intros Hc. unfold chunkBytes in Hc. cbv zeta in Hc.
  rewrite <- !app_assoc in Hc. apply cursor_app in Hc.
  pose proof (zlength_headerBytes
                (zlength (headerBytes 0 chunkType description) + zlength body
                 + paddingAt (zlength (headerBytes 0 chunkType description)
                              + zlength body) + 4)
                chunkType description) as (_ & _ & Hsame).
  rewrite Hsame in Hc. exact Hc.
Qed.

Lemma readPadding_body (p chunkType : Z) (description : option JSString)
    (body : list Z) :
  p mod 4 = 0 ->
  readPadding (p + zlength (headerBytes 0 chunkType description)
               + zlength body)
  = p + zlength (chunkBytes chunkType description body) - 4.
Proof.
  intros Hal.
  pose proof (zlength_chunkBytes chunkType description body) as Hlen.
  cbv zeta in Hlen. rewrite Hlen, <- Z.add_assoc.
  rewrite readPadding_shift by assumption. lia.
Qed.

Lemma readChunk_word (f : nat) (d : list Z) (p ty : Z)
    (description : option JSString) (v : Z) (rest : list Z) :
  cursor d p (wordChunkBytes ty description v ++ rest) ->
  p mod 4 = 0 -> 0 <= ty < two32 ->
  isScalarChunk ty = true ->
  zlength (wordChunkBytes ty description v) < two32 ->
  readChunk (S f) d p
  = Ok (Leaf ty (VNumber (ToUint32 v)),
        p + zlength (wordChunkBytes ty description v)).
Proof.
  unfold wordChunkBytes. intros Hc Hal Ht Hscalar Hsize.
  apply (readChunk_layout f d p ty description (le32 v) rest _
           (p + zlength (headerBytes 0 ty description) + 4));
    try assumption.
  - unfold readChunkBody, headerOf. cbn [chunkType]. rewrite Hscalar.
    apply chunk_body_cursor in Hc.
    rewrite (cursor_read32 _ _ _ _ Hc). reflexivity.
  - rewrite <- (zlength_le32 v) at 1. apply readPadding_body. assumption.
Qed.

Lemma paddingAt_words (k : Z) : paddingAt (24 + 4 * k) = 0.
Proof.
  rewrite paddingAt_mod.
  replace (24 + 4 * k) with (0 + (6 + k) * 4) by lia.
  rewrite Z.mod_add by lia. reflexivity.
Qed.

Lemma readChunk_values (f : nat) (d : list Z) (p : Z) (ws rest : list Z) :
  cursor d p (chunkBytes COLUMN_VALUES None (words ws) ++ rest) ->
  p mod 4 = 0 ->
  zlength (chunkBytes COLUMN_VALUES None (words ws)) < two32 ->
  (length ws < f)%nat ->
  readChunk (S f) d p
  = Ok (Leaf COLUMN_VALUES (VWords (map ToUint32 ws)),
        p + zlength (chunkBytes COLUMN_VALUES None (words ws))).
Proof.
  intros Hc Hal Hsize Hfuel.
  pose proof (zlength_chunkBytes COLUMN_VALUES None (words ws)) as Hlen.
  cbv zeta in Hlen.
  rewrite zlength_headerBytes_None, zlength_words, paddingAt_words in Hlen.
  apply (readChunk_layout f d p COLUMN_VALUES None (words ws) rest _
           (p + zlength (headerBytes 0 COLUMN_VALUES None)
            + zlength (words ws)));
    try assumption.
  - unfold two32, COLUMN_VALUES. lia.
  - unfold readChunkBody, headerOf. cbn [chunkType].
    change (isScalarChunk COLUMN_VALUES) with false.
    change (COLUMN_VALUES =? COLUMN_VALUES) with true. cbv iota.
    apply chunk_body_cursor in Hc.
    rewrite zlength_headerBytes_None in Hc |- *.
    rewrite (readValues_layout d _ _ ws f 0 (p + 24) [] Hc); try assumption.
    + cbn [bind app]. rewrite zlength_words. reflexivity.
    + rewrite Hlen. lia.
  - apply readPadding_body. assumption.
Qed.

Lemma readChunk_blob (f : nat) (d : list Z) (p : Z) (body rest : list Z) :
  cursor d p (chunkBytes COLUMN_BLOB_DATA None body ++ rest) ->
  p mod 4 = 0 ->
  zlength (chunkBytes COLUMN_BLOB_DATA None body) < two32 ->
  readChunk (S f) d p
  = Ok (Leaf COLUMN_BLOB_DATA
          (VBytes (body ++ zeros (paddingAt (zlength body)))),
        p + zlength (chunkBytes COLUMN_BLOB_DATA None body)).
Proof.
  intros Hc Hal Hsize.
  pose proof (zlength_chunkBytes COLUMN_BLOB_DATA None body) as Hlen.
  cbv zeta in Hlen. rewrite zlength_headerBytes_None in Hlen.
  assert (Hpad : paddingAt (24 + zlength body) = paddingAt (zlength body))
    by (apply paddingAt_shift; reflexivity).
  rewrite Hpad in Hlen.
  pose proof (paddingAt_range (zlength body)) as Hr.
  pose proof (zlength_nonneg body) as Hbn.
  apply (readChunk_layout f d p COLUMN_BLOB_DATA None body rest _
           (p + zlength (chunkBytes COLUMN_BLOB_DATA None body) - 4));
    try assumption.
  - unfold two32, COLUMN_BLOB_DATA. lia.
  - unfold readChunkBody, headerOf. cbn [chunkType].
    change (isScalarChunk COLUMN_BLOB_DATA) with false.
    change (COLUMN_BLOB_DATA =? COLUMN_VALUES) with false.
    change (COLUMN_BLOB_DATA =? COLUMN_BLOB_DATA) with true. cbv iota.
    apply chunk_body_cursor in Hc.
    rewrite zlength_headerBytes_None in Hc |- *. rewrite Hpad in Hc.
    rewrite app_assoc in Hc.
    replace (p + zlength (chunkBytes COLUMN_BLOB_DATA None body)
             - (p + 24) - 4)
      with (zlength (body ++ zeros (paddingAt (zlength body))))
      by (rewrite zlength_app, zlength_zeros; lia).
    rewrite (cursor_readBytes _ _ _ _ Hc). cbn [bind].
    rewrite zlength_app, zlength_zeros by lia.
    f_equal. f_equal. lia.
  - unfold readPadding.
    replace (paddingAt (p + zlength (chunkBytes COLUMN_BLOB_DATA None body)
                        - 4)) with 0; [lia|].
    rewrite paddingAt_mod.
    pose proof (chunkBytes_bounds COLUMN_BLOB_DATA None body) as (_ & Hm).
    replace (p + zlength (chunkBytes COLUMN_BLOB_DATA None body) - 4)
      with (p + zlength (chunkBytes COLUMN_BLOB_DATA None body) + (-1) * 4)
      by lia.
    rewrite Z.mod_add, Z.add_mod, Hal, Hm by lia. reflexivity.
Qed.

Lemma cursor_fuel (d : list Z) (p : Z) (a rest : list Z) (f : nat) :
  cursor d p (a ++ rest) -> zlength d - p < Z.of_nat f ->
  zlength a < Z.of_nat f.
Proof.
  intros Hc Hf. apply cursor_bounds in Hc as (_ & Hlen).
  rewrite zlength_app in Hlen. pose proof (zlength_nonneg rest). lia.
Qed.

Lemma chunkBytes_min (chunkType : Z) (description : option JSString)
    (body : list Z) :
  28 + zlength body <= zlength (chunkBytes chunkType description body).
Proof.
  pose proof (chunkBytes_bounds chunkType description body) as (Hb & _).
  pose proof (zlength_headerBytes 0 chunkType description) as (H24 & _).
  lia.
Qed.

(** The same with the fuel stated as a bound on what is left to read. *)
Lemma readChunk_word_f (f : nat) (d : list Z) (p ty : Z)
    (description : option JSString) (v : Z) (rest : list Z) :
  cursor d p (wordChunkBytes ty description v ++ rest) ->
  p mod 4 = 0 -> 0 <= ty < two32 ->
  isScalarChunk ty = true ->
  zlength (wordChunkBytes ty description v) < two32 ->
  zlength d - p < Z.of_nat f ->
  readChunk f d p
  = Ok (Leaf ty (VNumber (ToUint32 v)),
        p + zlength (wordChunkBytes ty description v)).
Proof.
  intros Hc Hal Ht Hs Hsize Hf.
  pose proof (cursor_fuel _ _ _ _ _ Hc Hf) as Hlen.
  pose proof (chunkBytes_min ty description (le32 v)) as Hmin.
  fold (wordChunkBytes ty description v) in Hmin.
  pose proof (zlength_nonneg (le32 v)).
  destruct f as [|f]; [lia|].
  apply (readChunk_word f d p ty description v rest); assumption.
Qed.

Lemma readChunk_values_f (f : nat) (d : list Z) (p : Z) (ws rest : list Z) :
  cursor d p (chunkBytes COLUMN_VALUES None (words ws) ++ rest) ->
  p mod 4 = 0 ->
  zlength (chunkBytes COLUMN_VALUES None (words ws)) < two32 ->
  zlength d - p < Z.of_nat f ->
  readChunk f d p
  = Ok (Leaf COLUMN_VALUES (VWords (map ToUint32 ws)),
        p + zlength (chunkBytes COLUMN_VALUES None (words ws))).
Proof.
  intros Hc Hal Hsize Hf.
  pose proof (cursor_fuel _ _ _ _ _ Hc Hf) as Hlen.
  pose proof (chunkBytes_min COLUMN_VALUES None (words ws)) as Hmin.
  rewrite zlength_words in Hmin.
  destruct f as [|f]; [pose proof (zlength_nonneg ws); lia|].
  apply (readChunk_values f d p ws rest); try assumption.
  unfold zlength in Hmin at 1. lia.
Qed.

Lemma readChunk_blob_f (f : nat) (d : list Z) (p : Z) (body rest : list Z) :
  cursor d p (chunkBytes COLUMN_BLOB_DATA None body ++ rest) ->
  p mod 4 = 0 ->
  zlength (chunkBytes COLUMN_BLOB_DATA None body) < two32 ->
  zlength d - p < Z.of_nat f ->
  readChunk f d p
  = Ok (Leaf COLUMN_BLOB_DATA
          (VBytes (body ++ zeros (paddingAt (zlength body)))),
        p + zlength (chunkBytes COLUMN_BLOB_DATA None body)).
Proof.
  intros Hc Hal Hsize Hf.
  pose proof (cursor_fuel _ _ _ _ _ Hc Hf) as Hlen.
  pose proof (chunkBytes_min COLUMN_BLOB_DATA None body) as Hmin.
  pose proof (zlength_nonneg body).
  destruct f as [|f]; [lia|].
  apply (readChunk_blob f d p body rest); assumption.
Qed.

Lemma readChildren_step (fuel : nat) (rec : Z -> Result (ChunkResult * Z))
    (e p p' : Z) (r : ChunkResult) (acc : Children) :
  rec p = Ok (r, p') -> 20 <= e - p ->
  readChildren (S fuel) rec e p acc
  = readChildren fuel rec e p' (setChild acc (result_type r) (result_value r)).
Proof.
  intros Hr He. cbn [readChildren].
  destruct (Z.ltb_spec p e) as [_ | Hge]; [|lia].
  destruct (Z.ltb_spec (e - p) 20) as [Hlt | _]; [lia|].
  rewrite Hr. reflexivity.
Qed.

Lemma readChildren_stop (fuel : nat) (rec : Z -> Result (ChunkResult * Z))
    (e p : Z) (acc : Children) :
  e - p < 20 -> readChildren (S fuel) rec e p acc = Ok (acc, p).
Proof.
  intros He. cbn [readChildren].
  destruct (p <? e); [|reflexivity].
  destruct (Z.ltb_spec (e - p) 20) as [_ | Hge]; [reflexivity | lia].
Qed.

Lemma chunkBytes_aligned (p chunkType : Z) (description : option JSString)
    (body : list Z) :
  p mod 4 = 0 ->
  (p + zlength (chunkBytes chunkType description body)) mod 4 = 0.
Proof.
  intros Hal.
  pose proof (chunkBytes_bounds chunkType description body) as (_ & Hm).
  rewrite Z.add_mod, Hal, Hm by lia. reflexivity.
Qed.

Lemma header_aligned (p size chunkType : Z) (description : option JSString) :
  p mod 4 = 0 ->
  (p + zlength (headerBytes size chunkType description)) mod 4 = 0.
Proof.
  intros Hal.
  pose proof (zlength_headerBytes size chunkType description) as (_ & Hm & _).
  rewrite Z.add_mod, Hal, Hm by lia. reflexivity.
Qed.

Lemma chunk_in_data (d : list Z) (p : Z) (a rest : list Z) :
  cursor d p (a ++ rest) -> zlength d < two32 -> zlength a < two32.
Proof.
  intros Hc Hd. apply cursor_bounds in Hc as (Hp & Hlen).
  rewrite zlength_app in Hlen. pose proof (zlength_nonneg rest). lia.
Qed.

Lemma seqEnd_le (chunks : list (Z * ChunkResult)) :
  forall p, Forall (fun x => 20 <= fst x) chunks -> p <= seqEnd p chunks.
Proof.
  unfold seqEnd. induction chunks as [|x chunks IH]; intros p Hmin.
  - cbn. lia.
  - inversion Hmin as [|? ? Hx Hrest]; subst. cbn [fold_left].
    specialize (IH (p + fst x) Hrest). lia.
Qed.

Lemma readChildren_seq (rec : Z -> Result (ChunkResult * Z)) (e : Z)
    (chunks : list (Z * ChunkResult)) :
  forall (fuel : nat) (p : Z) (acc : Children),
    reads_seq rec p chunks ->
    Forall (fun x => 20 <= fst x) chunks ->
    seqEnd p chunks <= e -> e - seqEnd p chunks < 20 ->
    (length chunks < fuel)%nat ->
    readChildren fuel rec e p acc
    = Ok (childrenOf chunks acc, seqEnd p chunks).
Proof.
  induction chunks as [|[len r] chunks IH];
    intros fuel p acc Hreads Hmin Hle Hlt Hfuel.
  - destruct fuel as [|fuel]; [cbn in Hfuel; lia|].
    apply readChildren_stop. exact Hlt.
  - destruct fuel as [|fuel]; [cbn in Hfuel; lia|].
    destruct Hreads as (Hr & Hrest).
    inversion Hmin as [|? ? Hx Hmin']; subst. cbn [fst] in Hx.
    change (seqEnd p ((len, r) :: chunks)) with (seqEnd (p + len) chunks)
      in *.
    pose proof (seqEnd_le chunks (p + len) Hmin') as Hmono.
    rewrite (readChildren_step _ _ _ _ _ _ _ Hr) by lia.
    apply IH; try assumption. cbn [length] in Hfuel. lia.
Qed.

Lemma readChunk_column (f : nat) (d : list Z) (p : Z) (c : ColumnSpec)
    (rest : list Z) :
  cursor d p (columnBytes c ++ rest) ->
  p mod 4 = 0 -> zlength d < two32 -> zlength d - p < Z.of_nat f ->
  readChunk f d p = Ok (columnResult c, p + zlength (columnBytes c)).
Proof.
  intros Hc Hal Hd Hf. unfold columnBytes in *.
  pose proof (chunk_in_data _ _ _ _ Hc Hd) as Hsize.
  pose proof (cursor_fuel _ _ _ _ _ Hc Hf) as Hlen.
  pose proof (chunkBytes_bounds COLUMN (Some (cs_name c)) (columnBody c))
    as (Hb & _).
  pose proof (zlength_headerBytes 0 COLUMN (Some (cs_name c)))
    as (H24 & _).
  pose proof (chunk_body_cursor _ _ _ _ _ _ Hc) as Hbody.
  pose proof (header_aligned p 0 COLUMN (Some (cs_name c)) Hal) as Hal1.
  pose proof (readPadding_body p COLUMN (Some (cs_name c)) (columnBody c) Hal)
    as Hpadding.
  pose proof (zlength_chunkBytes COLUMN (Some (cs_name c)) (columnBody c))
    as Hcl.
  cbv zeta in Hcl.
  pose proof (paddingAt_range
                (zlength (headerBytes 0 COLUMN (Some (cs_name c)))
                 + zlength (columnBody c))) as Hcp.
  pose proof (cursor_bounds _ _ _ Hc) as (Hp0 & _).
  remember (p + zlength (headerBytes 0 COLUMN (Some (cs_name c)))) as p1
    eqn:Ep1.
  remember (zeros (paddingAt
                     (zlength (headerBytes 0 COLUMN (Some (cs_name c)))
                      + zlength (columnBody c)))
            ++ le32 CHUNK_END ++ rest) as tail eqn:Etail.
  clear Etail.
  assert (Hbodylen :
            zlength (columnBody c)
            = zlength (wordChunkBytes COLUMN_INDEX None (cs_index c))
              + zlength (wordChunkBytes COLUMN_DATA_TYPE (Some (cs_name c))
                           (cs_type c))
              + zlength (chunkBytes COLUMN_VALUES None (words (cs_values c)))
              + zlength match cs_blob c with
                        | [] => []
                        | _ :: _ =>
                            chunkBytes COLUMN_BLOB_DATA None
                              (le32 (zlength (cs_blob c)) ++ cs_blob c)
                        end).
  { unfold columnBody, columnDataBytes. rewrite !zlength_app. lia. }
  unfold columnBody, columnDataBytes in Hbody.
  rewrite <- !app_assoc in Hbody.
  pose proof (chunkBytes_bounds COLUMN_INDEX None (le32 (cs_index c)))
    as (M1 & A1).
  pose proof (chunkBytes_bounds COLUMN_DATA_TYPE (Some (cs_name c))
                (le32 (cs_type c))) as (M2 & A2).
  pose proof (chunkBytes_bounds COLUMN_VALUES None (words (cs_values c)))
    as (M3 & A3).
  pose proof (zlength_headerBytes 0 COLUMN_INDEX None) as (H1 & _).
  pose proof (zlength_headerBytes 0 COLUMN_DATA_TYPE (Some (cs_name c)))
    as (H2 & _).
  pose proof (zlength_headerBytes 0 COLUMN_VALUES None) as (H3 & _).
  pose proof (zlength_nonneg (words (cs_values c))) as N3.
  rewrite zlength_le32 in M1, M2.
  fold (wordChunkBytes COLUMN_INDEX None (cs_index c)) in M1, A1.
  fold (wordChunkBytes COLUMN_DATA_TYPE (Some (cs_name c)) (cs_type c))
    in M2, A2.
  remember (wordChunkBytes COLUMN_INDEX None (cs_index c)) as B1 eqn:E1.
  remember (wordChunkBytes COLUMN_DATA_TYPE (Some (cs_name c)) (cs_type c))
    as B2 eqn:E2.
  remember (chunkBytes COLUMN_VALUES None (words (cs_values c))) as B3
    eqn:E3.
  remember (match cs_blob c with
            | [] => []
            | _ :: _ =>
                chunkBytes COLUMN_BLOB_DATA None
                  (le32 (zlength (cs_blob c)) ++ cs_blob c)
            end) as B4 eqn:E4.
  pose proof (zlength_nonneg B4) as N4.
  assert (Hf1 : forall q, p1 <= q -> zlength d - q < Z.of_nat (pred f))
    by (intros q Hq; lia).
  destruct f as [|f]; [lia|]. cbn [pred] in Hf1.
  (* the chunks that every column has *)
  assert (R1 : readChunk f d p1
               = Ok (Leaf COLUMN_INDEX (VNumber (ToUint32 (cs_index c))),
                     p1 + zlength B1)).
  { rewrite E1 in Hbody |- *.
    apply (readChunk_word_f f d p1 COLUMN_INDEX None (cs_index c) _ Hbody);
      [assumption | unfold two32, COLUMN_INDEX; lia | reflexivity | |].
    - rewrite <- E1. lia.
    - apply Hf1. lia. }
  pose proof (cursor_app _ _ _ _ Hbody) as Hbody2.
  assert (Hal2 : (p1 + zlength B1) mod 4 = 0)
    by (rewrite Z.add_mod, Hal1, A1 by lia; reflexivity).
  assert (R2 : readChunk f d (p1 + zlength B1)
               = Ok (Leaf COLUMN_DATA_TYPE (VNumber (ToUint32 (cs_type c))),
                     p1 + zlength B1 + zlength B2)).
  { rewrite E2 in Hbody2 |- *.
    apply (readChunk_word_f f d _ COLUMN_DATA_TYPE (Some (cs_name c))
             (cs_type c) _ Hbody2);
      [assumption | unfold two32, COLUMN_DATA_TYPE; lia | reflexivity | |].
    - rewrite <- E2. lia.
    - apply Hf1. lia. }
  pose proof (cursor_app _ _ _ _ Hbody2) as Hbody3.
  assert (Hal3 : (p1 + zlength B1 + zlength B2) mod 4 = 0)
    by (rewrite Z.add_mod, Hal2, A2 by lia; reflexivity).
  assert (R3 : readChunk f d (p1 + zlength B1 + zlength B2)
               = Ok (Leaf COLUMN_VALUES
                       (VWords (map ToUint32 (cs_values c))),
                     p1 + zlength B1 + zlength B2 + zlength B3)).
  { rewrite E3 in Hbody3 |- *.
    apply (readChunk_values_f f d _ (cs_values c) _ Hbody3);
      [assumption | rewrite <- E3; lia | apply Hf1; lia]. }
  pose proof (cursor_app _ _ _ _ Hbody3) as Hbody4.
  assert (Hal4 : (p1 + zlength B1 + zlength B2 + zlength B3) mod 4 = 0)
    by (rewrite Z.add_mod, Hal3, A3 by lia; reflexivity).
  apply (readChunk_layout f d p COLUMN (Some (cs_name c)) (columnBody c) rest
           (columnResult c) (p1 + zlength (columnBody c)));
    try assumption.
  - unfold two32, COLUMN. lia.
  - unfold readChunkBody, headerOf. cbn [chunkType].
    change (isScalarChunk COLUMN) with false.
    change (COLUMN =? COLUMN_VALUES) with false.
    change (COLUMN =? COLUMN_BLOB_DATA) with false.
    change (COLUMN =? DATABASE_TABLES) with false.
    change (COLUMN =? COLUMN_DEFINITIONS) with false.
    change (isContainerChunk COLUMN) with true. cbv iota.
    fold (headerOf COLUMN (Some (cs_name c)) (columnBody c)).
    rewrite <- Ep1.
    unfold columnResult, columnChildren.
    destruct (cs_blob c) as [|b blob] eqn:Eblob.
    + subst B4. change (zlength (@nil Z)) with 0 in Hbodylen.
      rewrite (readChildren_seq _ _
                 [(zlength B1, Leaf COLUMN_INDEX
                                 (VNumber (ToUint32 (cs_index c))));
                  (zlength B2, Leaf COLUMN_DATA_TYPE
                                 (VNumber (ToUint32 (cs_type c))));
                  (zlength B3, Leaf COLUMN_VALUES
                                 (VWords (map ToUint32 (cs_values c))))]).
      * cbn [bind app childrenOf fold_left snd result_type result_value
             setChild seqEnd fst].
        f_equal. f_equal. lia.
      * cbn [reads_seq]. auto.
      * repeat constructor; cbn [fst]; lia.
      * cbn [seqEnd fold_left fst]. lia.
      * cbn [seqEnd fold_left fst]. lia.
      * cbn [length]. lia.
    + rewrite <- Eblob in E4 |- *.
      pose proof (chunkBytes_bounds COLUMN_BLOB_DATA None
                    (le32 (zlength (cs_blob c)) ++ cs_blob c)) as (M4 & A4).
      pose proof (zlength_headerBytes 0 COLUMN_BLOB_DATA None) as (H4 & _).
      pose proof (zlength_nonneg (le32 (zlength (cs_blob c)) ++ cs_blob c))
        as N5.
      rewrite <- E4 in M4, A4.
      assert (R4 : readChunk f d (p1 + zlength B1 + zlength B2 + zlength B3)
                   = Ok (Leaf COLUMN_BLOB_DATA
                           (VBytes ((le32 (zlength (cs_blob c)) ++ cs_blob c)
                                    ++ zeros (paddingAt
                                                (zlength
                                                   (le32 (zlength (cs_blob c))
                                                    ++ cs_blob c))))),
                         p1 + zlength B1 + zlength B2 + zlength B3
                         + zlength B4)).
      { rewrite E4 in Hbody4 |- *.
        apply (readChunk_blob_f f d _ _ _ Hbody4);
          [assumption | rewrite <- E4; lia | apply Hf1; lia]. }
      rewrite (readChildren_seq _ _
                 [(zlength B1, Leaf COLUMN_INDEX
                                 (VNumber (ToUint32 (cs_index c))));
                  (zlength B2, Leaf COLUMN_DATA_TYPE
                                 (VNumber (ToUint32 (cs_type c))));
                  (zlength B3, Leaf COLUMN_VALUES
                                 (VWords (map ToUint32 (cs_values c))));
                  (zlength B4,
                   Leaf COLUMN_BLOB_DATA
                     (VBytes ((le32 (zlength (cs_blob c)) ++ cs_blob c)
                              ++ zeros (paddingAt
                                          (zlength
                                             (le32 (zlength (cs_blob c))
                                              ++ cs_blob c))))))]).
      * cbn [bind app childrenOf fold_left snd result_type result_value
             setChild seqEnd fst].
        rewrite zlength_app, zlength_le32.
        rewrite (paddingAt_shift 4) by reflexivity.
        rewrite <- app_assoc.
        f_equal. f_equal. lia.
      * cbn [reads_seq]. repeat split; assumption.
      * repeat constructor; cbn [fst]; lia.
      * cbn [seqEnd fold_left fst]. lia.
      * cbn [seqEnd fold_left fst]. lia.
      * cbn [length]. lia.
Qed.

Lemma mapResult_Forall2 {A B : Type} (g : A -> Result B) :
  forall l l', mapResult g l = Ok l' -> Forall2 (fun a b => g a = Ok b) l l'.
Proof.
  induction l as [|a l IH]; intros l' H.
  - injection H as <-. constructor.
  - cbn [mapResult] in H.
    destruct (g a) as [b|e] eqn:Ea; [|discriminate]. cbn [bind] in H.
    destruct (mapResult g l) as [bs|e]; [|discriminate]. cbn [bind] in H.
    injection H as <-. constructor; [exact Ea | apply IH; reflexivity].
Qed.

Lemma Forall2_mapResult {A B : Type} (g : A -> Result B) :
  forall l l', Forall2 (fun a b => g a = Ok b) l l' -> mapResult g l = Ok l'.
Proof.
  induction 1 as [|a b l l' Hab _ IH]; [reflexivity|].
  cbn [mapResult]. rewrite Hab. cbn [bind]. rewrite IH. reflexivity.
Qed.

Section ItemsLayout.

Variables (Spec A : Type) (bytesOf : Spec -> list Z).
Variables (d : list Z) (rec : Z -> Result (ChunkResult * Z)).
Variable post : ChunkResult -> Result A.
Variable lo : Z.

Let item (pos : Z) : Result (A * Z) :=
  let* (chunk, pos) := rec pos in
  let* x := post chunk in
  Ok (x, pos).

Let reads (s : Spec) (a : A) : Prop :=
  zlength (bytesOf s) mod 4 = 0 /\
  exists r, post r = Ok a /\
            forall q rest, cursor d q (bytesOf s ++ rest) -> q mod 4 = 0 ->
                           lo <= q ->
                           rec q = Ok (r, q + zlength (bytesOf s)).

Lemma readItems_layout (specs : list Spec) (items : list A) :
  Forall2 reads specs items ->
  forall (fuel : nat) (count i p : Z) (acc : list A) (rest : list Z),
    cursor d p (flat_map bytesOf specs ++ rest) -> p mod 4 = 0 -> lo <= p ->
    count = i + zlength specs -> (length specs < fuel)%nat ->
    readItems fuel item count i p acc
    = Ok (acc ++ items, p + zlength (flat_map bytesOf specs)).
Proof.
  induction 1 as [|s a specs items (Hal4 & r & Hpost & Hread) _ IH];
    intros fuel count i p acc rest Hc Hal Hlo Hcount Hfuel.
  - destruct fuel as [|fuel]; [cbn in Hfuel; lia|].
    cbn [readItems]. change (zlength (@nil Spec)) with 0 in Hcount.
    destruct (Z.ltb_spec i count) as [Hlt | _]; [lia|].
    rewrite app_nil_r. cbn [flat_map]. change (zlength (@nil Z)) with 0.
    f_equal. f_equal. lia.
  - destruct fuel as [|fuel]; [cbn in Hfuel; lia|].
    cbn [readItems].
    assert (Hz : zlength (s :: specs) = zlength specs + 1)
      by (unfold zlength; cbn [length]; lia).
    pose proof (zlength_nonneg specs) as Hn. rewrite Hz in Hcount.
    destruct (Z.ltb_spec i count) as [_ | Hge]; [|lia].
    cbn [flat_map] in Hc |- *. rewrite <- app_assoc in Hc.
    unfold item at 1. rewrite (Hread p _ Hc Hal Hlo). cbn [bind].
    rewrite Hpost. cbn [bind].
    pose proof (zlength_nonneg (bytesOf s)) as Hbn.
    rewrite (IH fuel count (i + 1) (p + zlength (bytesOf s)) (acc ++ [a])
               rest).
    + rewrite <- app_assoc, zlength_app. cbn [app]. f_equal. f_equal. lia.
    + apply cursor_app. exact Hc.
    + rewrite Z.add_mod, Hal, Hal4 by lia. reflexivity.
    + lia.
    + lia.
    + cbn [length] in Hfuel. lia.
Qed.

Lemma readArray_layout (specs : list Spec) (items : list A) (fuel : nat)
    (p : Z) (rest : list Z) :
  Forall2 reads specs items ->
  cursor d p (arrayBytes (zlength specs) (flat_map bytesOf specs) ++ rest) ->
  p mod 4 = 0 -> lo <= p -> zlength specs < two32 ->
  (length specs < fuel)%nat ->
  readArray fuel item d p
  = Ok (items,
        p + zlength (arrayBytes (zlength specs) (flat_map bytesOf specs))).
Proof.
  intros Hreads Hc Hal Hlo Hcount Hfuel. unfold readArray, arrayBytes in *.
  rewrite <- !app_assoc in Hc.
  rewrite (cursor_read32 _ _ _ _ Hc). cbn [bind].
  apply cursor_app in Hc. rewrite zlength_le32 in Hc.
  rewrite (cursor_read32 _ _ _ _ Hc). cbn [bind].
  apply cursor_app in Hc. rewrite zlength_le32 in Hc.
  pose proof (zlength_nonneg specs) as Hn.
  rewrite ToUint32_small by lia.
  rewrite (readItems_layout specs items Hreads fuel (zlength specs) 0
             (p + 4 + 4) [] _ Hc); try lia.
  - cbn [bind app]. apply cursor_app in Hc.
    rewrite (cursor_read32 _ _ _ _ Hc). cbn [bind].
    rewrite !zlength_app, !zlength_le32. f_equal. f_equal. lia.
  - replace (p + 4 + 4) with (p + 2 * 4) by lia.
    rewrite Z.mod_add by lia. exact Hal.
Qed.

End ItemsLayout.

Lemma flat_map_count {Spec : Type} (bytesOf : Spec -> list Z)
    (specs : list Spec) :
  (forall s, 28 <= zlength (bytesOf s)) ->
  28 * zlength specs <= zlength (flat_map bytesOf specs).
Proof.
  intros Hmin. induction specs as [|s specs IH]; [reflexivity|].
  cbn [flat_map]. rewrite zlength_app. specialize (Hmin s).
  unfold zlength in *. cbn [length]. lia.
Qed.

Lemma readChunk_columnDefinitions (f : nat) (d : list Z) (p : Z)
    (cs : list ColumnSpec) (cols : list Column) (rest : list Z) :
  cursor d p (chunkBytes COLUMN_DEFINITIONS None
                (arrayBytes (zlength cs) (flat_map columnBytes cs))
              ++ rest) ->
  p mod 4 = 0 -> zlength d < two32 -> zlength d - p < Z.of_nat f ->
  decodedColumns cs = Ok cols ->
  readChunk f d p
  = Ok (Leaf COLUMN_DEFINITIONS (VColumns cols),
        p + zlength (chunkBytes COLUMN_DEFINITIONS None
                       (arrayBytes (zlength cs)
                                   (flat_map columnBytes cs)))).
Proof.
  intros Hc Hal Hd Hf Hcols.
  set (body := arrayBytes (zlength cs) (flat_map columnBytes cs)) in *.
  pose proof (chunk_in_data _ _ _ _ Hc Hd) as Hsize.
  pose proof (cursor_fuel _ _ _ _ _ Hc Hf) as Hlen.
  pose proof (chunkBytes_min COLUMN_DEFINITIONS None body) as Hmin.
  pose proof (cursor_bounds _ _ _ Hc) as (Hp0 & _).
  assert (Hbody : zlength body = 12 + zlength (flat_map columnBytes cs)).
  { subst body. unfold arrayBytes.
    rewrite !zlength_app, !zlength_le32. lia. }
  pose proof (flat_map_count columnBytes cs
                (fun c => ltac:(unfold columnBytes;
                                pose proof (chunkBytes_min COLUMN
                                              (Some (cs_name c))
                                              (columnBody c));
                                pose proof (zlength_nonneg (columnBody c));
                                lia))) as Hcount.
  pose proof (zlength_nonneg cs) as Hcs.
  destruct f as [|f]; [lia|].
  apply (readChunk_layout f d p COLUMN_DEFINITIONS None body rest _
           (p + zlength (headerBytes 0 COLUMN_DEFINITIONS None)
            + zlength body));
    try assumption.
  - unfold two32, COLUMN_DEFINITIONS. lia.
  - unfold readChunkBody, headerOf. cbn [chunkType].
    change (isScalarChunk COLUMN_DEFINITIONS) with false.
    change (COLUMN_DEFINITIONS =? COLUMN_VALUES) with false.
    change (COLUMN_DEFINITIONS =? COLUMN_BLOB_DATA) with false.
    change (COLUMN_DEFINITIONS =? DATABASE_TABLES) with false.
    change (COLUMN_DEFINITIONS =? COLUMN_DEFINITIONS) with true. cbv iota.
    apply chunk_body_cursor in Hc.
    rewrite zlength_headerBytes_None in Hc |- *.
    subst body.
    assert (Hal' : (p + 24) mod 4 = 0).
    { replace (p + 24) with (p + 6 * 4) by lia.
      rewrite Z.mod_add by lia. exact Hal. }
    assert (Hfuel : (length cs < f)%nat)
      by (unfold zlength in Hcount, Hbody, Hlen, Hmin |- *; lia).
    apply mapResult_Forall2 in Hcols.
    rewrite (readArray_layout ColumnSpec Column columnBytes d
               (readChunk f d) columnOfChunk (p + 24) cs cols f (p + 24) _
               ltac:(eapply Forall2_impl; [|exact Hcols];
                     intros c col Hcol; cbv beta in Hcol; split;
                     [unfold columnBytes;
                      apply (chunkBytes_bounds COLUMN (Some (cs_name c))
                               (columnBody c))
                     |exists (columnResult c); split; [exact Hcol|];
                      intros q rest' Hq Hqal Hqlo;
                      apply (readChunk_column f d q c rest' Hq Hqal Hd);
                      lia])
               Hc Hal' ltac:(lia) ltac:(lia) Hfuel).
    reflexivity.
  - apply readPadding_body. assumption.
Qed.

Lemma readChunk_table (f : nat) (d : list Z) (p : Z) (t : TableSpec)
    (cols : list Column) (rest : list Z) :
  cursor d p (tableBytes t ++ rest) ->
  p mod 4 = 0 -> zlength d < two32 -> zlength d - p < Z.of_nat f ->
  decodedColumns (ts_columns t) = Ok cols ->
  readChunk f d p = Ok (tableResult t cols, p + zlength (tableBytes t)).
Proof.
  intros Hc Hal Hd Hf Hcols. unfold tableBytes in *.
  pose proof (chunk_in_data _ _ _ _ Hc Hd) as Hsize.
  pose proof (cursor_fuel _ _ _ _ _ Hc Hf) as Hlen.
  pose proof (chunkBytes_bounds TABLE (ts_description t) (tableBody t))
    as (Hb & _).
  pose proof (zlength_headerBytes 0 TABLE (ts_description t)) as (H24 & _).
  pose proof (chunk_body_cursor _ _ _ _ _ _ Hc) as Hbody.
  pose proof (header_aligned p 0 TABLE (ts_description t) Hal) as Hal1.
  pose proof (readPadding_body p TABLE (ts_description t) (tableBody t) Hal)
    as Hpadding.
  pose proof (zlength_chunkBytes TABLE (ts_description t) (tableBody t))
    as Hcl.
  cbv zeta in Hcl.
  pose proof (paddingAt_range
                (zlength (headerBytes 0 TABLE (ts_description t))
                 + zlength (tableBody t))) as Hcp.
  pose proof (cursor_bounds _ _ _ Hc) as (Hp0 & _).
  remember (p + zlength (headerBytes 0 TABLE (ts_description t))) as p1
    eqn:Ep1.
  remember (zeros (paddingAt
                     (zlength (headerBytes 0 TABLE (ts_description t))
                      + zlength (tableBody t)))
            ++ le32 CHUNK_END ++ rest) as tail eqn:Etail.
  clear Etail.
  assert (Hbodylen :
            zlength (tableBody t)
            = zlength (wordChunkBytes TABLE_ID None (ts_id t))
              + zlength (wordChunkBytes ROW_COUNT None (ts_rowCount t))
              + zlength (wordChunkBytes TABLE_FLAGS None (ts_flags t))
              + zlength (chunkBytes COLUMN_DEFINITIONS None
                           (arrayBytes (zlength (ts_columns t))
                              (flat_map columnBytes (ts_columns t))))).
  { unfold tableBody. rewrite !zlength_app. lia. }
  unfold tableBody in Hbody. rewrite <- !app_assoc in Hbody.
  pose proof (chunkBytes_bounds TABLE_ID None (le32 (ts_id t))) as (M1 & A1).
  pose proof (chunkBytes_bounds ROW_COUNT None (le32 (ts_rowCount t)))
    as (M2 & A2).
  pose proof (chunkBytes_bounds TABLE_FLAGS None (le32 (ts_flags t)))
    as (M3 & A3).
  pose proof (chunkBytes_bounds COLUMN_DEFINITIONS None
                (arrayBytes (zlength (ts_columns t))
                   (flat_map columnBytes (ts_columns t)))) as (M4 & A4).
  rewrite !zlength_headerBytes_None in M1, M2, M3, M4.
  rewrite zlength_le32 in M1, M2, M3.
  pose proof (zlength_nonneg
                (arrayBytes (zlength (ts_columns t))
                   (flat_map columnBytes (ts_columns t)))) as N4.
  fold (wordChunkBytes TABLE_ID None (ts_id t)) in M1, A1.
  fold (wordChunkBytes ROW_COUNT None (ts_rowCount t)) in M2, A2.
  fold (wordChunkBytes TABLE_FLAGS None (ts_flags t)) in M3, A3.
  remember (wordChunkBytes TABLE_ID None (ts_id t)) as B1 eqn:E1.
  remember (wordChunkBytes ROW_COUNT None (ts_rowCount t)) as B2 eqn:E2.
  remember (wordChunkBytes TABLE_FLAGS None (ts_flags t)) as B3 eqn:E3.
  remember (chunkBytes COLUMN_DEFINITIONS None
              (arrayBytes (zlength (ts_columns t))
                 (flat_map columnBytes (ts_columns t)))) as B4 eqn:E4.
  assert (Hf1 : forall q, p1 <= q -> zlength d - q < Z.of_nat (pred f))
    by (intros q Hq; lia).
  destruct f as [|f]; [lia|]. cbn [pred] in Hf1.
  assert (R1 : readChunk f d p1
               = Ok (Leaf TABLE_ID (VNumber (ToUint32 (ts_id t))),
                     p1 + zlength B1)).
  { rewrite E1 in Hbody |- *.
    apply (readChunk_word_f f d p1 TABLE_ID None (ts_id t) _ Hbody);
      [assumption | unfold two32, TABLE_ID; lia | reflexivity | |].
    - rewrite <- E1. lia.
    - apply Hf1. lia. }
  pose proof (cursor_app _ _ _ _ Hbody) as Hbody2.
  assert (Hal2 : (p1 + zlength B1) mod 4 = 0)
    by (rewrite Z.add_mod, Hal1, A1 by lia; reflexivity).
  assert (R2 : readChunk f d (p1 + zlength B1)
               = Ok (Leaf ROW_COUNT (VNumber (ToUint32 (ts_rowCount t))),
                     p1 + zlength B1 + zlength B2)).
  { rewrite E2 in Hbody2 |- *.
    apply (readChunk_word_f f d _ ROW_COUNT None (ts_rowCount t) _ Hbody2);
      [assumption | unfold two32, ROW_COUNT; lia | reflexivity | |].
    - rewrite <- E2. lia.
    - apply Hf1. lia. }
  pose proof (cursor_app _ _ _ _ Hbody2) as Hbody3.
  assert (Hal3 : (p1 + zlength B1 + zlength B2) mod 4 = 0)
    by (rewrite Z.add_mod, Hal2, A2 by lia; reflexivity).
  assert (R3 : readChunk f d (p1 + zlength B1 + zlength B2)
               = Ok (Leaf TABLE_FLAGS (VNumber (ToUint32 (ts_flags t))),
                     p1 + zlength B1 + zlength B2 + zlength B3)).
  { rewrite E3 in Hbody3 |- *.
    apply (readChunk_word_f f d _ TABLE_FLAGS None (ts_flags t) _ Hbody3);
      [assumption | unfold two32, TABLE_FLAGS; lia | reflexivity | |].
    - rewrite <- E3. lia.
    - apply Hf1. lia. }
  pose proof (cursor_app _ _ _ _ Hbody3) as Hbody4.
  assert (Hal4 : (p1 + zlength B1 + zlength B2 + zlength B3) mod 4 = 0)
    by (rewrite Z.add_mod, Hal3, A3 by lia; reflexivity).
  assert (R4 : readChunk f d (p1 + zlength B1 + zlength B2 + zlength B3)
               = Ok (Leaf COLUMN_DEFINITIONS (VColumns cols),
                     p1 + zlength B1 + zlength B2 + zlength B3
                     + zlength B4)).
  { rewrite E4 in Hbody4 |- *.
    apply (readChunk_columnDefinitions f d _ (ts_columns t) cols _ Hbody4);
      [assumption | assumption | apply Hf1; lia | assumption]. }
  apply (readChunk_layout f d p TABLE (ts_description t) (tableBody t) rest
           (tableResult t cols) (p1 + zlength (tableBody t)));
    try assumption.
  - unfold two32, TABLE. lia.
  - unfold readChunkBody, headerOf. cbn [chunkType].
    change (isScalarChunk TABLE) with false.
    change (TABLE =? COLUMN_VALUES) with false.
    change (TABLE =? COLUMN_BLOB_DATA) with false.
    change (TABLE =? DATABASE_TABLES) with false.
    change (TABLE =? COLUMN_DEFINITIONS) with false.
    change (isContainerChunk TABLE) with true. cbv iota.
    fold (headerOf TABLE (ts_description t) (tableBody t)).
    rewrite <- Ep1.
    unfold tableResult, tableChildren.
    rewrite (readChildren_seq _ _
               [(zlength B1, Leaf TABLE_ID (VNumber (ToUint32 (ts_id t))));
                (zlength B2, Leaf ROW_COUNT
                               (VNumber (ToUint32 (ts_rowCount t))));
                (zlength B3, Leaf TABLE_FLAGS
                               (VNumber (ToUint32 (ts_flags t))));
                (zlength B4, Leaf COLUMN_DEFINITIONS (VColumns cols))]).
    + cbn [bind app childrenOf fold_left snd result_type result_value
           setChild seqEnd fst].
      f_equal. f_equal. lia.
    + cbn [reads_seq]. repeat split; assumption.
    + repeat constructor; cbn [fst]; lia.
    + cbn [seqEnd fold_left fst]. lia.
    + cbn [seqEnd fold_left fst]. lia.
    + cbn [length]. lia.
Qed.

Lemma readChunk_databaseTables (f : nat) (d : list Z) (p : Z)
    (ts : list TableSpec) (tables : list Table) (rest : list Z) :
  cursor d p (chunkBytes DATABASE_TABLES None
                (arrayBytes (zlength ts) (flat_map tableBytes ts))
              ++ rest) ->
  p mod 4 = 0 -> zlength d < two32 -> zlength d - p < Z.of_nat f ->
  decodedTables ts = Ok tables ->
  readChunk f d p
  = Ok (Leaf DATABASE_TABLES (VTables tables),
        p + zlength (chunkBytes DATABASE_TABLES None
                       (arrayBytes (zlength ts)
                                   (flat_map tableBytes ts)))).
Proof.
  intros Hc Hal Hd Hf Htables.
  set (body := arrayBytes (zlength ts) (flat_map tableBytes ts)) in *.
  pose proof (chunk_in_data _ _ _ _ Hc Hd) as Hsize.
  pose proof (cursor_fuel _ _ _ _ _ Hc Hf) as Hlen.
  pose proof (chunkBytes_min DATABASE_TABLES None body) as Hmin.
  pose proof (cursor_bounds _ _ _ Hc) as (Hp0 & _).
  assert (Hbody : zlength body = 12 + zlength (flat_map tableBytes ts)).
  { subst body. unfold arrayBytes.
    rewrite !zlength_app, !zlength_le32. lia. }
  pose proof (flat_map_count tableBytes ts
                (fun t => ltac:(unfold tableBytes;
                                pose proof (chunkBytes_min TABLE
                                              (ts_description t)
                                              (tableBody t));
                                pose proof (zlength_nonneg (tableBody t));
                                lia))) as Hcount.
  pose proof (zlength_nonneg ts) as Hts.
  destruct f as [|f]; [lia|].
  apply (readChunk_layout f d p DATABASE_TABLES None body rest _
           (p + zlength (headerBytes 0 DATABASE_TABLES None)
            + zlength body));
    try assumption.
  - unfold two32, DATABASE_TABLES. lia.
  - unfold readChunkBody, headerOf. cbn [chunkType].
    change (isScalarChunk DATABASE_TABLES) with false.
    change (DATABASE_TABLES =? COLUMN_VALUES) with false.
    change (DATABASE_TABLES =? COLUMN_BLOB_DATA) with false.
    change (DATABASE_TABLES =? DATABASE_TABLES) with true. cbv iota.
    apply chunk_body_cursor in Hc.
    rewrite zlength_headerBytes_None in Hc |- *.
    subst body.
    assert (Hal' : (p + 24) mod 4 = 0).
    { replace (p + 24) with (p + 6 * 4) by lia.
      rewrite Z.mod_add by lia. exact Hal. }
    assert (Hfuel : (length ts < f)%nat)
      by (unfold zlength in Hcount, Hbody, Hlen, Hmin |- *; lia).
    assert (HF2 : Forall2
              (fun t table =>
                 zlength (tableBytes t) mod 4 = 0 /\
                 exists r, tableOfChunk r = Ok table /\
                   forall q rest',
                     cursor d q (tableBytes t ++ rest') -> q mod 4 = 0 ->
                     p + 24 <= q ->
                     readChunk f d q = Ok (r, q + zlength (tableBytes t)))
              ts tables).
    { apply mapResult_Forall2 in Htables.
      eapply Forall2_impl; [|exact Htables].
      intros t table Ht. cbv beta in Ht. unfold decodedTable in Ht.
      destruct (decodedColumns (ts_columns t)) as [cols|e] eqn:Ecols;
        [|discriminate].
      cbn [bind] in Ht. split.
      - unfold tableBytes.
        apply (chunkBytes_bounds TABLE (ts_description t) (tableBody t)).
      - exists (tableResult t cols). split; [exact Ht|].
        intros q rest' Hq Hqal Hqlo.
        apply (readChunk_table f d q t cols rest' Hq Hqal Hd); [lia|].
        exact Ecols. }
    rewrite (readArray_layout TableSpec Table tableBytes d
               (readChunk f d) tableOfChunk (p + 24) ts tables f (p + 24) _
               HF2 Hc Hal' ltac:(lia) ltac:(lia) Hfuel).
    reflexivity.
  - apply readPadding_body. assumption.
Qed.

(** The reader on the stream of a file: the wrapper, with the tables that
    the item reader makes of the chunks. *)
Lemma readChunk_layoutFile (ts : list TableSpec) (tables : list Table) :
  zlength (layoutFile ts) < two32 ->
  decodedTables ts = Ok tables ->
  readChunk (readerFuel (layoutFile ts)) (layoutFile ts) 0
  = Ok (Container WRAPPER
          (headerOf WRAPPER (Some (str "cyanide database")) (fileBody ts))
          [(DATABASE_TABLES, VTables tables);
           (DATABASE_FLAGS, VNumber 274)],
        zlength (layoutFile ts)).
Proof.
  intros Hd Htables.
  set (d := layoutFile ts) in *.
  assert (Hc : cursor d 0
                 (chunkBytes WRAPPER (Some (str "cyanide database"))
                    (fileBody ts) ++ [])).
  { rewrite app_nil_r. apply cursor_start. }
  set (desc := Some (str "cyanide database")) in *.
  pose proof (chunkBytes_bounds WRAPPER desc (fileBody ts)) as (Hb & _).
  pose proof (zlength_headerBytes 0 WRAPPER desc) as (H24 & _).
  pose proof (chunk_body_cursor _ _ _ _ _ _ Hc) as Hbody.
  pose proof (header_aligned 0 0 WRAPPER desc eq_refl) as Hal1.
  pose proof (readPadding_body 0 WRAPPER desc (fileBody ts) eq_refl)
    as Hpadding.
  pose proof (zlength_chunkBytes WRAPPER desc (fileBody ts)) as Hcl.
  cbv zeta in Hcl.
  pose proof (paddingAt_range
                (zlength (headerBytes 0 WRAPPER desc)
                 + zlength (fileBody ts))) as Hcp.
  assert (Hdd : zlength d = zlength (chunkBytes WRAPPER desc (fileBody ts)))
    by reflexivity.
  remember (0 + zlength (headerBytes 0 WRAPPER desc)) as p1 eqn:Ep1.
  remember (zeros (paddingAt
                     (zlength (headerBytes 0 WRAPPER desc)
                      + zlength (fileBody ts)))
            ++ le32 CHUNK_END ++ []) as tail eqn:Etail.
  clear Etail.
  assert (Hbodylen :
            zlength (fileBody ts)
            = zlength (wordChunkBytes DATABASE_FLAGS None 274)
              + zlength (chunkBytes DATABASE_TABLES None
                           (arrayBytes (zlength ts)
                              (flat_map tableBytes ts)))).
  { unfold fileBody. rewrite !zlength_app. lia. }
  unfold fileBody in Hbody. rewrite <- !app_assoc in Hbody.
  pose proof (chunkBytes_bounds DATABASE_FLAGS None (le32 274)) as (M1 & A1).
  pose proof (chunkBytes_bounds DATABASE_TABLES None
                (arrayBytes (zlength ts) (flat_map tableBytes ts)))
    as (M2 & A2).
  rewrite !zlength_headerBytes_None in M1, M2.
  rewrite zlength_le32 in M1.
  pose proof (zlength_nonneg
                (arrayBytes (zlength ts) (flat_map tableBytes ts))) as N2.
  fold (wordChunkBytes DATABASE_FLAGS None 274) in M1, A1.
  remember (wordChunkBytes DATABASE_FLAGS None 274) as B1 eqn:E1.
  remember (chunkBytes DATABASE_TABLES None
              (arrayBytes (zlength ts) (flat_map tableBytes ts))) as B2
    eqn:E2.
  unfold readerFuel.
  assert (Hlen : zlength d = Z.of_nat (length d)) by reflexivity.
  set (f := S (length d)).
  assert (Hf1 : forall q, p1 <= q -> zlength d - q < Z.of_nat f)
    by (intros q Hq; subst f; lia).
  assert (R1 : readChunk f d p1
               = Ok (Leaf DATABASE_FLAGS (VNumber (ToUint32 274)),
                     p1 + zlength B1)).
  { rewrite E1 in Hbody |- *.
    apply (readChunk_word_f f d p1 DATABASE_FLAGS None 274 _ Hbody);
      [assumption | unfold two32, DATABASE_FLAGS; lia | reflexivity | |].
    - rewrite <- E1. lia.
    - apply Hf1. lia. }
  pose proof (cursor_app _ _ _ _ Hbody) as Hbody2.
  assert (Hal2 : (p1 + zlength B1) mod 4 = 0)
    by (rewrite Z.add_mod, Hal1, A1 by lia; reflexivity).
  assert (R2 : readChunk f d (p1 + zlength B1)
               = Ok (Leaf DATABASE_TABLES (VTables tables),
                     p1 + zlength B1 + zlength B2)).
  { rewrite E2 in Hbody2 |- *.
    apply (readChunk_databaseTables f d _ ts tables _ Hbody2);
      [assumption | assumption | apply Hf1; lia | assumption]. }
  change (zlength d)
    with (0 + zlength (chunkBytes WRAPPER desc (fileBody ts))).
  apply (readChunk_layout f d 0 WRAPPER desc (fileBody ts) []
           _ (p1 + zlength (fileBody ts)));
    try assumption.
  - reflexivity.
  - unfold two32, WRAPPER. lia.
  - unfold readChunkBody, headerOf. cbn [chunkType].
    change (isScalarChunk WRAPPER) with false.
    change (WRAPPER =? COLUMN_VALUES) with false.
    change (WRAPPER =? COLUMN_BLOB_DATA) with false.
    change (WRAPPER =? DATABASE_TABLES) with false.
    change (WRAPPER =? COLUMN_DEFINITIONS) with false.
    change (isContainerChunk WRAPPER) with true. cbv iota.
    fold (headerOf WRAPPER desc (fileBody ts)).
    rewrite <- Ep1.
    rewrite (readChildren_seq _ _
               [(zlength B1, Leaf DATABASE_FLAGS (VNumber (ToUint32 274)));
                (zlength B2, Leaf DATABASE_TABLES (VTables tables))]).
    + cbn [bind app childrenOf fold_left snd result_type result_value
           setChild seqEnd fst].
      f_equal. f_equal. lia.
    + cbn [reads_seq]. repeat split; assumption.
    + repeat constructor; cbn [fst]; lia.
    + cbn [seqEnd fold_left fst]. lia.
    + cbn [seqEnd fold_left fst]. lia.
    + cbn [length]. subst f. lia.
Qed.

(* ================================================================== *)
(** * Part III: further properties *)
(* ================================================================== *)

(** ** CDBWriter *)

Lemma header_run_winv (chunkType : Z) (description : option JSString)
    (w : CDBWriter) :
  winv w ->
  let w1 := write32 0 (write32 chunkType (write32 0
              (write32 CHUNK_BEGIN w))) in
  let w2 := write32 (if truthy description then 1 else 0) w1 in
  let w3 := if truthy description then
              let descBytes :=
                TextEncoder_encode
                  (match description with Some d => d | None => [] end) in
              let w := write32 (zlength descBytes + 1) w2 in
              let w := writeBytes descBytes w in
              writeNul w
            else w2 in
  exists bytes,
    8 <= zlength bytes /\
    grows w (write32 CHUNK_SEPARATOR (writePadding w3)) bytes.
Proof.
  intros Hw. cbv zeta.
  pose proof (write32_grows CHUNK_BEGIN w Hw) as G1.
  pose proof (write32_grows 0 _ (proj1 G1)) as G2.
  pose proof (write32_grows chunkType _ (proj1 G2)) as G3.
  pose proof (write32_grows 0 _ (proj1 G3)) as G4.
  pose proof (writeDescription_grows description _ (proj1 G4)) as G5.
  cbv zeta in G5.
  pose proof (grows_trans _ _ _ _ _ G1
               (grows_trans _ _ _ _ _ G2
                 (grows_trans _ _ _ _ _ G3
                   (grows_trans _ _ _ _ _ G4 G5)))) as G15.
  clear G1 G2 G3 G4 G5.
  match type of G15 with grows _ ?x _ => generalize dependent x end.
  intros w5 G15.
  pose proof (writePadding_grows w5 (proj1 G15)) as G6.
  pose proof (write32_grows CHUNK_SEPARATOR _ (proj1 G6)) as G7.
  eexists. split; [|exact (grows_trans _ _ _ _ _ G15
                             (grows_trans _ _ _ _ _ G6 G7))].
  rewrite !zlength_app, !zlength_le32.
  pose proof (zlength_nonneg (descriptionBytes description)).
  pose proof (zlength_nonneg (zeros (paddingAt (pos w5)))).
  lia.
Qed.

Lemma writeChunkOpen_winv (chunkType : Z) (description : option JSString)
    (w : CDBWriter) :
  winv w -> winv (writeChunkOpen chunkType description w).
Proof.
  intros Hw.
  destruct (header_run_winv chunkType description w Hw) as (bytes & Hlen & G).
  cbv zeta in G. unfold writeChunkOpen. cbv zeta.
  match type of G with grows _ ?x _ => generalize dependent x end.
  intros w7 G.
  exact (proj1 (push_grows chunkType w w7 bytes Hw G Hlen)).
Qed.

(** Every writer that the methods of CDBWriter bring about keeps the
    bytes beyond [pos] zero and its chunk records inside the written
    part. *)
Lemma produced_winv (w : CDBWriter) : produced w -> winv w.
Proof.
  induction 1 as [n | w v _ IH | w bytes _ IH | w _ IH | w _ IH
                  | w t d _ IH | w w' _ IH Hclose].
  - apply winv_new.
  - exact (proj1 (write32_grows v w IH)).
  - exact (proj1 (writeBytes_grows bytes w IH)).
  - exact (proj1 (writeNul_grows w IH)).
  - exact (proj1 (writePadding_grows w IH)).
  - apply writeChunkOpen_winv. exact IH.
  - destruct (chunkStack w) as [|o rest] eqn:Hs.
    + unfold writeChunkClose in Hclose. rewrite Hs in Hclose. discriminate.
    + destruct (writeChunkClose_grows w o rest IH Hs)
        as (w2 & E & Hw2 & _).
      rewrite E in Hclose. injection Hclose as <-. exact Hw2.
Qed.

(** X1. The writes of CDBWriter append: for a writer reached through the
    methods of the class, getData returns [pos] bytes, and after write32,
    writeBytes or writePadding it returns the same bytes followed by the
    four little-endian bytes of the value, by the bytes given (those of a
    Uint8Array), or by the zero bytes up to the next multiple of four.
    Growing the buffer changes none of them. *)
Theorem writes_append (w : CDBWriter) (value : Z) (bytes : list Z) :
  produced w -> Forall (fun b => 0 <= b < 256) bytes ->
  zlength (getData w) = pos w /\
  getData (write32 value w) = getData w ++ le32 value /\
  getData (writeBytes bytes w) = getData w ++ bytes /\
  getData (writePadding w) = getData w ++ zeros (paddingAt (pos w)).
Proof.
  intros Hp _. pose proof (produced_winv w Hp) as Hw.
  split; [apply getData_zlength; exact Hw|].
  split; [exact (proj2 (proj2 (write32_grows value w Hw)))|].
  split; [exact (proj2 (proj2 (writeBytes_grows bytes w Hw)))|].
  exact (proj2 (proj2 (writePadding_grows w Hw))).
Qed.

Lemma writes_append_witness :
  getData (write32 258 (writeBytes [7] (new_CDBWriter 2)))
  = [7; 2; 1; 0; 0].
Proof.
  pose proof (writes_append (writeBytes [7] (new_CDBWriter 2)) 258 []
                (produced_writeBytes _ _ (produced_new 2)) (Forall_nil _))
    as (_ & H & _).
  rewrite H. reflexivity.
Defined.

(** X2. readPadding and writePadding move to the least multiple of four
    that is not below the position: the padding [(4 - (pos & 3)) & 3] lies
    in 0..3, brings the position to a multiple of four, and is 0 exactly
    where the position is one already.  The writer and the reader agree on
    it. *)
Theorem padding_reaches_next_multiple_of_4 (w : CDBWriter) :
  pos_ok w ->
  0 <= paddingAt (pos w) < 4 /\
  readPadding (pos w) mod 4 = 0 /\
  (paddingAt (pos w) = 0 <-> pos w mod 4 = 0) /\
  pos (writePadding w) = readPadding (pos w).
Proof.
  intros Hp.
  split; [apply paddingAt_range|].
  split; [apply readPadding_aligned|].
  split.
  - split.
    + intros H0. pose proof (paddingAt_aligned (pos w)) as Ha.
      rewrite H0, Z.add_0_r in Ha. exact Ha.
    + apply paddingAt_of_aligned.
  - unfold readPadding. exact (proj2 (writePadding_spec w Hp)).
Qed.

Lemma padding_reaches_next_multiple_of_4_witness :
  pos (writePadding (writeBytes [1; 2; 3; 4; 5] (new_CDBWriter 0))) = 8.
Proof.
  destruct (padding_reaches_next_multiple_of_4
              (writeBytes [1; 2; 3; 4; 5] (new_CDBWriter 0)))
    as (_ & _ & _ & H).
  - unfold pos_ok. vm_compute. split; discriminate.
  - rewrite H. reflexivity.
Defined.

(** ** CDBReader *)

(** X3. A chunk that readChunk reads takes 28 bytes or more, ends inside
    the data, and ends at a multiple of four: the reader never returns a
    position past the end, and data shorter than 28 bytes holds no
    chunk. *)
Theorem chunk_read_extent (f : nat) (d : list Z) (p : Z) (r : ChunkResult)
    (p' : Z) :
  readChunk f d p = Ok (r, p') ->
  p + 28 <= p' <= zlength d /\ p' mod 4 = 0.
Proof.
  intros H. split; [exact (readChunk_progress f d p r p' H)|].
  destruct f as [|f]; [discriminate|].
  cbn [readChunk] in H.
  bind_inv H as h p1 E1. bind_inv H as res p2 E2. bind_inv H as v p3 E3.
  apply read32_inv in E3 as (-> & _ & _). injection H as _ <-.
  pose proof (readPadding_aligned p2) as Ha.
  rewrite Z.add_mod, Ha by lia. reflexivity.
Qed.

Lemma chunk_read_extent_witness :
  0 + 28 <= 32 <= zlength (flags_chunk CHUNK_BEGIN CHUNK_SEPARATOR CHUNK_END)
  /\ 32 mod 4 = 0.
Proof.
  apply (chunk_read_extent
           (readerFuel (flags_chunk CHUNK_BEGIN CHUNK_SEPARATOR CHUNK_END))
           (flags_chunk CHUNK_BEGIN CHUNK_SEPARATOR CHUNK_END) 0
           (Leaf DATABASE_FLAGS (VNumber 274)) 32).
  vm_compute. reflexivity.
Defined.

(** X4. What readChunk returns for a chunk depends on the bytes from the
    start of the chunk to the position it ends at, and on nothing else in
    the data: other data of the same length with the same bytes there
    gives the same result. *)
Theorem chunk_read_is_local (f : nat) (d d' : list Z) (p : Z)
    (r : ChunkResult) (p' : Z) :
  readChunk f d p = Ok (r, p') ->
  0 <= p ->
  zlength d' = zlength d ->
  (forall q, p <= q < p' -> byteAt d' q = byteAt d q) ->
  readChunk f d' p = Ok (r, p').
Proof.
  intros H Hp Hlen Hb.
  apply (readChunk_agree f d d' p r p' H Hp). split; assumption.
Qed.

Lemma chunk_read_is_local_witness :
  readChunk 3 (flags_chunk CHUNK_BEGIN CHUNK_SEPARATOR CHUNK_END ++ [9; 9])
            0
  = Ok (Leaf DATABASE_FLAGS (VNumber 274), 32).
Proof.
  apply (chunk_read_is_local 3
           (flags_chunk CHUNK_BEGIN CHUNK_SEPARATOR CHUNK_END ++ [0; 0])).
  - vm_compute. reflexivity.
  - lia.
  - reflexivity.
  - intros q Hq.
    assert (Hc : q = 0 \/ q = 1 \/ q = 2 \/ q = 3 \/ q = 4 \/ q = 5 \/ q = 6
                 \/ q = 7 \/ q = 8 \/ q = 9 \/ q = 10 \/ q = 11 \/ q = 12
                 \/ q = 13 \/ q = 14 \/ q = 15 \/ q = 16 \/ q = 17 \/ q = 18
                 \/ q = 19 \/ q = 20 \/ q = 21 \/ q = 22 \/ q = 23 \/ q = 24
                 \/ q = 25 \/ q = 26 \/ q = 27 \/ q = 28 \/ q = 29 \/ q = 30
                 \/ q = 31) by lia.
    repeat (destruct Hc as [-> | Hc]; [reflexivity|]). subst q. reflexivity.
Defined.

(** X5. A chunk whose type word is none of the thirteen chunk types is
    rejected with "Unknown chunk type": once its header is read, readChunk
    fails with that error whatever follows. *)
Theorem unknown_chunk_type_is_rejected (f : nat) (d : list Z) (p : Z)
    (h : Header) (p1 : Z) :
  readChunkHeader d p = Ok (h, p1) ->
  ~ In (chunkType h)
       [WRAPPER; DATABASE_TABLES; DATABASE_FLAGS; TABLE; ROW_COUNT;
        COLUMN_DEFINITIONS; TABLE_ID; TABLE_FLAGS; COLUMN;
        COLUMN_DATA_TYPE; COLUMN_VALUES; COLUMN_BLOB_DATA; COLUMN_INDEX] ->
  readChunk (S f) d p = Err (UnknownChunkType (chunkType h)).
Proof.
  intros E Hn. cbn [readChunk]. rewrite E. cbn [bind].
  unfold readChunkBody, isScalarChunk, isContainerChunk. cbv zeta.
  assert (Hne : forall t, In t
              [WRAPPER; DATABASE_TABLES; DATABASE_FLAGS; TABLE; ROW_COUNT;
               COLUMN_DEFINITIONS; TABLE_ID; TABLE_FLAGS; COLUMN;
               COLUMN_DATA_TYPE; COLUMN_VALUES; COLUMN_BLOB_DATA;
               COLUMN_INDEX] -> (chunkType h =? t) = false).
  { intros t Ht. apply Z.eqb_neq. intros Heq. apply Hn. rewrite Heq.
    exact Ht. }
  rewrite !Hne by (cbn [In]; tauto).
  reflexivity.
Qed.

Lemma unknown_chunk_type_is_rejected_witness :
  readChunk 1 (setUint32 (flags_chunk CHUNK_BEGIN CHUNK_SEPARATOR CHUNK_END)
                         8 3) 0
  = Err (UnknownChunkType 3).
Proof.
  apply (unknown_chunk_type_is_rejected 0 _ 0 (mkHeader 32 3 0 None) 24).
  - vm_compute. reflexivity.
  - cbn [chunkType In]. vm_compute. intuition discriminate.
Defined.

Lemma getUint32_cursor (d : list Z) (p v : Z) (rest : list Z) :
  cursor d p (le32 v ++ rest) -> getUint32 d p = ToUint32 v.
Proof.
  intros Hc. pose proof (cursor_read32 d p v rest Hc) as H.
  apply read32_inv in H as (_ & _ & H). symmetry. exact H.
Qed.

Lemma isScalarChunk_range (t : Z) : isScalarChunk t = true -> 0 <= t < two32.
Proof.
  unfold isScalarChunk. intros H.
  repeat (apply orb_true_iff in H; destruct H as [H | H]);
    apply Z.eqb_eq in H; subst t; unfold two32; cbv; split; congruence.
Qed.

(** X6. A chunk of one word is read back as written: after
    [writeChunkOpen; write32 value; writeChunkClose] at a position that is
    a multiple of four, whatever was written before, readChunk at that
    position of the finished data gives the chunk type with the value as an
    unsigned 32-bit word, and ends where the writer stands. *)
Theorem word_chunk_is_read_back (w w' : CDBWriter) (t : Z)
    (description : option JSString) (value : Z) :
  produced w -> pos w mod 4 = 0 -> isScalarChunk t = true ->
  writeWordChunk t description value w = Ok w' ->
  pos w' < two32 ->
  readChunk (readerFuel (getData w')) (getData w') (pos w)
  = Ok (Leaf t (VNumber (ToUint32 value)), pos w').
Proof.
  intros Hp Hal Ht E Hsize.
  pose proof (produced_winv w Hp) as Hw.
  pose proof (writeWordChunk_emits t description value w Hw Hal) as (w2 & E2 & G & _).
  rewrite E in E2. injection E2 as <-.
  pose proof (grows_pos _ _ _ Hw G) as Hpos.
  destruct G as (Hw' & _ & Hd).
  pose proof Hw as (Hpw & _). unfold pos_ok in Hpw.
  rewrite Hpos.
  apply (readChunk_word_f _ _ _ t description value []).
  - exists (getData w). rewrite app_nil_r. split; [exact Hd|].
    apply getData_zlength. exact Hw.
  - exact Hal.
  - apply isScalarChunk_range. exact Ht.
  - exact Ht.
  - lia.
  - unfold readerFuel, zlength. lia.
Qed.

Lemma word_chunk_is_read_back_witness :
  exists w',
    writeWordChunk ROW_COUNT None (-1) (write32 7 (new_CDBWriter 0)) = Ok w'
    /\ readChunk (readerFuel (getData w')) (getData w') 4
       = Ok (Leaf ROW_COUNT (VNumber 4294967295), 36).
Proof.
  eexists. split; [vm_compute; reflexivity|].
  refine (word_chunk_is_read_back (write32 7 (new_CDBWriter 0)) _ ROW_COUNT
            None (-1) _ _ _ _ _).
  - apply produced_write32, produced_new.
  - reflexivity.
  - reflexivity.
  - vm_compute. reflexivity.
  - vm_compute. reflexivity.
Defined.

(** ** The compression frame *)

(** X7. decompressCDB undoes compressCDB: where pako.inflate undoes
    pako.deflate on the data and the compressed data are shorter than 2^32
    bytes, the frame of compressCDB (the word 0xFFFFFFFF, the two sizes,
    the compressed data) is taken apart again and the data come back. *)
Theorem decompress_undoes_compress
    (pako_deflate : list Z -> list Z)
    (pako_inflate : list Z -> Result (list Z)) (data : list Z) :
  pako_inflate (pako_deflate data) = Ok data ->
  zlength (pako_deflate data) < two32 ->
  decompressCDB pako_inflate (compressCDB pako_deflate data) = Ok data.
Proof.
  intros Hinv Hsize. unfold decompressCDB, compressCDB. cbv zeta.
  set (c := pako_deflate data) in *.
  set (d := le32 4294967295 ++ le32 (zlength data) ++ le32 (zlength c) ++ c).
  pose proof (zlength_nonneg c) as Hc.
  assert (Hlen : zlength d = 12 + zlength c).
  { subst d. rewrite !zlength_app, !zlength_le32. lia. }
  assert (C0 : cursor d 0 d) by apply cursor_start.
  assert (C8 : cursor d 8 (le32 (zlength c) ++ c)).
  { subst d.
    apply (cursor_app _ 4 (le32 (zlength data))).
    apply (cursor_app _ 0 (le32 4294967295)). exact C0. }
  assert (C12 : cursor d 12 (c ++ [])).
  { rewrite app_nil_r. apply (cursor_app _ 8 (le32 (zlength c))). exact C8. }
  rewrite (getUint32_cursor d 0 4294967295 _ C0).
  rewrite (getUint32_cursor d 8 (zlength c) c C8).
  rewrite (ToUint32_small (zlength c)) by lia.
  rewrite (cursor_subarray d 12 c [] C12).
  rewrite Hlen.
  destruct (Z.ltb_spec (12 + zlength c) 4) as [Hlt | _]; [lia|].
  change (ToUint32 4294967295 =? 4294967295) with true. cbn [negb].
  destruct (Z.ltb_spec (12 + zlength c) 12) as [Hlt | _]; [lia|].
  rewrite Z.ltb_irrefl. exact Hinv.
Qed.

Lemma decompress_undoes_compress_witness :
  decompressCDB stored_inflate (compressCDB stored_deflate [1; 2; 3])
  = Ok [1; 2; 3].
Proof.
  apply decompress_undoes_compress.
  - vm_compute. reflexivity.
  - vm_compute. reflexivity.
Defined.

(** ** sqliteToCDB *)

(** X8. The size that sqliteToCDB estimates for the buffer of its writer
    has no effect on what it writes: with any two estimates the stream is
    the same, or the error is. *)
Theorem estimated_size_is_immaterial (size size' : Z) (db : Database) :
  0 <= size -> 0 <= size' ->
  sqliteToStream size db = sqliteToStream size' db.
Proof.
  intros _ _. rewrite !sqliteToStream_layout. reflexivity.
Qed.

Lemma estimated_size_is_immaterial_witness :
  sqliteToStream 0 absent_id_db = sqliteToStream 4096 absent_id_db.
Proof. apply estimated_size_is_immaterial; lia. Defined.

Lemma layoutFile_shape (ts : list TableSpec)
    (pako_inflate : list Z -> Result (list Z)) :
  getUint32 (layoutFile ts) 0 = CHUNK_BEGIN /\
  getUint32 (layoutFile ts) 4 = ToUint32 (zlength (layoutFile ts)) /\
  zlength (layoutFile ts) mod 4 = 0 /\
  decompressCDB pako_inflate (layoutFile ts) = Ok (layoutFile ts).
Proof.
  set (desc := Some (str "cyanide database")).
  pose proof (chunkBytes_bounds WRAPPER desc (fileBody ts)) as (Hmin & Hal).
  pose proof (zlength_chunkBytes WRAPPER desc (fileBody ts)) as Hlen.
  cbv zeta in Hlen.
  pose proof (zlength_headerBytes 0 WRAPPER desc) as (H24 & _).
  pose proof (zlength_nonneg (fileBody ts)) as Hb.
  assert (Hd : zlength (layoutFile ts)
               = zlength (chunkBytes WRAPPER desc (fileBody ts)))
    by reflexivity.
  assert (C0 : cursor (layoutFile ts) 0
                 (le32 CHUNK_BEGIN
                  ++ le32 (zlength (layoutFile ts))
                  ++ (le32 WRAPPER ++ le32 0 ++ descriptionBytes desc)
                  ++ zeros (paddingAt
                              (zlength (le32 CHUNK_BEGIN ++ le32 0
                                        ++ le32 WRAPPER ++ le32 0
                                        ++ descriptionBytes desc)))
                  ++ le32 CHUNK_SEPARATOR
                  ++ fileBody ts
                  ++ zeros (paddingAt
                              (zlength (headerBytes 0 WRAPPER desc)
                               + zlength (fileBody ts)))
                  ++ le32 CHUNK_END)).
  { exists []. split; [|reflexivity]. rewrite Hd, Hlen.
    unfold layoutFile, chunkBytes, headerBytes. cbv zeta.
    rewrite <- !app_assoc. reflexivity. }
  pose proof (getUint32_cursor _ _ _ _ C0) as G0.
  pose proof (getUint32_cursor _ _ _ _
                (cursor_app _ _ (le32 CHUNK_BEGIN) _ C0)) as G4.
  rewrite zlength_le32 in G4. cbn [Z.add] in G4.
  split; [exact G0|]. split; [exact G4|].
  split; [rewrite Hd; exact Hal|].
  unfold decompressCDB. rewrite G0.
  destruct (Z.ltb_spec (zlength (layoutFile ts)) 4) as [Hlt | _]; [lia|].
  reflexivity.
Qed.

(** X9. The stream that sqliteToCDB hands to compressCDB is one chunk: it
    begins with the word 0xAAAAAAAA, its second word is its own length
    (modulo 2^32), its length is a multiple of four, and decompressCDB
    takes it for uncompressed data and returns it unchanged. *)
Theorem encoder_stream_is_one_chunk (size : Z) (db : Database)
    (stream : list Z) (pako_inflate : list Z -> Result (list Z)) :
  sqliteToStream size db = Ok stream ->
  getUint32 stream 0 = CHUNK_BEGIN /\
  getUint32 stream 4 = ToUint32 (zlength stream) /\
  zlength stream mod 4 = 0 /\
  decompressCDB pako_inflate stream = Ok stream.
Proof.
  rewrite sqliteToStream_layout.
  destruct (tableSpecs db) as [ts|e]; [|discriminate].
  cbn [bind]. intros H. injection H as <-.
  apply layoutFile_shape.
Qed.

Lemma encoder_stream_is_one_chunk_witness :
  decompressCDB stored_inflate (orElse (sqliteToStream 64 absent_id_db) [])
  = Ok (orElse (sqliteToStream 64 absent_id_db) []).
Proof.
  apply (encoder_stream_is_one_chunk 64 absent_id_db _ stored_inflate).
  vm_compute. reflexivity.
Defined.



(** ** cdbToSQLite *)










(** ** Numerals and declared types *)

Lemma isDigit_plain (c : Z) :
  isDigit c = true -> isWhiteSpace c = false /\ c <> 45 /\ c <> 43 /\
                      c <> 120 /\ c <> 88 /\ c <> 44.
Proof.
  unfold isDigit, isWhiteSpace. intros H.
  apply andb_true_iff in H as (H1 & H2).
  apply Z.leb_le in H1. apply Z.leb_le in H2.
  repeat split; lia.
Qed.

Lemma takeWhile_all {A : Type} (f : A -> bool) (l : list A) :
  Forall (fun x => f x = true) l -> takeWhile f l = l.
Proof.
  induction 1 as [|x l Hx _ IH]; [reflexivity|].
  cbn [takeWhile]. rewrite Hx, IH. reflexivity.
Qed.

Lemma takeWhile_app_stop {A : Type} (f : A -> bool) (l : list A) (x : A)
    (rest : list A) :
  Forall (fun x => f x = true) l -> f x = false ->
  takeWhile f (l ++ x :: rest) = l.
Proof.
  intros Hl Hx. induction Hl as [|y l Hy _ IH].
  - cbn [app takeWhile]. rewrite Hx. reflexivity.
  - cbn [app takeWhile]. rewrite Hy, IH. reflexivity.
Qed.

Lemma digitsValue_snoc (ds : JSString) (d : Z) :
  digitsValue (ds ++ [d]) = digitsValue ds * 10 + (d - 48).
Proof. unfold digitsValue. rewrite fold_left_app. reflexivity. Qed.

Lemma digitsValue_decimal (n : Z) : 0 <= n -> digitsValue (decimal n) = n.
Proof.
  intros Hn.
  assert (H : forall k : nat, forall m, 0 <= m < Z.of_nat k ->
                                        digitsValue (decimal m) = m).
  { induction k as [|k IH]; intros m Hm; [lia|].
    destruct (Z.lt_ge_cases m 10) as [Hlt | Hge].
    - rewrite decimal_small by lia. unfold digitsValue. cbn [fold_left].
      lia.
    - rewrite decimal_step by lia. rewrite digitsValue_snoc.
      pose proof (Z.div_mod m 10 ltac:(lia)) as Hdm.
      pose proof (Z.mod_pos_bound m 10 ltac:(lia)) as Hmod.
      rewrite IH by lia. lia. }
  apply (H (S (Z.to_nat n))). lia.
Qed.

Lemma digit_cases (c : Z) :
  isDigit c = true ->
  c = 48 \/ c = 49 \/ c = 50 \/ c = 51 \/ c = 52 \/ c = 53 \/ c = 54
  \/ c = 55 \/ c = 56 \/ c = 57.
Proof. unfold isDigit. lia. Qed.

Ltac each_digit H :=
  apply digit_cases in H;
  repeat (destruct H as [-> | H]); [..| subst].

(** parseInt reads a run of digits that starts the string. *)
Lemma parseInt_digits (ds : JSString) :
  ds <> [] -> Forall (fun c => isDigit c = true) ds ->
  parseInt ds = Some (digitsValue ds).
Proof.
  intros Hne Hds. destruct ds as [|d ds]; [contradiction|].
  pose proof (Forall_inv Hds) as Hd.
  pose proof (Forall_inv_tail Hds) as Htl.
  pose proof (takeWhile_all isDigit ds Htl) as Htake.
  clear Hne Hds.
  destruct (Z.eq_dec d 48) as [-> | Hd48].
  - destruct ds as [|c ds].
    + reflexivity.
    + pose proof (Forall_inv Htl) as Hc.
      each_digit Hc; unfold parseInt;
        cbn [dropWhile isWhiteSpace takeWhile isDigit Z.leb Z.eqb Z.compare
             Pos.compare Pos.compare_cont andb orb Pos.eqb] in *;
        rewrite Htake; reflexivity.
  - each_digit Hd; try contradiction; unfold parseInt;
      cbn [dropWhile isWhiteSpace takeWhile isDigit Z.leb Z.eqb Z.compare
           Pos.compare Pos.compare_cont andb orb Pos.eqb];
      rewrite Htake; reflexivity.
Qed.

Lemma parseInt_decimal (n : Z) : 0 <= n -> parseInt (decimal n) = Some n.
Proof.
  intros Hn. rewrite parseInt_digits.
  - rewrite digitsValue_decimal by assumption. reflexivity.
  - pose proof (decimal_nonempty n Hn) as Hl. intros E. rewrite E in Hl.
    cbn in Hl. lia.
  - apply decimal_digits. assumption.
Qed.

Lemma parseInt_minus (ds : JSString) :
  ds <> [] -> Forall (fun c => isDigit c = true) ds ->
  parseInt (45 :: ds) = Some (- digitsValue ds).
Proof.
  intros Hne Hds. destruct ds as [|d ds]; [contradiction|].
  pose proof (Forall_inv Hds) as Hd.
  pose proof (Forall_inv_tail Hds) as Htl.
  pose proof (takeWhile_all isDigit ds Htl) as Htake.
  clear Hne Hds.
  destruct (Z.eq_dec d 48) as [-> | Hd48].
  - destruct ds as [|c ds].
    + reflexivity.
    + pose proof (Forall_inv Htl) as Hc.
      each_digit Hc; unfold parseInt;
        cbn [dropWhile isWhiteSpace takeWhile isDigit Z.leb Z.eqb Z.compare
             Pos.compare Pos.compare_cont andb orb Pos.eqb] in *;
        rewrite Htake; reflexivity.
  - each_digit Hd; try contradiction; unfold parseInt;
      cbn [dropWhile isWhiteSpace takeWhile isDigit Z.leb Z.eqb Z.compare
           Pos.compare Pos.compare_cont andb orb Pos.eqb];
      rewrite Htake; reflexivity.
Qed.

Lemma parseInt_intToString (z : Z) : parseInt (intToString z) = Some z.
Proof.
  unfold intToString. destruct (Z.ltb_spec z 0) as [Hneg | Hpos].
  - rewrite parseInt_minus.
    + rewrite digitsValue_decimal by lia. f_equal. lia.
    + pose proof (decimal_nonempty (- z) ltac:(lia)) as Hl. intros E.
      rewrite E in Hl. cbn in Hl. lia.
    + apply decimal_digits. lia.
  - apply parseInt_decimal. assumption.
Qed.









(** ** TextEncoder and TextDecoder *)

Lemma utf8_lead_1 (b : Z) : b <= 0x7F -> utf8_lead b = ([b], utf8_initial).
Proof.
  intros H. unfold utf8_lead.
  destruct (Z.leb_spec b 0x7F); [reflexivity | lia].
Qed.

Lemma utf8_lead_2 (b : Z) :
  0xC2 <= b <= 0xDF ->
  utf8_lead b = ([], mkUtf8 (b - 0xC0) 0 1 0x80 0xBF).
Proof.
  intros H. unfold utf8_lead.
  destruct (Z.leb_spec b 0x7F); [lia|].
  destruct (Z.leb_spec 0xC2 b); [|lia].
  destruct (Z.leb_spec b 0xDF); [reflexivity | lia].
Qed.

Lemma utf8_lead_3 (b : Z) :
  0xE0 <= b <= 0xEF ->
  utf8_lead b = ([], mkUtf8 (b - 0xE0) 0 2
                       (if b =? 0xE0 then 0xA0 else 0x80)
                       (if b =? 0xED then 0x9F else 0xBF)).
Proof.
  intros H. unfold utf8_lead.
  destruct (Z.leb_spec b 0x7F); [lia|].
  destruct (Z.leb_spec 0xC2 b); [|lia].
  destruct (Z.leb_spec b 0xDF); [lia|]. cbn [andb].
  destruct (Z.leb_spec 0xE0 b); [|lia].
  destruct (Z.leb_spec b 0xEF); [reflexivity | lia].
Qed.

Lemma utf8_lead_4 (b : Z) :
  0xF0 <= b <= 0xF4 ->
  utf8_lead b = ([], mkUtf8 (b - 0xF0) 0 3
                       (if b =? 0xF0 then 0x90 else 0x80)
                       (if b =? 0xF4 then 0x8F else 0xBF)).
Proof.
  intros H. unfold utf8_lead.
  destruct (Z.leb_spec b 0x7F); [lia|].
  destruct (Z.leb_spec 0xC2 b); [|lia].
  destruct (Z.leb_spec b 0xDF); [lia|]. cbn [andb].
  destruct (Z.leb_spec 0xE0 b); [|lia].
  destruct (Z.leb_spec b 0xEF); [lia|]. cbn [andb].
  destruct (Z.leb_spec 0xF0 b); [|lia].
  destruct (Z.leb_spec b 0xF4); [reflexivity | lia].
Qed.

Lemma utf8_step_more (cp seen needed lower upper b : Z) :
  needed <> 0 -> lower <= b <= upper -> seen + 1 <> needed ->
  utf8_step (mkUtf8 cp seen needed lower upper) b
  = ([], mkUtf8 (cp * 64 + (b - 0x80)) (seen + 1) needed 0x80 0xBF).
Proof.
  intros Hn Hb Hs. unfold utf8_step. cbn [u_needed u_lower u_upper u_seen
                                            u_codePoint].
  destruct (Z.eqb_spec needed 0); [contradiction|].
  destruct (Z.ltb_spec b lower); [lia|].
  destruct (Z.ltb_spec upper b); [lia|]. cbn [orb].
  destruct (Z.eqb_spec (seen + 1) needed); [contradiction | reflexivity].
Qed.

Lemma utf8_step_last (cp seen needed lower upper b : Z) :
  needed <> 0 -> lower <= b <= upper -> seen + 1 = needed ->
  utf8_step (mkUtf8 cp seen needed lower upper) b
  = ([cp * 64 + (b - 0x80)], utf8_initial).
Proof.
  intros Hn Hb Hs. unfold utf8_step. cbn [u_needed u_lower u_upper u_seen
                                            u_codePoint].
  destruct (Z.eqb_spec needed 0); [contradiction|].
  destruct (Z.ltb_spec b lower); [lia|].
  destruct (Z.ltb_spec upper b); [lia|]. cbn [orb].
  destruct (Z.eqb_spec (seen + 1) needed); [reflexivity | contradiction].
Qed.

Lemma utf8_step_initial (b : Z) : utf8_step utf8_initial b = utf8_lead b.
Proof. reflexivity. Qed.

(** The decoder reads the UTF-8 form of a scalar value as that value. *)
Lemma utf8_run_encode_cp (cp : Z) (rest : list Z) :
  0 <= cp < 0xD800 \/ 0xDFFF < cp <= 0x10FFFF ->
  utf8_run utf8_initial (utf8_encode_cp cp ++ rest)
  = cp :: utf8_run utf8_initial rest.
Proof.
  intros Hcp. unfold utf8_encode_cp.
  pose proof (Z.div_mod cp 64 ltac:(lia)) as D64.
  pose proof (Z.mod_pos_bound cp 64 ltac:(lia)) as M64.
  destruct (Z.ltb_spec cp 0x80) as [H1 | H1].
  { cbn [app utf8_run]. rewrite utf8_step_initial, utf8_lead_1 by lia.
    reflexivity. }
  destruct (Z.ltb_spec cp 0x800) as [H2 | H2].
  { cbn [app utf8_run]. rewrite utf8_step_initial, utf8_lead_2 by lia.
    rewrite utf8_step_last by lia. cbn [app]. f_equal. lia. }
  destruct (Z.leb_spec 0xD800 cp) as [H3 | H3];
    [destruct (Z.leb_spec cp 0xDFFF) as [H4 | H4]; [lia|] |];
    cbn [andb].
  - (* four bytes, or three above the surrogates *)
    pose proof (Z.div_mod (cp / 64) 64 ltac:(lia)) as D4096.
    pose proof (Z.mod_pos_bound (cp / 64) 64 ltac:(lia)) as M4096.
    assert (E4096 : cp / 4096 = cp / 64 / 64)
      by (rewrite Z.div_div by lia; reflexivity).
    destruct (Z.ltb_spec cp 0x10000) as [H5 | H5].
    + cbn [app utf8_run].
      rewrite utf8_step_initial, utf8_lead_3 by lia.
      rewrite utf8_step_more;
        [|lia
         |destruct (Z.eqb_spec (224 + cp / 4096) 224);
          destruct (Z.eqb_spec (224 + cp / 4096) 237); lia
         |lia].
      rewrite utf8_step_last by lia. cbn [app]. f_equal. lia.
    + pose proof (Z.div_mod (cp / 4096) 64 ltac:(lia)) as D18.
      pose proof (Z.mod_pos_bound (cp / 4096) 64 ltac:(lia)) as M18.
      assert (E18 : cp / 262144 = cp / 4096 / 64)
        by (rewrite Z.div_div by lia; reflexivity).
      cbn [app utf8_run].
      rewrite utf8_step_initial, utf8_lead_4 by lia.
      rewrite utf8_step_more;
        [|lia
         |destruct (Z.eqb_spec (240 + cp / 262144) 240);
          destruct (Z.eqb_spec (240 + cp / 262144) 244); lia
         |lia].
      rewrite utf8_step_more by lia.
      rewrite utf8_step_last by lia. cbn [app]. f_equal. lia.
  - (* three bytes below the surrogates *)
    pose proof (Z.div_mod (cp / 64) 64 ltac:(lia)) as D4096.
    pose proof (Z.mod_pos_bound (cp / 64) 64 ltac:(lia)) as M4096.
    assert (E4096 : cp / 4096 = cp / 64 / 64)
      by (rewrite Z.div_div by lia; reflexivity).
    destruct (Z.ltb_spec cp 0x10000) as [H5 | H5]; [|lia].
    cbn [app utf8_run].
    rewrite utf8_step_initial, utf8_lead_3 by lia.
    rewrite utf8_step_more;
      [|lia
       |destruct (Z.eqb_spec (224 + cp / 4096) 224);
        destruct (Z.eqb_spec (224 + cp / 4096) 237); lia
       |lia].
    rewrite utf8_step_last by lia. cbn [app]. f_equal. lia.
Qed.

Lemma utf8_run_encode (s : JSString) :
  Forall (fun cp => 0 <= cp < 0xD800 \/ 0xDFFF < cp <= 0x10FFFF) s ->
  utf8_run utf8_initial (TextEncoder_encode s) = s.
Proof.
  unfold TextEncoder_encode.
  induction 1 as [|cp s Hcp _ IH]; [reflexivity|].
  cbn [flat_map]. rewrite utf8_run_encode_cp by assumption.
  rewrite IH. reflexivity.
Qed.


(** ** Columns, from the writer to the reader *)

Lemma sameText_refl (a : JSString) : sameText a a = true.
Proof.
  unfold sameText. destruct (list_eq_dec Z.eq_dec a a); [reflexivity|].
  contradiction.
Qed.

(** A column that sqliteToCDB writes is read by readChunk as the COLUMN
    chunk of its index, its type, its words and its blob. *)
Lemma column_chunk_read_back (w w' : CDBWriter) (columnName : JSString)
    (info : ColumnInfo) (cells : list Cell) :
  produced w -> pos w mod 4 = 0 ->
  writeColumns [columnName] [(columnName, info)] [cells] w = Ok w' ->
  pos w' < two32 ->
  exists values blob,
    columnData (cdbDataTypeOf info) cells = Ok (values, blob) /\
    zlength blob < two32 /\
    readChunk (readerFuel (getData w')) (getData w') (pos w)
    = Ok (columnResult
            (mkColumnSpec columnName (ToUint32 (cdbColumnIndexOf info))
                          (ToUint32 (cdbDataTypeOf info)) values blob),
          pos w').
Proof.
  intros Hp Hal E Hsize.
  pose proof (produced_winv w Hp) as Hw.
  pose proof (writeColumns_emits [columnName] [(columnName, info)] [cells]
                w Hw Hal) as Hemit.
  rewrite E in Hemit. cbn [columnSpecs getProperty] in Hemit.
  rewrite sameText_refl in Hemit. cbn [bind tl] in Hemit.
  destruct (columnData (cdbDataTypeOf info) cells) as [[values blob]|e];
    [|cbn [bind emits] in Hemit; discriminate].
  cbn [bind flat_map emits] in Hemit. rewrite app_nil_r in Hemit.
  destruct Hemit as (w2 & E2 & G & _).
  injection E2 as <-.
  pose proof (grows_pos _ _ _ Hw G) as Hpos.
  destruct G as (Hw' & _ & Hd).
  pose proof Hw as (Hpw & _). unfold pos_ok in Hpw.
  set (c := mkColumnSpec columnName (ToUint32 (cdbColumnIndexOf info))
                         (ToUint32 (cdbDataTypeOf info)) values blob) in *.
  exists values, blob. split; [reflexivity|].
  assert (Hc : cursor (getData w') (pos w) (columnBytes c ++ [])).
  { exists (getData w). rewrite app_nil_r. split; [exact Hd|].
    apply getData_zlength. exact Hw. }
  assert (Hlen : zlength (getData w') = pos w')
    by (apply getData_zlength; exact Hw').
  split.
  - pose proof (chunkBytes_min COLUMN (Some columnName) (columnBody c))
      as Hmin.
    change (chunkBytes COLUMN (Some columnName) (columnBody c))
      with (columnBytes c) in Hmin.
    assert (Hb : zlength blob <= zlength (columnBody c)).
    { unfold columnBody, columnDataBytes. subst c.
      rewrite !zlength_app. cbn [cs_blob cs_values cs_index cs_type cs_name].
      pose proof (zlength_nonneg
                    (wordChunkBytes COLUMN_INDEX None
                       (ToUint32 (cdbColumnIndexOf info)))).
      pose proof (zlength_nonneg
                    (wordChunkBytes COLUMN_DATA_TYPE (Some columnName)
                                    (ToUint32 (cdbDataTypeOf info)))).
      pose proof (zlength_nonneg
                    (chunkBytes COLUMN_VALUES None (words values))).
      destruct blob as [|b blob];
        [change (zlength (@nil Z)) with 0;
         pose proof (zlength_nonneg (@nil Z)); lia|].
      cbv iota.
      pose proof (chunkBytes_min COLUMN_BLOB_DATA None
                    (le32 (zlength (b :: blob)) ++ b :: blob)) as Hbm.
      rewrite zlength_app, zlength_le32 in Hbm. lia. }
    lia.
  - rewrite Hpos.
    apply (readChunk_column _ _ _ c []).
    + exact Hc.
    + exact Hal.
    + lia.
    + unfold readerFuel, zlength. lia.
Qed.

Lemma columnChildren_type (c : ColumnSpec) :
  getChild (columnChildren c) COLUMN_DATA_TYPE
  = VNumber (ToUint32 (cs_type c)).
Proof. unfold columnChildren. destruct (cs_blob c); reflexivity. Qed.

Lemma columnChildren_index (c : ColumnSpec) :
  getChild (columnChildren c) COLUMN_INDEX = VNumber (ToUint32 (cs_index c)).
Proof. unfold columnChildren. destruct (cs_blob c); reflexivity. Qed.

Lemma columnChildren_values (c : ColumnSpec) :
  getChild (columnChildren c) COLUMN_VALUES
  = VWords (map ToUint32 (cs_values c)).
Proof. unfold columnChildren. destruct (cs_blob c); reflexivity. Qed.

(** The blob as convertColumnData sees it: four zero bytes when the column
    has no COLUMN_BLOB_DATA chunk. *)
Lemma columnChildren_blob (c : ColumnSpec) :
  match bytesOf (getChild (columnChildren c) COLUMN_BLOB_DATA) with
  | Some bytes => bytes
  | None => [0; 0; 0; 0]
  end
  = le32 (zlength (cs_blob c)) ++ cs_blob c
    ++ zeros (paddingAt (zlength (cs_blob c))).
Proof. unfold columnChildren. destruct (cs_blob c); reflexivity. Qed.

Lemma ToInt32_ToUint32 (v : Z) : ToInt32 (ToUint32 v) = ToInt32 v.
Proof.
  unfold ToInt32, ToUint32, two32. rewrite Z.mod_mod by lia. reflexivity.
Qed.

Lemma ToInt32_small (v : Z) :
  - 2147483648 <= v < 2147483648 -> ToInt32 v = v.
Proof.
  intros Hv. unfold ToInt32, two32. cbv zeta.
  destruct (Z.lt_ge_cases v 0) as [Hneg | Hpos].
  - replace (v mod 4294967296) with (v + 4294967296).
    + destruct (Z.ltb_spec (v + 4294967296) 2147483648); lia.
    + apply Z.mod_unique with (q := -1); lia.
  - rewrite Z.mod_small by lia.
    destruct (Z.ltb_spec v 2147483648); lia.
Qed.

Lemma ToUint32_idem (v : Z) : ToUint32 (ToUint32 v) = ToUint32 v.
Proof. unfold ToUint32, two32. rewrite Z.mod_mod by lia. reflexivity. Qed.

(** X13. An INTEGER column written by sqliteToCDB is read back by the
    reader with each value taken as a signed 32-bit integer: readChunk
    reads the COLUMN chunk where it was written, and the column that the
    item reader makes of it has the type INTEGER, the column index, and for
    each cell its integer value wrapped to 32 bits.  A cell holding an
    integer from -2^31 to 2^31 - 1 comes back as it was. *)
Theorem integer_column_is_read_back (w w' : CDBWriter)
    (columnName : JSString) (columnIndex : Z) (cells : list Cell) :
  produced w -> pos w mod 4 = 0 ->
  writeColumns [columnName] [(columnName, mkColumnInfo INTEGER columnIndex)]
               [cells] w = Ok w' ->
  pos w' < two32 ->
  exists chunk column,
    readChunk (readerFuel (getData w')) (getData w') (pos w)
    = Ok (chunk, pos w') /\
    columnOfChunk chunk = Ok column /\
    col_type column = Some INTEGER /\
    col_columnIndex column = Some (ToUint32 columnIndex) /\
    col_data column = map (fun cell => JNum (ToInt32 (cellInteger cell))) cells
    /\ forall z, - 2147483648 <= z < 2147483648 ->
                 ToInt32 (cellInteger (CInt z)) = z.
Proof.
  intros Hp Hal E Hsize.
  destruct (column_chunk_read_back w w' columnName _ cells Hp Hal E Hsize)
    as (values & blob & Hdata & _ & Hread).
  cbn [cdbDataTypeOf cdbColumnIndexOf] in Hdata, Hread.
  unfold columnData in Hdata. cbn in Hdata. injection Hdata as <- <-.
  eexists. eexists. split; [exact Hread|].
  unfold columnResult, columnOfChunk, convertColumnData.
  rewrite columnChildren_type, columnChildren_values, columnChildren_index.
  cbn [numberOf wordsOf cs_type cs_values cs_index].
  change (ToUint32 INTEGER =? INTEGER) with true. cbv iota. cbn [bind].
  split; [reflexivity|]. cbn [col_type col_columnIndex col_data].
  split; [reflexivity|].
  split; [rewrite ToUint32_idem; reflexivity|]. split.
  - rewrite !map_map. apply map_ext. intros cell.
    unfold js_or0. rewrite ToUint32_idem, ToInt32_ToUint32. reflexivity.
  - intros z Hz. cbn [cellInteger]. apply ToInt32_small. exact Hz.
Qed.

Lemma integer_column_is_read_back_witness :
  exists w' chunk column,
    writeColumns [str "IDteam"] [(str "IDteam", mkColumnInfo INTEGER 1)]
                 [[CInt (-1); CInt 4294967298; CNull]] (new_CDBWriter 0)
    = Ok w' /\
    readChunk (readerFuel (getData w')) (getData w') 0 = Ok (chunk, pos w') /\
    columnOfChunk chunk = Ok column /\
    col_data column = [JNum (-1); JNum 2; JNum 0].
Proof.
  eexists.
  destruct (integer_column_is_read_back (new_CDBWriter 0) _ (str "IDteam") 1
              [CInt (-1); CInt 4294967298; CNull]
              (produced_new 0) eq_refl
              ltac:(vm_compute; reflexivity) ltac:(vm_compute; reflexivity))
    as (chunk & column & H1 & H2 & _ & _ & H3 & _).
  exists chunk, column. split; [vm_compute; reflexivity|].
  split; [exact H1|]. split; [exact H2|]. exact H3.
Defined.

Lemma decode_encode_text (s : JSString) :
  Forall (fun cp => 0 <= cp < 0xD800 \/ 0xDFFF < cp <= 0x10FFFF) s ->
  TextDecoder_decode (TextEncoder_encode s)
  = match s with
    | cp :: rest => if cp =? 0xFEFF then rest else s
    | [] => []
    end.
Proof.
  intros Hs. unfold TextDecoder_decode. rewrite utf8_run_encode by assumption.
  destruct s; reflexivity.
Qed.

(** X14. A chunk header written by writeChunkOpen is read back by
    readChunkHeader: the type, the flags 0, the size 0 (the size is set
    when getData is called after the chunk is closed), and the
    description.  A null or empty description is read as null; any other
    comes back as it was, except that a leading U+FEFF is dropped by the
    decoder. *)
Theorem chunk_header_is_read_back (w : CDBWriter) (chunkType : Z)
    (description : option JSString) :
  produced w -> pos w mod 4 = 0 -> 0 <= chunkType < two32 ->
  Forall (fun cp => 0 <= cp < 0xD800 \/ 0xDFFF < cp <= 0x10FFFF)
         (match description with Some s => s | None => [] end) ->
  pos (writeChunkOpen chunkType description w) < two32 ->
  readChunkHeader (getData (writeChunkOpen chunkType description w)) (pos w)
  = Ok (mkHeader 0 chunkType 0
          (match description with
           | Some (cp :: rest) =>
               Some (if cp =? 0xFEFF then rest else cp :: rest)
           | _ => None
           end),
        pos (writeChunkOpen chunkType description w)).
Proof.
  intros Hp Hal Ht Hs Hsize.
  pose proof (produced_winv w Hp) as Hw.
  destruct (writeChunkOpen_grows chunkType description w Hw Hal)
    as (Hw1 & _ & Hd & _).
  pose proof Hw as (Hpw & _). unfold pos_ok in Hpw.
  pose proof (getData_zlength _ Hw) as Hl.
  pose proof (getData_zlength _ Hw1) as Hl1.
  rewrite Hd, zlength_app, Hl in Hl1.
  pose proof (readChunkHeader_layout
                (getData (writeChunkOpen chunkType description w)) (pos w)
                0 chunkType description []) as Hread.
  rewrite app_nil_r in Hread.
  rewrite Hread.
  - rewrite (ToUint32_small chunkType) by assumption.
    change (ToUint32 0) with 0. rewrite Hl1. f_equal. f_equal. f_equal.
    unfold decodedDescription. destruct description as [[|cp rest]|];
      cbn [truthy]; try reflexivity.
    rewrite decode_encode_text by assumption. reflexivity.
  - exists (getData w). split; assumption.
  - exact Hal.
  - lia.
Qed.

Lemma chunk_header_is_read_back_witness :
  readChunkHeader
    (getData (writeChunkOpen TABLE (Some (str "DYN_team")) (new_CDBWriter 8)))
    0
  = Ok (mkHeader 0 TABLE 0 (Some (str "DYN_team")), 40).
Proof.
  apply (chunk_header_is_read_back (new_CDBWriter 8) TABLE
           (Some (str "DYN_team"))).
  - apply produced_new.
  - reflexivity.
  - vm_compute. split; [discriminate | reflexivity].
  - simpl. repeat (apply Forall_cons; [left; lia|]). apply Forall_nil.
  - vm_compute. reflexivity.
Defined.

(** ** STRING columns *)






(** ** INTEGER_LIST columns *)

Lemma dropWhile_none {A : Type} (f : A -> bool) (l : list A) :
  Forall (fun x => f x = false) l -> dropWhile f l = l.
Proof.
  intros H. destruct H as [|x l Hx _]; [reflexivity|].
  cbn [dropWhile]. rewrite Hx. reflexivity.
Qed.

Lemma trim_plain (s : JSString) :
  Forall (fun c => isWhiteSpace c = false) s -> trim s = s.
Proof.
  intros H. unfold trim. rewrite (dropWhile_none _ s H).
  rewrite dropWhile_none by (apply Forall_rev; exact H).
  apply rev_involutive.
Qed.

Lemma intToString_chars (z : Z) :
  Forall (fun c => isWhiteSpace c = false /\ c <> 44) (intToString z).
Proof.
  assert (Hd : forall n, 0 <= n ->
                 Forall (fun c => isWhiteSpace c = false /\ c <> 44)
                        (decimal n)).
  { intros n Hn. eapply Forall_impl; [|exact (decimal_digits n Hn)].
    intros c Hc. destruct (isDigit_plain c Hc) as (? & _ & _ & _ & _ & ?).
    split; assumption. }
  unfold intToString. destruct (Z.ltb_spec z 0).
  - constructor; [split; [reflexivity | discriminate]|]. apply Hd. lia.
  - apply Hd. assumption.
Qed.

Lemma intToString_nonempty (z : Z) : intToString z <> [].
Proof.
  unfold intToString. destruct (Z.ltb_spec z 0); [discriminate|].
  pose proof (decimal_nonempty z ltac:(lia)) as Hl. intros E.
  rewrite E in Hl. cbn in Hl. lia.
Qed.

Lemma split_on_none (sep : Z) (s : JSString) :
  Forall (fun c => c <> sep) s -> split_on sep s = [s].
Proof.
  induction 1 as [|c s Hc _ IH]; [reflexivity|].
  cbn [split_on]. destruct (Z.eqb_spec c sep); [contradiction|].
  rewrite IH. reflexivity.
Qed.

Lemma split_on_app (sep : Z) (p rest : JSString) :
  Forall (fun c => c <> sep) p ->
  split_on sep (p ++ sep :: rest) = p :: split_on sep rest.
Proof.
  induction 1 as [|c p Hc _ IH].
  - cbn [app split_on]. rewrite Z.eqb_refl. reflexivity.
  - cbn [app split_on]. destruct (Z.eqb_spec c sep); [contradiction|].
    rewrite IH. reflexivity.
Qed.

Lemma split_on_join (sep : Z) (parts : list JSString) :
  parts <> [] -> Forall (Forall (fun c => c <> sep)) parts ->
  split_on sep (join [sep] parts) = parts.
Proof.
  intros Hne Hparts. induction Hparts as [|p parts Hp Hrest IH];
    [contradiction|].
  destruct parts as [|q parts].
  - cbn [join]. apply split_on_none. exact Hp.
  - change (join [sep] (p :: q :: parts))
      with (p ++ sep :: join [sep] (q :: parts)).
    rewrite split_on_app by exact Hp. rewrite IH by discriminate.
    reflexivity.
Qed.

Lemma join_nonempty (sep : JSString) (p : JSString)
    (parts : list JSString) :
  p <> [] -> join sep (p :: parts) <> [].
Proof.
  intros Hp. destruct parts as [|q parts]; cbn [join]; [exact Hp|].
  destruct p; [contradiction | discriminate].
Qed.

Lemma slice_1_m1_parens (body : JSString) :
  slice_1_m1 (str "(" ++ body ++ str ")") = body.
Proof.
  change (str "(") with [40]. change (str ")") with [41].
  cbn [app slice_1_m1]. apply removelast_last.
Qed.

(** The count and the words that writeListData takes from the text of a
    list of integers. *)
Lemma listWords_integers (zs : list Z) :
  Forall (fun z => - 2147483648 <= z < 2147483648) zs ->
  listWords INTEGER_LIST
    (CText (str "(" ++ join (str ",") (map intToString zs) ++ str ")"))
  = Ok (zlength zs, zs).
Proof.
  intros Hzs. unfold listWords. cbn [cellString bind].
  rewrite slice_1_m1_parens. change (str ",") with [44].
  destruct zs as [|z zs]; [reflexivity|].
  pose proof (join_nonempty [44] (intToString z) (map intToString zs)
                (intToString_nonempty z)) as Hne.
  change (intToString z :: map intToString zs)
    with (map intToString (z :: zs)) in Hne.
  destruct (join [44] (map intToString (z :: zs))) as [|c content] eqn:E;
    [contradiction|].
  rewrite <- E. clear E Hne c content.
  rewrite split_on_join.
  - rewrite !map_map. unfold zlength. rewrite length_map. f_equal. f_equal.
    change (INTEGER_LIST =? FLOAT_LIST) with false. cbv iota.
    rewrite <- (map_id (z :: zs)) at 2.
    apply map_ext_in. intros x Hx.
    rewrite trim_plain.
    + rewrite parseInt_intToString. unfold js_or0. apply ToInt32_small.
      rewrite Forall_forall in Hzs. apply Hzs. exact Hx.
    + eapply Forall_impl; [|exact (intToString_chars x)].
      intros c Hc. exact (proj1 Hc).
  - discriminate.
  - apply Forall_forall. intros s Hs. apply in_map_iff in Hs as (x & <- & _).
    eapply Forall_impl; [|exact (intToString_chars x)].
    intros c Hc. exact (proj2 Hc).
Qed.

Lemma parsedLists_integers (zss : list (list Z)) :
  Forall (Forall (fun z => - 2147483648 <= z < 2147483648)) zss ->
  parsedLists INTEGER_LIST
    (map (fun zs =>
            CText (str "(" ++ join (str ",") (map intToString zs) ++ str ")"))
         zss)
  = Ok (map (fun zs => (zlength zs, zs)) zss).
Proof.
  unfold parsedLists.
  induction 1 as [|zs zss Hzs _ IH]; [reflexivity|].
  cbn [map fold_right]. rewrite listWords_integers by assumption.
  cbn [bind]. rewrite IH. reflexivity.
Qed.

Lemma readListValues_integers (data : list Z) (zs : list Z) :
  forall (fuel : nat) (i offset : Z) (rest : list Z) (values : list JSString),
    cursor data offset (words zs ++ rest) ->
    (length zs < fuel)%nat ->
    Forall (fun z => - 2147483648 <= z < 2147483648) zs ->
    readListValues fuel
      (fun offset _ =>
         let* word := viewWord data offset in
         Ok (intToString (js_or0 word)))
      (i + zlength zs) i offset values
    = Ok (values ++ map intToString zs, offset + 4 * zlength zs).
Proof.
  induction zs as [|z zs IH]; intros fuel i offset rest values Hc Hf Hzs.
  - destruct fuel as [|fuel]; [cbn in Hf; lia|].
    cbn [readListValues]. change (zlength (@nil Z)) with 0.
    rewrite Z.add_0_r, Z.ltb_irrefl, app_nil_r, Z.mul_0_r, Z.add_0_r.
    reflexivity.
  - destruct fuel as [|fuel]; [cbn in Hf; lia|].
    cbn [readListValues].
    assert (Hlen : zlength (z :: zs) = 1 + zlength zs)
      by (unfold zlength; cbn [length]; lia).
    pose proof (zlength_nonneg zs) as Hn.
    destruct (Z.ltb_spec i (i + zlength (z :: zs))) as [_ | Hge]; [|lia].
    change (words (z :: zs)) with (le32 z ++ words zs) in Hc.
    rewrite <- app_assoc in Hc.
    pose proof (cursor_bounds _ _ _ Hc) as (Hp & Hb).
    rewrite zlength_app, zlength_le32 in Hb.
    pose proof (zlength_nonneg (words zs ++ rest)) as Hr.
    assert (Hv : viewWord data offset = Ok (ToUint32 z)).
    { unfold viewWord.
      destruct (Z.gtb_spec (offset + 4) (zlength data)) as [Hgt | _];
        [lia|].
      rewrite (getUint32_cursor _ _ _ _ Hc). reflexivity. }
    rewrite Hv. cbn [bind].
    replace (js_or0 (ToUint32 z)) with z
      by (unfold js_or0; rewrite ToInt32_ToUint32;
          symmetry; apply ToInt32_small; exact (Forall_inv Hzs)).
    apply cursor_app in Hc. rewrite zlength_le32 in Hc.
    replace (i + zlength (z :: zs)) with ((i + 1) + zlength zs) by lia.
    rewrite (IH fuel (i + 1) (offset + 4) rest (values ++ [intToString z])
               Hc ltac:(cbn [length] in Hf; lia) (Forall_inv_tail Hzs)).
    rewrite <- app_assoc. cbn [map app]. f_equal. f_equal. lia.
Qed.

Lemma parseNumericLists_integers (zss : list (list Z)) (post : list Z) :
  forall pre,
    Forall (Forall (fun z => - 2147483648 <= z < 2147483648)) zss ->
    parseNumericLists_from
      (pre ++ words (flat_map (fun zs => zs) zss) ++ post)
      (fun offset _ =>
         let* word :=
           viewWord (pre ++ words (flat_map (fun zs => zs) zss) ++ post)
                    offset in
         Ok (intToString (js_or0 word)))
      (zlength pre) (map (fun zs => zlength zs) zss)
    = Ok (map (fun zs =>
                 JStr (str "(" ++ join (str ",") (map intToString zs)
                       ++ str ")")) zss).
Proof.
  intros pre Hzss.
  remember (pre ++ words (flat_map (fun zs => zs) zss) ++ post) as data
    eqn:Edata.
  assert (Hgen : forall lists before,
            Forall (Forall (fun z => - 2147483648 <= z < 2147483648))
                   lists ->
            forall after,
              data = before ++ words (flat_map (fun zs => zs) lists)
                     ++ after ->
              parseNumericLists_from data
                (fun offset _ =>
                   let* word := viewWord data offset in
                   Ok (intToString (js_or0 word)))
                (zlength before) (map (fun zs => zlength zs) lists)
              = Ok (map (fun zs =>
                           JStr (str "(" ++ join (str ",")
                                                 (map intToString zs)
                                 ++ str ")")) lists)).
  { clear. induction lists as [|zs lists IH];
      intros before Hl after Hd; [reflexivity|].
    cbn [map parseNumericLists_from flat_map] in *.
    rewrite words_app, <- app_assoc in Hd.
    assert (Hc : cursor data (zlength before)
                   (words zs ++ words (flat_map (fun zs => zs) lists)
                    ++ after)).
    { exists before. split; [exact Hd | reflexivity]. }
    assert (Hf : (length zs < S (length data))%nat).
    { pose proof (cursor_bounds _ _ _ Hc) as (Hp & Hb).
      rewrite zlength_app, zlength_words in Hb.
      pose proof (zlength_nonneg
                    (words (flat_map (fun zs => zs) lists) ++ after)).
      unfold zlength in *. lia. }
    pose proof (readListValues_integers data zs (S (length data)) 0
                  (zlength before) _ [] Hc Hf (Forall_inv Hl)) as Hr.
    rewrite Z.add_0_l in Hr. rewrite Hr. cbn [bind app].
    replace (zlength before + 4 * zlength zs)
      with (zlength (before ++ words zs))
      by (rewrite zlength_app, zlength_words; reflexivity).
    rewrite (IH (before ++ words zs) (Forall_inv_tail Hl) after).
    - reflexivity.
    - rewrite Hd, <- app_assoc. reflexivity. }
  exact (Hgen zss pre Hzss post Edata).
Qed.

Lemma zlength_in_concat (zss : list (list Z)) (zs : list Z) :
  In zs zss -> zlength zs <= zlength (flat_map (fun zs => zs) zss).
Proof.
  induction zss as [|x zss IH]; intros Hin; [contradiction|].
  cbn [flat_map]. rewrite zlength_app.
  pose proof (zlength_nonneg x).
  pose proof (zlength_nonneg (flat_map (fun zs => zs) zss)).
  destruct Hin as [-> | Hin]; [lia|]. specialize (IH Hin). lia.
Qed.

(** X16. An INTEGER_LIST column written by sqliteToCDB is read back by the
    reader.  For cells that hold the text [(a,b,...)] of lists of
    integers from -2^31 to 2^31 - 1, in decimal and without spaces ([()]
    for the empty list), readChunk reads the COLUMN chunk where it was
    written, and the column that the item reader makes of it has the type
    INTEGER_LIST and, row by row, the same texts. *)
Theorem integer_list_column_is_read_back (w w' : CDBWriter)
    (columnName : JSString) (columnIndex : Z) (lists : list (list Z)) :
  produced w -> pos w mod 4 = 0 ->
  Forall (Forall (fun z => - 2147483648 <= z < 2147483648)) lists ->
  writeColumns [columnName]
    [(columnName, mkColumnInfo INTEGER_LIST columnIndex)]
    [map (fun zs =>
            CText (str "(" ++ join (str ",") (map intToString zs) ++ str ")"))
         lists] w = Ok w' ->
  pos w' < two32 ->
  exists chunk column,
    readChunk (readerFuel (getData w')) (getData w') (pos w)
    = Ok (chunk, pos w') /\
    columnOfChunk chunk = Ok column /\
    col_type column = Some INTEGER_LIST /\
    col_data column
    = map (fun zs =>
             JStr (str "(" ++ join (str ",") (map intToString zs) ++ str ")"))
          lists.
Proof.
  intros Hp Hal Hlists E Hsize.
  destruct (column_chunk_read_back w w' columnName _ _ Hp Hal E Hsize)
    as (values & blob & Hdata & Hblob & Hread).
  cbn [cdbDataTypeOf cdbColumnIndexOf] in Hdata, Hread.
  unfold columnData in Hdata.
  change (INTEGER_LIST =? INTEGER) with false in Hdata.
  change (INTEGER_LIST =? FLOAT) with false in Hdata.
  change (INTEGER_LIST =? STRING) with false in Hdata.
  change (INTEGER_LIST =? INTEGER_LIST) with true in Hdata.
  cbn [orb] in Hdata. cbv iota in Hdata.
  rewrite (parsedLists_integers lists Hlists) in Hdata.
  cbn [bind] in Hdata. rewrite !map_map in Hdata. cbn [fst] in Hdata.
  rewrite flat_map_concat_map, map_map in Hdata. cbn [snd] in Hdata.
  rewrite <- flat_map_concat_map in Hdata.
  injection Hdata as <- <-.
  rewrite zlength_words in Hblob.
  eexists. eexists. split; [exact Hread|].
  unfold columnResult, columnOfChunk, convertColumnData.
  rewrite columnChildren_type, columnChildren_values, columnChildren_index,
    columnChildren_blob.
  cbn [numberOf wordsOf cs_type cs_values cs_index cs_blob].
  change (ToUint32 INTEGER_LIST =? INTEGER) with false.
  change (ToUint32 INTEGER_LIST =? FLOAT) with false.
  change (ToUint32 INTEGER_LIST =? STRING) with false.
  change (ToUint32 INTEGER_LIST =? INTEGER_LIST) with true. cbv iota.
  assert (Hcounts : map ToUint32
                      (map (fun zs => ToUint32 (zlength zs)) lists)
                    = map (fun zs => zlength zs) lists).
  { rewrite map_map. apply map_ext_in. intros zs Hin.
    pose proof (zlength_in_concat lists zs Hin).
    pose proof (zlength_nonneg zs).
    rewrite ToUint32_idem. apply ToUint32_small. unfold two32 in *. lia. }
  rewrite Hcounts. unfold parseNumericLists.
  change 4 with (zlength (le32 (zlength
                   (words (flat_map (fun zs => zs) lists))))) at 1.
  rewrite parseNumericLists_integers by assumption.
  cbn [bind]. split; [reflexivity|]. cbn [col_type col_data].
  split; reflexivity.
Qed.

Lemma integer_list_column_is_read_back_witness :
  let w' :=
    orElse (writeColumns [str "value_list"]
                         [(str "value_list", mkColumnInfo INTEGER_LIST 3)]
                         [[CText (str "(1,-2,30)"); CText (str "()");
                           CText (str "(7)")]]
                         (new_CDBWriter 0))
           (new_CDBWriter 0) in
  exists chunk column,
    readChunk (readerFuel (getData w')) (getData w') 0 = Ok (chunk, pos w') /\
    columnOfChunk chunk = Ok column /\
    col_data column
    = [JStr (str "(1,-2,30)"); JStr (str "()"); JStr (str "(7)")].
Proof.
  intros w'.
  destruct (integer_list_column_is_read_back (new_CDBWriter 0) w'
              (str "value_list") 3 [[1; -2; 30]; []; [7]]
              (produced_new 0) eq_refl)
    as (chunk & column & H1 & H2 & _ & H3).
  - repeat (apply Forall_cons;
            [repeat (apply Forall_cons; [lia|]); apply Forall_nil|]).
    apply Forall_nil.
  - vm_compute. reflexivity.
  - vm_compute. reflexivity.
  - exists chunk, column.
    split; [exact H1|]. split; [exact H2|]. exact H3.
Defined.

(** ** FLOAT columns *)

(** roundBinary gives back a value that is a float already: [N / 2^k] is
    [M * 2^E] with [M] and [E] in the range of the format. *)
Lemma roundBinary_exact (N k M E : Z) :
  0 < N -> 0 <= k -> 0 < M < 16777216 -> -149 <= E <= 104 ->
  8388608 <= M \/ E = -149 ->
  N * 2 ^ Z.max 0 (- E) = M * 2 ^ Z.max 0 E * 2 ^ k ->
  roundBinary 24 (-149) 104 N (2 ^ k) = Some (M, E).
Proof.
  intros HN Hk HM HE Hnorm Heq.
  set (a := Z.max 0 (- E)) in *. set (b := Z.max 0 E) in *.
  assert (Ha : 0 <= a) by (subst a; lia).
  assert (Hb : 0 <= b) by (subst b; lia).
  assert (Hab : b - a = E) by (subst a b; lia).
  assert (Hpa : 0 < 2 ^ a) by (apply Z.pow_pos_nonneg; lia).
  assert (Hpb : 0 < 2 ^ b) by (apply Z.pow_pos_nonneg; lia).
  assert (Hpk : 0 < 2 ^ k) by (apply Z.pow_pos_nonneg; lia).
  assert (Hlog : Z.log2 N + a = Z.log2 M + b + k).
  { pose proof (Z.log2_mul_pow2 N a HN Ha) as H1.
    assert (H2 : Z.log2 (M * 2 ^ (b + k)) = b + k + Z.log2 M)
      by (apply Z.log2_mul_pow2; lia).
    rewrite Z.pow_add_r in H2 by lia.
    rewrite Z.mul_assoc, <- Heq, H1 in H2. lia. }
  assert (HlogM : Z.log2 M <= 23).
  { assert (Z.log2 M < 24); [|lia].
    apply Z.log2_lt_pow2; [lia|]. change (2 ^ 24) with 16777216. lia. }
  assert (He : Z.max (-149)
                 (if (N * 2 ^ Z.max 0 (- (Z.log2 N - Z.log2 (2 ^ k) - 24 + 1)))
                     / (2 ^ k
                        * 2 ^ Z.max 0 (Z.log2 N - Z.log2 (2 ^ k) - 24 + 1))
                     <? 2 ^ (24 - 1)
                  then Z.log2 N - Z.log2 (2 ^ k) - 24 + 1 - 1
                  else Z.log2 N - Z.log2 (2 ^ k) - 24 + 1) = E).
  { rewrite Z.log2_pow2 by lia.
    destruct Hnorm as [Hbig | Hsub].
    - assert (HM23 : Z.log2 M = 23).
      { apply Z.log2_unique; [lia|]. change (2 ^ 23) with 8388608.
        change (2 ^ Z.succ 23) with 16777216. lia. }
      replace (Z.log2 N - k - 24 + 1) with E by lia.
      fold a b. rewrite Heq.
      replace (M * 2 ^ b * 2 ^ k) with (M * (2 ^ k * 2 ^ b)) by lia.
      rewrite Z.div_mul by lia.
      change (2 ^ (24 - 1)) with 8388608.
      destruct (Z.ltb_spec M 8388608); lia.
    - destruct (_ <? _); lia. }
  unfold roundBinary. cbv zeta. rewrite He. fold a b. rewrite Heq.
  replace (M * 2 ^ b * 2 ^ k) with (M * (2 ^ k * 2 ^ b)) by lia.
  rewrite Z.div_mul, Z.mod_mul by lia.
  change (2 * 0) with 0.
  destruct (Z.ltb_spec (2 ^ k * 2 ^ b) 0) as [Hneg | _]; [lia|].
  destruct (Z.eqb_spec 0 (2 ^ k * 2 ^ b)) as [Hz | _]; [lia|].
  cbn [orb andb]. change (2 ^ 24) with 16777216.
  destruct (Z.eqb_spec M 16777216) as [Hm | _]; [lia|].
  destruct (Z.ltb_spec 104 E) as [Hbig | _]; [lia|].
  reflexivity.
Qed.

(** The bits of a finite value that is a float already. *)
Lemma float32Bits_exact (negative : bool) (m e M E : Z) :
  0 < m -> 0 < M < 16777216 -> -149 <= E <= 104 ->
  8388608 <= M \/ E = -149 ->
  m * 2 ^ Z.max 0 e * 2 ^ Z.max 0 (- E)
  = M * 2 ^ Z.max 0 E * 2 ^ Z.max 0 (- e) ->
  float32Bits (FFin negative m e)
  = (if negative then 2147483648 else 0)
    + (if M <? 8388608 then M else (E + 150) * 8388608 + (M - 8388608)).
Proof.
  intros Hm HM HE Hnorm Heq. unfold float32Bits.
  destruct (Z.eqb_spec m 0) as [Hz | _]; [lia|].
  assert (Hp : 0 < 2 ^ Z.max 0 e) by (apply Z.pow_pos_nonneg; lia).
  rewrite (roundBinary_exact (m * 2 ^ Z.max 0 e) (Z.max 0 (- e)) M E);
    try assumption; try lia.
  destruct (Z.ltb_spec M 8388608); lia.
Qed.

(** A word as the float view takes it apart. *)
Lemma float_word_parts (bits : Z) :
  0 <= bits < two32 ->
  let exponent := (bits / 8388608) mod 256 in
  let fraction := bits mod 8388608 in
  0 <= exponent < 256 /\ 0 <= fraction < 8388608 /\
  bits = (if 2147483648 <=? bits then 2147483648 else 0)
         + exponent * 8388608 + fraction.
Proof.
  intros Hb. cbv zeta. unfold two32 in Hb.
  pose proof (Z.div_mod bits 8388608 ltac:(lia)) as D1.
  pose proof (Z.mod_pos_bound bits 8388608 ltac:(lia)) as M1.
  pose proof (Z.div_mod (bits / 8388608) 256 ltac:(lia)) as D2.
  pose proof (Z.mod_pos_bound (bits / 8388608) 256 ltac:(lia)) as M2.
  assert (Hq : 0 <= bits / 8388608 < 512).
  { split; [apply Z.div_pos; lia|].
    apply Z.div_lt_upper_bound; lia. }
  split; [exact M2|]. split; [exact M1|].
  destruct (Z.leb_spec 2147483648 bits) as [Hhi | Hlo]; lia.
Qed.

(** A float of a column, bound for the store and taken from it again,
    has the bits it had; a NaN has the bits of the quiet NaN, and the zero
    has no sign. *)
Lemma float_word_through_the_store (bits : Z) :
  0 <= bits < two32 ->
  float32Bits (cellFloat (bindNumber (getFloat32 bits)))
  = if ((bits / 8388608) mod 256 =? 255) && negb (bits mod 8388608 =? 0)
    then 0x7FC00000
    else if bits =? 2147483648 then 0 else bits.
Proof.
  intros Hb. destruct (float_word_parts bits Hb) as (Hx & Hf & Hbits).
  cbv zeta in Hx, Hf, Hbits. unfold getFloat32. cbv zeta.
  set (exponent := (bits / 8388608) mod 256) in *.
  set (fraction := bits mod 8388608) in *.
  set (negative := 2147483648 <=? bits) in *.
  assert (Hsign : (if negative then 2147483648 else 0)
                  + exponent * 8388608 + fraction = bits)
    by (symmetry; exact Hbits).
  clearbody exponent fraction negative.
  destruct (Z.eqb_spec exponent 255) as [H255 | Hn255].
  { destruct (Z.eqb_spec fraction 0) as [Hf0 | Hfn]; cbn [andb negb].
    - cbn [bindNumber cellFloat float32Bits].
      destruct (Z.eqb_spec bits 2147483648) as [He | _];
        destruct negative; lia.
    - reflexivity. }
  cbn [andb].
  assert (Hcase :
            exists m e,
              (if exponent =? 0 then FFin negative fraction (-149)
               else FFin negative (8388608 + fraction) (exponent - 150))
              = FFin negative m e /\
              0 <= m < 16777216 /\ -149 <= e <= 104 /\
              (8388608 <= m \/ e = -149) /\
              (if negative then 2147483648 else 0)
              + (if m <? 8388608 then m
                 else (e + 150) * 8388608 + (m - 8388608)) = bits).
  { destruct (Z.eqb_spec exponent 0) as [H0 | Hn0].
    - exists fraction, (-149). split; [reflexivity|].
      destruct (Z.ltb_spec fraction 8388608); lia.
    - exists (8388608 + fraction), (exponent - 150). split; [reflexivity|].
      destruct (Z.ltb_spec (8388608 + fraction) 8388608); lia. }
  destruct Hcase as (m & e & -> & Hm & He & Hnorm & Hval).
  clear Hsign Hbits Hx Hf Hn255 exponent fraction.
  destruct (Z.eq_dec m 0) as [-> | Hm0].
  { (* a zero *)
    assert (Hz : bindNumber (FFin negative 0 e) = CInt 0).
    { unfold bindNumber, truncFloat. destruct (0 <=? e).
      - rewrite Z.mul_0_l. destruct negative; reflexivity.
      - rewrite Z.mod_0_l
          by (apply Z.pow_nonzero; lia).
        cbn [Z.eqb]. rewrite Z.div_0_l by (apply Z.pow_nonzero; lia).
        destruct negative; reflexivity. }
    rewrite Hz. cbn [cellFloat float32Bits Z.ltb Z.abs Z.compare Z.eqb].
    change (0 <? 8388608) with true in Hval. cbv iota in Hval.
    destruct (Z.eqb_spec bits 2147483648) as [Heq | Hne];
      destruct negative; lia. }
  assert (Hnz : (bits =? 2147483648) = false).
  { apply Z.eqb_neq. intros Heq.
    destruct (Z.ltb_spec m 8388608); destruct negative; lia. }
  rewrite Hnz. rewrite <- Hval.
  assert (Hdirect : float32Bits (FFin negative m e)
                    = (if negative then 2147483648 else 0)
                      + (if m <? 8388608 then m
                         else (e + 150) * 8388608 + (m - 8388608))).
  { apply float32Bits_exact; try assumption; lia. }
  unfold bindNumber.
  assert (Hint : forall mag,
            0 < mag ->
            mag * 2 ^ Z.max 0 (- e) = m * 2 ^ Z.max 0 e ->
            float32Bits
              (cellFloat (CInt (if negative then - mag else mag)))
            = (if negative then 2147483648 else 0)
              + (if m <? 8388608 then m
                 else (e + 150) * 8388608 + (m - 8388608))).
  { intros mag Hmag Hmeq. cbn [cellFloat].
    replace (Z.abs (if negative then - mag else mag)) with mag
      by (destruct negative; lia).
    replace ((if negative then - mag else mag) <? 0) with negative
      by (destruct negative;
          [symmetry; apply Z.ltb_lt; lia | symmetry; apply Z.ltb_ge; lia]).
    apply float32Bits_exact; try assumption; try lia.
    change (Z.max 0 0) with 0. change (Z.max 0 (- 0)) with 0.
    change (2 ^ 0) with 1. lia. }
  destruct (Z.leb_spec 0 e) as [Hpos | Hneg].
  - unfold truncFloat. destruct (Z.leb_spec 0 e) as [_ | Hc]; [|lia].
    apply Hint.
    + apply Z.mul_pos_pos; [lia | apply Z.pow_pos_nonneg; lia].
    + rewrite !Z.max_l by lia. rewrite Z.max_r by lia.
      change (2 ^ 0) with 1. lia.
  - destruct (Z.eqb_spec (m mod 2 ^ (- e)) 0) as [Hdiv | Hndiv].
    + unfold truncFloat. destruct (Z.leb_spec 0 e) as [Hc | _]; [lia|].
      assert (Hp : 0 < 2 ^ (- e)) by (apply Z.pow_pos_nonneg; lia).
      pose proof (Z.div_mod m (2 ^ (- e)) ltac:(lia)) as Hdm.
      rewrite Hdiv, Z.add_0_r in Hdm.
      apply Hint.
      * assert (0 < m / 2 ^ (- e) \/ m / 2 ^ (- e) <= 0) as [Hq | Hq]
          by lia; [exact Hq|].
        assert (2 ^ (- e) * (m / 2 ^ (- e)) <= 0) by nia. lia.
      * rewrite Z.max_r by lia. rewrite Z.max_l by lia.
        change (2 ^ 0) with 1. lia.
    + cbn [cellFloat]. exact Hdirect.
Qed.

(** X17. A FLOAT column survives the store.  The cells that cdbToSQLite
    binds for the floats of a FLOAT column (an integer where the float is
    one, NULL for a NaN) are written by sqliteToCDB and read back by the
    reader as the same floats, row by row; only the sign of a negative
    zero is lost. *)
Theorem float_column_survives_the_store (w w' : CDBWriter)
    (columnName : JSString) (columnIndex : Z) (rawData : list Z) :
  produced w -> pos w mod 4 = 0 ->
  Forall (fun v => 0 <= v < two32) rawData ->
  writeColumns [columnName] [(columnName, mkColumnInfo FLOAT columnIndex)]
               [map (fun v => bindNumber (getFloat32 v)) rawData] w = Ok w' ->
  pos w' < two32 ->
  exists chunk column,
    readChunk (readerFuel (getData w')) (getData w') (pos w)
    = Ok (chunk, pos w') /\
    columnOfChunk chunk = Ok column /\
    col_type column = Some FLOAT /\
    col_data column
    = map (fun v => JFloat match getFloat32 v with
                           | FFin _ 0 e => FFin false 0 e
                           | x => x
                           end) rawData.
Proof.
  intros Hp Hal Hraw E Hsize.
  destruct (column_chunk_read_back w w' columnName _ _ Hp Hal E Hsize)
    as (values & blob & Hdata & _ & Hread).
  cbn [cdbDataTypeOf cdbColumnIndexOf] in Hdata, Hread.
  unfold columnData in Hdata.
  change (FLOAT =? INTEGER) with false in Hdata.
  change (FLOAT =? FLOAT) with true in Hdata. cbv iota in Hdata.
  injection Hdata as <- <-.
  eexists. eexists. split; [exact Hread|].
  unfold columnResult, columnOfChunk, convertColumnData.
  rewrite columnChildren_type, columnChildren_values, columnChildren_index.
  cbn [numberOf wordsOf cs_type cs_values cs_index].
  change (ToUint32 FLOAT =? INTEGER) with false.
  change (ToUint32 FLOAT =? FLOAT) with true. cbv iota. cbn [bind].
  split; [reflexivity|]. cbn [col_type col_data].
  split; [reflexivity|].
  rewrite !map_map. apply map_ext_in. intros v Hv.
  rewrite Forall_forall in Hraw. specialize (Hraw v Hv).
  rewrite ToUint32_idem. f_equal.
  rewrite (float_word_through_the_store v Hraw).
  destruct (float_word_parts v Hraw) as (Hx & Hf & Hbits).
  cbv zeta in Hx, Hf, Hbits.
  destruct (Z.eqb_spec ((v / 8388608) mod 256) 255) as [H255 | Hn255].
  - destruct (Z.eqb_spec (v mod 8388608) 0) as [Hf0 | Hfn]; cbn [andb negb].
    + assert (Hne : (v =? 2147483648) = false).
      { apply Z.eqb_neq. intros ->. revert H255. vm_compute. discriminate. }
      rewrite Hne.
      rewrite ToUint32_small by assumption.
      unfold getFloat32. cbv zeta. rewrite H255, Hf0. reflexivity.
    + unfold getFloat32 at 2. cbv zeta.
      destruct (Z.eqb_spec ((v / 8388608) mod 256) 255) as [_ | Hc];
        [|contradiction].
      destruct (Z.eqb_spec (v mod 8388608) 0) as [Hc | _];
        [contradiction|].
      reflexivity.
  - cbn [andb].
    destruct (Z.eqb_spec v 2147483648) as [-> | Hne]; [reflexivity|].
    rewrite ToUint32_small by assumption.
    unfold getFloat32. cbv zeta.
    destruct (Z.eqb_spec ((v / 8388608) mod 256) 255) as [Hc | _];
      [contradiction|].
    destruct (Z.eqb_spec ((v / 8388608) mod 256) 0) as [H0 | Hn0].
    + destruct (Z.eq_dec (v mod 8388608) 0) as [Hf0 | Hfn].
      * rewrite Hf0.
        destruct (Z.leb_spec 2147483648 v) as [Hhi | Hlo]; [lia|].
        reflexivity.
      * destruct (v mod 8388608) as [|q|q] eqn:Eq;
          [contradiction | reflexivity | lia].
    + destruct (8388608 + v mod 8388608) as [|q|q] eqn:Eq;
        [lia | reflexivity | lia].
Qed.

Lemma float_column_survives_the_store_witness :
  let w' :=
    orElse (writeColumns [str "value_f"]
                         [(str "value_f", mkColumnInfo FLOAT 4)]
                         [map (fun v => bindNumber (getFloat32 v))
                              [1069547520; 2147483648; 2143289345;
                               3212836864]]
                         (new_CDBWriter 0))
           (new_CDBWriter 0) in
  exists chunk column,
    readChunk (readerFuel (getData w')) (getData w') 0 = Ok (chunk, pos w') /\
    columnOfChunk chunk = Ok column /\
    col_data column
    = [JFloat (FFin false 12582912 (-23)); JFloat (FFin false 0 (-149));
       JFloat FNaN; JFloat (FFin true 8388608 (-23))].
Proof.
  intros w'.
  destruct (float_column_survives_the_store (new_CDBWriter 0) w'
              (str "value_f") 4
              [1069547520; 2147483648; 2143289345; 3212836864]
              (produced_new 0) eq_refl)
    as (chunk & column & H1 & H2 & _ & H3).
  - repeat (apply Forall_cons; [unfold two32; lia|]). apply Forall_nil.
  - vm_compute. reflexivity.
  - vm_compute. reflexivity.
  - exists chunk, column.
    split; [exact H1|]. split; [exact H2|]. exact H3.
Defined.

(** ** What sqliteToCDB writes *)


(** X19. A file without tables is decoded, but the database it gives cannot
    be encoded again: cdbToSQLite creates DB_STRUCTURE without rows, and
    sqliteToCDB, whose query then has no result, throws
    "No DB_STRUCTURE table found". *)
Theorem file_without_tables_is_not_written_back
    (pako_inflate : list Z -> Result (list Z))
    (pako_deflate : list Z -> list Z)
    (cdbData data : list Z) (type : Z) (header : Header)
    (children : Children) (endPos size : Z) :
  decompressCDB pako_inflate cdbData = Ok data ->
  readChunk (readerFuel data) data 0
  = Ok (Container type header children, endPos) ->
  getChild children DATABASE_TABLES = VTables [] ->
  exists db,
    cdbToSQLite pako_inflate cdbData = Ok db /\
    sqliteToCDB pako_deflate size db = Err NoDbStructure.
Proof.
  intros Hd Hr Ht. exists [DB_STRUCTURE_table]. split.
  - unfold cdbToSQLite. rewrite Hd. cbn [bind]. rewrite Hr. cbn [bind].
    rewrite Ht. reflexivity.
  - reflexivity.
Qed.

Lemma file_without_tables_is_not_written_back_witness :
  exists db,
    cdbToSQLite stored_inflate (layoutFile []) = Ok db /\
    sqliteToCDB stored_deflate 0 db = Err NoDbStructure.
Proof.
  apply (file_without_tables_is_not_written_back stored_inflate
           stored_deflate (layoutFile []) (layoutFile []) WRAPPER
           (mkHeader 124 WRAPPER 0 (Some (str "cyanide database")))
           [(DATABASE_TABLES, VTables []); (DATABASE_FLAGS, VNumber 274)]
           124 0).
  - vm_compute. reflexivity.
  - vm_compute. reflexivity.
  - reflexivity.
Defined.

(** ** Rows and columns *)








(** ** DB_STRUCTURE *)

Lemma sameName_sym (a b : JSString) : sameName a b = sameName b a.
Proof.
  unfold sameName, sameText.
  destruct (list_eq_dec Z.eq_dec (map lowerAscii a) (map lowerAscii b));
    destruct (list_eq_dec Z.eq_dec (map lowerAscii b) (map lowerAscii a));
    congruence.
Qed.

Lemma sameName_refl (a : JSString) : sameName a a = true.
Proof. unfold sameName. apply sameText_refl. Qed.

Lemma createTable_inv (db db' : Database) (name : JSString)
    (columns : list (JSString * JSString)) :
  createTable db name columns = Ok db' ->
  db' = db ++ [mkSqlTable name columns []] /\
  Forall (fun t => sameName (sql_name t) name = false) db.
Proof.
  unfold createTable. intros H.
  repeat match type of H with
         | (if ?c then _ else _) = _ =>
             destruct c eqn:?; [discriminate | cbv iota in H]
         end.
  injection H as <-. split; [reflexivity|].
  apply Forall_forall. intros t Ht.
  match goal with
  | Ef : findTable db name = None |- _ => exact (find_none _ _ Ef t Ht)
  end.
Qed.

Lemma insertRows_names (db : Database) (name : JSString)
    (rows : list (list Cell)) :
  map sql_name (insertRows db name rows) = map sql_name db.
Proof.
  unfold insertRows. rewrite map_map. apply map_ext. intros t.
  destruct (sameName (sql_name t) name); reflexivity.
Qed.

Lemma insertRows_others (db : Database) (name : JSString)
    (rows : list (list Cell)) :
  Forall (fun t => sameName (sql_name t) name = false) db ->
  insertRows db name rows = db.
Proof.
  intros H. unfold insertRows. rewrite <- (map_id db) at 2.
  apply map_ext_in. intros t Ht. rewrite Forall_forall in H.
  rewrite (H t Ht). reflexivity.
Qed.

Lemma names_apart (others others' : Database) (name : JSString) :
  map sql_name others' = map sql_name others ->
  Forall (fun t => sameName (sql_name t) name = false) others ->
  Forall (fun t => sameName (sql_name t) name = false) others'.
Proof.
  intros Hn H.
  assert (H' : Forall (fun n => sameName n name = false)
                      (map sql_name others))
    by (apply Forall_map; exact H).
  rewrite <- Hn in H'. apply Forall_map in H'. exact H'.
Qed.

(** One table stored: DB_STRUCTURE gets its row, and the table is created
    after the tables that are there. *)
Lemma storeTable_structure (columns0 : list (JSString * JSString))
    (rows0 : list (list Cell)) (others : Database) (table : Table)
    (db' : Database) :
  Forall (fun t => sameName (sql_name t) (str "DB_STRUCTURE") = false)
         others ->
  storeTable (mkSqlTable (str "DB_STRUCTURE") columns0 rows0 :: others) table
  = Ok db' ->
  exists others',
    db' = mkSqlTable (str "DB_STRUCTURE") columns0
            (rows0 ++ [[match tbl_name table with
                        | Some s => CText s
                        | None => CNull
                        end;
                        CInt (match tbl_tableId table with
                              | Some id => id
                              | None => 0
                              end)]])
          :: others' /\
    map sql_name others'
    = map sql_name others ++ [templateName (tbl_name table)] /\
    Forall (fun t => sameName (sql_name t) (str "DB_STRUCTURE") = false)
           others'.
Proof.
  intros Hothers H. unfold storeTable in H.
  destruct (tbl_tableId table) as [id|]; [|discriminate]. cbn [bind] in H.
  destruct (tbl_columns table) as [columns|];
    [|cbn [bind] in H; discriminate].
  cbn [bind] in H.
  set (row := [match tbl_name table with
               | Some s => CText s
               | None => CNull
               end; CInt id]) in *.
  assert (Hins : insertRows
                   (mkSqlTable (str "DB_STRUCTURE") columns0 rows0 :: others)
                   (str "DB_STRUCTURE") [row]
                 = mkSqlTable (str "DB_STRUCTURE") columns0 (rows0 ++ [row])
                   :: others).
  { unfold insertRows at 1. cbn [map sql_name sql_columns sql_rows].
    rewrite sameName_refl. f_equal.
    exact (insertRows_others others _ [row] Hothers). }
  rewrite Hins in H. clear Hins.
  set (name := templateName (tbl_name table)) in *.
  destruct (createTable _ name _) as [db1|e] eqn:Ec; [|discriminate].
  cbn [bind] in H.
  apply createTable_inv in Ec as (-> & Hfresh).
  pose proof (Forall_inv Hfresh) as Hs. cbn [sql_name] in Hs.
  cbn [app] in H.
  set (S1 := mkSqlTable (str "DB_STRUCTURE") columns0 (rows0 ++ [row])) in *.
  set (new := mkSqlTable name (map (columnDef id) columns) []) in *.
  assert (Hnew : sameName (sql_name new) (str "DB_STRUCTURE") = false)
    by (cbn [sql_name new]; rewrite sameName_sym; exact Hs).
  assert (Hkeep : forall rows,
            exists others',
              insertRows (S1 :: others ++ [new]) name rows = S1 :: others' /\
              map sql_name others' = map sql_name others ++ [name] /\
              Forall (fun t => sameName (sql_name t) (str "DB_STRUCTURE")
                               = false) others').
  { intros rows. exists (insertRows (others ++ [new]) name rows).
    split.
    - unfold insertRows at 1. cbn [map].
      change (sql_name S1) with (str "DB_STRUCTURE"). rewrite Hs.
      reflexivity.
    - split.
      + rewrite insertRows_names, map_app. reflexivity.
      + apply (names_apart (others ++ [new])).
        * apply insertRows_names.
        * apply Forall_app. split; [exact Hothers|].
          constructor; [exact Hnew | constructor]. }
  assert (Hsame : exists others',
            S1 :: others ++ [new] = S1 :: others' /\
            map sql_name others' = map sql_name others ++ [name] /\
            Forall (fun t => sameName (sql_name t) (str "DB_STRUCTURE")
                             = false) others').
  { exists (others ++ [new]). split; [reflexivity|]. split.
    - rewrite map_app. reflexivity.
    - apply Forall_app. split; [exact Hothers|].
      constructor; [exact Hnew | constructor]. }
  destruct (tbl_rowCount table) as [rowCount|];
    [|injection H as <-; exact Hsame].
  destruct (0 <? rowCount); [|injection H as <-; exact Hsame].
  destruct (999 <? zlength columns); [discriminate|].
  destruct (bindRows _ columns 0 rowCount) as [rows|e]; [|discriminate].
  cbn [bind] in H. injection H as <-. apply Hkeep.
Qed.

Lemma storeTables_structure (columns0 : list (JSString * JSString))
    (tables : list Table) :
  forall (rows0 : list (list Cell)) (others db : Database),
    Forall (fun t => sameName (sql_name t) (str "DB_STRUCTURE") = false)
           others ->
    storeTables (mkSqlTable (str "DB_STRUCTURE") columns0 rows0 :: others)
                tables = Ok db ->
    exists others',
      db = mkSqlTable (str "DB_STRUCTURE") columns0
             (rows0
              ++ map (fun table =>
                        [match tbl_name table with
                         | Some s => CText s
                         | None => CNull
                         end;
                         CInt (match tbl_tableId table with
                               | Some id => id
                               | None => 0
                               end)]) tables)
           :: others' /\
      map sql_name others'
      = map sql_name others
        ++ map (fun table => templateName (tbl_name table)) tables /\
      Forall (fun t => sameName (sql_name t) (str "DB_STRUCTURE") = false)
             others'.
Proof.
  induction tables as [|table tables IH]; intros rows0 others db Ho H.
  - injection H as <-. exists others. cbn [map]. rewrite !app_nil_r.
    split; [reflexivity|]. split; [reflexivity | exact Ho].
  - cbn [storeTables] in H.
    destruct (storeTable _ table) as [db1|e] eqn:E1; [|discriminate].
    cbn [bind] in H.
    destruct (storeTable_structure columns0 rows0 others table db1 Ho E1)
      as (others1 & -> & Hn1 & Ho1).
    destruct (IH _ others1 db Ho1 H) as (others' & -> & Hn & Ho').
    exists others'. cbn [map]. rewrite <- app_assoc. cbn [app].
    split; [reflexivity|]. split; [|exact Ho'].
    rewrite Hn, Hn1, <- app_assoc. reflexivity.
Qed.

(** X21. In the database that cdbToSQLite builds, DB_STRUCTURE lists the
    tables of the file: one row for each table, in the order of the file,
    with the description of the TABLE chunk as the name (NULL where it has
    none) and the TABLE_ID as the ID.  The database holds DB_STRUCTURE and
    then one table for each of them, in the same order, named by the
    description ("null" where there is none). *)
Theorem DB_STRUCTURE_lists_the_tables (tables : list Table) (db : Database) :
  storeTables [DB_STRUCTURE_table] tables = Ok db ->
  findTable db (str "DB_STRUCTURE")
  = Some (mkSqlTable (str "DB_STRUCTURE")
            [(str "TableName", str "TEXT '274'"); (str "ID", str "INTEGER")]
            (map (fun table =>
                    [match tbl_name table with
                     | Some s => CText s
                     | None => CNull
                     end;
                     CInt (match tbl_tableId table with
                           | Some id => id
                           | None => 0
                           end)]) tables)) /\
  map sql_name db
  = str "DB_STRUCTURE"
    :: map (fun table => templateName (tbl_name table)) tables.
Proof.
  intros H.
  destruct (storeTables_structure _ tables [] [] db (Forall_nil _) H)
    as (others' & -> & Hn & _).
  cbn [app map] in *. split.
  - unfold findTable. cbn [find sql_name]. rewrite sameName_refl.
    reflexivity.
  - cbn [sql_name]. f_equal. exact Hn.
Qed.

Lemma DB_STRUCTURE_lists_the_tables_witness :
  map sql_name
      (orElse (storeTables [DB_STRUCTURE_table]
                 [mkTable (Some (str "DYN_team")) (Some 0)
                          (Some [mkColumn (Some (str "IDteam")) (Some 0) []
                                          (Some 1)])
                          (Some 8) None;
                  mkTable None None
                          (Some [mkColumn (Some (str "ID")) (Some 0) []
                                          (Some 1)])
                          (Some 3) None]) [])
  = [str "DB_STRUCTURE"; str "DYN_team"; str "null"].
Proof.
  apply (DB_STRUCTURE_lists_the_tables
           [mkTable (Some (str "DYN_team")) (Some 0)
                    (Some [mkColumn (Some (str "IDteam")) (Some 0) []
                                    (Some 1)])
                    (Some 8) None;
            mkTable None None
                    (Some [mkColumn (Some (str "ID")) (Some 0) [] (Some 1)])
                    (Some 3) None]).
  vm_compute. reflexivity.
Defined.

(** ** The children of a chunk *)

Lemma getChild_perm (children children' : Children) :
  Permutation children children' -> NoDup (map fst children) ->
  forall key, getChild children key = getChild children' key.
Proof.
  induction 1 as [|[k v] l l' Hperm IH|[k1 v1] [k2 v2] l
                  |l l' l'' H1 IH1 H2 IH2];
    intros Hnd key.
  - reflexivity.
  - cbn [getChild]. destruct (k =? key); [reflexivity|].
    apply IH. cbn [map] in Hnd. apply NoDup_cons_iff in Hnd as (_ & Hnd).
    exact Hnd.
  - cbn [getChild]. cbn [map fst] in Hnd.
    destruct (Z.eqb_spec k1 key) as [-> | Hk1];
      destruct (Z.eqb_spec k2 key) as [-> | Hk2]; try reflexivity.
    exfalso. apply NoDup_cons_iff in Hnd as (Hin & _). apply Hin. left.
    reflexivity.
  - rewrite IH1 by exact Hnd. apply IH2.
    apply (Permutation_NoDup (l := map fst l)); [|exact Hnd].
    apply Permutation_map. exact H1.
Qed.

(** X22. The item readers find the children of a chunk by their types, not
    by their places: where no type occurs twice, the table and the column
    that are made of a TABLE and of a COLUMN chunk are the same in
    whatever order the children were read. *)
Theorem children_are_found_in_any_order (type : Z) (header : Header)
    (children children' : Children) :
  Permutation children children' -> NoDup (map fst children) ->
  tableOfChunk (Container type header children)
  = tableOfChunk (Container type header children') /\
  columnOfChunk (Container type header children)
  = columnOfChunk (Container type header children').
Proof.
  intros Hperm Hnd.
  pose proof (getChild_perm children children' Hperm Hnd) as Hget.
  unfold tableOfChunk, columnOfChunk, convertColumnData.
  rewrite !Hget. split; reflexivity.
Qed.

Lemma children_are_found_in_any_order_witness :
  tableOfChunk
    (Container TABLE (mkHeader 0 TABLE 0 None)
       [(TABLE_ID, VNumber 8); (ROW_COUNT, VNumber 0);
        (COLUMN_DEFINITIONS, VColumns [])])
  = tableOfChunk
      (Container TABLE (mkHeader 0 TABLE 0 None)
         [(COLUMN_DEFINITIONS, VColumns []); (TABLE_ID, VNumber 8);
          (ROW_COUNT, VNumber 0)]).
Proof.
  apply (children_are_found_in_any_order TABLE (mkHeader 0 TABLE 0 None)).
  - apply Permutation_sym.
    apply (Permutation_cons_app [(TABLE_ID, VNumber 8); (ROW_COUNT, VNumber 0)]
             [] (COLUMN_DEFINITIONS, VColumns [])).
    rewrite app_nil_r. apply Permutation_refl.
  - repeat constructor; cbn; intuition discriminate.
Defined.

(** ** The names of files *)

Lemma sameText_eq (a b : JSString) : sameText a b = true -> a = b.
Proof.
  unfold sameText. destruct (list_eq_dec Z.eq_dec a b); [auto | discriminate].
Qed.

Lemma sameText_longer (c : Z) (s suffix : JSString) :
  sameText (c :: s ++ suffix) suffix = false.
Proof.
  destruct (sameText (c :: s ++ suffix) suffix) eqn:E; [|reflexivity].
  apply sameText_eq in E. apply (f_equal (@length Z)) in E.
  cbn [length] in E. rewrite length_app in E. lia.
Qed.

Lemma replaceSuffix_at_end (suffix replacement base : JSString) :
  replaceSuffix suffix replacement (base ++ suffix)
  = Some (base ++ replacement).
Proof.
  induction base as [|c base IH].
  - cbn [app]. destruct suffix; cbn [replaceSuffix];
      rewrite sameText_refl; reflexivity.
  - cbn [app replaceSuffix]. rewrite sameText_longer, IH. reflexivity.
Qed.

Lemma replaceSuffix_none (suffix replacement s : JSString) :
  (forall base, s <> base ++ suffix) ->
  replaceSuffix suffix replacement s = None.
Proof.
  induction s as [|c s IH]; intros Hno.
  - cbn [replaceSuffix].
    destruct (sameText [] suffix) eqn:E; [|reflexivity].
    apply sameText_eq in E. exfalso. apply (Hno []). exact E.
  - cbn [replaceSuffix].
    destruct (sameText (c :: s) suffix) eqn:E.
    + apply sameText_eq in E. exfalso. apply (Hno []). exact E.
    + rewrite IH; [reflexivity|].
      intros base Hb. apply (Hno (c :: base)). rewrite Hb. reflexivity.
Qed.

Lemma split_on_last_and_length (sep : Z) (ext : JSString) :
  Forall (fun c => c <> sep) ext ->
  forall base,
    last (split_on sep (base ++ sep :: ext)) [] = ext /\
    (2 <= length (split_on sep (base ++ sep :: ext)))%nat.
Proof.
  intros Hext. induction base as [|c base (IHlast & IHlen)].
  - cbn [app split_on]. rewrite Z.eqb_refl.
    rewrite split_on_none by exact Hext. split; [reflexivity|].
    cbn [length]. lia.
  - cbn [app split_on].
    destruct (split_on sep (base ++ sep :: ext)) as [|field [|f fields]];
      [cbn [length] in IHlen; lia | cbn [length] in IHlen; lia |].
    destruct (c =? sep).
    + split; [exact IHlast | cbn [length]; lia].
    + split; [exact IHlast | cbn [length]; lia].
Qed.

Lemma split_on_last (sep : Z) (ext : JSString) :
  Forall (fun c => c <> sep) ext ->
  forall base, last (split_on sep (base ++ sep :: ext)) [] = ext.
Proof.
  intros Hext base. exact (proj1 (split_on_last_and_length sep ext Hext base)).
Qed.

(** X23. loadFile and downloadDatabase agree on the names of files with
    lower-case extensions: a file named [base.cdb] is loaded as a CDB
    file and its SQLite download is named [base.sqlite]; a file named
    [base.sqlite] or [base.db] is loaded as an SQLite file and its CDB
    download is named [base.cdb]; so that each download is loaded again
    in the format it has. *)
Theorem download_names_match_the_loader (base : JSString) :
  isCDB (base ++ str ".cdb") = true /\
  sqliteDownloadName (base ++ str ".cdb") = base ++ str ".sqlite" /\
  isCDB (base ++ str ".sqlite") = false /\
  cdbDownloadName (base ++ str ".sqlite") = base ++ str ".cdb" /\
  isCDB (base ++ str ".db") = false /\
  cdbDownloadName (base ++ str ".db") = base ++ str ".cdb".
Proof.
  assert (Hext : forall ext,
             Forall (fun c => c <> 46) ext ->
             fileExtension (base ++ 46 :: ext) = ext).
  { intros ext Hx. unfold fileExtension. apply split_on_last. exact Hx. }
  split; [|split; [|split; [|split; [|split]]]].
  - unfold isCDB. change (str ".cdb") with (46 :: str "cdb").
    rewrite Hext by (repeat constructor; discriminate). reflexivity.
  - unfold sqliteDownloadName. rewrite replaceSuffix_at_end. reflexivity.
  - unfold isCDB. change (str ".sqlite") with (46 :: str "sqlite").
    rewrite Hext by (repeat constructor; discriminate). reflexivity.
  - unfold cdbDownloadName. rewrite replaceSuffix_at_end. reflexivity.
  - unfold isCDB. change (str ".db") with (46 :: str "db").
    rewrite Hext by (repeat constructor; discriminate). reflexivity.
  - unfold cdbDownloadName.
    rewrite (replaceSuffix_none (str ".sqlite")).
    + rewrite replaceSuffix_at_end. reflexivity.
    + intros b Hb.
      change (str ".db") with ([46; 100] ++ [98]) in Hb.
      change (str ".sqlite") with ([46; 115; 113; 108; 105; 116] ++ [101])
        in Hb.
      rewrite !app_assoc in Hb. apply app_inj_tail in Hb as (_ & Hb).
      discriminate.
Qed.

(** X24. The extension is compared without regard to case when a file is
    loaded, but not when the download is named: a file named [base.CDB] is
    loaded as a CDB file, and its SQLite download keeps the name
    [base.CDB], under which loadFile takes it for a CDB file again. *)
Theorem upper_case_extension_is_kept (base : JSString) :
  isCDB (base ++ str ".CDB") = true /\
  sqliteDownloadName (base ++ str ".CDB") = base ++ str ".CDB" /\
  isCDB (sqliteDownloadName (base ++ str ".CDB")) = true.
Proof.
  assert (Hload : isCDB (base ++ str ".CDB") = true).
  { unfold isCDB, fileExtension. change (str ".CDB") with (46 :: str "CDB").
    rewrite split_on_last by (repeat constructor; discriminate).
    reflexivity. }
  assert (Hname : sqliteDownloadName (base ++ str ".CDB")
                  = base ++ str ".CDB").
  { unfold sqliteDownloadName. rewrite replaceSuffix_none; [reflexivity|].
    intros b Hb.
    change (str ".CDB") with ([46; 67; 68] ++ [66]) in Hb.
    change (str ".cdb") with ([46; 99; 100] ++ [98]) in Hb.
    rewrite !app_assoc in Hb. apply app_inj_tail in Hb as (_ & Hb).
    discriminate. }
  split; [exact Hload|]. split; [exact Hname|].
  rewrite Hname. exact Hload.
Qed.

(** ** The order of the columns *)




(** ** The table directory through both converters *)

Lemma Forall_insertById (P : list Cell -> Prop) (row : list Cell)
    (sorted : list (list Cell)) :
  P row -> Forall P sorted -> Forall P (insertById row sorted).
Proof.
  intros Hrow. induction 1 as [|r sorted Hr Hs IH].
  - cbn [insertById]. constructor; [exact Hrow | constructor].
  - cbn [insertById]. destruct (cellLeb (rowId r) (rowId row)).
    + constructor; [exact Hr | exact IH].
    + constructor; [exact Hrow|]. constructor; [exact Hr | exact Hs].
Qed.

Lemma Forall_orderById (P : list Cell -> Prop) (rows : list (list Cell)) :
  Forall P rows -> Forall P (orderById rows).
Proof.
  unfold orderById. intros Hrows.
  assert (Hgen : forall acc, Forall P acc ->
            Forall P (fold_left (fun sorted row => insertById row sorted)
                                rows acc)).
  { induction Hrows as [|row rows Hrow _ IH]; intros acc Hacc;
      [exact Hacc|].
    cbn [fold_left]. apply IH. apply Forall_insertById; assumption. }
  apply Hgen. constructor.
Qed.

Lemma tableSpecsOf_Forall2 (db : Database) :
  forall rows specs,
    tableSpecsOf db rows = Ok specs ->
    Forall2 (fun row t => tableSpec db row = Ok t) rows specs.
Proof.
  induction rows as [|row rows IH]; intros specs H.
  - injection H as <-. constructor.
  - cbn [tableSpecsOf] in H.
    destruct (tableSpec db row) as [t|e] eqn:Et; [|discriminate].
    cbn [bind] in H.
    destruct (tableSpecsOf db rows) as [ts|e]; [|discriminate].
    cbn [bind] in H. injection H as <-.
    constructor; [exact Et | apply IH; reflexivity].
Qed.

(** What sqliteToCDB takes from a row of DB_STRUCTURE. *)
Lemma tableSpec_directory (db : Database) (name : JSString) (id : Z)
    (t : TableSpec) :
  tableSpec db [CText name; CInt id] = Ok t ->
  ts_description t = Some name /\ ts_id t = ToUint32 id.
Proof.
  unfold tableSpec. cbn [nth nameText cellString bind nameDescription].
  destruct (negb (plainName name)); [discriminate|].
  destruct (findTable db name) as [table|]; [|discriminate]. cbn [bind].
  destruct (readColumnInfo (sql_columns table) []) as [columnInfo|e];
    [|discriminate].
  cbn [bind].
  destruct (transposeRows _ _) as [columns|e]; [|discriminate]. cbn [bind].
  destruct (columnSpecs _ _ _) as [specs|e]; [|discriminate]. cbn [bind].
  intros H. injection H as <-. split; reflexivity.
Qed.

(** What the reader makes of it. *)
Lemma decodedTable_directory (t : TableSpec) (table : Table) :
  decodedTable t = Ok table ->
  tbl_name table = decodedDescription (ts_description t) /\
  tbl_tableId table = Some (ToUint32 (ts_id t)).
Proof.
  unfold decodedTable.
  destruct (decodedColumns (ts_columns t)) as [columns|e]; [|discriminate].
  cbn [bind]. unfold tableResult, tableOfChunk.
  intros H. injection H as <-. split; reflexivity.
Qed.

Lemma directory_rows (db : Database) (rows : list (list Cell)) :
  forall (specs : list TableSpec) (tables : list Table),
    Forall2 (fun row t => tableSpec db row = Ok t) rows specs ->
    Forall2 (fun t table => decodedTable t = Ok table) specs tables ->
    Forall (fun row =>
              exists name id,
                row = [CText name; CInt id] /\ name <> [] /\
                Forall (fun cp => 0 <= cp < 0xD800 \/ 0xDFFF < cp <= 0x10FFFF)
                       name /\
                hd 0 name <> 0xFEFF /\ 0 <= id < two32) rows ->
    map (fun table =>
           [match tbl_name table with
            | Some s => CText s
            | None => CNull
            end;
            CInt (match tbl_tableId table with
                  | Some id => id
                  | None => 0
                  end)]) tables
    = rows.
Proof.
  induction rows as [|row rows IH]; intros specs tables H1 H2 Hrows.
  - inversion H1; subst. inversion H2; subst. reflexivity.
  - inversion H1 as [|? t ? specs' Ht H1']; subst.
    inversion H2 as [|? table ? tables' Htable H2']; subst.
    pose proof (Forall_inv Hrows)
      as (name & id & -> & Hne & Hscalar & Hbom & Hid).
    cbn [map]. f_equal.
    + destruct (tableSpec_directory db name id t Ht) as (Hd & Hi).
      destruct (decodedTable_directory t table Htable) as (Hn & Hti).
      rewrite Hn, Hti, Hd, Hi. unfold decodedDescription.
      destruct name as [|cp rest]; [contradiction|].
      cbn [truthy]. rewrite decode_encode_text by exact Hscalar.
      cbn [hd] in Hbom.
      destruct (Z.eqb_spec cp 0xFEFF) as [Hc | _]; [contradiction|].
      rewrite ToUint32_idem, ToUint32_small by exact Hid. reflexivity.
    + apply (IH specs' tables' H1' H2'). exact (Forall_inv_tail Hrows).
Qed.

(** X26. The table directory survives sqliteToCDB followed by cdbToSQLite,
    up to its order.  Where the rows of DB_STRUCTURE hold a name that is
    not empty (without a leading U+FEFF) and an ID from 0 to 2^32 - 1, and
    the database is written by sqliteToCDB and decoded again, the
    DB_STRUCTURE of the result holds the same rows, in the order of their
    IDs. *)
Theorem table_directory_survives_both_converters
    (pako_inflate : list Z -> Result (list Z)) (size : Z)
    (db db' : Database) (structure : SqlTable) (stream : list Z)
    (specs : list TableSpec) (tables : list Table) :
  findTable db (str "DB_STRUCTURE") = Some structure ->
  Forall (fun row =>
            exists name id,
              row = [CText name; CInt id] /\ name <> [] /\
              Forall (fun cp => 0 <= cp < 0xD800 \/ 0xDFFF < cp <= 0x10FFFF)
                     name /\
              hd 0 name <> 0xFEFF /\ 0 <= id < two32)
         (sql_rows structure) ->
  sqliteToStream size db = Ok stream ->
  zlength stream < two32 ->
  tableSpecs db = Ok specs ->
  decodedTables specs = Ok tables ->
  cdbToSQLite pako_inflate stream = Ok db' ->
  findTable db' (str "DB_STRUCTURE")
  = Some (mkSqlTable (str "DB_STRUCTURE")
            [(str "TableName", str "TEXT '274'"); (str "ID", str "INTEGER")]
            (orderById (sql_rows structure))).
Proof.
  intros Hfind Hrows Hs Hsize Hspecs Hdec Hback.
  rewrite sqliteToStream_layout, Hspecs in Hs. cbn [bind] in Hs.
  injection Hs as <-.
  pose proof (layoutFile_shape specs pako_inflate) as (_ & _ & _ & Hraw).
  pose proof (readChunk_layoutFile specs tables Hsize Hdec) as Hread.
  unfold cdbToSQLite in Hback. rewrite Hraw in Hback. cbn [bind] in Hback.
  rewrite Hread in Hback. cbn [bind getChild tablesOf] in Hback.
  change (DATABASE_TABLES =? DATABASE_TABLES) with true in Hback.
  cbv iota in Hback. cbn [tablesOf bind] in Hback.
  destruct (storeTables_structure _ tables [] [] db' (Forall_nil _) Hback)
    as (others' & -> & _ & _).
  unfold findTable. cbn [find sql_name]. rewrite sameName_refl.
  cbn [app]. f_equal. f_equal.
  unfold tableSpecs in Hspecs. rewrite Hfind in Hspecs.
  cbn [bind] in Hspecs.
  assert (Hof : tableSpecsOf db (orderById (sql_rows structure)) = Ok specs).
  { destruct (orderById (sql_rows structure)) as [|row rows];
      [discriminate | exact Hspecs]. }
  apply (directory_rows db (orderById (sql_rows structure)) specs tables).
  - apply tableSpecsOf_Forall2. exact Hof.
  - apply mapResult_Forall2. exact Hdec.
  - apply Forall_orderById. exact Hrows.
Qed.

Lemma table_directory_survives_both_converters_witness :
  let db :=
    [ mkSqlTable (str "DB_STRUCTURE")
        [(str "TableName", str "TEXT '274'"); (str "ID", str "INTEGER")]
        [[CText (str "B"); CInt 7]; [CText (str "A"); CInt 3]];
      mkSqlTable (str "A") [(str "c", str "INTEGER 20480")] [[CInt 1]];
      mkSqlTable (str "B") [(str "c", str "INTEGER 20480")] [[CInt 2]] ] in
  findTable
    (orElse (cdbToSQLite stored_inflate (orElse (sqliteToStream 64 db) [])) [])
    (str "DB_STRUCTURE")
  = Some (mkSqlTable (str "DB_STRUCTURE")
            [(str "TableName", str "TEXT '274'"); (str "ID", str "INTEGER")]
            [[CText (str "A"); CInt 3]; [CText (str "B"); CInt 7]]).
Proof.
  intros db.
  apply (table_directory_survives_both_converters stored_inflate 64 db
           (orElse (cdbToSQLite stored_inflate
                      (orElse (sqliteToStream 64 db) [])) [])
           (mkSqlTable (str "DB_STRUCTURE")
              [(str "TableName", str "TEXT '274'"); (str "ID", str "INTEGER")]
              [[CText (str "B"); CInt 7]; [CText (str "A"); CInt 3]])
           (orElse (sqliteToStream 64 db) [])
           (orElse (tableSpecs db) [])
           (orElse (decodedTables (orElse (tableSpecs db) [])) [])).
  - vm_compute. reflexivity.
  - cbn [sql_rows].
    apply Forall_cons; [exists (str "B"), 7 | apply Forall_cons;
                        [exists (str "A"), 3 | apply Forall_nil]];
      (split; [reflexivity|]; split; [discriminate|];
       split; [simpl; repeat (apply Forall_cons; [left; lia|]);
               apply Forall_nil|];
       split; [simpl; lia | unfold two32; lia]).
  - vm_compute. reflexivity.
  - vm_compute. reflexivity.
  - vm_compute. reflexivity.
  - vm_compute. reflexivity.
  - vm_compute. reflexivity.
Defined.
